(* ===== verification/_CoqProject ===== *)
-Q . S2P
Prelude.v
Errors.v
Frame.v
Common.v
StorageHandler.v
Sminer.v
Oss.v
Cacher.v
Interfaces.v
SchedulerCredit.v
TeeWorker.v
FileBankData.v
FileBank.v
FileBankProofs.v
FileBankFiles.v
FileBankLife.v
FileBankTypes.v
AuditPallet.v
AuditProofs.v
Wp.v
StakingLedger.v
StakingSpans.v
StakingTypes.v
StakingPallet.v
StakingBonds.v
StakingRefine.v
StakingSteps.v
StakingSlashes.v
Runtime.v
StakingRuntime.v
StakingExamples.v
RuntimeDeals.v
RuntimeExamples.v
Untrusted.v
RingIo.v
WebpkiDer.v
WebpkiCert.v
WebpkiName.v
WebpkiVerify.v
WebpkiNameProofs.v
WebpkiSafe.v
WebpkiChain.v
RingDigest.v
RingLimb.v
RingLimbProofs.v
RingMont.v
RingMontProofs.v
RingBigint.v
RingBigintProofs.v
RingRsa.v
RingPaddingProofs.v
RingRsaProofs.v
RingExpProofs.v
RingCrt.v
RingSigning.v
RingKeyProofs.v
RingSigningProofs.v
Bls.v
EnclaveVerify.v
EnclaveProofs.v
