(* ===== verification/Prelude.v ===== *)
(** * A verification development of the CESS chain

    CESS is a storage chain built on Substrate.  Users lease space, declare files and
    have them spread in fragments over miners; miners prove that they keep what they
    store and are paid or punished; tee workers check the proofs and register with a
    report that Intel's attestation service signed.  This library models the pallets
    that do this, [src/c-pallets], the constants and the wiring of [src/runtime] they
    run with, the check of the reports ([src/primitives/enclave-verify]) with the
    certificate, digest, big number and signature code below it ([src/utils]), and
    proves what makes them correct, or where they are not.

    ** How the code is translated

    A [w]-bit unsigned integer is a [Z] and every operation on it is written out at
    its width ([checked_add], [wrapping_add], [saturating_mul], [cast]; this file).
    Accounts, hashes and keys are opaque numbers ([N]), bytes are [Z], strings that
    the code compares with literals are strings.  A storage map is a [gmap], a double
    map a map of maps, a [BoundedVec] a list with the bound tested where the source
    tests it.  A dispatchable is a computation in the monad [M S A] of [Frame], from a
    state to a new state and [Ok], [Err] or [Panic]; [transactional] undoes the changes
    of a call that fails, an error inside a hook or behind [let _ =] keeps them ([catch]),
    and an [unwrap], an index out of range or a failed [assert!] panics.  The order of
    reads, guards and writes is the order of the source.  Iteration over a storage map
    is in an order that is a parameter ([StorageIter]), iteration over a [BTreeMap] is
    in the order of the keys.

    Loops over lists are structural recursion.  A [loop] or [while] is [loop_pos n],
    which runs at most [n] rounds ([n] is written in binary and not unfolded): 16
    rounds for the choice of miners, which counts to 15; [2^32] rounds where the
    counter or index of the loop is a [u32] or [usize] that the source increments with
    [checked_add]; [2^32 + 1] rounds where a [u32] seed wraps and all values have been
    tried.  Running out of rounds is [Panic], and [random_assign_miner_total] shows
    that it does not happen.

    ** Files

    - [Prelude]: machine integers, record updates, lists.  [Errors]: the error enumerations
      of all pallets.  [Frame]: the state monad, storage operations, transactions,
      loops, the rules for invariants ([preserves]) and for not panicking
      ([no_panic]), currencies, [Perbill] and block time.
    - [Common]: [primitives/common] and the units of time.
    - [StorageHandler]: [c-pallets/storage-handler], the leases of users.
    - [Sminer]: [c-pallets/sminer], the miners, their collateral, rewards and
      punishments, and the faucet.
    - [Oss], [Cacher], [SchedulerCredit], [TeeWorker]: the pallets of these names.
    - [Interfaces]: the traits through which the pallets call each other, as classes
      over the state of the rest of the chain, the task scheduler, and the laws a
      client relies on.
    - [FileBankData], [FileBank]: [c-pallets/file-bank], written against the classes.
      [FileBankProofs] has the theorems on names and on the choice of miners,
      [FileBankFiles] those on stored files and restoral, [FileBankLife] the
      refinement of the life cycle of files, [FileBankTypes] the invariant that the
      storage is well typed.
    - [AuditPallet], [AuditProofs]: [c-pallets/audit], its dispatchables, hooks, session
      handler and off-chain worker, written against the classes.
    - [Wp]: a weakest precondition calculus for the monad, with a postcondition for
      success and one for errors, used for the staking pallet.
    - [StakingLedger], [StakingSpans]: the bonded ledger of a stash
      ([staking/src/lib.rs]) and its slashing spans ([slashing.rs]), as pure data.
      [StakingTypes], [StakingPallet]: the storage, configuration and operations of
      [c-pallets/staking]: the dispatchables and the genesis build
      ([pallet/mod.rs]), sessions, eras, payouts, offences and election data
      ([pallet/impls.rs]), slashes ([slashing.rs]).
    - [StakingBonds]: an automaton of bonds, the abstract contract of the pallet.
      [StakingRefine], [StakingSteps]: every operation moves along the automaton, the
      runs of the pallet and what follows for reachable states.  [StakingSlashes]: the
      slashing metadata.  [StakingRuntime]: the runtime's configuration of the pallet
      and its composition with the tee-worker pallet.  [StakingExamples]: a
      concrete chain on which the theorems are applied.
    - [Runtime]: the configuration of [src/runtime/src/lib.rs] and the instances of the
      classes: [World] holds the pallets the file bank calls over one ledger and
      block number, the file bank runs over [World], the audit pallet over the file
      bank.  [RuntimeDeals] has a theorem on the composed system, [RuntimeExamples] a
      concrete chain on which theorems are applied and runs are evaluated.
    - [Untrusted]: the reader of the crate [untrusted], a parameter of all parsing code,
      as a class with its laws.  The list of bytes is an instance, theorems are proved on
      lists and transported to every reader.
    - [RingIo]: DER reading and writing and RSA public keys ([ring/src/io], [rsa.rs]).
      [RingDigest]: SHA-1 and SHA-2 ([digest.rs] and its modules).
    - [RingLimb], [RingMont], [RingBigint]: the arithmetic of [limb.rs] and of the portable
      C code under [ring/crypto] (limbs, Montgomery multiplication) and of
      [arithmetic/bigint.rs] on it.  The size of a limb is a parameter ([LimbWidth]); it
      is 32 bits in the chain's WebAssembly runtime.  [RingLimbProofs], [RingMontProofs],
      [RingBigintProofs]: that each function computes the number it should.
    - [RingRsa]: the paddings and the verification of RSA signatures ([rsa/padding.rs],
      [rsa/verification.rs]).  [RingPaddingProofs], [RingRsaProofs]: what it accepts.
    - [WebpkiDer], [WebpkiCert], [WebpkiName], [WebpkiVerify]: the parts of the certificate
      library [utils/webpki].  [WebpkiNameProofs], [WebpkiChain], [WebpkiSafe]: names, chains
      of certificates, and that no input makes it panic.
    - [Bls]: [utils/verify-bls-signatures] over the curve library, a class with its laws.
    - [EnclaveVerify], [EnclaveProofs]: [primitives/enclave-verify] over webpki and ring, and
      its composition with the registration of tee workers.

    ** What the theorems show

    - Leases: in every reachable state of the storage handler the space of each
      user adds up and the totals are those of the users ([reachable_books]);
      buying, freezing and locking do what they promise.
    - Money: the reward pool and the miners' claims are backed by the pot
      ([reward_pool_conserved]); a reward is released in the shares the code
      announces ([calculate_miner_reward_spec]); punishments, collateral and the
      faucet.
    - Files: every call refines the life cycle of files ([file_lifecycle]); fragments go to
      distinct miners with room for them, the choice always returns, the stored
      file has the declared layout, a cancelled deal gives everything back, and a
      restoral moves exactly one fragment.
    - Audit: results, missions and generated challenges; and that no challenge ever
      takes effect ([no_challenge_takes_effect]).
    - Stakes: every operation of the staking pallet refines the automaton of bonds
      ([staking_refines_bonds]), from which reachable storage is consistent and
      passes the pallet's own ledger check, bonded funds stay locked for the bonding
      duration, and no era is paid out twice; a slash takes at most what was asked
      plus dust, spans keep their index, only the maximum of a span is slashed,
      killing a stash leaves none of its records, and the runtime's era rewards
      stay within the grant of the first year.  Punishing a scheduler
      through the tee-worker pallet slashes exactly its stash.
    - Certificates: an end entity is accepted exactly if a chain of signed
      certificates leads to a trust anchor ([trusted_iff]); names and name
      constraints match as specified; no input makes the library panic
      ([webpki_no_panic]).
    - Signatures: RSA verification accepts exactly the signatures whose [e]-th power
      modulo [n] is an encoding of the digest ([rsa_verify_iff]), the whole way down to the
      carries of the limb arithmetic; BLS verification those of the key
      ([bls_verify_iff]).  Public keys round trip through DER, digests do not
      depend on how the message is cut.
    - Attestation: a report is accepted exactly if it is signed by a key that the
      built-in root of the attestation service certifies ([verify_miner_cert_iff]), and
      only such reports register a tee worker ([register_attested]).
    - Credit scores, the registry of tee workers, authorizations and bills.

    Theorems whose subject is a defect say so in their comment: space sold twice,
    punishments counted twice, files without owner, lost missions, and others.

    ** Not modelled

    Substrate (balances, scheduler, session, randomness, transaction pool) is a
    parameter: a class with the documented laws, instantiated in [Frame] and
    [Interfaces] by a ledger and an agenda.  Weights, logging, events' encoding,
    benchmarks, migrations and tests do not act on the modelled state.  Of the staking
    pallet the inflation curve is not used by the runtime and left out.  The crates
    [untrusted], [base64], [rsa] and [bls12_381] are parameters.  Of the vendored ring
    the assembly, authenticated encryption, elliptic curves, key derivation, random
    numbers and RSA signing are left out: the chain calls none of them.  The node is
    networking and input/output. *)
From stdpp Require Export prelude gmap strings list fin_maps sorting.
From Stdlib Require Export ZArith Lia ZifyBool.

#[export] Set Default Goal Selector "!".
#[global] Open Scope Z_scope.

(** ** Machine integers

    A [w]-bit unsigned Rust integer is a [Z] in the range [[0, 2^w)].  The
    functions below are the integer methods the pallets call, with the width
    written out.  A plain [+], [*] or [as] in the source wraps, because the
    [release] profile of [Cargo.toml] leaves [overflow-checks] off. *)

Definition in_width (w x : Z) : Prop := 0 <= x < 2 ^ w.

Abbreviation is_u8 := (in_width 8).
Abbreviation is_u32 := (in_width 32).
Abbreviation is_u64 := (in_width 64).
Abbreviation is_u128 := (in_width 128).

Definition checked_add (w a b : Z) : option Z :=
  if a + b <? 2 ^ w then Some (a + b) else None.

Definition checked_sub (a b : Z) : option Z :=
  if b <=? a then Some (a - b) else None.

Definition checked_mul (w a b : Z) : option Z :=
  if a * b <? 2 ^ w then Some (a * b) else None.

Definition checked_div (a b : Z) : option Z :=
  if b =? 0 then None else Some (a / b).

Definition wrapping_add (w a b : Z) : Z := (a + b) mod 2 ^ w.
Definition wrapping_sub (w a b : Z) : Z := (a - b) mod 2 ^ w.
Definition wrapping_mul (w a b : Z) : Z := (a * b) mod 2 ^ w.
Definition wrapping_pow (w a n : Z) : Z := (a ^ n) mod 2 ^ w.
Definition cast (w a : Z) : Z := a mod 2 ^ w.

Definition saturating_add (w a b : Z) : Z := Z.min (a + b) (2 ^ w - 1).
Definition saturating_sub (a b : Z) : Z := Z.max (a - b) 0.
Definition saturating_mul (w a b : Z) : Z := Z.min (a * b) (2 ^ w - 1).
Definition saturated_into (w a : Z) : Z := Z.min a (2 ^ w - 1).

(** ** Sums over lists and maps *)

Definition sum_list_with_Z {A} (f : A → Z) (l : list A) : Z :=
  foldr (λ x acc, f x + acc) 0 l.

Definition map_sum {K V} `{Countable K} (f : V → Z) (m : gmap K V) : Z :=
  map_fold (λ _ v acc, f v + acc) 0 m.

(** ** Record field update

    [Setter fld] is the update function of a record field; each record of the
    development declares one instance per field, and [r <| fld := v |>] and
    [r <| fld ::= f |>] write the update as the source writes an assignment. *)

Class Setter {R E : Type} (fld : R → E) : Type := set_field : (E → E) → R → R.
Arguments set_field {R E} fld {_} f r /.
#[global] Hint Mode Setter - - + : typeclass_instances.

Declare Scope record_scope.
Delimit Scope record_scope with record.
Notation "r <| fld ::= f |>" := (set_field fld f r)
  (at level 1, left associativity, fld at next level, f at level 200) : record_scope.
Notation "r <| fld := v |>" := (set_field fld (λ _, v) r)
  (at level 1, left associativity, fld at next level, v at level 200) : record_scope.
#[global] Open Scope record_scope.

(** ** Lemmas on machine integers *)

Lemma checked_add_Some w a b c :
  checked_add w a b = Some c ↔ c = a + b ∧ a + b < 2 ^ w.
Proof. unfold checked_add. destruct (Z.ltb_spec (a + b) (2 ^ w)); naive_solver lia. Qed.

Lemma checked_add_None w a b : checked_add w a b = None ↔ 2 ^ w <= a + b.
Proof. unfold checked_add. destruct (Z.ltb_spec (a + b) (2 ^ w)); naive_solver lia. Qed.

Lemma checked_sub_Some a b c : checked_sub a b = Some c ↔ c = a - b ∧ b <= a.
Proof. unfold checked_sub. destruct (Z.leb_spec b a); naive_solver lia. Qed.

Lemma checked_sub_None a b : checked_sub a b = None ↔ a < b.
Proof. unfold checked_sub. destruct (Z.leb_spec b a); naive_solver lia. Qed.

Lemma checked_mul_Some w a b c :
  checked_mul w a b = Some c ↔ c = a * b ∧ a * b < 2 ^ w.
Proof. unfold checked_mul. destruct (Z.ltb_spec (a * b) (2 ^ w)); naive_solver lia. Qed.

Lemma checked_mul_None w a b : checked_mul w a b = None ↔ 2 ^ w <= a * b.
Proof. unfold checked_mul. destruct (Z.ltb_spec (a * b) (2 ^ w)); naive_solver lia. Qed.

Lemma checked_div_Some a b c : checked_div a b = Some c ↔ c = a / b ∧ b ≠ 0.
Proof. unfold checked_div. destruct (Z.eqb_spec b 0); naive_solver lia. Qed.

Lemma checked_div_None a b : checked_div a b = None ↔ b = 0.
Proof. unfold checked_div. destruct (Z.eqb_spec b 0); naive_solver lia. Qed.

Lemma wrapping_sub_small w a b : 0 <= b <= a → a < 2 ^ w → wrapping_sub w a b = a - b.
Proof. intros. unfold wrapping_sub. rewrite Z.mod_small; lia. Qed.

Lemma wrapping_add_small w a b :
  0 <= a + b < 2 ^ w → wrapping_add w a b = a + b.
Proof. apply Z.mod_small. Qed.

(** ** Lemmas on lists *)

Lemma length_tail {A} (l : list A) : length (tail l) = pred (length l).
Proof. by destruct l. Qed.

(** ** Lemmas on sums *)

Lemma sum_list_app {A} (f : A → Z) l1 l2 :
  sum_list_with_Z f (l1 ++ l2) = sum_list_with_Z f l1 + sum_list_with_Z f l2.
Proof. induction l1 as [|x l1 IH]; cbn; [done|]. unfold sum_list_with_Z in *. lia. Qed.

Lemma sum_list_cons {A} (f : A → Z) x l :
  sum_list_with_Z f (x :: l) = f x + sum_list_with_Z f l.
Proof. done. Qed.

Lemma sum_list_ext {A} (f g : A → Z) l :
  (∀ x, x ∈ l → f x = g x) → sum_list_with_Z f l = sum_list_with_Z g l.
Proof.
  induction l as [|x l IH]; intros Hfg; [done|].
  rewrite !sum_list_cons, (Hfg x) by set_solver. f_equal. apply IH. set_solver.
Qed.

Lemma sum_list_nonneg {A} (f : A → Z) l :
  (∀ x, x ∈ l → 0 <= f x) → 0 <= sum_list_with_Z f l.
Proof.
  induction l as [|x l IH]; intros Hf; [done|].
  rewrite sum_list_cons. specialize (Hf x) as Hx. specialize (IH ltac:(set_solver)).
  specialize (Hx ltac:(set_solver)). lia.
Qed.

Lemma sum_list_perm {A} (f : A → Z) l1 l2 :
  l1 ≡ₚ l2 → sum_list_with_Z f l1 = sum_list_with_Z f l2.
Proof. induction 1; rewrite ?sum_list_cons in *; lia. Qed.

Section map_sum.
Context {K V : Type} `{Countable K} (f : V → Z).
Implicit Types m : gmap K V.

Lemma map_sum_empty : map_sum f (∅ : gmap K V) = 0.
Proof. apply map_fold_empty. Qed.

Lemma map_sum_insert_new m k v :
  m !! k = None → map_sum f (<[k := v]> m) = f v + map_sum f m.
Proof. intros Hk. unfold map_sum. rewrite map_fold_insert_L; [done|intros; lia|done]. Qed.

Lemma map_sum_delete m k v :
  m !! k = Some v → map_sum f (delete k m) = map_sum f m - f v.
Proof.
  intros Hk. unfold map_sum.
  rewrite (map_fold_delete_L _ _ k v m); [lia|intros; lia|done].
Qed.

(** The sum after any point update, in one equation. *)
Lemma map_sum_partial_alter m k (g : option V → option V) :
  map_sum f (partial_alter g k m)
  = map_sum f m - from_option f 0 (m !! k) + from_option f 0 (g (m !! k)).
Proof.
  destruct (g (m !! k)) as [v'|] eqn:Hg; destruct (m !! k) as [v|] eqn:Hk; cbn.
  - replace (partial_alter g k m) with (<[k := v']> (delete k m)).
    + rewrite map_sum_insert_new by apply lookup_delete_eq. rewrite (map_sum_delete _ k v) by done. lia.
    + rewrite insert_delete_eq. apply map_eq. intros i.
      destruct (decide (k = i)) as [->|]; simplify_map_eq; [by rewrite lookup_partial_alter_eq, Hk|].
      by rewrite lookup_partial_alter_ne.
  - replace (partial_alter g k m) with (<[k := v']> m).
    + rewrite map_sum_insert_new by done. lia.
    + apply map_eq. intros i.
      destruct (decide (k = i)) as [->|]; simplify_map_eq; [by rewrite lookup_partial_alter_eq, Hk|].
      by rewrite lookup_partial_alter_ne.
  - replace (partial_alter g k m) with (delete k m).
    + rewrite (map_sum_delete _ k v) by done. lia.
    + apply map_eq. intros i.
      destruct (decide (k = i)) as [->|]; simplify_map_eq; [by rewrite lookup_partial_alter_eq, Hk|].
      by rewrite lookup_partial_alter_ne.
  - replace (partial_alter g k m) with m; [lia|]. apply map_eq. intros i.
    destruct (decide (k = i)) as [->|]; [by rewrite lookup_partial_alter_eq, Hk|].
    by rewrite lookup_partial_alter_ne.
Qed.

Lemma map_sum_insert m k v :
  map_sum f (<[k := v]> m) = map_sum f m - from_option f 0 (m !! k) + f v.
Proof. apply (map_sum_partial_alter m k (λ _, Some v)). Qed.

Lemma map_sum_delete_opt m k :
  map_sum f (delete k m) = map_sum f m - from_option f 0 (m !! k).
Proof.
  destruct (m !! k) as [v|] eqn:Hk; cbn; [by apply map_sum_delete|].
  rewrite delete_id by done. lia.
Qed.

Lemma map_sum_nonneg m : (∀ k v, m !! k = Some v → 0 <= f v) → 0 <= map_sum f m.
Proof.
  induction m as [|k v m Hk IH] using map_ind; intros Hf; [by rewrite map_sum_empty|].
  rewrite map_sum_insert_new by done.
  specialize (Hf k v (lookup_insert_eq _ _ _)) as Hv.
  assert (0 <= map_sum f m); [|lia].
  apply IH. intros k' v' Hk'. apply (Hf k'). rewrite lookup_insert_ne; [done|congruence].
Qed.

(** A summand is bounded by the sum when all summands are nonnegative. *)
Lemma map_sum_lookup_le m k v :
  (∀ k v, m !! k = Some v → 0 <= f v) → m !! k = Some v → f v <= map_sum f m.
Proof.
  intros Hf Hk.
  assert (0 <= map_sum f (delete k m)) as Hrest.
  { apply map_sum_nonneg. intros k' v' [_ Hk']%lookup_delete_Some. eauto. }
  rewrite (map_sum_delete _ _ _ Hk) in Hrest. lia.
Qed.
End map_sum.

Lemma map_sum_map_to_list {K V} `{Countable K} (f : V → Z) (m : gmap K V) :
  map_sum f m = sum_list_with_Z (λ p, f p.2) (map_to_list m).
Proof.
  unfold map_sum, sum_list_with_Z. rewrite map_fold_foldr.
  induction (map_to_list m) as [|[k v] l IH]; cbn; [done|]. by rewrite IH.
Qed.

Lemma map_sum_ext {K V} `{Countable K} (f g : V → Z) (m : gmap K V) :
  (∀ k v, m !! k = Some v → f v = g v) → map_sum f m = map_sum g m.
Proof.
  intros Hfg. rewrite !map_sum_map_to_list. apply sum_list_ext.
  intros [k v] Hin%elem_of_map_to_list. cbn. eauto.
Qed.
