(* ===== verification/Errors.v ===== *)
(** * Errors of the pallets

    One enumeration per [#[pallet::error]] enum of [src/c-pallets], with the
    source's variants in the source's order, and the runtime's [DispatchError]
    as their sum.  In Rust the conversion of a pallet error by [?] and [.into()]
    is implicit; here it is a coercion. *)
From S2P Require Import Prelude.

Module StorageHandlerError.
Inductive t :=
| BugInvalid | BoundedVecError | InsufficientAvailableSpace | InsufficientBalance
| InsufficientStorage | Overflow | WrongOperation | PurchasedSpace
| NotPurchasedSpace | LeaseFreeze | LeaseExpired.
#[global] Instance StorageHandlerError_eq_dec : EqDecision t.
Proof. solve_decision. Defined.
End StorageHandlerError.

Module SminerError.
Inductive t :=
| NotMiner | AlreadyRegistered | Overflow | NotExisted | LessThan24Hours
| ConversionError | AlreadyFrozen | LockInNotOver | NotpositiveState
| StorageLimitReached | BoundedVecError | DataNotExist | NotPurchasedPackage
| Unexpected | NoReward.
#[global] Instance SminerError_eq_dec : EqDecision t.
Proof. solve_decision. Defined.
End SminerError.

Module FileBankError.
Inductive t :=
| Existed | FileExistent | FileNonExistent | Overflow | NotOwner | NotQualified
| ScheduleNonExistent | BoundedVecError | StorageLimitReached
| MinerPowerInsufficient | IsZero | Locked | LengthExceedsLimit | Declarated
| BugInvalid | ConvertHashError | NoPermission | SameBucketName | NonExistent
| Unexpected | LessMinLength | Unprepared | IsOwned | SpecError
| NodesInsufficient | PanicOverflow | InsufficientAvailableSpace | Calculate
| MinerStateError | Expired.
#[global] Instance FileBankError_eq_dec : EqDecision t.
Proof. solve_decision. Defined.
End FileBankError.

Module AuditError.
Inductive t :=
| BoundedVecError | StorageLimitReached | Overflow | NoChallenge
| ScheduleNonExistent | NonProof | FileTypeError | NotQualified
| RecordTimeError | OffchainSignedTxError | NoLocalAcctForSigning
| LengthExceedsLimit | Locked | SystemError | NonExistentMission
| UnexpectedError.
#[global] Instance AuditError_eq_dec : EqDecision t.
Proof. solve_decision. Defined.
End AuditError.

Module TeeWorkerError.
Inductive t :=
| AlreadyRegistration | NotController | AlreadyReport | BoundedVecError
| StorageLimitReached | Overflow | NotBond | NonTeeWorker | VerifyCertFailed.
#[global] Instance TeeWorkerError_eq_dec : EqDecision t.
Proof. solve_decision. Defined.
End TeeWorkerError.

Module OssError.
Inductive t := NoAuthorization | Registered | UnRegister | OptionParseError.
#[global] Instance OssError_eq_dec : EqDecision t.
Proof. solve_decision. Defined.
End OssError.

Module CacherError.
Inductive t := AlreadyRegistered | UnRegistered | OptionParseError.
#[global] Instance CacherError_eq_dec : EqDecision t.
Proof. solve_decision. Defined.
End CacherError.

Module SchedulerCreditError.
Inductive t := Overflow.
#[global] Instance SchedulerCreditError_eq_dec : EqDecision t.
Proof. solve_decision. Defined.
End SchedulerCreditError.

Module StakingError.
Inductive t :=
| NotController | NotStash | AlreadyBonded | AlreadyPaired | EmptyTargets
| DuplicateIndex | InvalidSlashIndex | InsufficientBond | NoMoreChunks
| NoUnlockChunk | FundedTarget | InvalidEraToReward | InvalidNumberOfNominations
| NotSortedAndUnique | AlreadyClaimed | IncorrectHistoryDepth
| IncorrectSlashingSpans | BadState | TooManyTargets | BadTarget
| CannotChillOther | TooManyNominators | TooManyValidators | CommissionTooLow
| BoundNotMet.
#[global] Instance StakingError_eq_dec : EqDecision t.
Proof. solve_decision. Defined.
End StakingError.

(** [enum OffchainErr] of the audit pallet: the failures of the off-chain worker,
    which runs in the same monad as the dispatchables. *)
Module OffchainErr.
Inductive t :=
| Ineligible | GenerateInfoError | NetworkState | FailedSigning | Overflow | Working
| SubmitTransactionFailed.
#[global] Instance OffchainErr_eq_dec : EqDecision t.
Proof. solve_decision. Defined.
End OffchainErr.

(** [CurrencyError] and [SchedulerError] stand for the errors of the balances
    and scheduler pallets of Substrate; the CESS pallets only propagate them.
    [ArithmeticOverflow] is [ArithmeticError::Overflow]. *)
Inductive DispatchError :=
| BadOrigin
| CannotLookup
| ArithmeticOverflow
| InStorageHandler (e : StorageHandlerError.t)
| InSminer (e : SminerError.t)
| InFileBank (e : FileBankError.t)
| InAudit (e : AuditError.t)
| InTeeWorker (e : TeeWorkerError.t)
| InOss (e : OssError.t)
| InCacher (e : CacherError.t)
| InSchedulerCredit (e : SchedulerCreditError.t)
| InStaking (e : StakingError.t)
| InOffchain (e : OffchainErr.t)
| CurrencyError (code : Z)
| SchedulerError (code : Z).

Coercion InStorageHandler : StorageHandlerError.t >-> DispatchError.
Coercion InSminer : SminerError.t >-> DispatchError.
Coercion InFileBank : FileBankError.t >-> DispatchError.
Coercion InAudit : AuditError.t >-> DispatchError.
Coercion InTeeWorker : TeeWorkerError.t >-> DispatchError.
Coercion InOss : OssError.t >-> DispatchError.
Coercion InCacher : CacherError.t >-> DispatchError.
Coercion InSchedulerCredit : SchedulerCreditError.t >-> DispatchError.
Coercion InStaking : StakingError.t >-> DispatchError.
Coercion InOffchain : OffchainErr.t >-> DispatchError.

#[export] Instance DispatchError_eq_dec : EqDecision DispatchError.
Proof. solve_decision. Defined.
