(* ===== verification/Frame.v ===== *)
(** * The FRAME execution model

    The state monad the dispatchables and hooks run in, FRAME storage access
    ([try_mutate], [mutate]), [#[transactional]], origins, and the interfaces of
    the Substrate code the pallets are configured with but which is not part of
    the repository: the currency, [Perbill], storage iteration, randomness and
    the task scheduler.  Each interface is a class of operations together with a
    class of laws, the documented behaviour the theorems rely on; each has an
    instance, so the laws can be satisfied. *)
From S2P Require Import Prelude Errors.

(** ** Results and the monad *)

(** [Panic] is a Rust panic: an [unwrap] of an error, an index out of range, a
    division by zero. *)
Inductive result (E A : Type) : Type :=
| Ok (a : A)
| Err (e : E)
| Panic.
Arguments Ok {E A} a.
Arguments Err {E A} e.
Arguments Panic {E A}.

(** A computation over storage [S].  Writes made before an error stay in the
    returned state: FRAME undoes them only in a [#[transactional]] call. *)
Definition M (S A : Type) : Type := S → S * result DispatchError A.

#[export] Instance M_ret S : MRet (M S) := λ A a s, (s, Ok a).
#[export] Instance M_bind S : MBind (M S) := λ A B k m s,
  match m s with
  | (s', Ok a) => k a s'
  | (s', Err e) => (s', Err e)
  | (s', Panic) => (s', Panic)
  end.

Section ops.
Context {S : Type}.

Definition throw {A} (e : DispatchError) : M S A := λ s, (s, Err e).
Definition panic {A} : M S A := λ s, (s, Panic).
Definition gets {A} (f : S → A) : M S A := λ s, (s, Ok (f s)).
Definition modify (f : S → S) : M S unit := λ s, (f s, Ok ()).

(** [ensure!(b, e)] *)
Definition ensure (b : bool) (e : DispatchError) : M S unit :=
  if b then mret () else throw e.

(** [o.ok_or(e)?] *)
Definition ok_or {A} (o : option A) (e : DispatchError) : M S A :=
  match o with Some a => mret a | None => throw e end.

(** [o.unwrap()] *)
Definition unwrap {A} (o : option A) : M S A :=
  match o with Some a => mret a | None => panic end.

(** Using the [Result] of a call as a value instead of propagating it. *)
Definition catch {A} (m : M S A) : M S (result DispatchError A) := λ s,
  match m s with
  | (s', Ok a) => (s', Ok (Ok a))
  | (s', Err e) => (s', Ok (Err e))
  | (s', Panic) => (s', Panic)
  end.

(** [#[transactional]]: an error rolls the storage back. *)
Definition transactional {A} (m : M S A) : M S A := λ s,
  match m s with
  | (s', Ok a) => (s', Ok a)
  | (_, Err e) => (s, Err e)
  | (_, Panic) => (s, Panic)
  end.

(** [for x in l { body }] where the body leaves the loop only by [?]. *)
Fixpoint for_each {A} (l : list A) (body : A → M S unit) : M S unit :=
  match l with
  | [] => mret ()
  | x :: l => body x ;; for_each l body
  end.

(** [for x in l { body }] with an accumulator. *)
Fixpoint fold_m {A B} (f : A → B → M S A) (a : A) (l : list B) : M S A :=
  match l with
  | [] => mret a
  | x :: l => a ← f a x; fold_m f a l
  end.

(** [loop { body }], at most [p] rounds: the body returns [inl] with the values of
    the next round, or [inr] with the result.  The bound is binary, so that a
    bound of [2^32] rounds costs nothing when the loop stops early. *)
Fixpoint loop_pos {A B} (p : positive) (body : A → M S (A + B)) (a : A) : M S (A + B) :=
  match p with
  | xH => body a
  | xO p =>
      r ← loop_pos p body a;
      match r with inl a => loop_pos p body a | inr b => mret (inr b) end
  | xI p =>
      r ← body a;
      match r with
      | inl a =>
          r ← loop_pos p body a;
          match r with inl a => loop_pos p body a | inr b => mret (inr b) end
      | inr b => mret (inr b)
      end
  end.

(** [StorageMap::try_mutate]: the closure gets the stored value; its new value
    is written only when it returns [Ok]. *)
Definition try_mutate {K V R} `{Countable K} (fld : S → gmap K V) `{!Setter fld}
    (k : K) (f : option V → M S (option V * R)) : M S R :=
  v ← gets (λ s, fld s !! k);
  '(v', r) ← f v;
  modify (λ s, s <| fld ::= partial_alter (λ _, v') k |>) ;;
  mret r.

(** The usual shape of a [try_mutate] closure: [opt.as_mut().ok_or(e)?] and
    then assignments to the fields of the value. *)
Definition try_mutate_existing {K V} `{Countable K} (fld : S → gmap K V)
    `{!Setter fld} (k : K) (e : DispatchError) (f : V → M S V) : M S unit :=
  try_mutate fld k (λ o, v ← ok_or o e; v' ← f v; mret (Some v', ())).

(** [StorageMap::insert], [StorageMap::remove] and [StorageMap::try_get]. *)
Definition insert_at {K V} `{Countable K} (fld : S → gmap K V) `{!Setter fld}
    (k : K) (v : V) : M S unit :=
  modify (λ s, s <| fld ::= <[k := v]> |>).

Definition remove_at {K V} `{Countable K} (fld : S → gmap K V) `{!Setter fld}
    (k : K) : M S unit :=
  modify (λ s, s <| fld ::= delete k |>).

Definition try_get {K V} `{Countable K} (fld : S → gmap K V) (k : K) (e : DispatchError) : M S V :=
  o ← gets (λ s, fld s !! k); ok_or o e.

Definition contains_key {K V} `{Countable K} (fld : S → gmap K V) (k : K) : M S bool :=
  gets (λ s, bool_decide (is_Some (fld s !! k))).

(** A fallible operation on one field, its error propagated by [?]. *)
Definition lift_field {V} (fld : S → V) `{!Setter fld} (f : V → result DispatchError V) : M S unit := λ s,
  match f (fld s) with
  | Ok v => (s <| fld := v |>, Ok ())
  | Err e => (s, Err e)
  | Panic => (s, Panic)
  end.

(** A computation on the state of another component, held in one field. *)
Definition zoom {X A} (fld : S → X) `{!Setter fld} (m : M X A) : M S A := λ s,
  let '(x, r) := m (fld s) in (s <| fld := x |>, r).

(** [StorageValue::put]. *)
Definition put {V} (fld : S → V) `{!Setter fld} (v : V) : M S unit :=
  modify (λ s, s <| fld := v |>).
End ops.

(** ** Accounts, hashes and origins

    An [AccountId32] or a byte array is the number its bytes spell in big-endian
    order, so the derived lexicographic order of [Hash] is the order of [N]. *)
Abbreviation AccountId := N (only parsing).
Abbreviation Hash := N (only parsing).
Abbreviation PeerId := N (only parsing).
Abbreviation BlockNumber := Z (only parsing).
Abbreviation Balance := Z (only parsing).

Inductive Origin := Signed (who : AccountId) | Root | Unsigned.

Section origins.
Context {S : Type}.

Definition ensure_signed (o : Origin) : M S AccountId :=
  match o with Signed a => mret a | _ => throw BadOrigin end.

Definition ensure_root (o : Origin) : M S unit :=
  match o with Root => mret () | _ => throw BadOrigin end.

Definition ensure_none (o : Origin) : M S unit :=
  match o with Unsigned => mret () | _ => throw BadOrigin end.
End origins.

(** The runtime is compiled to 32-bit WebAssembly. *)
Definition usize : Z := 32.

(** [Vec<T>] to [BoundedVec<T, limit>], and [BoundedVec::try_push]. *)
Definition try_into_bounded {A} (limit : Z) (l : list A) : option (list A) :=
  if Z.of_nat (length l) <=? limit then Some l else None.

Definition try_push {A} (limit : Z) (l : list A) (x : A) : option (list A) :=
  if Z.of_nat (length l) <? limit then Some (l ++ [x]) else None.

Definition try_append {A} (limit : Z) (l other : list A) : option (list A) :=
  if limit <? Z.of_nat (length other) + Z.of_nat (length l) then None else Some (l ++ other).

(** A [BTreeMap] keyed by accounts is iterated in the order of the accounts. *)
Definition key_le {V} (p q : AccountId * V) : Prop := (p.1 <= q.1)%N.

#[export] Instance key_le_dec {V} : RelDecision (key_le (V := V)) := λ p q, decide (p.1 <= q.1)%N.

Definition btree_iter {V} (m : gmap AccountId V) : list (AccountId * V) :=
  merge_sort key_le (map_to_list m).

Lemma btree_iter_perm {V} (m : gmap AccountId V) : btree_iter m ≡ₚ map_to_list m.
Proof. apply merge_sort_Permutation. Qed.

Definition str_try_into_bounded (limit : Z) (s : string) : option string :=
  if Z.of_nat (String.length s) <=? limit then Some s else None.

(** ** The currency

    [T::Currency] is the balances pallet of Substrate.  Its state is abstract;
    the laws are the ones the [Currency] and [ReservableCurrency] traits
    document. *)
Class Currency (B : Type) := {
  free_balance : B → AccountId → Balance;
  reserved_balance : B → AccountId → Balance;
  can_slash : B → AccountId → Balance → bool;
  transfer_keep_alive : AccountId → AccountId → Balance → B → result DispatchError B;
  reserve : AccountId → Balance → B → result DispatchError B;
  unreserve : AccountId → Balance → B → B;
  resolve_creating : AccountId → Balance → B → B
}.

Definition at_acc (who a : AccountId) (v : Z) : Z :=
  if decide (who = a) then v else 0.

Class CurrencyLaws (B : Type) `{!Currency B} := {
  can_slash_spec b who v :
    can_slash b who v = true ↔ v <= free_balance b who;
  transfer_free from to v b b' a :
    transfer_keep_alive from to v b = Ok b' →
    free_balance b' a = free_balance b a - at_acc from a v + at_acc to a v;
  transfer_reserved from to v b b' a :
    transfer_keep_alive from to v b = Ok b' →
    reserved_balance b' a = reserved_balance b a;
  transfer_covered from to v b b' :
    transfer_keep_alive from to v b = Ok b' → from ≠ to → v <= free_balance b from;
  reserve_free who v b b' a :
    reserve who v b = Ok b' → free_balance b' a = free_balance b a - at_acc who a v;
  reserve_reserved who v b b' a :
    reserve who v b = Ok b' → reserved_balance b' a = reserved_balance b a + at_acc who a v;
  reserve_covered who v b b' :
    reserve who v b = Ok b' → v <= free_balance b who;
  unreserve_free who v b a :
    free_balance (unreserve who v b) a
    = free_balance b a + at_acc who a (Z.min v (reserved_balance b who));
  unreserve_reserved who v b a :
    reserved_balance (unreserve who v b) a
    = reserved_balance b a - at_acc who a (Z.min v (reserved_balance b who));
  resolve_free who v b a :
    0 < free_balance b who →
    free_balance (resolve_creating who v b) a = free_balance b a + at_acc who a v;
  resolve_reserved who v b a :
    reserved_balance (resolve_creating who v b) a = reserved_balance b a
}.

(** A ledger of free and reserved balances: the instance used to evaluate the
    pallets on concrete inputs. *)
Record Ledger := mkLedger {
  ledger_free : gmap AccountId Z;
  ledger_reserved : gmap AccountId Z;
  existential_deposit : N
}.

Definition ledger_get (m : gmap AccountId Z) (a : AccountId) : Z := default 0 (m !! a).
Definition ledger_add (m : gmap AccountId Z) (a : AccountId) (v : Z) : gmap AccountId Z :=
  <[a := ledger_get m a + v]> m.

#[export] Instance Ledger_currency : Currency Ledger := {|
  free_balance b a := ledger_get (ledger_free b) a;
  reserved_balance b a := ledger_get (ledger_reserved b) a;
  can_slash b who v := v <=? ledger_get (ledger_free b) who;
  transfer_keep_alive from to v b :=
    if decide (from = to) then Ok b
    else if v + Z.of_N (existential_deposit b) <=? ledger_get (ledger_free b) from
    then Ok (mkLedger (ledger_add (ledger_add (ledger_free b) from (- v)) to v)
                      (ledger_reserved b) (existential_deposit b))
    else Err (CurrencyError 0);
  reserve who v b :=
    if v + Z.of_N (existential_deposit b) <=? ledger_get (ledger_free b) who
    then Ok (mkLedger (ledger_add (ledger_free b) who (- v))
                      (ledger_add (ledger_reserved b) who v) (existential_deposit b))
    else Err (CurrencyError 1);
  unreserve who v b :=
    let moved := Z.min v (ledger_get (ledger_reserved b) who) in
    mkLedger (ledger_add (ledger_free b) who moved)
             (ledger_add (ledger_reserved b) who (- moved)) (existential_deposit b);
  resolve_creating who v b :=
    mkLedger (ledger_add (ledger_free b) who v) (ledger_reserved b) (existential_deposit b)
|}.

Lemma ledger_get_add m a v a' :
  ledger_get (ledger_add m a v) a' = ledger_get m a' + at_acc a a' v.
Proof.
  unfold ledger_add, ledger_get, at_acc. destruct (decide (a = a')) as [->|Hne].
  - by rewrite lookup_insert_eq.
  - rewrite lookup_insert_ne by done. lia.
Qed.

Lemma at_acc_opp who a v : at_acc who a (- v) = - at_acc who a v.
Proof. unfold at_acc. destruct (decide _); lia. Qed.

#[export] Instance Ledger_currency_laws : CurrencyLaws Ledger.
Proof.
  split; cbn; intros; repeat case_match; simplify_eq; cbn;
    rewrite ?ledger_get_add, ?at_acc_opp; try lia;
    unfold at_acc; repeat case_decide; simplify_eq; lia.
Qed.

(** ** [Perbill]

    [Perbill] and [Percent] of [sp_arithmetic]: fixed-point fractions with [10^9]
    and [100] parts. [mul_floor] rounds down, [*] rounds to the nearest integer,
    [from_rational]
    approximates a quotient and saturates at one; nothing but the range of a
    [Perbill] is assumed of it. *)
Class PerbillOps := {
  Perbill : Type;
  parts : Perbill → Z;
  from_percent : Z → Perbill;
  from_rational : Z → Z → Perbill;
  mul_floor : Perbill → Z → Z;
  perbill_mul : Perbill → Z → Z;
  percent_mul : Z → Z → Z
}.

Definition BILLION : Z := 1000000000.

(** [r] is [p/d * x] rounded to a nearest integer. *)
Definition rounds_to_nearest (d p x r : Z) : Prop :=
  d * r <= p * x + d / 2 ∧ p * x - d / 2 <= d * r.

Class PerbillLaws `{!PerbillOps} := {
  parts_from_percent x : 0 <= x <= 100 → parts (from_percent x) = x * (BILLION / 100);
  parts_bounds r : 0 <= parts r <= BILLION;
  mul_floor_spec r x : 0 <= x → mul_floor r x = parts r * x / BILLION;
  perbill_mul_spec r x : 0 <= x → rounds_to_nearest BILLION (parts r) x (perbill_mul r x);
  percent_mul_spec r x : 0 <= r <= 100 → 0 <= x → rounds_to_nearest 100 r x (percent_mul r x)
}.

#[export] Instance Z_perbill : PerbillOps := {|
  Perbill := Z;
  parts r := Z.max 0 (Z.min r BILLION);
  from_percent x := Z.min x 100 * (BILLION / 100);
  from_rational p q := if p <? q then p * BILLION / q else BILLION;
  mul_floor r x := Z.max 0 (Z.min r BILLION) * x / BILLION;
  perbill_mul r x := (Z.max 0 (Z.min r BILLION) * x + BILLION / 2 - 1) / BILLION;
  percent_mul r x := (r * x + 49) / 100
|}.

#[export] Instance Z_perbill_laws : PerbillLaws.
Proof.
  split; cbn; unfold rounds_to_nearest; intros; try done.
  - change (BILLION / 100) with 10000000. unfold BILLION. lia.
  - unfold BILLION. lia.
  - split; unfold BILLION; Z.to_euclidean_division_equations; lia.
  - split; Z.to_euclidean_division_equations; lia.
Qed.

(** ** Storage iteration

    [StorageMap::iter] visits every entry once, in the order of the hashed keys. *)
Class StorageIter := {
  iter_storage {K V : Type} `{Countable K} : gmap K V → list (K * V);
  iter_storage_perm {K V : Type} `{Countable K} (m : gmap K V) :
    iter_storage m ≡ₚ map_to_list m
}.

#[export] Instance gmap_storage_iter : StorageIter := {|
  iter_storage K V _ _ m := map_to_list m;
  iter_storage_perm K V _ _ m := reflexivity _
|}.

Lemma iter_storage_elem `{StorageIter} {K V} `{Countable K} (m : gmap K V) k v :
  (k, v) ∈ iter_storage m ↔ m !! k = Some v.
Proof. by rewrite iter_storage_perm, elem_of_map_to_list. Qed.

Lemma iter_storage_NoDup `{StorageIter} {K V} `{Countable K} (m : gmap K V) :
  NoDup (iter_storage m).*1.
Proof. rewrite iter_storage_perm. apply NoDup_fst_map_to_list. Qed.

Lemma iter_storage_sum `{StorageIter} {K V} `{Countable K} (f : V → Z) (m : gmap K V) :
  sum_list_with_Z (λ p, f p.2) (iter_storage m) = map_sum f m.
Proof. rewrite map_sum_map_to_list. apply sum_list_perm, iter_storage_perm. Qed.

(** ** Inversion of successful runs

    Each lemma says when a primitive returns [Ok] and what it leaves in storage;
    [inv_ok] applies them to the hypotheses until no run of a primitive is left. *)

Section run.
Context {S : Type}.
Implicit Types s : S.

Lemma bind_Ok {A B} (m : M S A) (k : A → M S B) s s' b :
  (m ≫= k) s = (s', Ok b) ↔ ∃ s1 a, m s = (s1, Ok a) ∧ k a s1 = (s', Ok b).
Proof.
  unfold mbind, M_bind. split.
  - destruct (m s) as [s1 [a| |]]; naive_solver.
  - intros (s1 & a & -> & ?). done.
Qed.

Lemma ret_Ok {A} (a a' : A) s s' :
  (mret a : M S A) s = (s', Ok a') ↔ s' = s ∧ a' = a.
Proof. unfold mret, M_ret. naive_solver. Qed.

Lemma throw_Ok {A} (e : DispatchError) s s' (a : A) : throw e s = (s', Ok a) ↔ False.
Proof. unfold throw. naive_solver. Qed.

Lemma panic_Ok {A} s s' (a : A) : (panic : M S A) s = (s', Ok a) ↔ False.
Proof. unfold panic. naive_solver. Qed.

Lemma gets_Ok {A} (f : S → A) s s' a :
  (gets f : M S A) s = (s', Ok a) ↔ s' = s ∧ a = f s.
Proof. unfold gets. naive_solver. Qed.

Lemma modify_Ok f s s' u : (modify f : M S unit) s = (s', Ok u) ↔ s' = f s.
Proof. unfold modify. destruct u. naive_solver. Qed.

Lemma put_Ok {V} (fld : S → V) `{!Setter fld} v s s' u :
  (put fld v : M S unit) s = (s', Ok u) ↔ s' = s <| fld := v |>.
Proof. apply modify_Ok. Qed.

Lemma lift_field_Ok {V} (fld : S → V) `{!Setter fld} f s s' u :
  (lift_field fld f : M S unit) s = (s', Ok u) ↔
  ∃ v, f (fld s) = Ok v ∧ s' = s <| fld := v |>.
Proof. unfold lift_field. destruct u, (f (fld s)); naive_solver. Qed.

Lemma zoom_Ok {X A} (fld : S → X) `{!Setter fld} (m : M X A) s s' a :
  zoom fld m s = (s', Ok a) ↔ ∃ x, m (fld s) = (x, Ok a) ∧ s' = s <| fld := x |>.
Proof. unfold zoom. destruct (m (fld s)) as [x r]. naive_solver. Qed.

Lemma ensure_Ok b (e : DispatchError) s s' u : ensure b e s = (s', Ok u) ↔ s' = s ∧ b = true.
Proof. unfold ensure, throw, mret, M_ret. destruct b, u; naive_solver. Qed.

Lemma ok_or_Ok {A} (o : option A) (e : DispatchError) s s' a :
  ok_or o e s = (s', Ok a) ↔ s' = s ∧ o = Some a.
Proof. unfold ok_or, throw, mret, M_ret. destruct o; naive_solver. Qed.

Lemma unwrap_Ok {A} (o : option A) s s' a :
  (unwrap o : M S A) s = (s', Ok a) ↔ s' = s ∧ o = Some a.
Proof. unfold unwrap, panic, mret, M_ret. destruct o; naive_solver. Qed.

Lemma transactional_Ok {A} (m : M S A) s s' a :
  transactional m s = (s', Ok a) ↔ m s = (s', Ok a).
Proof. unfold transactional. destruct (m s) as [s1 [a1| |]]; naive_solver. Qed.

(** A transactional call that does not return [Ok] leaves the storage as it was. *)
Lemma transactional_rollback {A} (m : M S A) s s' r :
  transactional m s = (s', r) → (∀ a, r ≠ Ok a) → s' = s.
Proof. unfold transactional. destruct (m s) as [s1 [a1| |]]; naive_solver. Qed.

Lemma catch_Ok {A} (m : M S A) s s' r :
  catch m s = (s', Ok r) ↔
  (∃ a, r = Ok a ∧ m s = (s', Ok a)) ∨ (∃ e, r = Err e ∧ m s = (s', Err e)).
Proof. unfold catch. destruct (m s) as [s1 [a1| |]]; naive_solver. Qed.

Section maps.
Context {K V : Type} `{Countable K} (fld : S → gmap K V) `{!Setter fld}.

Lemma try_mutate_Ok {R} k (f : option V → M S (option V * R)) s s' r :
  try_mutate fld k f s = (s', Ok r) ↔
  ∃ s1 v', f (fld s !! k) s = (s1, Ok (v', r)) ∧
           s' = s1 <| fld ::= partial_alter (λ _, v') k |>.
Proof.
  unfold try_mutate. rewrite bind_Ok. setoid_rewrite gets_Ok. split.
  - intros (? & ? & [-> ->] & ?). rewrite bind_Ok in *.
    destruct_and?. destruct H0 as (s1 & [v' r'] & Hf & Hk).
    rewrite bind_Ok in Hk. destruct Hk as (s2 & [] & Hm & Hr).
    rewrite modify_Ok in Hm. rewrite ret_Ok in Hr. naive_solver.
  - intros (s1 & v' & Hf & ->). do 2 eexists. split; [done|].
    rewrite bind_Ok. eexists s1, (v', r). split; [done|].
    rewrite bind_Ok. eexists _, (). by rewrite modify_Ok, ret_Ok.
Qed.

Lemma try_mutate_existing_Ok k (e : DispatchError) (f : V → M S V) s s' u :
  try_mutate_existing fld k e f s = (s', Ok u) ↔
  ∃ v v' s1, fld s !! k = Some v ∧ f v s = (s1, Ok v') ∧
             s' = s1 <| fld ::= <[k := v']> |>.
Proof.
  unfold try_mutate_existing. rewrite try_mutate_Ok. destruct u. split.
  - intros (s1 & o & Hf & ->). rewrite bind_Ok in Hf. destruct Hf as (? & v & Hv & Hf).
    rewrite ok_or_Ok in Hv. destruct Hv as [-> Hv].
    rewrite bind_Ok in Hf. destruct Hf as (? & v' & Hf & Hr).
    rewrite ret_Ok in Hr. naive_solver.
  - intros (v & v' & s1 & Hv & Hf & ->). eexists s1, (Some v'). split; [|done].
    rewrite bind_Ok. eexists s, v. split; [by rewrite ok_or_Ok|].
    rewrite bind_Ok. eexists s1, v'. by rewrite ret_Ok.
Qed.

Lemma insert_at_Ok k v s s' u :
  (insert_at fld k v : M S unit) s = (s', Ok u) ↔ s' = s <| fld ::= <[k := v]> |>.
Proof. apply modify_Ok. Qed.

Lemma remove_at_Ok k s s' u :
  (remove_at fld k : M S unit) s = (s', Ok u) ↔ s' = s <| fld ::= delete k |>.
Proof. apply modify_Ok. Qed.

Lemma try_get_Ok k (e : DispatchError) s s' v :
  try_get fld k e s = (s', Ok v) ↔ s' = s ∧ fld s !! k = Some v.
Proof.
  unfold try_get. rewrite bind_Ok. setoid_rewrite gets_Ok. setoid_rewrite ok_or_Ok.
  naive_solver.
Qed.

Lemma contains_key_Ok k s s' b :
  (contains_key fld k : M S bool) s = (s', Ok b) ↔
  s' = s ∧ b = bool_decide (is_Some (fld s !! k)).
Proof. unfold contains_key. by rewrite gets_Ok. Qed.
End maps.
End run.

Section run_origins.
Context {S : Type}.
Implicit Types s : S.

Lemma ensure_signed_Ok o s s' a :
  ensure_signed o s = (s', Ok a) ↔ s' = s ∧ o = Signed a.
Proof. unfold ensure_signed, throw, mret, M_ret. destruct o; naive_solver. Qed.

Lemma ensure_root_Ok o s s' u : ensure_root o s = (s', Ok u) ↔ s' = s ∧ o = Root.
Proof. unfold ensure_root, throw, mret, M_ret. destruct o, u; naive_solver. Qed.

Lemma ensure_none_Ok o s s' u : ensure_none o s = (s', Ok u) ↔ s' = s ∧ o = Unsigned.
Proof. unfold ensure_none, throw, mret, M_ret. destruct o, u; naive_solver. Qed.
End run_origins.

Ltac inv_ok_step :=
  match goal with
  | H : (_ ≫= _) _ = (_, Ok _) |- _ =>
      apply bind_Ok in H; destruct H as (? & ? & ? & H); cbn beta iota in H
  | H : mret _ _ = (_, Ok _) |- _ => apply ret_Ok in H; destruct H as [? ?]; subst
  | H : throw _ _ = (_, Ok _) |- _ => apply throw_Ok in H; destruct H
  | H : panic _ = (_, Ok _) |- _ => apply panic_Ok in H; destruct H
  | H : gets _ _ = (_, Ok _) |- _ => apply gets_Ok in H; destruct H as [? ?]; subst
  | H : modify _ _ = (_, Ok _) |- _ => apply modify_Ok in H; subst
  | H : put _ _ _ = (_, Ok _) |- _ => apply put_Ok in H; subst
  | H : lift_field _ _ _ = (_, Ok _) |- _ =>
      apply lift_field_Ok in H; destruct H as (? & ? & ?); subst
  | H : zoom _ _ _ = (_, Ok _) |- _ => apply zoom_Ok in H; destruct H as (? & ? & ?); subst
  | H : ensure _ _ _ = (_, Ok _) |- _ => apply ensure_Ok in H; destruct H as [? ?]; subst
  | H : ok_or _ _ _ = (_, Ok _) |- _ => apply ok_or_Ok in H; destruct H as [? ?]; subst
  | H : unwrap _ _ = (_, Ok _) |- _ => apply unwrap_Ok in H; destruct H as [? ?]; subst
  | H : ensure_signed _ _ = (_, Ok _) |- _ =>
      apply ensure_signed_Ok in H; destruct H as [? ?]; subst
  | H : ensure_root _ _ = (_, Ok _) |- _ =>
      apply ensure_root_Ok in H; destruct H as [? ?]; subst
  | H : ensure_none _ _ = (_, Ok _) |- _ =>
      apply ensure_none_Ok in H; destruct H as [? ?]; subst
  | H : try_mutate_existing _ _ _ _ _ = (_, Ok _) |- _ =>
      apply try_mutate_existing_Ok in H; destruct H as (? & ? & ? & ? & ? & ?); subst
  | H : try_mutate _ _ _ _ = (_, Ok _) |- _ =>
      apply try_mutate_Ok in H; destruct H as (? & ? & ? & ?); subst
  | H : insert_at _ _ _ _ = (_, Ok _) |- _ => apply insert_at_Ok in H; subst
  | H : remove_at _ _ _ = (_, Ok _) |- _ => apply remove_at_Ok in H; subst
  | H : try_get _ _ _ _ = (_, Ok _) |- _ => apply try_get_Ok in H; destruct H as [? ?]; subst
  | H : contains_key _ _ _ = (_, Ok _) |- _ =>
      apply contains_key_Ok in H; destruct H as [? ?]; subst
  | H : transactional _ _ = (_, Ok _) |- _ => rewrite transactional_Ok in H
  | H : checked_add _ _ _ = Some _ |- _ => apply checked_add_Some in H; destruct H as [? ?]; subst
  | H : checked_sub _ _ = Some _ |- _ => apply checked_sub_Some in H; destruct H as [? ?]; subst
  | H : checked_mul _ _ _ = Some _ |- _ => apply checked_mul_Some in H; destruct H as [? ?]; subst
  | H : checked_div _ _ = Some _ |- _ => apply checked_div_Some in H; destruct H as [? ?]; subst
  | H : (if ?b then _ else _) _ = (_, Ok _) |- _ => destruct b eqn:?
  end.

Ltac inv_ok := repeat inv_ok_step.

(** The converse direction: [run_ok] shows that a computation returns [Ok],
    leaving its guards as goals. *)
Ltac run_ok_step :=
  match goal with
  | |- (_ ≫= _) _ = (_, Ok _) => apply bind_Ok; first [eexists _, () | do 2 eexists]; split
  | |- mret _ _ = (_, Ok _) => apply ret_Ok; split; reflexivity
  | |- gets _ _ = (_, Ok _) => apply gets_Ok; split; reflexivity
  | |- modify _ _ = (_, Ok _) => apply modify_Ok; reflexivity
  | |- put _ _ _ = (_, Ok _) => apply put_Ok; reflexivity
  | |- insert_at _ _ _ _ = (_, Ok _) => apply insert_at_Ok; reflexivity
  | |- remove_at _ _ _ = (_, Ok _) => apply remove_at_Ok; reflexivity
  | |- ensure _ _ _ = (_, Ok _) => apply ensure_Ok; split; [reflexivity|]
  | |- ok_or _ _ _ = (_, Ok _) => apply ok_or_Ok; split; [reflexivity|]
  | |- unwrap _ _ = (_, Ok _) => apply unwrap_Ok; split; [reflexivity|]
  | |- lift_field _ _ _ = (_, Ok _) => apply lift_field_Ok; eexists; split; [|reflexivity]
  | |- zoom _ _ _ = (_, Ok _) => apply zoom_Ok; eexists; split; [|reflexivity]
  | |- ensure_signed _ _ = (_, Ok _) => apply ensure_signed_Ok; split; reflexivity
  | |- ensure_root _ _ = (_, Ok _) => apply ensure_root_Ok; split; reflexivity
  | |- ensure_none _ _ = (_, Ok _) => apply ensure_none_Ok; split; reflexivity
  | |- try_mutate_existing _ _ _ _ _ = (_, Ok _) =>
      apply try_mutate_existing_Ok; do 3 eexists; split; [|split; [|reflexivity]]
  | |- try_mutate _ _ _ _ = (_, Ok _) =>
      apply try_mutate_Ok; do 2 eexists; split; [|reflexivity]
  | |- try_get _ _ _ _ = (_, Ok _) => apply try_get_Ok; split; [reflexivity|]
  | |- contains_key _ _ _ = (_, Ok _) => apply contains_key_Ok; split; reflexivity
  | |- transactional _ _ = (_, Ok _) => rewrite transactional_Ok
  | |- checked_add _ _ _ = Some _ => apply checked_add_Some; split; [reflexivity|]
  | |- checked_sub _ _ = Some _ => apply checked_sub_Some; split; [reflexivity|]
  | |- checked_mul _ _ _ = Some _ => apply checked_mul_Some; split; [reflexivity|]
  | |- checked_div _ _ = Some _ => apply checked_div_Some; split; [reflexivity|]
  | |- _ !! _ = Some _ => eassumption
  | |- Some _ = Some _ => reflexivity
  | |- (if ?b then _ else _) _ = (_, Ok _) => destruct b eqn:?
  end.

Ltac run_ok := repeat (cbn beta iota zeta; run_ok_step).

(** ** Atomic computations

    A computation that only reads, one that always succeeds, and one that leaves
    storage alone unless it succeeds.  The lemmas of the hint database [frame]
    follow the shape of a function body: reads and guards first, then writes. *)

Definition read_only {S A} (m : M S A) : Prop := ∀ s s' r, m s = (s', r) → s' = s.

Definition infallible {S A} (m : M S A) : Prop := ∀ s, ∃ s' a, m s = (s', Ok a).

Definition atomic {S A} (m : M S A) : Prop :=
  ∀ s s' r, m s = (s', r) → (∀ a, r ≠ Ok a) → s' = s.

Create HintDb frame.

Section atomic.
Context {S : Type}.

Lemma read_only_ret {A} (a : A) : read_only (mret a : M S A).
Proof. intros s s' r [=]. done. Qed.

Lemma read_only_throw {A} (e : DispatchError) : read_only (throw e : M S A).
Proof. intros s s' r [=]. done. Qed.

Lemma read_only_panic {A} : read_only (panic : M S A).
Proof. by intros s s' r [= <- _]. Qed.

Lemma read_only_ensure_none o : read_only (ensure_none o : M S _).
Proof. destruct o; [apply read_only_throw|apply read_only_throw|apply read_only_ret]. Qed.

Lemma read_only_gets {A} (f : S → A) : read_only (gets f).
Proof. intros s s' r [=]. done. Qed.

Lemma read_only_ensure b (e : DispatchError) : read_only (ensure b e : M S unit).
Proof. destruct b; intros s s' r [=]; done. Qed.

Lemma read_only_ok_or {A} (o : option A) (e : DispatchError) : read_only (ok_or o e : M S A).
Proof. destruct o; intros s s' r [=]; done. Qed.

Lemma read_only_unwrap {A} (o : option A) : read_only (unwrap o : M S A).
Proof. destruct o; intros s s' r [=]; done. Qed.

Lemma read_only_ensure_signed o : read_only (ensure_signed o : M S _).
Proof. destruct o; intros s s' r [=]; done. Qed.

Lemma read_only_ensure_root o : read_only (ensure_root o : M S _).
Proof. destruct o; intros s s' r [=]; done. Qed.

Lemma read_only_bind {A B} (m : M S A) (k : A → M S B) :
  read_only m → (∀ a, read_only (k a)) → read_only (m ≫= k).
Proof.
  intros Hm Hk s s' r. unfold mbind, M_bind.
  destruct (m s) as [s1 r1] eqn:Hrun. apply Hm in Hrun as ->.
  destruct r1; [apply Hk|intros [=]; done..].
Qed.

Lemma read_only_if {A} (b : bool) (m1 m2 : M S A) :
  read_only m1 → read_only m2 → read_only (if b then m1 else m2).
Proof. by destruct b. Qed.

Lemma read_only_try_get {K V} `{Countable K} (fld : S → gmap K V) k (e : DispatchError) :
  read_only (try_get fld k e).
Proof. apply read_only_bind; [apply read_only_gets|intros; apply read_only_ok_or]. Qed.

Lemma read_only_contains_key {K V} `{Countable K} (fld : S → gmap K V) k :
  read_only (contains_key fld k).
Proof. apply read_only_gets. Qed.

Lemma atomic_read_only {A} (m : M S A) : read_only m → atomic m.
Proof. intros Hm s s' r Hrun _. by apply (Hm s s' r). Qed.

Lemma atomic_infallible {A} (m : M S A) : infallible m → atomic m.
Proof. intros Hm s s' r Hrun Hr. destruct (Hm s) as (s1 & a & Ha).
  rewrite Hrun in Ha. simplify_eq. by destruct (Hr a). Qed.

Lemma atomic_transactional {A} (m : M S A) : atomic (transactional m).
Proof. intros s s' r. apply transactional_rollback. Qed.

(** Guards, then an atomic rest. *)
Lemma atomic_bind {A B} (m : M S A) (k : A → M S B) :
  read_only m → (∀ a, atomic (k a)) → atomic (m ≫= k).
Proof.
  intros Hm Hk s s' r. unfold mbind, M_bind.
  destruct (m s) as [s1 r1] eqn:Hrun. apply Hm in Hrun as ->.
  destruct r1; [apply Hk|intros [=]; done..].
Qed.

(** An atomic computation, then writes that cannot fail. *)
Lemma atomic_bind_infallible {A B} (m : M S A) (k : A → M S B) :
  atomic m → (∀ a, infallible (k a)) → atomic (m ≫= k).
Proof.
  intros Hm Hk s s' r. unfold mbind, M_bind.
  destruct (m s) as [s1 [a| |]] eqn:Hrun.
  - intros Hka Hr. destruct (Hk a s1) as (s2 & b & Hb). rewrite Hka in Hb. simplify_eq.
    by destruct (Hr b).
  - intros [=] ?. subst. by apply (Hm _ _ _ Hrun).
  - intros [=] ?. subst. by apply (Hm _ _ _ Hrun).
Qed.

Lemma atomic_if {A} (b : bool) (m1 m2 : M S A) :
  atomic m1 → atomic m2 → atomic (if b then m1 else m2).
Proof. by destruct b. Qed.

Lemma atomic_try_mutate {K V R} `{Countable K} (fld : S → gmap K V) `{!Setter fld} k
    (f : option V → M S (option V * R)) :
  (∀ v, read_only (f v)) → atomic (try_mutate fld k f).
Proof.
  intros Hf. apply atomic_bind; [apply read_only_gets|]. intros v.
  apply atomic_bind; [done|]. intros [v' r]. apply atomic_infallible.
  intros s. by do 2 eexists.
Qed.

Lemma atomic_try_mutate_existing {K V} `{Countable K} (fld : S → gmap K V) `{!Setter fld} k
    (e : DispatchError) (f : V → M S V) :
  (∀ v, read_only (f v)) → atomic (try_mutate_existing fld k e f).
Proof.
  intros Hf. apply atomic_try_mutate. intros o. apply read_only_bind; [apply read_only_ok_or|].
  intros v. apply read_only_bind; [done|]. intros. apply read_only_ret.
Qed.

Lemma infallible_modify (f : S → S) : infallible (modify f).
Proof. intros s. by do 2 eexists. Qed.

Lemma infallible_ret {A} (a : A) : infallible (mret a : M S A).
Proof. intros s. by do 2 eexists. Qed.

Lemma infallible_bind {A B} (m : M S A) (k : A → M S B) :
  infallible m → (∀ a, infallible (k a)) → infallible (m ≫= k).
Proof.
  intros Hm Hk s. destruct (Hm s) as (s1 & a & Hrun). destruct (Hk a s1) as (s2 & b & Hrun').
  exists s2, b. unfold mbind, M_bind. by rewrite Hrun.
Qed.
End atomic.

#[export] Hint Resolve read_only_panic read_only_ensure_none read_only_ret read_only_throw read_only_gets read_only_ensure
  read_only_ok_or read_only_unwrap read_only_ensure_signed read_only_ensure_root
  read_only_if read_only_bind read_only_try_get read_only_contains_key
  infallible_modify infallible_ret infallible_bind : frame.
#[export] Hint Resolve atomic_transactional atomic_if atomic_try_mutate
  atomic_try_mutate_existing atomic_read_only atomic_infallible : frame.
#[export] Hint Resolve atomic_bind | 10 : frame.
#[export] Hint Resolve atomic_bind_infallible | 20 : frame.
#[export] Hint Unfold put insert_at remove_at : frame.

Ltac solve_atomic := eauto 60 with frame.

(** ** Invariants kept whatever the outcome *)

Definition preserves {S A} (I : S → Prop) (m : M S A) : Prop := ∀ s, I s → I (m s).1.

Section preserves.
Context {S : Type} (I : S → Prop).

Lemma preserves_bind {A B} (m : M S A) (k : A → M S B) :
  preserves I m → (∀ a, preserves I (k a)) → preserves I (m ≫= k).
Proof.
  intros Hm Hk s HI. apply Hm in HI. unfold mbind, M_bind. destruct (m s) as [s1 [a|e|]]; cbn in *; [|done..].
  by apply Hk.
Qed.

Lemma preserves_read_only {A} (m : M S A) : read_only m → preserves I m.
Proof. intros Hm s HI. destruct (m s) as [s1 r] eqn:Hr. apply Hm in Hr as ->. done. Qed.

Lemma preserves_modify f : (∀ s, I s → I (f s)) → preserves I (modify f).
Proof. intros Hf s HI. by apply Hf. Qed.

Lemma preserves_catch {A} (m : M S A) : preserves I m → preserves I (catch m).
Proof. intros Hm s HI. apply Hm in HI. unfold catch. by destruct (m s) as [s1 [a|e|]]. Qed.

Lemma preserves_transactional {A} (m : M S A) : preserves I m → preserves I (transactional m).
Proof. intros Hm s HI. pose proof (Hm s HI). unfold transactional. by destruct (m s) as [s1 [a|e|]]. Qed.

Lemma preserves_run {A} (m : M S A) s s' r : preserves I m → I s → m s = (s', r) → I s'.
Proof. intros Hm Hs Hr. apply Hm in Hs. by rewrite Hr in Hs. Qed.

(** A failed transactional call changes nothing. *)
Lemma preserves_transactional_Ok {A} (m : M S A) :
  (∀ s s' a, I s → m s = (s', Ok a) → I s') → preserves I (transactional m).
Proof. intros Hm s HI. unfold transactional. destruct (m s) as [s1 [a|e|]] eqn:Hr; [by eapply Hm|done..]. Qed.

Lemma preserves_for_each_in {A} (l : list A) (f : A → M S unit) :
  (∀ a, a ∈ l → preserves I (f a)) → preserves I (for_each l f).
Proof.
  intros Hf. induction l as [|a l IH]; [by intros s|]. apply preserves_bind; [apply Hf; by left|].
  intros _. apply IH. intros b Hb. apply Hf. by right.
Qed.

Lemma preserves_for_each {A} (l : list A) (f : A → M S unit) :
  (∀ a, preserves I (f a)) → preserves I (for_each l f).
Proof. intros Hf. by apply preserves_for_each_in. Qed.

Lemma preserves_if {A} (b : bool) (m1 m2 : M S A) :
  preserves I m1 → preserves I m2 → preserves I (if b then m1 else m2).
Proof. by destruct b. Qed.

Lemma preserves_zoom {X A} (fld : S → X) `{!Setter fld} (m : M X A) :
  (∀ s x, I s → I (s <| fld := x |>)) → preserves I (zoom fld m).
Proof. intros Hx s HI. unfold zoom. destruct (m (fld s)). by apply Hx. Qed.

Lemma preserves_fold_m {A E} (f : A → E → M S A) a l :
  (∀ a e, preserves I (f a e)) → preserves I (fold_m f a l).
Proof.
  intros Hf. revert a. induction l as [|e l IH]; intros a; [by intros s|]. by apply preserves_bind.
Qed.

Lemma preserves_try_mutate {K V R} `{Countable K} (fld : S → gmap K V) `{!Setter fld} k
    (f : option V → M S (option V * R)) :
  (∀ o, preserves I (f o)) → (∀ s v, I s → I (s <| fld ::= partial_alter (λ _, v) k |>)) →
  preserves I (try_mutate fld k f).
Proof.
  intros Hf Hs. apply preserves_bind; [by intros s|]. intros o. apply preserves_bind; [done|]. intros [v r].
  apply preserves_bind; [|by intros _ s]. apply preserves_modify. auto.
Qed.

Lemma preserves_try_mutate_existing {K V} `{Countable K} (fld : S → gmap K V) `{!Setter fld} k
    (e : DispatchError) (f : V → M S V) :
  (∀ v, preserves I (f v)) → (∀ s v, I s → I (s <| fld ::= partial_alter (λ _, v) k |>)) →
  preserves I (try_mutate_existing fld k e f).
Proof.
  intros Hf Hs. apply preserves_try_mutate; [|done]. intros o.
  apply preserves_bind; [apply preserves_read_only; eauto with frame|]. intros v.
  apply preserves_bind; [done|]. by intros v' s.
Qed.
End preserves.

(** Goes through a computation, leaving the writes. *)
Ltac preserves :=
  repeat match goal with
  | |- preserves _ _ => solve [apply preserves_read_only; eauto with frame]
  | |- preserves _ (_ ≫= _) => apply preserves_bind; [|intros ?]
  | |- preserves _ (if _ then _ else _) => apply preserves_if
  | |- preserves _ (catch _) => apply preserves_catch
  | |- preserves _ (transactional _) => apply preserves_transactional
  | |- preserves _ (for_each _ _) => apply preserves_for_each; intros ?
  | |- preserves _ (fold_m _ _ _) => apply preserves_fold_m; intros ? ?
  | |- preserves _ _ => progress cbv zeta
  end.

(** ** Invariants and what a computation returns

    [hoare I m Q]: from a state in [I], [m] ends in [I] whatever the outcome, and a
    value it returns satisfies [Q]. *)
Definition hoare {S A} (I : S → Prop) (m : M S A) (Q : A → Prop) : Prop :=
  ∀ s, I s → I (m s).1 ∧ ∀ a, (m s).2 = Ok a → Q a.

Section hoare.
Context {S : Type} (I : S → Prop).

Lemma hoare_bind {A B} (m : M S A) (k : A → M S B) P Q :
  hoare I m P → (∀ a, P a → hoare I (k a) Q) → hoare I (m ≫= k) Q.
Proof.
  intros Hm Hk s HI. destruct (Hm s HI) as [HI1 HP]. unfold mbind, M_bind.
  destruct (m s) as [s1 [a|e|]]; cbn in *; [|done..]. apply Hk; auto.
Qed.

Lemma hoare_weaken {A} (m : M S A) (P Q : A → Prop) : hoare I m P → (∀ a, P a → Q a) → hoare I m Q.
Proof. intros Hm HPQ s HI. destruct (Hm s HI) as [? HP]. split; [done|]. auto. Qed.

Lemma hoare_preserves {A} (m : M S A) : preserves I m → hoare I m (λ _, True).
Proof. intros Hm s HI. split; [by apply Hm|done]. Qed.

Lemma hoare_read {A} (m : M S A) (Q : A → Prop) :
  read_only m → (∀ s a, I s → m s = (s, Ok a) → Q a) → hoare I m Q.
Proof.
  intros Hm HQ s HI. destruct (m s) as [s1 r] eqn:Hr. pose proof (Hm _ _ _ Hr) as ->. split; [done|].
  cbn. intros a ->. by eapply HQ.
Qed.

Lemma hoare_ret {A} (a : A) (Q : A → Prop) : Q a → hoare I (mret a) Q.
Proof. intros HQ s HI. split; [done|]. by intros ? [= <-]. Qed.

Lemma hoare_throw {A} (e : DispatchError) (Q : A → Prop) : hoare I (throw e : M S A) Q.
Proof. by intros s HI. Qed.

Lemma hoare_panic {A} (Q : A → Prop) : hoare I (panic : M S A) Q.
Proof. by intros s HI. Qed.

Lemma hoare_gets {A} (f : S → A) : hoare I (gets f) (λ a, ∃ s, I s ∧ a = f s).
Proof. intros s HI. split; [done|]. intros a [= <-]. by exists s. Qed.

Lemma hoare_ok_or {A} (o : option A) (e : DispatchError) : hoare I (ok_or o e : M S A) (λ a, o = Some a).
Proof. intros s HI. destruct o; (split; [done|]); by intros ? [= <-]. Qed.

Lemma hoare_unwrap {A} (o : option A) : hoare I (unwrap o : M S A) (λ a, o = Some a).
Proof. intros s HI. destruct o; (split; [done|]); by intros ? [= <-]. Qed.

Lemma hoare_ensure (b : bool) (e : DispatchError) : hoare I (ensure b e : M S unit) (λ _, b = true).
Proof. intros s HI. by destruct b. Qed.

Lemma hoare_try_get {K V} `{Countable K} (fld : S → gmap K V) k (e : DispatchError) :
  hoare I (try_get fld k e) (λ v, ∃ s, I s ∧ fld s !! k = Some v).
Proof.
  intros s HI. unfold try_get, gets, mbind, M_bind. destruct (fld s !! k) as [v|] eqn:Hv; (split; [done|]);
    intros ? [= <-]. by exists s.
Qed.

Lemma hoare_modify (f : S → S) : (∀ s, I s → I (f s)) → hoare I (modify f) (λ _, True).
Proof. intros Hf s HI. split; [by apply Hf|done]. Qed.

Lemma hoare_catch {A} (m : M S A) Q : hoare I m Q → hoare I (catch m) (λ _, True).
Proof. intros Hm s HI. destruct (Hm s HI) as [HI1 _]. unfold catch. by destruct (m s) as [s1 [a|e|]]. Qed.

Lemma hoare_transactional {A} (m : M S A) Q : hoare I m Q → hoare I (transactional m) Q.
Proof. intros Hm s HI. destruct (Hm s HI) as [HI1 HQ]. unfold transactional. by destruct (m s) as [s1 [a|e|]]. Qed.

Lemma hoare_if {A} (b : bool) (m1 m2 : M S A) Q :
  (b = true → hoare I m1 Q) → (b = false → hoare I m2 Q) → hoare I (if b then m1 else m2) Q.
Proof. destruct b; auto. Qed.

Lemma hoare_for_each {A} (l : list A) (f : A → M S unit) P :
  Forall P l → (∀ a, P a → hoare I (f a) (λ _, True)) → hoare I (for_each l f) (λ _, True).
Proof.
  intros Hl Hf. induction Hl as [|a l Ha Hl IH]; [by apply hoare_ret|]. cbn [for_each].
  eapply hoare_bind; [by apply Hf|done].
Qed.

Lemma hoare_fold_m {A E} (f : A → E → M S A) l P (Q : A → Prop) :
  Forall P l → (∀ a e, Q a → P e → hoare I (f a e) Q) → ∀ a, Q a → hoare I (fold_m f a l) Q.
Proof.
  intros Hl Hf. induction Hl as [|e l He Hl IH]; intros a Ha; [by apply hoare_ret|]. cbn [fold_m].
  eapply hoare_bind; [by apply Hf|done].
Qed.

Lemma hoare_try_mutate {K V R} `{Countable K} (fld : S → gmap K V) `{!Setter fld} k
    (f : option V → M S (option V * R)) (P : option V → Prop) (Q : R → Prop) :
  (∀ s, I s → P (fld s !! k)) → (∀ o, P o → hoare I (f o) (λ p, P p.1 ∧ Q p.2)) →
  (∀ s o, I s → P o → I (s <| fld ::= partial_alter (λ _, o) k |>)) →
  hoare I (try_mutate fld k f) Q.
Proof.
  intros Hget Hf Hput. eapply (hoare_bind _ _ P).
  { eapply hoare_weaken; [apply hoare_gets|]. intros o (s & HI & ->). auto. }
  intros o Ho. eapply hoare_bind; [by apply Hf|]. intros [v r] [Hv Hr].
  eapply hoare_bind; [|intros _ _; by apply hoare_ret]. apply hoare_modify. auto.
Qed.

Lemma hoare_try_mutate_existing {K V} `{Countable K} (fld : S → gmap K V) `{!Setter fld} k
    (e : DispatchError) (f : V → M S V) (P : V → Prop) :
  (∀ s v, I s → fld s !! k = Some v → P v) → (∀ v, P v → hoare I (f v) P) →
  (∀ s v, I s → P v → I (s <| fld ::= <[k := v]> |>)) →
  hoare I (try_mutate_existing fld k e f) (λ _, True).
Proof.
  intros Hget Hf Hput. apply (hoare_bind _ _ (λ o, ∀ v, o = Some v → P v)).
  { eapply hoare_weaken; [apply hoare_gets|]. intros o (s & HI & ->) v. by apply Hget. }
  intros o Ho. apply (hoare_bind _ _ (λ p, ∃ v, p.1 = Some v ∧ P v)).
  { eapply hoare_bind; [apply hoare_ok_or|]. intros v ->. eapply hoare_bind; [by apply Hf, Ho|].
    intros v' Hv'. apply hoare_ret. by exists v'. }
  intros [v []] (v' & Hv & Hv'). cbn in Hv. subst. eapply hoare_bind; [|intros _ _; by apply hoare_ret].
  apply hoare_modify. intros s HI. by apply (Hput s v').
Qed.

Lemma hoare_loop {A B} p (body : A → M S (A + B)) (P : A → Prop) (Q : B → Prop) :
  (∀ a, P a → hoare I (body a) (λ r, match r with inl a' => P a' | inr b => Q b end)) →
  ∀ a, P a → hoare I (loop_pos p body a) (λ r, match r with inl a' => P a' | inr b => Q b end).
Proof.
  intros Hbody. induction p as [p IH|p IH|]; intros a Ha; cbn [loop_pos]; [| |by apply Hbody].
  - eapply hoare_bind; [by apply Hbody|]. intros [a1|b] H1; [|by apply hoare_ret].
    eapply hoare_bind; [by apply IH|]. intros [a2|b] H2; [by apply IH|by apply hoare_ret].
  - eapply hoare_bind; [by apply IH|]. intros [a2|b] H2; [by apply IH|by apply hoare_ret].
Qed.
End hoare.

(** The head of a computation with the strongest postcondition the rules give it;
    [tac] deals with the operations of a component. *)
Ltac hoare_head tac :=
  lazymatch goal with
  | |- hoare _ (ok_or _ _) _ => apply hoare_ok_or
  | |- hoare _ (unwrap _) _ => apply hoare_unwrap
  | |- hoare _ (gets _) _ => apply hoare_gets
  | |- hoare _ (try_get _ _ _) _ => apply hoare_try_get
  | |- hoare _ (ensure _ _) _ => apply hoare_ensure
  | |- _ => tac
  end.

Ltac hoare_step tac :=
  lazymatch goal with
  | |- hoare _ (transactional _) _ => apply hoare_transactional
  | |- hoare _ (mbind _ _) _ => eapply hoare_bind; [hoare_head tac|cbv beta; intros ? ?]
  | |- hoare _ (if _ then _ else _) _ => apply hoare_if; intros ?
  | |- hoare _ (throw _) _ => apply hoare_throw
  | |- hoare _ panic _ => apply hoare_panic
  | |- hoare _ (let _ := _ in _) _ => cbv zeta
  end.

(** ** Runs that do not panic *)

Definition returns {S A} (m : M S A) (s : S) : Prop := (m s).2 ≠ Panic.

Definition no_panic {S A} (m : M S A) : Prop := ∀ s, returns m s.

Section returns.
Context {S : Type}.

Lemma returns_bind {A B} (m : M S A) (k : A → M S B) s :
  returns m s → (∀ s' a, m s = (s', Ok a) → returns (k a) s') → returns (m ≫= k) s.
Proof.
  unfold returns, mbind, M_bind. destruct (m s) as [s1 [a|e|]]; cbn; intros Hm Hk; [by apply Hk|done|done].
Qed.

Lemma no_panic_bind {A B} (m : M S A) (k : A → M S B) :
  no_panic m → (∀ a, no_panic (k a)) → no_panic (m ≫= k).
Proof. intros Hm Hk s. apply returns_bind; [apply Hm|]. intros. apply Hk. Qed.

Lemma no_panic_ret {A} (a : A) : no_panic (mret a : M S A).
Proof. by intros s ?. Qed.

Lemma no_panic_gets {A} (f : S → A) : no_panic (gets f).
Proof. by intros s ?. Qed.

Lemma no_panic_modify f : no_panic (modify f : M S unit).
Proof. by intros s ?. Qed.

Lemma no_panic_ok_or {A} (o : option A) (e : DispatchError) : no_panic (ok_or o e : M S A).
Proof. intros s. by destruct o. Qed.

Lemma no_panic_ensure b (e : DispatchError) : no_panic (ensure b e : M S unit).
Proof. intros s. by destruct b. Qed.

Lemma no_panic_if {A} (b : bool) (m1 m2 : M S A) : no_panic m1 → no_panic m2 → no_panic (if b then m1 else m2).
Proof. by destruct b. Qed.

Lemma no_panic_for_each {A} (l : list A) (f : A → M S unit) :
  (∀ a, no_panic (f a)) → no_panic (for_each l f).
Proof. intros Hf. induction l as [|a l IH]; [apply no_panic_ret|]. by apply no_panic_bind. Qed.

Lemma no_panic_zoom {X A} (fld : S → X) `{!Setter fld} (m : M X A) : no_panic m → no_panic (zoom fld m).
Proof.
  intros Hm s. specialize (Hm (fld s)). unfold returns, zoom in *. by destruct (m (fld s)).
Qed.
End returns.

#[export] Hint Resolve no_panic_bind no_panic_ret no_panic_gets no_panic_modify no_panic_ok_or no_panic_ensure no_panic_if
  no_panic_for_each no_panic_zoom : frame.

(** ** Loops *)

Section loops.
Context {S A B : Type}.
Implicit Types s : S.

(** An invariant of the rounds and what the last round establishes. *)
Lemma loop_pos_Ok (I : S → A → Prop) (Q : S → B → Prop) (body : A → M S (A + B)) p a s s' r :
  (∀ a s s' r, I s a → body a s = (s', Ok r) →
     match r with inl a' => I s' a' | inr b => Q s' b end) →
  I s a → loop_pos p body a s = (s', Ok r) →
  match r with inl a' => I s' a' | inr b => Q s' b end.
Proof.
  intros Hbody. revert a s s' r. induction p as [p IH|p IH|]; intros a s s' r HI Hrun;
    cbn [loop_pos] in Hrun; [| |by eapply Hbody].
  - apply bind_Ok in Hrun as (s1 & r1 & Hb & Hrun). apply (Hbody _ _ _ _ HI) in Hb.
    destruct r1 as [a1|b]; [|apply ret_Ok in Hrun as [-> ->]; done].
    apply bind_Ok in Hrun as (s2 & r2 & Hl & Hrun). apply (IH _ _ _ _ Hb) in Hl.
    destruct r2 as [a2|b]; [by eapply IH|]. apply ret_Ok in Hrun as [-> ->]. done.
  - apply bind_Ok in Hrun as (s2 & r2 & Hl & Hrun). apply (IH _ _ _ _ HI) in Hl.
    destruct r2 as [a2|b]; [by eapply IH|]. apply ret_Ok in Hrun as [-> ->]. done.
Qed.

Lemma fold_m_read_only {E} (f : A → E → M S A) a l :
  (∀ a e, read_only (f a e)) → read_only (fold_m f a l).
Proof.
  intros Hf. revert a. induction l as [|e l IH]; intros a; [apply read_only_ret|]. by apply read_only_bind.
Qed.

Lemma loop_pos_read_only (body : A → M S (A + B)) p a :
  (∀ a, read_only (body a)) → read_only (loop_pos p body a).
Proof.
  intros Hbody. revert a. induction p as [p IH|p IH|]; intros a; cbn [loop_pos]; [| |done].
  - apply read_only_bind; [done|]. intros [a1|b]; [|apply read_only_ret].
    apply read_only_bind; [done|]. intros [a2|b]; [done|apply read_only_ret].
  - apply read_only_bind; [done|]. intros [a2|b]; [done|apply read_only_ret].
Qed.

(** A loop that leaves in its first round. *)
Lemma loop_pos_first (body : A → M S (A + B)) p a s :
  (∀ a', (body a s).2 ≠ Ok (inl a')) → loop_pos p body a s = body a s.
Proof.
  intros Hne. induction p as [p IH|p IH|]; cbn [loop_pos]; [| |done];
    unfold mbind, M_bind, mret, M_ret; rewrite ?IH;
    destruct (body a s) as [s1 [[a1|b]|e|]]; try done; by destruct (Hne a1).
Qed.

(** A loop whose rounds return and lower a measure leaves within the measure's
    value of rounds. *)
Lemma loop_pos_measure (I : S → A → Prop) (m : A → Z) (body : A → M S (A + B)) p a s :
  (∀ a s, I s a → returns (body a) s ∧
     ∀ s' a', body a s = (s', Ok (inl a')) → I s' a' ∧ 0 <= m a' < m a) →
  I s a → 0 <= m a →
  returns (loop_pos p body a) s ∧
  ∀ s' a', loop_pos p body a s = (s', Ok (inl a')) → I s' a' ∧ 0 <= m a' ∧ m a' + Zpos p <= m a.
Proof.
  intros Hbody. revert a s. induction p as [p IH|p IH|]; intros a s HI Hm; cbn [loop_pos].
  - destruct (Hbody _ _ HI) as [Hr Hin]. split.
    + apply returns_bind; [done|]. intros s1 [a1|b] Hb; [|by intros ?].
      destruct (Hin _ _ Hb) as [HI1 Hm1]. destruct (IH a1 s1 HI1) as [Hr1 Hin1]; [lia|].
      apply returns_bind; [done|]. intros s2 [a2|b] Hl; [|by intros ?].
      destruct (Hin1 _ _ Hl) as (HI2 & ? & ?). by apply IH.
    + intros s' a' Hrun. apply bind_Ok in Hrun as (s1 & r1 & Hb & Hrun). destruct r1 as [a1|b]; [|by inv_ok].
      destruct (Hin _ _ Hb) as [HI1 Hm1]. apply bind_Ok in Hrun as (s2 & r2 & Hl & Hrun).
      destruct r2 as [a2|b]; [|by inv_ok]. apply IH in Hl as (HI2 & ? & ?); [|done|lia].
      apply IH in Hrun as (HI3 & ? & ?); [|done|lia]. split_and!; [done|lia..].
  - destruct (IH a s HI Hm) as [Hr Hin]. split.
    + apply returns_bind; [done|]. intros s2 [a2|b] Hl; [|by intros ?].
      destruct (Hin _ _ Hl) as (HI2 & ? & ?). by apply IH.
    + intros s' a' Hrun. apply bind_Ok in Hrun as (s2 & r2 & Hl & Hrun).
      destruct r2 as [a2|b]; [|by inv_ok]. apply Hin in Hl as (HI2 & ? & ?).
      apply IH in Hrun as (HI3 & ? & ?); [|done|lia]. split_and!; [done|lia..].
  - destruct (Hbody _ _ HI) as [Hr Hin]. split; [done|]. intros s' a' Hb.
    apply Hin in Hb as [? ?]. split_and!; [done|lia..].
Qed.

Lemma fold_m_returns {E} (I : A → Prop) (body : A → E → M S A) l a s :
  (∀ a e s, I a → returns (body a e) s ∧ ∀ s' a', body a e s = (s', Ok a') → I a') →
  I a → returns (fold_m body a l) s ∧ ∀ s' a', fold_m body a l s = (s', Ok a') → I a'.
Proof.
  intros Hbody. revert a s. induction l as [|e l IH]; intros a s HI; cbn [fold_m].
  - split; [by intros ?|]. intros s' a' [-> ->]%ret_Ok. done.
  - destruct (Hbody a e s HI) as [Hr Hin]. split.
    + apply returns_bind; [done|]. intros s1 a1 H1. by apply IH, (Hin _ _ H1).
    + intros s' a' Hrun. apply bind_Ok in Hrun as (s1 & a1 & H1 & Hrun).
      by apply (IH _ _ (Hin _ _ H1)) in Hrun.
Qed.

(** So the branch for a loop that used up its rounds is never taken. *)
Lemma loop_pos_returns {C} (I : S → A → Prop) (m : A → Z) (body : A → M S (A + B)) p a s
    (k : A + B → M S C) :
  (∀ a s, I s a → returns (body a) s ∧
     ∀ s' a', body a s = (s', Ok (inl a')) → I s' a' ∧ 0 <= m a' < m a) →
  I s a → 0 <= m a < Zpos p →
  (∀ s' b, loop_pos p body a s = (s', Ok (inr b)) → returns (k (inr b)) s') →
  returns (loop_pos p body a ≫= k) s.
Proof.
  intros Hbody HI Hm Hk. destruct (loop_pos_measure I m body p a s Hbody HI) as [Hr Hin]; [lia|].
  apply returns_bind; [done|]. intros s1 [a1|b] Hl; [|by apply Hk].
  apply Hin in Hl as (_ & ? & ?). lia.
Qed.
End loops.

#[export] Hint Resolve loop_pos_read_only fold_m_read_only : frame.

(** Reading another component. *)
Lemma read_only_zoom {S X A} (fld : S → X) `{!Setter fld} (m : M X A) :
  (∀ s, s <| fld := fld s |> = s) → read_only m → read_only (zoom fld m).
Proof.
  intros Hset Hm s s' r. unfold zoom. destruct (m (fld s)) as [x r'] eqn:Hrun.
  apply Hm in Hrun as ->. intros [= <- <-]. apply Hset.
Qed.

(** Loops run up to 2^32 rounds: conversion unfolds them last. *)
Strategy 1000 [loop_pos].
