(* ===== verification/Common.v ===== *)
(** * Shared primitives

    [src/primitives/common/src/lib.rs]: the size constants, the characters a
    bucket name may use, and the conversion of byte slices to hashes; and the
    units of time of [src/runtime/src/lib.rs], in blocks. *)
From S2P Require Import Prelude Errors Frame.

Definition M_BYTE : Z := 1048576.
Definition G_BYTE : Z := 1048576 * 1024.
Definition T_BYTE : Z := 1048576 * 1024 * 1024.

Definition SEGMENT_SIZE : Z := M_BYTE * 16.
Definition FRAGMENT_SIZE : Z := M_BYTE * 8.
Definition CHUNK_COUNT : Z := 1024.

(** Time, in blocks. *)
Definition MILLISECS_PER_BLOCK : Z := 6000.
Definition MINUTES : Z := 60000 / MILLISECS_PER_BLOCK.
Definition HOURS : Z := MINUTES * 60.
Definition DAYS : Z := HOURS * 24.
Definition EPOCH_DURATION_IN_BLOCKS : Z := HOURS.

(** A byte is a [Z]; [bytes_of s] is [s.as_bytes()]. *)
Definition byte_of (c : Ascii.ascii) : Z := Z.of_N (Ascii.N_of_ascii c).
Definition bytes_of (s : string) : list Z := byte_of <$> String.list_ascii_of_string s.

Definition BUCKET_ALLOW_CHAR : list Z :=
  bytes_of "abcdefghigklmnopqrstuvwxyzABCDEFGHIGKLMNOPQRSTUVWXYZ0123456789-_.".

Definition NUMBER : list Z := bytes_of "0123456789".

Inductive DataType := DataFile | DataFiller.

Inductive IpAddress :=
| IPV4 (addr : list Z) (port : Z)
| IPV6 (addr : list Z) (port : Z).

(** [Hash::slice_to_array_64] and [Hash::from_shard_id]; the error carries no
    information.  Slicing a [[u8; 68]] cannot fail, a shorter list panics. *)
Definition slice_to_array_64 (slice : list Z) : result unit (list Z) :=
  if (length slice =? 64)%nat then Ok slice else Err ().

Definition from_shard_id (shard_id : list Z) : result unit (list Z) :=
  if (length shard_id <? 64)%nat then Panic else slice_to_array_64 (take 64 shard_id).

Lemma from_shard_id_spec shard_id :
  length shard_id = 68%nat → from_shard_id shard_id = Ok (take 64 shard_id).
Proof.
  intros Hl. unfold from_shard_id, slice_to_array_64. rewrite Hl. cbn.
  rewrite length_take, Hl. done.
Qed.
