(* ===== verification/StorageHandler.v ===== *)
(** * The storage-handler pallet

    [src/c-pallets/storage-handler/src/lib.rs] and [types.rs]: the space a user
    has bought and how much of it is used, locked by a pending deal or free; the
    totals of idle, service and purchased space of the network; leases and their
    expiry.  Weights and log output are left out. *)
From S2P Require Import Prelude Errors Frame Common.

(** ** Data *)

Definition SPACE_NORMAL : string := "normal".
Definition SPACE_FROZEN : string := "frozen".
Definition SPACE_DEAD : string := "dead".

Class Config := {
  OneDay : BlockNumber;
  FilbakPallet : AccountId;
  TreasuryPallet : AccountId;
  StateStringMax : Z;
  FrozenDays : BlockNumber
}.

Inductive Event :=
| BuySpace (acc : AccountId) (storage_capacity : Z) (spend : Balance)
| ExpansionSpace (acc : AccountId) (expansion_space : Z) (fee : Balance)
| RenewalSpace (acc : AccountId) (renewal_days : Z) (fee : Balance)
| LeaseExpired (acc : AccountId) (size : Z)
| LeaseExpireIn24Hours (acc : AccountId) (size : Z).

Record OwnedSpaceDetails := mkOwnedSpaceDetails {
  total_space : Z;
  used_space : Z;
  locked_space : Z;
  remaining_space : Z;
  start : BlockNumber;
  deadline : BlockNumber;
  state : string
}.
#[export] Instance set_osd_total_space : Setter (total_space) := λ f r,
  mkOwnedSpaceDetails (f (total_space r)) (used_space r) (locked_space r) (remaining_space r) (start r) (deadline r) (state r).
#[export] Instance set_osd_used_space : Setter (used_space) := λ f r,
  mkOwnedSpaceDetails (total_space r) (f (used_space r)) (locked_space r) (remaining_space r) (start r) (deadline r) (state r).
#[export] Instance set_osd_locked_space : Setter (locked_space) := λ f r,
  mkOwnedSpaceDetails (total_space r) (used_space r) (f (locked_space r)) (remaining_space r) (start r) (deadline r) (state r).
#[export] Instance set_osd_remaining_space : Setter (remaining_space) := λ f r,
  mkOwnedSpaceDetails (total_space r) (used_space r) (locked_space r) (f (remaining_space r)) (start r) (deadline r) (state r).
#[export] Instance set_osd_start : Setter (start) := λ f r,
  mkOwnedSpaceDetails (total_space r) (used_space r) (locked_space r) (remaining_space r) (f (start r)) (deadline r) (state r).
#[export] Instance set_osd_deadline : Setter (deadline) := λ f r,
  mkOwnedSpaceDetails (total_space r) (used_space r) (locked_space r) (remaining_space r) (start r) (f (deadline r)) (state r).
#[export] Instance set_osd_state : Setter (state) := λ f r,
  mkOwnedSpaceDetails (total_space r) (used_space r) (locked_space r) (remaining_space r) (start r) (deadline r) (f (state r)).

(** The pallet's storage, with the balances and the block number of the chain. *)
Record State (B : Type) := mkState {
  UserOwnedSpace : gmap AccountId OwnedSpaceDetails;
  UnitPrice : option Balance;
  TotalIdleSpace : Z;
  TotalServiceSpace : Z;
  PurchasedSpace : Z;
  balances : B;
  block_number : BlockNumber;
  events : list Event
}.
Arguments mkState {B} _ _ _ _ _ _ _ _.
Arguments UserOwnedSpace {B} _.
Arguments UnitPrice {B} _.
Arguments TotalIdleSpace {B} _.
Arguments TotalServiceSpace {B} _.
Arguments PurchasedSpace {B} _.
Arguments balances {B} _.
Arguments block_number {B} _.
Arguments events {B} _.
#[export] Instance set_sh_UserOwnedSpace {B : Type} : Setter (@UserOwnedSpace B) := λ f r,
  mkState (f (UserOwnedSpace r)) (UnitPrice r) (TotalIdleSpace r) (TotalServiceSpace r) (PurchasedSpace r) (balances r) (block_number r) (events r).
#[export] Instance set_sh_UnitPrice {B : Type} : Setter (@UnitPrice B) := λ f r,
  mkState (UserOwnedSpace r) (f (UnitPrice r)) (TotalIdleSpace r) (TotalServiceSpace r) (PurchasedSpace r) (balances r) (block_number r) (events r).
#[export] Instance set_sh_TotalIdleSpace {B : Type} : Setter (@TotalIdleSpace B) := λ f r,
  mkState (UserOwnedSpace r) (UnitPrice r) (f (TotalIdleSpace r)) (TotalServiceSpace r) (PurchasedSpace r) (balances r) (block_number r) (events r).
#[export] Instance set_sh_TotalServiceSpace {B : Type} : Setter (@TotalServiceSpace B) := λ f r,
  mkState (UserOwnedSpace r) (UnitPrice r) (TotalIdleSpace r) (f (TotalServiceSpace r)) (PurchasedSpace r) (balances r) (block_number r) (events r).
#[export] Instance set_sh_PurchasedSpace {B : Type} : Setter (@PurchasedSpace B) := λ f r,
  mkState (UserOwnedSpace r) (UnitPrice r) (TotalIdleSpace r) (TotalServiceSpace r) (f (PurchasedSpace r)) (balances r) (block_number r) (events r).
#[export] Instance set_sh_balances {B : Type} : Setter (@balances B) := λ f r,
  mkState (UserOwnedSpace r) (UnitPrice r) (TotalIdleSpace r) (TotalServiceSpace r) (PurchasedSpace r) (f (balances r)) (block_number r) (events r).
#[export] Instance set_sh_block_number {B : Type} : Setter (@block_number B) := λ f r,
  mkState (UserOwnedSpace r) (UnitPrice r) (TotalIdleSpace r) (TotalServiceSpace r) (PurchasedSpace r) (balances r) (f (block_number r)) (events r).
#[export] Instance set_sh_events {B : Type} : Setter (@events B) := λ f r,
  mkState (UserOwnedSpace r) (UnitPrice r) (TotalIdleSpace r) (TotalServiceSpace r) (PurchasedSpace r) (balances r) (block_number r) (f (events r)).

(** ** Operations *)

Section operations.
Context {B : Type} `{!Currency B} `{!Config} `{!StorageIter}.
Abbreviation MS := (M (State B)).

Definition deposit_event (e : Event) : MS unit :=
  modify (λ s, s <| events ::= λ l, l ++ [e] |>).

Definition to_state (s : string) : MS string :=
  ok_or (str_try_into_bounded StateStringMax s) StorageHandlerError.BoundedVecError.

(** [helper: update_puchased_package] *)
Definition update_puchased_package (acc : AccountId) (days : Z) : MS unit :=
  try_mutate_existing UserOwnedSpace acc StorageHandlerError.NotPurchasedSpace (λ s,
    now ← gets block_number;
    sur_block ← ok_or (checked_mul 32 OneDay (saturated_into 32 days)) StorageHandlerError.Overflow;
    s ← (if s.(deadline) <? now then
           let s := s <| start := now |> in
           d ← ok_or (checked_add 32 now sur_block) StorageHandlerError.Overflow;
           mret (s <| deadline := d |>)
         else
           d ← ok_or (checked_add 32 s.(deadline) sur_block) StorageHandlerError.Overflow;
           mret (s <| deadline := d |>));
    if now <? s.(deadline) then
      st ← to_state SPACE_NORMAL;
      mret (s <| state := st |>)
    else mret s).

(** [helper: Expand storage space] *)
Definition expension_puchased_package (acc : AccountId) (space : Z) : MS unit :=
  try_mutate_existing UserOwnedSpace acc StorageHandlerError.NotPurchasedSpace (λ s,
    r ← ok_or (checked_add 128 s.(remaining_space) space) StorageHandlerError.Overflow;
    let s := s <| remaining_space := r |> in
    t ← ok_or (checked_add 128 s.(total_space) space) StorageHandlerError.Overflow;
    mret (s <| total_space := t |>)).

(** [helper: Initial purchase space initialization method] *)
Definition add_user_purchased_space (acc : AccountId) (space days : Z) : MS unit :=
  now ← gets block_number;
  sur_block ← ok_or (checked_mul 32 OneDay (saturated_into 32 days)) StorageHandlerError.Overflow;
  deadline ← ok_or (checked_add 32 now sur_block) StorageHandlerError.Overflow;
  st ← to_state SPACE_NORMAL;
  insert_at UserOwnedSpace acc
    {| total_space := space; used_space := 0; locked_space := 0; remaining_space := space;
       start := now; deadline := deadline; state := st |}.

(** [helper: update user storage space]; operation 1 adds to the used space,
    operation 2 subtracts from it. *)
Definition update_user_space (acc : AccountId) (operation size : Z) : MS unit :=
  if operation =? 1 then
    try_mutate_existing UserOwnedSpace acc StorageHandlerError.NotPurchasedSpace (λ s,
      if String.eqb s.(state) SPACE_FROZEN then throw StorageHandlerError.LeaseFreeze else
      if s.(remaining_space) <? size then throw StorageHandlerError.InsufficientStorage else
      u ← ok_or (checked_add 128 s.(used_space) size) StorageHandlerError.Overflow;
      let s := s <| used_space := u |> in
      r ← ok_or (checked_sub s.(remaining_space) size) StorageHandlerError.Overflow;
      mret (s <| remaining_space := r |>))
  else if operation =? 2 then
    try_mutate UserOwnedSpace acc (λ s_opt,
      s ← unwrap s_opt;
      u ← ok_or (checked_sub s.(used_space) size) StorageHandlerError.Overflow;
      let s := s <| used_space := u |> in
      r ← ok_or (checked_sub s.(total_space) s.(used_space)) StorageHandlerError.Overflow;
      mret (Some (s <| remaining_space := r |>), ()))
  else throw StorageHandlerError.WrongOperation.

(** One round of the loop of [frozen_task]: [acc] and [info] come from the
    iterator, the result says whether [acc] goes on the list of users to clear. *)
Definition set_lease_state (acc : AccountId) (st : string) : MS unit :=
  try_mutate_existing UserOwnedSpace acc StorageHandlerError.NotPurchasedSpace (λ s,
    st ← to_state st;
    mret (s <| state := st |>)).

Definition frozen_check (now : BlockNumber) (acc : AccountId) (info : OwnedSpaceDetails) : MS bool :=
  if info.(deadline) <? now then
    if wrapping_add 32 info.(deadline) FrozenDays <? now then
      catch (set_lease_state acc SPACE_DEAD) ;; mret true
    else if negb (String.eqb info.(state) SPACE_FROZEN) then
      catch (set_lease_state acc SPACE_FROZEN) ;; mret false
    else mret false
  else mret false.

Fixpoint frozen_loop (now : BlockNumber) (l : list (AccountId * OwnedSpaceDetails))
    (clear_acc_list : list AccountId) : MS (list AccountId) :=
  match l with
  | [] => mret clear_acc_list
  | (acc, info) :: l =>
      clear ← frozen_check now acc info;
      frozen_loop now l (if clear : bool then clear_acc_list ++ [acc] else clear_acc_list)
  end.

Definition frozen_task : MS (list AccountId) :=
  now ← gets block_number;
  l ← gets (λ s, iter_storage (UserOwnedSpace s));
  frozen_loop now l [].

Definition lock_user_space (acc : AccountId) (needed_space : Z) : MS unit :=
  try_mutate_existing UserOwnedSpace acc StorageHandlerError.NotPurchasedSpace (λ s,
    if String.eqb s.(state) SPACE_FROZEN then throw StorageHandlerError.LeaseFreeze else
    if s.(remaining_space) <? needed_space then throw StorageHandlerError.InsufficientStorage else
    l ← ok_or (checked_add 128 s.(locked_space) needed_space) StorageHandlerError.Overflow;
    let s := s <| locked_space := l |> in
    r ← ok_or (checked_sub s.(remaining_space) needed_space) StorageHandlerError.Overflow;
    mret (s <| remaining_space := r |>)).

Definition unlock_user_space (acc : AccountId) (needed_space : Z) : MS unit :=
  try_mutate_existing UserOwnedSpace acc StorageHandlerError.NotPurchasedSpace (λ s,
    l ← ok_or (checked_sub s.(locked_space) needed_space) StorageHandlerError.Overflow;
    let s := s <| locked_space := l |> in
    r ← ok_or (checked_add 128 s.(remaining_space) needed_space) StorageHandlerError.Overflow;
    mret (s <| remaining_space := r |>)).

Definition unlock_and_used_user_space (acc : AccountId) (needed_space : Z) : MS unit :=
  try_mutate_existing UserOwnedSpace acc StorageHandlerError.NotPurchasedSpace (λ s,
    l ← ok_or (checked_sub s.(locked_space) needed_space) StorageHandlerError.Overflow;
    let s := s <| locked_space := l |> in
    u ← ok_or (checked_add 128 s.(used_space) needed_space) StorageHandlerError.Overflow;
    mret (s <| used_space := u |>)).

Definition check_user_space (acc : AccountId) (needed_space : Z) : MS bool :=
  user_storage ← try_get UserOwnedSpace acc StorageHandlerError.NotPurchasedSpace;
  mret (needed_space <=? user_storage.(remaining_space)).

(** Get the available space on the current chain. *)
Definition get_total_space : MS Z :=
  purchased_space ← gets PurchasedSpace;
  idle ← gets TotalIdleSpace;
  service ← gets TotalServiceSpace;
  total_space ← ok_or (checked_add 128 idle service) StorageHandlerError.Overflow;
  if total_space <? purchased_space then mret 0
  else ok_or (checked_sub total_space purchased_space) StorageHandlerError.Overflow.

Definition add_total_idle_space (increment : Z) : MS unit :=
  v ← gets TotalIdleSpace;
  v ← ok_or (checked_add 128 v increment) StorageHandlerError.Overflow;
  put TotalIdleSpace v.

Definition add_total_service_space (increment : Z) : MS unit :=
  v ← gets TotalServiceSpace;
  v ← ok_or (checked_add 128 v increment) StorageHandlerError.Overflow;
  put TotalServiceSpace v.

Definition sub_total_idle_space (decrement : Z) : MS unit :=
  v ← gets TotalIdleSpace;
  v ← ok_or (checked_sub v decrement) StorageHandlerError.Overflow;
  put TotalIdleSpace v.

Definition sub_total_service_space (decrement : Z) : MS unit :=
  v ← gets TotalServiceSpace;
  v ← ok_or (checked_sub v decrement) StorageHandlerError.Overflow;
  put TotalServiceSpace v.

(** The comparison uses the wrapping [+]. *)
Definition add_purchased_space (size : Z) : MS unit :=
  purchased_space ← gets PurchasedSpace;
  idle ← gets TotalIdleSpace;
  service ← gets TotalServiceSpace;
  total_space ← ok_or (checked_add 128 idle service) StorageHandlerError.Overflow;
  (if total_space <? wrapping_add 128 purchased_space size
   then throw StorageHandlerError.InsufficientAvailableSpace else mret ()) ;;
  v ← ok_or (checked_add 128 purchased_space size) StorageHandlerError.Overflow;
  put PurchasedSpace v.

Definition sub_purchased_space (size : Z) : MS unit :=
  v ← gets PurchasedSpace;
  v ← ok_or (checked_sub v size) StorageHandlerError.Overflow;
  put PurchasedSpace v.

Definition get_user_avail_space (acc : AccountId) : MS Z :=
  info ← try_get UserOwnedSpace acc StorageHandlerError.NotPurchasedSpace;
  mret info.(remaining_space).

Definition delete_user_space_storage (acc : AccountId) : MS unit :=
  space_info ← try_get UserOwnedSpace acc StorageHandlerError.NotPurchasedSpace;
  sub_purchased_space space_info.(total_space) ;;
  remove_at UserOwnedSpace acc.

(** ** Dispatchables *)

Definition get_unit_price : MS Balance :=
  o ← gets UnitPrice; ok_or o StorageHandlerError.BugInvalid.

(** [ensure!(can_slash(..))] and the transfer of the price to the pallet. *)
Definition ensure_balance (who : AccountId) (price : Balance) : MS unit :=
  b ← gets balances; ensure (can_slash b who price) StorageHandlerError.InsufficientBalance.

Definition pay (who : AccountId) (price : Balance) : MS unit :=
  lift_field balances (transfer_keep_alive who FilbakPallet price).

Definition buy_space (origin : Origin) (gib_count : Z) : MS unit := transactional (
  sender ← ensure_signed origin;
  exists_ ← contains_key UserOwnedSpace sender;
  ensure (negb exists_) StorageHandlerError.PurchasedSpace ;;
  space ← ok_or (checked_mul 128 G_BYTE gib_count) StorageHandlerError.Overflow;
  unit_price ← get_unit_price;
  add_user_purchased_space sender space 30 ;;
  add_purchased_space space ;;
  price ← ok_or (checked_mul 128 unit_price gib_count) StorageHandlerError.Overflow;
  ensure_balance sender price ;;
  pay sender price ;;
  deposit_event (BuySpace sender space price)).

Definition expansion_space (origin : Origin) (gib_count : Z) : MS unit := transactional (
  sender ← ensure_signed origin;
  cur_owned_space ← try_get UserOwnedSpace sender StorageHandlerError.NotPurchasedSpace;
  now ← gets block_number;
  ensure (now <? cur_owned_space.(deadline)) StorageHandlerError.LeaseExpired ;;
  ensure (negb (String.eqb cur_owned_space.(state) SPACE_FROZEN)) StorageHandlerError.LeaseFreeze ;;
  unit_price ← get_unit_price;
  day_unit_price ← ok_or (checked_div unit_price 30) StorageHandlerError.Overflow;
  space ← ok_or (checked_mul 128 G_BYTE gib_count) StorageHandlerError.Overflow;
  diff_block ← ok_or (checked_sub cur_owned_space.(deadline) now) StorageHandlerError.Overflow;
  remain_day ← ok_or (checked_div diff_block OneDay) StorageHandlerError.Overflow;
  remain_day ← (if negb (diff_block mod OneDay =? 0)
                then ok_or (checked_add 32 remain_day 1) StorageHandlerError.Overflow
                else mret remain_day);
  price ← ok_or (checked_mul 128 day_unit_price gib_count) StorageHandlerError.Overflow;
  price ← ok_or (checked_mul 128 price remain_day) StorageHandlerError.Overflow;
  ensure_balance sender price ;;
  add_purchased_space space ;;
  expension_puchased_package sender space ;;
  pay sender price ;;
  deposit_event (ExpansionSpace sender space price)).

Definition renewal_space (origin : Origin) (days : Z) : MS unit := transactional (
  sender ← ensure_signed origin;
  cur_owned_space ← try_get UserOwnedSpace sender StorageHandlerError.NotPurchasedSpace;
  ensure (negb (String.eqb cur_owned_space.(state) SPACE_DEAD)) StorageHandlerError.LeaseExpired ;;
  unit_price ← get_unit_price;
  days_unit_price ← ok_or (checked_div unit_price 30) StorageHandlerError.Overflow;
  gib_count ← ok_or (checked_div cur_owned_space.(total_space) G_BYTE) StorageHandlerError.Overflow;
  price ← ok_or (checked_mul 128 days_unit_price gib_count) StorageHandlerError.Overflow;
  price ← ok_or (checked_mul 128 price days) StorageHandlerError.Overflow;
  ensure_balance sender price ;;
  pay sender price ;;
  update_puchased_package sender days ;;
  deposit_event (RenewalSpace sender days price)).

Definition update_price (origin : Origin) : MS unit := transactional (
  ensure_root origin ;;
  put UnitPrice (Some 30)).

(** [GenesisConfig::build] on the balances and block the chain starts with. *)
Definition genesis (price : Balance) (b : B) : State B :=
  {| UserOwnedSpace := ∅; UnitPrice := Some price; TotalIdleSpace := 0; TotalServiceSpace := 0;
     PurchasedSpace := 0; balances := b; block_number := 0; events := [] |}.
End operations.

(** ** What a successful operation does *)

Section specs.
Context {B : Type} `{!Currency B} `{!Config} `{!StorageIter}.
Implicit Types (s : State B) (acc : AccountId) (d : OwnedSpaceDetails).

Lemma to_state_Ok st s s' st' :
  to_state st s = (s', Ok st') ↔
  s' = s ∧ st' = st ∧ Z.of_nat (String.length st) <= StateStringMax.
Proof.
  unfold to_state, str_try_into_bounded. rewrite ok_or_Ok. case_match; naive_solver lia.
Qed.

Lemma lock_user_space_Ok acc n s s' u :
  lock_user_space acc n s = (s', Ok u) ↔
  ∃ d, UserOwnedSpace s !! acc = Some d ∧ state d ≠ SPACE_FROZEN ∧
       n <= remaining_space d ∧ locked_space d + n < 2 ^ 128 ∧
       s' = s <| UserOwnedSpace ::= <[acc := d <| locked_space := locked_space d + n |>
                                              <| remaining_space := remaining_space d - n |>]> |>.
Proof.
  unfold lock_user_space. rewrite try_mutate_existing_Ok. split.
  - intros (d & d' & s1 & Hd & Hrun & ->). exists d.
    destruct (String.eqb_spec (state d) SPACE_FROZEN); [by inv_ok|].
    destruct (Z.ltb_spec (remaining_space d) n); inv_ok. cbn in *. by split_and!.
  - intros (d & Hd & Hst & Hn & Hl & ->). do 3 eexists. split_and!; [done| |done].
    destruct (String.eqb_spec (state d) SPACE_FROZEN); [done|].
    destruct (Z.ltb_spec (remaining_space d) n); [lia|].
    run_ok; cbn; lia.
Qed.

Lemma unlock_user_space_Ok acc n s s' u :
  unlock_user_space acc n s = (s', Ok u) ↔
  ∃ d, UserOwnedSpace s !! acc = Some d ∧
       n <= locked_space d ∧ remaining_space d + n < 2 ^ 128 ∧
       s' = s <| UserOwnedSpace ::= <[acc := d <| locked_space := locked_space d - n |>
                                              <| remaining_space := remaining_space d + n |>]> |>.
Proof.
  unfold unlock_user_space. rewrite try_mutate_existing_Ok. split.
  - intros (d & d' & s1 & Hd & Hrun & ->). exists d. inv_ok. cbn in *. done.
  - intros (d & Hd & Hn & Hl & ->). do 3 eexists. split_and!; [done| |done].
    run_ok; cbn; lia.
Qed.

Lemma unlock_and_used_user_space_Ok acc n s s' u :
  unlock_and_used_user_space acc n s = (s', Ok u) ↔
  ∃ d, UserOwnedSpace s !! acc = Some d ∧
       n <= locked_space d ∧ used_space d + n < 2 ^ 128 ∧
       s' = s <| UserOwnedSpace ::= <[acc := d <| locked_space := locked_space d - n |>
                                              <| used_space := used_space d + n |>]> |>.
Proof.
  unfold unlock_and_used_user_space. rewrite try_mutate_existing_Ok. split.
  - intros (d & d' & s1 & Hd & Hrun & ->). exists d. inv_ok. cbn in *. done.
  - intros (d & Hd & Hn & Hl & ->). do 3 eexists. split_and!; [done| |done].
    run_ok; cbn; lia.
Qed.

Lemma update_user_space_1_Ok acc n s s' u :
  update_user_space acc 1 n s = (s', Ok u) ↔
  ∃ d, UserOwnedSpace s !! acc = Some d ∧ state d ≠ SPACE_FROZEN ∧
       n <= remaining_space d ∧ used_space d + n < 2 ^ 128 ∧
       s' = s <| UserOwnedSpace ::= <[acc := d <| used_space := used_space d + n |>
                                              <| remaining_space := remaining_space d - n |>]> |>.
Proof.
  unfold update_user_space. cbn [Z.eqb Pos.eqb]. rewrite try_mutate_existing_Ok. split.
  - intros (d & d' & s1 & Hd & Hrun & ->). exists d.
    destruct (String.eqb_spec (state d) SPACE_FROZEN); [by inv_ok|].
    destruct (Z.ltb_spec (remaining_space d) n); inv_ok. cbn in *. by split_and!.
  - intros (d & Hd & Hst & Hn & Hl & ->). do 3 eexists. split_and!; [done| |done].
    destruct (String.eqb_spec (state d) SPACE_FROZEN); [done|].
    destruct (Z.ltb_spec (remaining_space d) n); [lia|].
    run_ok; cbn; lia.
Qed.

(** Operation 2 sets the remaining space to [total - used]: what is locked by
    pending deals is not taken off. *)
Lemma update_user_space_2_Ok acc n s s' u :
  update_user_space acc 2 n s = (s', Ok u) ↔
  ∃ d, UserOwnedSpace s !! acc = Some d ∧ n <= used_space d ∧
       used_space d - n <= total_space d ∧
       s' = s <| UserOwnedSpace ::= <[acc := d <| used_space := used_space d - n |>
                     <| remaining_space := total_space d - (used_space d - n) |>]> |>.
Proof.
  unfold update_user_space. cbn [Z.eqb Pos.eqb]. rewrite try_mutate_Ok. split.
  - intros (s1 & d' & Hrun & ->). inv_ok. cbn in *. simplify_eq. eexists. by split_and!.
  - intros (d & Hd & Hn & Hl & ->). destruct u. eexists s, (Some _). split; [|done].
    rewrite Hd. run_ok; cbn; lia.
Qed.

Lemma update_user_space_other acc op n s s' u :
  op ≠ 1 → op ≠ 2 → update_user_space acc op n s ≠ (s', Ok u).
Proof.
  intros H1 H2. unfold update_user_space.
  by destruct (Z.eqb_spec op 1), (Z.eqb_spec op 2).
Qed.

Lemma expension_puchased_package_Ok acc n s s' u :
  expension_puchased_package acc n s = (s', Ok u) ↔
  ∃ d, UserOwnedSpace s !! acc = Some d ∧
       remaining_space d + n < 2 ^ 128 ∧ total_space d + n < 2 ^ 128 ∧
       s' = s <| UserOwnedSpace ::= <[acc := d <| remaining_space := remaining_space d + n |>
                                              <| total_space := total_space d + n |>]> |>.
Proof.
  unfold expension_puchased_package. rewrite try_mutate_existing_Ok. split.
  - intros (d & d' & s1 & Hd & Hrun & ->). exists d. inv_ok. cbn in *. done.
  - intros (d & Hd & Hn & Hl & ->). do 3 eexists. split_and!; [done| |done].
    run_ok; cbn; lia.
Qed.

(** The lease after a renewal by [days]: it starts again from [now] once it has
    run out. *)
Definition renewed (now : BlockNumber) (days : Z) (d : OwnedSpaceDetails) : OwnedSpaceDetails :=
  let d := if deadline d <? now
           then d <| start := now |> <| deadline := now + OneDay * days |>
           else d <| deadline := deadline d + OneDay * days |> in
  if now <? deadline d then d <| state := SPACE_NORMAL |> else d.

Lemma update_puchased_package_Ok acc days s s' u :
  0 <= days < 2 ^ 32 →
  update_puchased_package acc days s = (s', Ok u) →
  ∃ d, UserOwnedSpace s !! acc = Some d ∧
       Z.max (block_number s) (deadline d) + OneDay * days < 2 ^ 32 ∧
       s' = s <| UserOwnedSpace ::= <[acc := renewed (block_number s) days d]> |>.
Proof.
  intros Hdays. unfold update_puchased_package. rewrite try_mutate_existing_Ok.
  intros (d & d' & s1 & Hd & Hrun & ->). exists d. split; [done|].
  unfold renewed, saturated_into in *. rewrite Z.min_l in Hrun by lia. inv_ok.
  all: repeat match goal with H : to_state _ _ = _ |- _ => apply to_state_Ok in H as (-> & -> & ?) end.
  all: cbn in *; split; [lia|]; repeat (case_match; cbn in * ); try congruence; done.
Qed.

Lemma add_user_purchased_space_Ok acc space days s s' u :
  0 <= days < 2 ^ 32 →
  add_user_purchased_space acc space days s = (s', Ok u) →
  block_number s + OneDay * days < 2 ^ 32 ∧
  s' = s <| UserOwnedSpace ::= <[acc :=
         mkOwnedSpaceDetails space 0 0 space (block_number s)
           (block_number s + OneDay * days) SPACE_NORMAL]> |>.
Proof.
  intros Hdays. unfold add_user_purchased_space, saturated_into. rewrite Z.min_l by lia.
  intros ?. inv_ok.
  match goal with H : to_state _ _ = _ |- _ => apply to_state_Ok in H as (-> & -> & ?) end.
  done.
Qed.

(** The wrapping sum of the check does not let an overflow through: the checked
    sum that follows catches it. *)
Lemma add_purchased_space_Ok size s s' u :
  0 <= PurchasedSpace s → 0 <= size →
  add_purchased_space size s = (s', Ok u) ↔
  PurchasedSpace s + size <= TotalIdleSpace s + TotalServiceSpace s ∧
  TotalIdleSpace s + TotalServiceSpace s < 2 ^ 128 ∧
  s' = s <| PurchasedSpace := PurchasedSpace s + size |>.
Proof.
  intros Hp Hsz. unfold add_purchased_space. split.
  - intros Hrun. inv_ok. rewrite wrapping_add_small in * by lia. split_and!; [lia|lia|done].
  - intros (Hle & Hlt & ->). destruct u. run_ok; rewrite ?wrapping_add_small in * by lia; lia.
Qed.
End specs.

(** ** The books of the pallet

    Every operation other pallets or users can invoke, as data, so that the
    invariant can be stated over arbitrary sequences of them. [NextBlock] is the
    passage to the next block. *)

Inductive call :=
| CBuySpace (origin : Origin) (gib_count : Z)
| CExpansionSpace (origin : Origin) (gib_count : Z)
| CRenewalSpace (origin : Origin) (days : Z)
| CUpdatePrice (origin : Origin)
| CUpdateUserSpace (acc : AccountId) (operation size : Z)
| CFrozenTask
| CLockUserSpace (acc : AccountId) (space : Z)
| CUnlockUserSpace (acc : AccountId) (space : Z)
| CUnlockAndUsedUserSpace (acc : AccountId) (space : Z)
| CAddTotalIdleSpace (n : Z)
| CSubTotalIdleSpace (n : Z)
| CAddTotalServiceSpace (n : Z)
| CSubTotalServiceSpace (n : Z)
| CDeleteUserSpaceStorage (acc : AccountId)
| NextBlock.

(** The arguments are unsigned machine integers. *)
Definition call_wf (c : call) : Prop :=
  match c with
  | CBuySpace _ n | CExpansionSpace _ n | CRenewalSpace _ n => is_u32 n
  | CUpdateUserSpace _ _ n | CLockUserSpace _ n | CUnlockUserSpace _ n
  | CUnlockAndUsedUserSpace _ n | CAddTotalIdleSpace n | CSubTotalIdleSpace n
  | CAddTotalServiceSpace n | CSubTotalServiceSpace n => is_u128 n
  | _ => True
  end.

Section books.
Context {B : Type} `{!Currency B} `{!Config} `{!StorageIter}.
Implicit Types (s : State B) (acc : AccountId) (d : OwnedSpaceDetails).

Definition exec (c : call) : M (State B) unit :=
  match c with
  | CBuySpace o n => buy_space o n
  | CExpansionSpace o n => expansion_space o n
  | CRenewalSpace o n => renewal_space o n
  | CUpdatePrice o => update_price o
  | CUpdateUserSpace acc op n => update_user_space acc op n
  | CFrozenTask => frozen_task ;; mret ()
  | CLockUserSpace acc n => lock_user_space acc n
  | CUnlockUserSpace acc n => unlock_user_space acc n
  | CUnlockAndUsedUserSpace acc n => unlock_and_used_user_space acc n
  | CAddTotalIdleSpace n => add_total_idle_space n
  | CSubTotalIdleSpace n => sub_total_idle_space n
  | CAddTotalServiceSpace n => add_total_service_space n
  | CSubTotalServiceSpace n => sub_total_service_space n
  | CDeleteUserSpaceStorage acc => delete_user_space_storage acc
  | NextBlock => modify (λ s, s <| block_number ::= Z.succ |>)
  end.

(** Releasing used space is only sound for a user with nothing locked. *)
Definition releases_unlocked (c : call) s : Prop :=
  match c with
  | CUpdateUserSpace acc 2 _ =>
      ∀ d, UserOwnedSpace s !! acc = Some d → locked_space d = 0
  | _ => True
  end.

(** A user's space is split into used, locked and remaining space. *)
Definition space_wf d : Prop :=
  0 <= used_space d ∧ 0 <= locked_space d ∧ 0 <= remaining_space d ∧
  total_space d = used_space d + locked_space d + remaining_space d.

Record books_ok s : Prop := {
  books_users : map_Forall (λ _ d, space_wf d) (UserOwnedSpace s);
  books_purchased : PurchasedSpace s = map_sum total_space (UserOwnedSpace s)
}.

Lemma books_purchased_nonneg s : books_ok s → 0 <= PurchasedSpace s.
Proof.
  intros [Hu ->]. apply map_sum_nonneg. intros k d Hd.
  destruct (Hu k d Hd) as (? & ? & ? & ?). lia.
Qed.

(** Only the users' entries and the purchased total matter for the books. *)
Lemma books_frame s s' :
  UserOwnedSpace s' = UserOwnedSpace s → PurchasedSpace s' = PurchasedSpace s →
  books_ok s → books_ok s'.
Proof. intros Hu Hp [H1 H2]. split; by rewrite ?Hp, Hu. Qed.

Lemma books_update s s' acc d d' :
  UserOwnedSpace s !! acc = Some d →
  UserOwnedSpace s' = <[acc := d']> (UserOwnedSpace s) →
  PurchasedSpace s' = PurchasedSpace s →
  total_space d' = total_space d → (space_wf d → space_wf d') →
  books_ok s → books_ok s'.
Proof.
  intros Hd Hu Hp Ht Hwf [H1 H2]. split; rewrite ?Hp, Hu.
  - apply map_Forall_insert_2; [|done]. apply Hwf. eauto.
  - rewrite map_sum_insert, Hd. cbn. lia.
Qed.

(** Changing the lease of a user, not the space. *)
Lemma space_wf_lease d d' :
  total_space d' = total_space d → used_space d' = used_space d →
  locked_space d' = locked_space d → remaining_space d' = remaining_space d →
  space_wf d → space_wf d'.
Proof. unfold space_wf. intros -> -> -> ->. done. Qed.

Lemma renewed_space now days d :
  total_space (renewed now days d) = total_space d ∧
  used_space (renewed now days d) = used_space d ∧
  locked_space (renewed now days d) = locked_space d ∧
  remaining_space (renewed now days d) = remaining_space d.
Proof. unfold renewed. by repeat case_match. Qed.
End books.

(** ** Lease expiry *)

Section leases.
Context {B : Type} `{!Currency B} `{!Config} `{!StorageIter}.
Implicit Types (s : State B) (acc : AccountId) (d : OwnedSpaceDetails).

(** The lease of a user when the expiry check runs at block [now]. *)
Definition lease_after (now : BlockNumber) d : OwnedSpaceDetails :=
  if deadline d <? now then
    if wrapping_add 32 (deadline d) FrozenDays <? now
    then d <| state := SPACE_DEAD |>
    else d <| state := SPACE_FROZEN |>
  else d.

Definition lease_over (now : BlockNumber) d : bool :=
  (deadline d <? now) && (wrapping_add 32 (deadline d) FrozenDays <? now).

Lemma set_lease_state_run acc st d s :
  Z.of_nat (String.length st) <= StateStringMax →
  UserOwnedSpace s !! acc = Some d →
  set_lease_state acc st s
  = (s <| UserOwnedSpace ::= <[acc := d <| state := st |>]> |>, Ok ()).
Proof.
  intros Hlen Hd. apply try_mutate_existing_Ok. do 3 eexists. split_and!; [done| |done].
  apply bind_Ok. do 2 eexists. split; [by apply to_state_Ok|by apply ret_Ok].
Qed.

Lemma lease_same s acc d :
  UserOwnedSpace s !! acc = Some d → s = s <| UserOwnedSpace ::= <[acc := d]> |>.
Proof.
  intros Hd. destruct s. cbn in *. unfold set_sh_UserOwnedSpace. cbn. by rewrite insert_id.
Qed.

Context (Hlimit : 6 <= StateStringMax).

Lemma frozen_check_run now acc d s :
  UserOwnedSpace s !! acc = Some d →
  frozen_check now acc d s
  = (s <| UserOwnedSpace ::= <[acc := lease_after now d]> |>, Ok (lease_over now d)).
Proof.
  intros Hd. unfold frozen_check, lease_after, lease_over.
  destruct (deadline d <? now); cbn [andb]; [|by rewrite <- lease_same].
  destruct (wrapping_add 32 (deadline d) FrozenDays <? now).
  - unfold mbind, M_bind, catch. by rewrite (set_lease_state_run _ _ d) by (done || cbn; lia).
  - destruct (String.eqb_spec (state d) SPACE_FROZEN) as [Hf|Hf]; cbn [negb].
    + replace (d <| state := SPACE_FROZEN |>) with d by (destruct d; cbn in *; by subst).
      by rewrite <- lease_same.
    + unfold mbind, M_bind, catch. by rewrite (set_lease_state_run _ _ d) by (done || cbn; lia).
Qed.

Definition update_leases (now : BlockNumber) (l : list (AccountId * OwnedSpaceDetails))
    (m : gmap AccountId OwnedSpaceDetails) : gmap AccountId OwnedSpaceDetails :=
  foldl (λ m p, <[p.1 := lease_after now p.2]> m) m l.

Lemma frozen_loop_run now l clear s :
  NoDup l.*1 → (∀ k d, (k, d) ∈ l → UserOwnedSpace s !! k = Some d) →
  frozen_loop now l clear s
  = (s <| UserOwnedSpace ::= update_leases now l |>,
     Ok (clear ++ (filter (λ p, lease_over now p.2) l).*1)).
Proof.
  revert clear s. induction l as [|[k d] l IH]; intros clear s Hnd Hl.
  - cbn. rewrite app_nil_r. by destruct s.
  - cbn [frozen_loop]. unfold mbind, M_bind.
    rewrite frozen_check_run by (apply Hl; set_solver).
    apply NoDup_cons in Hnd as [Hk Hnd]. rewrite IH; [|done|].
    + f_equal. f_equal. rewrite filter_cons. cbn [snd].
      destruct (lease_over now d) eqn:Ho; case_decide; cbn; rewrite ?Ho in *; try done.
      by rewrite <- app_assoc.
    + intros k' d' Hin. cbn. rewrite lookup_insert_ne; [by apply Hl; set_solver|].
      intros ->. apply Hk. apply list_elem_of_fmap. by exists (k', d').
Qed.

Lemma update_leases_lookup now l m k :
  NoDup l.*1 →
  update_leases now l m !! k
  = match (list_to_map l : gmap AccountId OwnedSpaceDetails) !! k with Some d => Some (lease_after now d) | None => m !! k end.
Proof.
  revert m. induction l as [|[k' d'] l IH]; intros m Hnd; [done|].
  apply NoDup_cons in Hnd as [Hk Hnd]. cbn. unfold update_leases in IH. rewrite IH by done.
  destruct (decide (k' = k)) as [->|Hne].
  - rewrite (not_elem_of_list_to_map_1 l k) by done. by rewrite !lookup_insert_eq.
  - by rewrite !lookup_insert_ne by done.
Qed.

Lemma update_leases_all now m : update_leases now (iter_storage m) m = lease_after now <$> m.
Proof.
  apply map_eq. intros k. rewrite update_leases_lookup by apply iter_storage_NoDup.
  rewrite lookup_fmap.
  replace (list_to_map (iter_storage m) : gmap _ _) with m; [by destruct (m !! k)|].
  rewrite <- (list_to_map_to_list m) at 1. apply list_to_map_proper.
  - apply NoDup_fst_map_to_list.
  - symmetry. apply iter_storage_perm.
Qed.

Lemma frozen_task_run s :
  frozen_task s
  = (s <| UserOwnedSpace ::= fmap (lease_after (block_number s)) |>,
     Ok ((filter (λ p, lease_over (block_number s) p.2) (iter_storage (UserOwnedSpace s))).*1)).
Proof.
  unfold frozen_task, mbind, M_bind, gets. rewrite frozen_loop_run.
  - cbn. unfold set_sh_UserOwnedSpace. by rewrite update_leases_all.
  - apply iter_storage_NoDup.
  - intros k d. apply iter_storage_elem.
Qed.
End leases.

(** ** What the dispatchables do *)

Section dispatchables.
Context {B : Type} `{!Currency B} `{!Config} `{!StorageIter}.
Implicit Types (s : State B) (acc : AccountId) (d : OwnedSpaceDetails).

Definition new_lease (now : BlockNumber) (space : Z) : OwnedSpaceDetails :=
  mkOwnedSpaceDetails space 0 0 space now (now + OneDay * 30) SPACE_NORMAL.

Lemma buy_space_Ok o gib s s' u :
  0 <= gib → 0 <= PurchasedSpace s →
  buy_space o gib s = (s', Ok u) →
  ∃ sender p b', o = Signed sender ∧ UserOwnedSpace s !! sender = None ∧
    UnitPrice s = Some p ∧
    can_slash (balances s) sender (p * gib) = true ∧
    transfer_keep_alive sender FilbakPallet (p * gib) (balances s) = Ok b' ∧
    PurchasedSpace s + G_BYTE * gib <= TotalIdleSpace s + TotalServiceSpace s ∧
    s' = s <| UserOwnedSpace ::= <[sender := new_lease (block_number s) (G_BYTE * gib)]> |>
           <| PurchasedSpace := PurchasedSpace s + G_BYTE * gib |>
           <| balances := b' |>
           <| events ::= λ l, l ++ [BuySpace sender (G_BYTE * gib) (p * gib)] |>.
Proof.
  intros Hgib Hp. unfold buy_space. intros Hrun. inv_ok.
  unfold get_unit_price, ensure_balance, pay, deposit_event in *. inv_ok.
  match goal with H : add_user_purchased_space _ _ _ _ = _ |- _ =>
    apply add_user_purchased_space_Ok in H as [Hdl ->]; [|lia] end.
  match goal with H : add_purchased_space _ _ = _ |- _ =>
    apply add_purchased_space_Ok in H as (Hle & Hlt & ->); [|done|unfold G_BYTE; lia] end.
  cbn in *. rewrite negb_true_iff in *.
  match goal with H : bool_decide (is_Some ?o) = false |- _ =>
    apply bool_decide_eq_false, eq_None_not_Some in H end.
  do 3 eexists. split_and!; done.
Qed.

(** The number of days a lease still runs, the current one counted in full. *)
Definition days_left (now : BlockNumber) d : Z :=
  (deadline d - now) / OneDay + (if (deadline d - now) mod OneDay =? 0 then 0 else 1).

Lemma expansion_space_Ok o gib s s' u :
  0 <= gib → 0 <= PurchasedSpace s →
  expansion_space o gib s = (s', Ok u) →
  ∃ sender d p b', o = Signed sender ∧ UserOwnedSpace s !! sender = Some d ∧
    block_number s < deadline d ∧ state d ≠ SPACE_FROZEN ∧ UnitPrice s = Some p ∧
    let price := p / 30 * gib * days_left (block_number s) d in
    can_slash (balances s) sender price = true ∧
    transfer_keep_alive sender FilbakPallet price (balances s) = Ok b' ∧
    PurchasedSpace s + G_BYTE * gib <= TotalIdleSpace s + TotalServiceSpace s ∧
    s' = s <| UserOwnedSpace ::= <[sender :=
                d <| remaining_space := remaining_space d + G_BYTE * gib |>
                  <| total_space := total_space d + G_BYTE * gib |>]> |>
           <| PurchasedSpace := PurchasedSpace s + G_BYTE * gib |>
           <| balances := b' |>
           <| events ::= λ l, l ++ [ExpansionSpace sender (G_BYTE * gib) price] |>.
Proof.
  intros Hgib Hp. unfold expansion_space. intros Hrun. inv_ok.
  all: unfold get_unit_price, ensure_balance, pay, deposit_event in *; inv_ok.
  all: match goal with H : add_purchased_space _ _ = _ |- _ =>
    apply add_purchased_space_Ok in H as (Hle & Hlt & ->); [|done|unfold G_BYTE; lia] end.
  all: match goal with H : expension_puchased_package _ _ _ = _ |- _ =>
    apply expension_puchased_package_Ok in H as (d' & Hd' & _ & _ & ->) end.
  all: cbn in *; simplify_eq.
  all: match goal with H : negb (?st =? SPACE_FROZEN)%string = true |- _ =>
    destruct (String.eqb_spec st SPACE_FROZEN); [done|] end.
  all: match goal with Hm : negb _ = ?v, Hd : UserOwnedSpace ?s !! _ = Some ?d |- _ =>
    assert (Hdl : days_left (block_number s) d
                  = (deadline d - block_number s) / OneDay + (if v then 1 else 0))
      by (unfold days_left; by destruct (_ mod _ =? 0));
    cbn iota in Hdl; rewrite ?Z.add_0_r in Hdl; rewrite <- Hdl in * end.
  all: do 4 eexists; split_and!; first [done | lia].
Qed.

Lemma renewal_space_Ok o days s s' u :
  0 <= days < 2 ^ 32 →
  renewal_space o days s = (s', Ok u) →
  ∃ sender d p b', o = Signed sender ∧ UserOwnedSpace s !! sender = Some d ∧
    state d ≠ SPACE_DEAD ∧ UnitPrice s = Some p ∧
    let price := p / 30 * (total_space d / G_BYTE) * days in
    can_slash (balances s) sender price = true ∧
    transfer_keep_alive sender FilbakPallet price (balances s) = Ok b' ∧
    Z.max (block_number s) (deadline d) + OneDay * days < 2 ^ 32 ∧
    s' = s <| UserOwnedSpace ::= <[sender := renewed (block_number s) days d]> |>
           <| balances := b' |>
           <| events ::= λ l, l ++ [RenewalSpace sender days price] |>.
Proof.
  intros Hdays. unfold renewal_space. intros Hrun. inv_ok.
  unfold get_unit_price, ensure_balance, pay, deposit_event in *. inv_ok.
  match goal with H : update_puchased_package _ _ _ = _ |- _ =>
    apply update_puchased_package_Ok in H as (d' & Hd' & Hmax & ->); [|done] end.
  cbn in *. simplify_eq.
  match goal with H : negb (?st =? SPACE_DEAD)%string = true |- _ =>
    destruct (String.eqb_spec st SPACE_DEAD); [done|] end.
  do 4 eexists. split_and!; done.
Qed.

Lemma delete_user_space_storage_Ok acc s s' u :
  delete_user_space_storage acc s = (s', Ok u) ↔
  ∃ d, UserOwnedSpace s !! acc = Some d ∧ total_space d <= PurchasedSpace s ∧
       s' = s <| PurchasedSpace := PurchasedSpace s - total_space d |>
              <| UserOwnedSpace ::= delete acc |>.
Proof.
  unfold delete_user_space_storage, sub_purchased_space. split.
  - intros Hrun. inv_ok. cbn in *. eexists. by split_and!.
  - intros (d & Hd & Hle & ->). destruct u. run_ok. lia.
Qed.

Lemma exec_books c s s' u :
  6 <= StateStringMax → call_wf c → releases_unlocked c s →
  books_ok s → exec c s = (s', Ok u) → books_ok s'.
Proof.
  intros Hlim Hwf Hrel Hb. destruct c as
    [o n|o n|o n|o|acc op n| |acc n|acc n|acc n|n|n|n|n|acc|]; cbn [exec call_wf] in *; intros Hrun.
  - apply buy_space_Ok in Hrun as (a & p & b' & -> & Ha & Hp & _ & _ & Hle & ->);
      [|apply Hwf|by apply books_purchased_nonneg].
    destruct Hb as [Hu Hpur]. split; cbn.
    + apply map_Forall_insert_2; [|done]. unfold space_wf, new_lease, G_BYTE. cbn.
      destruct Hwf. lia.
    + rewrite map_sum_insert, Ha. cbn. lia.
  - apply expansion_space_Ok in Hrun as (a & d & p & b' & -> & Ha & _ & _ & _ & _ & _ & _ & ->);
      [|apply Hwf|by apply books_purchased_nonneg].
    destruct Hb as [Hu Hpur]. split; cbn.
    + apply map_Forall_insert_2; [|done]. destruct (Hu _ _ Ha) as (? & ? & ? & ?).
      unfold space_wf, G_BYTE. cbn. destruct Hwf. lia.
    + rewrite map_sum_insert, Ha. cbn. lia.
  - apply renewal_space_Ok in Hrun as (a & d & p & b' & -> & Ha & _ & _ & _ & _ & _ & ->); [|done].
    destruct (renewed_space (block_number s) n d) as (? & ? & ? & ?).
    eapply books_update; [done..| |done]. by apply space_wf_lease.
  - unfold update_price in Hrun. inv_ok. by apply (books_frame s).
  - destruct (decide (op = 1)) as [->|]; [|destruct (decide (op = 2)) as [->|]].
    + apply update_user_space_1_Ok in Hrun as (d & Hd & _ & Hn & _ & ->).
      eapply books_update; [done..| |done]. unfold space_wf. cbn. destruct Hwf. lia.
    + apply update_user_space_2_Ok in Hrun as (d & Hd & Hn & Hle & ->).
      eapply books_update; [done..| |done]. specialize (Hrel d Hd). unfold space_wf. cbn. destruct Hwf. lia.
    + by apply update_user_space_other in Hrun.
  - apply bind_Ok in Hrun as (s1 & l & Hrun & Hret). inv_ok.
    rewrite frozen_task_run in Hrun by done. simplify_eq. destruct Hb as [Hu Hpur]. split; cbn.
    + intros k d' Hk. rewrite lookup_fmap in Hk. destruct (UserOwnedSpace s !! k) as [d|] eqn:Hd; [|done].
      cbn in Hk. simplify_eq. apply (space_wf_lease d); [unfold lease_after; by repeat case_match..|eauto].
    + rewrite Hpur. unfold map_sum. rewrite map_fold_fmap. apply map_sum_ext.
      intros. unfold lease_after. by repeat case_match.
  - apply lock_user_space_Ok in Hrun as (d & Hd & _ & Hn & _ & ->).
    eapply books_update; [done..| |done]. unfold space_wf. cbn. destruct Hwf. lia.
  - apply unlock_user_space_Ok in Hrun as (d & Hd & Hn & _ & ->).
    eapply books_update; [done..| |done]. unfold space_wf. cbn. destruct Hwf. lia.
  - apply unlock_and_used_user_space_Ok in Hrun as (d & Hd & Hn & _ & ->).
    eapply books_update; [done..| |done]. unfold space_wf. cbn. destruct Hwf. lia.
  - unfold add_total_idle_space in Hrun. inv_ok. by apply (books_frame s).
  - unfold sub_total_idle_space in Hrun. inv_ok. by apply (books_frame s).
  - unfold add_total_service_space in Hrun. inv_ok. by apply (books_frame s).
  - unfold sub_total_service_space in Hrun. inv_ok. by apply (books_frame s).
  - apply delete_user_space_storage_Ok in Hrun as (d & Hd & Hle & ->).
    destruct Hb as [Hu Hpur]. split; cbn; [by apply map_Forall_delete|].
    rewrite (map_sum_delete _ _ _ d) by done. lia.
  - inv_ok. by apply (books_frame s).
Qed.
End dispatchables.

(** ** Reachable states *)

Section reachable.
Context {B : Type} `{!Currency B} `{!Config} `{!StorageIter}.
Implicit Types (s : State B) (acc : AccountId) (d : OwnedSpaceDetails).

(** A call leaves the storage alone unless it succeeds: the dispatchables are
    transactional, the other operations check before they write. *)
Lemma exec_atomic c : 6 <= StateStringMax → atomic (exec c).
Proof.
  intros Hlim. destruct c; cbn [exec].
  6: { intros s s' r. unfold mbind, M_bind. rewrite frozen_task_run by done.
       intros [= <- <-] Hr. by destruct (Hr ()). }
  all: unfold buy_space, expansion_space, renewal_space, update_price, update_user_space,
    lock_user_space, unlock_user_space, unlock_and_used_user_space, add_total_idle_space,
    sub_total_idle_space, add_total_service_space, sub_total_service_space,
    delete_user_space_storage, sub_purchased_space; solve_atomic.
Qed.

(** One call, whatever it returns. *)
Definition step s s' : Prop :=
  ∃ c r, call_wf c ∧ releases_unlocked c s ∧ exec c s = (s', r).

(** C1 In every state reached from a state with consistent books (the genesis
    state is one) by any sequence of calls, failing ones included, in which no
    space is released while the user has locked space: each user's purchased
    space is exactly the sum of used, locked and remaining space, and the
    network's purchased total is the sum of the users' totals. *)
Theorem reachable_books s s' :
  6 <= StateStringMax → books_ok s → rtc step s s' → books_ok s'.
Proof.
  intros Hlim Hb Hstep. revert Hb. induction Hstep as [|s1 s2 s3 (c & r & Hwf & Hrel & Hrun) _ IH]; [done|].
  intros Hb. apply IH. destruct r as [[]| |]; [by eapply exec_books|..];
    by rewrite (exec_atomic c Hlim _ _ _ Hrun ltac:(done)).
Qed.

Lemma genesis_books price (b : B) : books_ok (genesis price b).
Proof. split; [apply map_Forall_empty|]. cbn. by rewrite map_sum_empty. Qed.

(** Locking space and unlocking it again leaves the storage unchanged, and
    locking space and then turning it into used space (the two halves of a
    deal) is the same as using the space directly. *)
Theorem lock_round_trips acc n s s1 :
  0 <= n → books_ok s → (∀ d, UserOwnedSpace s !! acc = Some d → total_space d < 2 ^ 128) →
  lock_user_space acc n s = (s1, Ok ()) →
  unlock_user_space acc n s1 = (s, Ok ()) ∧
  unlock_and_used_user_space acc n s1 = update_user_space acc 1 n s.
Proof.
  intros Hn Hb Hmax Hlock. apply lock_user_space_Ok in Hlock as (d & Hd & Hst & Hle & Hlt & ->).
  specialize (Hmax d Hd). destruct (books_users _ Hb _ _ Hd) as (? & ? & ? & ?). split.
  - apply unlock_user_space_Ok. eexists. split; [apply lookup_insert_eq|]. cbn. split_and!; [lia..|].
    unfold set_sh_UserOwnedSpace. cbn. rewrite insert_insert_eq, insert_id; [by destruct s|].
    rewrite Hd. f_equal. unfold set_osd_remaining_space, set_osd_locked_space. cbn.
    destruct d. cbn. f_equal; lia.
  - trans (s <| UserOwnedSpace ::= <[acc := d <| used_space := used_space d + n |>
              <| remaining_space := remaining_space d - n |>]> |>, Ok (E := DispatchError) ()).
    + apply unlock_and_used_user_space_Ok. eexists. split; [apply lookup_insert_eq|].
      cbn. split_and!; [lia..|].
      unfold set_sh_UserOwnedSpace. cbn. rewrite insert_insert_eq. do 2 f_equal.
      unfold set_osd_remaining_space, set_osd_locked_space, set_osd_used_space. cbn. f_equal. lia.
    + symmetry. apply update_user_space_1_Ok. exists d. split_and!; done || lia.
Qed.

(** The expiry task never fails and depends on nothing but each user's own
    lease: a lease past its deadline becomes frozen, one past the deadline plus
    the frozen days becomes dead, the others are untouched, and the list the
    task returns holds exactly the users with a dead lease, each once, whatever
    the order of the storage iteration. *)
Theorem frozen_task_spec s :
  6 <= StateStringMax →
  ∃ s' clear, frozen_task s = (s', Ok clear) ∧
    s' = s <| UserOwnedSpace ::= fmap (lease_after (block_number s)) |> ∧
    NoDup clear ∧
    ∀ acc, acc ∈ clear ↔
      ∃ d, UserOwnedSpace s !! acc = Some d ∧ lease_over (block_number s) d = true.
Proof.
  intros Hlim. do 2 eexists. split; [by apply frozen_task_run|]. split; [done|]. split.
  - eapply sublist_NoDup; [apply (iter_storage_NoDup (UserOwnedSpace s))|].
    apply fmap_sublist, sublist_filter.
  - intros acc. rewrite list_elem_of_fmap. split.
    + intros ([k d] & -> & [Ho Hin]%list_elem_of_filter). exists d. cbn in *.
      split; [by apply iter_storage_elem|by apply Is_true_true].
    + intros (d & Hd & Ho). exists (acc, d). split; [done|].
      apply list_elem_of_filter. split; [by apply Is_true_true|by apply iter_storage_elem].
Qed.

(** Buying space succeeds exactly when the caller is a signed account that
    owns no space yet, the price is set, no product or sum overflows, the network
    has the space left and the caller can pay; it then creates a thirty day lease
    with all the space remaining, books the space as purchased and moves the price
    from the buyer to the pallet's account. *)
Theorem buy_space_spec sender gib s s' :
  0 <= gib → 0 <= PurchasedSpace s → 6 <= StateStringMax → 0 <= OneDay →
  buy_space (Signed sender) gib s = (s', Ok ()) ↔
  ∃ p b', UserOwnedSpace s !! sender = None ∧ UnitPrice s = Some p ∧
    G_BYTE * gib < 2 ^ 128 ∧ p * gib < 2 ^ 128 ∧
    block_number s + OneDay * 30 < 2 ^ 32 ∧ OneDay * 30 < 2 ^ 32 ∧
    TotalIdleSpace s + TotalServiceSpace s < 2 ^ 128 ∧
    PurchasedSpace s + G_BYTE * gib <= TotalIdleSpace s + TotalServiceSpace s ∧
    can_slash (balances s) sender (p * gib) = true ∧
    transfer_keep_alive sender FilbakPallet (p * gib) (balances s) = Ok b' ∧
    s' = s <| UserOwnedSpace ::= <[sender := new_lease (block_number s) (G_BYTE * gib)]> |>
           <| PurchasedSpace := PurchasedSpace s + G_BYTE * gib |>
           <| balances := b' |>
           <| events ::= λ l, l ++ [BuySpace sender (G_BYTE * gib) (p * gib)] |>.
Proof.
  intros Hgib Hp Hlim Hday. split.
  - intros Hrun. pose proof Hrun as Hrun'. apply buy_space_Ok in Hrun as (a & p & b' & [= <-] & Ha & Hpr & Hs & Ht & Hle & ->);
      [|done..]. exists p, b'. split_and!; try done.
    all: unfold buy_space, get_unit_price in Hrun'; inv_ok.
    all: unfold add_user_purchased_space, add_purchased_space in *; inv_ok.
    all: unfold to_state in *; inv_ok; change (saturated_into 32 30) with 30 in *.
    all: cbn -[G_BYTE] in *; simplify_eq; lia.
  - intros (p & b' & Ha & Hpr & Hg & Hpg & Hd1 & Hd2 & Ht1 & Ht2 & Hs & Ht & ->).
    unfold buy_space, get_unit_price, ensure_balance, pay, deposit_event. run_ok.
    + rewrite Ha. done.
    + done.
    + done.
    + unfold add_user_purchased_space. change (saturated_into 32 30) with 30. run_ok; try lia.
      by apply to_state_Ok.
    + apply add_purchased_space_Ok; cbn; [done|unfold G_BYTE; lia|done].
    + done.
    + done.
    + done.
Qed.
End reachable.

(** ** The runtime's configuration and example runs *)

(** [impl pallet_storage_handler::Config for Runtime]; the two pallet accounts
    are derived from pallet ids by Substrate. *)
Definition runtime_config (pot treasury : AccountId) : Config := {|
  OneDay := DAYS;
  FilbakPallet := pot;
  TreasuryPallet := treasury;
  StateStringMax := 20;
  FrozenDays := 7 * DAYS
|}.

Section examples.
#[local] Instance example_config : Config := runtime_config 900 901.

(** A network with four GiB of idle space and a user [7] with funds. *)
Definition example_state : State Ledger :=
  (genesis 30 (mkLedger {[ 7%N := 1000; 900%N := 1 ]} ∅ 1)) <| TotalIdleSpace := 4 * G_BYTE |>.

Definition example_bought : State Ledger := (buy_space (Signed 7) 2 example_state).1.

Lemma reachable_books_witness : books_ok example_bought.
Proof.
  apply (reachable_books example_state).
  - done.
  - apply (books_frame (genesis 30 (balances example_state))); [done..|]. apply genesis_books.
  - apply rtc_once. exists (CBuySpace (Signed 7) 2), (Ok ()).
    split; [done|]. split; [done|]. vm_compute. reflexivity.
Defined.

Lemma lock_round_trips_witness :
  unlock_user_space 7 5 (lock_user_space 7 5 example_bought).1 = (example_bought, Ok ()) ∧
  unlock_and_used_user_space 7 5 (lock_user_space 7 5 example_bought).1
  = update_user_space 7 1 5 example_bought.
Proof.
  apply (lock_round_trips 7 5 example_bought).
  - done.
  - apply (exec_books (CBuySpace (Signed 7) 2) example_state _ ()); [done|done|done| |].
    + apply (books_frame (genesis 30 (balances example_state))); [done..|]. apply genesis_books.
    + vm_compute. reflexivity.
  - intros d Hd. vm_compute in Hd. simplify_eq. vm_compute. reflexivity.
  - vm_compute. reflexivity.
Defined.

Definition example_late : State Ledger := example_bought <| block_number := 600000 |>.

Lemma frozen_task_spec_witness :
  ∃ s' clear, frozen_task example_late = (s', Ok clear) ∧
    s' = example_late <| UserOwnedSpace ::= fmap (lease_after (block_number example_late)) |> ∧
    NoDup clear ∧
    ∀ acc, acc ∈ clear ↔
      ∃ d, UserOwnedSpace example_late !! acc = Some d ∧
           lease_over (block_number example_late) d = true.
Proof. apply (frozen_task_spec example_late). done. Defined.

Lemma buy_space_spec_witness :
  ∃ p, UnitPrice example_state = Some p ∧ p * 2 < 2 ^ 128.
Proof.
  destruct (buy_space_spec 7 2 example_state example_bought) as [Hspec _]; [done..|].
  destruct (Hspec ltac:(vm_compute; reflexivity)) as (p & b' & _ & Hp & _ & Hlt & _).
  by exists p.
Defined.

(** The guard of [reachable_books] is needed. *)

Definition example_oversold : State Ledger * result DispatchError unit :=
  (buy_space (Signed 7) 1 ;;
   lock_user_space 7 (G_BYTE - 1) ;; update_user_space 7 1 1 ;; update_user_space 7 2 1 ;;
   update_user_space 7 1 G_BYTE ;; unlock_and_used_user_space 7 (G_BYTE - 1)) example_state.

(** Releasing used space while a deal holds locked space lets the locked
    space be handed out twice: a user who bought one GiB ends up with almost two
    GiB booked as used after a sequence of calls that all succeed (lock, use,
    release, use, and completion of the deal). *)
Theorem release_oversells :
  example_oversold.2 = Ok () ∧
  (total_space <$> UserOwnedSpace example_oversold.1 !! 7%N) = Some G_BYTE ∧
  (used_space <$> UserOwnedSpace example_oversold.1 !! 7%N) = Some (2 * G_BYTE - 1).
Proof. split_and!; vm_compute; reflexivity. Qed.

Definition example_frozen : State Ledger :=
  (frozen_task (example_bought <| block_number := 433000 |>)).1.

(** A dead lease can still be used: after the expiry task has declared a
    lease dead, locking its space for a new deal succeeds, while a frozen lease
    refuses. *)
Theorem dead_lease_usable :
  state <$> UserOwnedSpace example_frozen !! 7%N = Some SPACE_FROZEN ∧
  (lock_user_space 7 5 example_frozen).2 = Err (InStorageHandler StorageHandlerError.LeaseFreeze) ∧
  (frozen_task (example_frozen <| block_number := 600000 |>)).2 = Ok [7%N] ∧
  ((frozen_task ;; lock_user_space 7 5) (example_frozen <| block_number := 600000 |>)).2 = Ok ().
Proof. split_and!; vm_compute; reflexivity. Qed.
End examples.
