(* ===== verification/Sminer.v ===== *)
(** * The sminer pallet

    [src/c-pallets/sminer/src/lib.rs], [types.rs] and [constants.rs]: the
    registered storage miners with their collateral and space, the rewards they
    are owed, punishments, exits, and the faucet.  The storage map [MinerLockIn]
    is declared in the source and never used; it has no field here. *)
From S2P Require Import Prelude Errors Frame Common.

(** ** Data *)

Definition STATE_POSITIVE : string := "positive".
Definition STATE_FROZEN : string := "frozen".
Definition STATE_EXIT : string := "exit".
Definition STATE_LOCK : string := "lock".
Definition STATE_OFFLINE : string := "offline".
Definition FAUCET_VALUE : Z := 10000000000000000.
Definition RELEASE_NUMBER : Z := 180.
Definition BASE_LIMIT : Z := 2000000000000000.

Section constants.
Context `{!PerbillOps}.
Definition IDLE_MUTI : Perbill := from_percent 30.
Definition SERVICE_MUTI : Perbill := from_percent 70.
Definition ISSUE_MUTI : Perbill := from_percent 20.
Definition EACH_SHARE_MUTI : Perbill := from_percent 80.
Definition IDLE_PUNI_MUTI : Perbill := from_percent 10.
Definition SERVICE_PUNI_MUTI : Perbill := from_percent 25.
End constants.

(** [RewardPot] is [T::PalletId::get().into_account_truncating()]. *)
Class Config := {
  RewardPot : AccountId;
  ItemLimit : Z;
  OneDayBlock : BlockNumber
}.

Inductive Event :=
| Registered (acc : AccountId) (staking_val : Balance)
| DrawFaucetMoney
| FaucetTopUpMoney (acc : AccountId)
| LessThan24Hours (last now : BlockNumber)
| AlreadyFrozen (acc : AccountId)
| IncreaseCollateral (acc : AccountId) (balance : Balance)
| Deposit (balance : Balance)
| UpdataBeneficiary (acc new : AccountId)
| UpdataIp (acc : AccountId) (old new : PeerId)
| Receive (acc : AccountId) (reward : Balance).

(** The field [lock_space] of the source has an underscore here, because an
    operation of the pallet has that name too. *)
Record MinerInfo := mkMinerInfo {
  beneficiary : AccountId;
  peer_id : PeerId;
  collaterals : Balance;
  debt : Balance;
  state : string;
  idle_space : Z;
  service_space : Z;
  lock_space_ : Z
}.
#[export] Instance set_mi_beneficiary : Setter (beneficiary) := λ f r,
  mkMinerInfo (f (beneficiary r)) (peer_id r) (collaterals r) (debt r) (state r) (idle_space r) (service_space r) (lock_space_ r).
#[export] Instance set_mi_peer_id : Setter (peer_id) := λ f r,
  mkMinerInfo (beneficiary r) (f (peer_id r)) (collaterals r) (debt r) (state r) (idle_space r) (service_space r) (lock_space_ r).
#[export] Instance set_mi_collaterals : Setter (collaterals) := λ f r,
  mkMinerInfo (beneficiary r) (peer_id r) (f (collaterals r)) (debt r) (state r) (idle_space r) (service_space r) (lock_space_ r).
#[export] Instance set_mi_debt : Setter (debt) := λ f r,
  mkMinerInfo (beneficiary r) (peer_id r) (collaterals r) (f (debt r)) (state r) (idle_space r) (service_space r) (lock_space_ r).
#[export] Instance set_mi_state : Setter (state) := λ f r,
  mkMinerInfo (beneficiary r) (peer_id r) (collaterals r) (debt r) (f (state r)) (idle_space r) (service_space r) (lock_space_ r).
#[export] Instance set_mi_idle_space : Setter (idle_space) := λ f r,
  mkMinerInfo (beneficiary r) (peer_id r) (collaterals r) (debt r) (state r) (f (idle_space r)) (service_space r) (lock_space_ r).
#[export] Instance set_mi_service_space : Setter (service_space) := λ f r,
  mkMinerInfo (beneficiary r) (peer_id r) (collaterals r) (debt r) (state r) (idle_space r) (f (service_space r)) (lock_space_ r).
#[export] Instance set_mi_lock_space_ : Setter (lock_space_) := λ f r,
  mkMinerInfo (beneficiary r) (peer_id r) (collaterals r) (debt r) (state r) (idle_space r) (service_space r) (f (lock_space_ r)).

Record RewardOrder := mkRewardOrder {
  order_reward : Balance;
  each_share : Balance;
  award_count : Z;
  has_issued : bool
}.
#[export] Instance set_ro_order_reward : Setter (order_reward) := λ f r,
  mkRewardOrder (f (order_reward r)) (each_share r) (award_count r) (has_issued r).
#[export] Instance set_ro_each_share : Setter (each_share) := λ f r,
  mkRewardOrder (order_reward r) (f (each_share r)) (award_count r) (has_issued r).
#[export] Instance set_ro_award_count : Setter (award_count) := λ f r,
  mkRewardOrder (order_reward r) (each_share r) (f (award_count r)) (has_issued r).
#[export] Instance set_ro_has_issued : Setter (has_issued) := λ f r,
  mkRewardOrder (order_reward r) (each_share r) (award_count r) (f (has_issued r)).

Record Reward := mkReward {
  total_reward : Balance;
  reward_issued : Balance;
  currently_available_reward : Balance;
  order_list : list RewardOrder
}.
#[export] Instance set_rw_total_reward : Setter (total_reward) := λ f r,
  mkReward (f (total_reward r)) (reward_issued r) (currently_available_reward r) (order_list r).
#[export] Instance set_rw_reward_issued : Setter (reward_issued) := λ f r,
  mkReward (total_reward r) (f (reward_issued r)) (currently_available_reward r) (order_list r).
#[export] Instance set_rw_currently_available_reward : Setter (currently_available_reward) := λ f r,
  mkReward (total_reward r) (reward_issued r) (f (currently_available_reward r)) (order_list r).
#[export] Instance set_rw_order_list : Setter (order_list) := λ f r,
  mkReward (total_reward r) (reward_issued r) (currently_available_reward r) (f (order_list r)).

Record FaucetRecord := mkFaucetRecord {
  last_claim_time : BlockNumber
}.
#[export] Instance set_fr_last_claim_time : Setter (last_claim_time) := λ f r,
  mkFaucetRecord (f (last_claim_time r)).

Record State (B : Type) := mkState {
  MinerItems : gmap AccountId MinerInfo;
  AllMiner : list AccountId;
  RewardMap : gmap AccountId Reward;
  FaucetRecordMap : gmap AccountId FaucetRecord;
  CurrencyReward : Balance;
  balances : B;
  block_number : BlockNumber;
  events : list Event
}.
Arguments mkState {B} _ _ _ _ _ _ _ _.
Arguments MinerItems {B} _.
Arguments AllMiner {B} _.
Arguments RewardMap {B} _.
Arguments FaucetRecordMap {B} _.
Arguments CurrencyReward {B} _.
Arguments balances {B} _.
Arguments block_number {B} _.
Arguments events {B} _.
#[export] Instance set_sm_MinerItems {B : Type} : Setter (@MinerItems B) := λ f r,
  mkState (f (MinerItems r)) (AllMiner r) (RewardMap r) (FaucetRecordMap r) (CurrencyReward r) (balances r) (block_number r) (events r).
#[export] Instance set_sm_AllMiner {B : Type} : Setter (@AllMiner B) := λ f r,
  mkState (MinerItems r) (f (AllMiner r)) (RewardMap r) (FaucetRecordMap r) (CurrencyReward r) (balances r) (block_number r) (events r).
#[export] Instance set_sm_RewardMap {B : Type} : Setter (@RewardMap B) := λ f r,
  mkState (MinerItems r) (AllMiner r) (f (RewardMap r)) (FaucetRecordMap r) (CurrencyReward r) (balances r) (block_number r) (events r).
#[export] Instance set_sm_FaucetRecordMap {B : Type} : Setter (@FaucetRecordMap B) := λ f r,
  mkState (MinerItems r) (AllMiner r) (RewardMap r) (f (FaucetRecordMap r)) (CurrencyReward r) (balances r) (block_number r) (events r).
#[export] Instance set_sm_CurrencyReward {B : Type} : Setter (@CurrencyReward B) := λ f r,
  mkState (MinerItems r) (AllMiner r) (RewardMap r) (FaucetRecordMap r) (f (CurrencyReward r)) (balances r) (block_number r) (events r).
#[export] Instance set_sm_balances {B : Type} : Setter (@balances B) := λ f r,
  mkState (MinerItems r) (AllMiner r) (RewardMap r) (FaucetRecordMap r) (CurrencyReward r) (f (balances r)) (block_number r) (events r).
#[export] Instance set_sm_block_number {B : Type} : Setter (@block_number B) := λ f r,
  mkState (MinerItems r) (AllMiner r) (RewardMap r) (FaucetRecordMap r) (CurrencyReward r) (balances r) (f (block_number r)) (events r).
#[export] Instance set_sm_events {B : Type} : Setter (@events B) := λ f r,
  mkState (MinerItems r) (AllMiner r) (RewardMap r) (FaucetRecordMap r) (CurrencyReward r) (balances r) (block_number r) (f (events r)).


(** ** Operations *)

Section operations.
Context {B : Type} `{!Currency B} `{!Config} `{!PerbillOps}.
Abbreviation MS := (M (State B)).

Definition deposit_event (e : Event) : MS unit :=
  modify (λ s, s <| events ::= λ l, l ++ [e] |>).

Definition vec_to_bound (param : string) : MS string :=
  ok_or (str_try_into_bounded ItemLimit param) SminerError.StorageLimitReached.

Definition check_state (acc : AccountId) : MS string :=
  miner ← try_get MinerItems acc SminerError.NotMiner; mret miner.(state).

(** The plain [+] of the source. *)
Definition calculate_power (idle_space service_space : Z) : Z :=
  let service_power := mul_floor SERVICE_MUTI service_space in
  let idle_power := mul_floor IDLE_MUTI idle_space in
  wrapping_add 128 idle_power service_power.

Definition check_collateral_limit (power : Z) : MS Balance :=
  limit ← ok_or (checked_div power T_BYTE) SminerError.Overflow;
  let limit := wrapping_add 128 1 limit in
  ok_or (checked_mul 128 BASE_LIMIT limit) SminerError.Overflow.

Definition regnstk (origin : Origin) (beneficiary : AccountId) (peer_id : PeerId)
    (staking_val : Balance) : MS unit := transactional (
  sender ← ensure_signed origin;
  exists_ ← contains_key MinerItems sender;
  ensure (negb exists_) SminerError.AlreadyRegistered ;;
  lift_field balances (reserve sender staking_val) ;;
  st ← vec_to_bound STATE_POSITIVE;
  insert_at MinerItems sender
    {| beneficiary := beneficiary; peer_id := peer_id; collaterals := staking_val; debt := 0;
       state := st; idle_space := 0; service_space := 0; lock_space_ := 0 |} ;;
  all_miner ← gets AllMiner;
  all_miner ← ok_or (try_push ItemLimit all_miner sender) SminerError.StorageLimitReached;
  put AllMiner all_miner ;;
  insert_at RewardMap sender
    {| total_reward := 0; reward_issued := 0; currently_available_reward := 0; order_list := [] |} ;;
  deposit_event (Registered sender staking_val)).

(** The first half of the closure of [increase_collateral]: the payment goes
    against the debt, the second component is what remains of it. *)
Definition pay_debt (miner_info : MinerInfo) (collaterals_ : Balance) : MS (MinerInfo * Balance) :=
  if 0 <? miner_info.(debt) then
    if collaterals_ <? miner_info.(debt) then
      d ← ok_or (checked_sub miner_info.(debt) collaterals_) SminerError.Overflow;
      mret (miner_info <| debt := d |>, 0)
    else
      r ← ok_or (checked_sub collaterals_ miner_info.(debt)) SminerError.Overflow;
      mret (miner_info <| debt := 0 |>, r)
  else mret (miner_info, collaterals_).

(** The second half: a frozen miner with enough collateral is positive again. *)
Definition thaw (miner_info : MinerInfo) : MS MinerInfo :=
  if String.eqb miner_info.(state) STATE_FROZEN then
    let power := calculate_power miner_info.(idle_space) miner_info.(service_space) in
    limit ← check_collateral_limit power;
    if limit <=? miner_info.(collaterals) then
      st ← vec_to_bound STATE_POSITIVE;
      mret (miner_info <| state := st |>)
    else mret miner_info
  else mret miner_info.

Definition increase_collateral (origin : Origin) (collaterals_ : Balance) : MS unit := transactional (
  sender ← ensure_signed origin;
  exists_ ← contains_key MinerItems sender;
  ensure exists_ SminerError.NotMiner ;;
  balance ← try_mutate MinerItems sender (λ miner_info_opt,
    miner_info ← ok_or miner_info_opt SminerError.ConversionError;
    '(miner_info, remaining) ← pay_debt miner_info collaterals_;
    c ← ok_or (checked_add 128 miner_info.(collaterals) remaining) SminerError.Overflow;
    let miner_info := miner_info <| collaterals := c |> in
    let balance := miner_info.(collaterals) in
    miner_info ← thaw miner_info;
    lift_field balances (reserve sender remaining) ;;
    mret (Some miner_info, balance));
  deposit_event (IncreaseCollateral sender balance)).

Definition update_beneficiary (origin : Origin) (beneficiary_ : AccountId) : MS unit := transactional (
  sender ← ensure_signed origin;
  exists_ ← contains_key MinerItems sender;
  ensure exists_ SminerError.NotMiner ;;
  try_mutate_existing MinerItems sender SminerError.ConversionError (λ miner_info,
    mret (miner_info <| beneficiary := beneficiary_ |>)) ;;
  deposit_event (UpdataBeneficiary sender beneficiary_)).

Definition update_peer_id (origin : Origin) (peer_id_ : PeerId) : MS unit := transactional (
  sender ← ensure_signed origin;
  exists_ ← contains_key MinerItems sender;
  ensure exists_ SminerError.NotMiner ;;
  old ← try_mutate MinerItems sender (λ miner_info_opt,
    miner_info ← ok_or miner_info_opt SminerError.ConversionError;
    let old := miner_info.(peer_id) in
    mret (Some (miner_info <| peer_id := peer_id_ |>), old));
  deposit_event (UpdataIp sender old peer_id_)).

Definition receive_reward (origin : Origin) : MS unit := transactional (
  sender ← ensure_signed origin;
  miner_opt ← gets (λ s, MinerItems s !! sender);
  match miner_opt with
  | Some miner =>
      ensure (String.eqb miner.(state) STATE_POSITIVE) SminerError.NotpositiveState ;;
      try_mutate_existing RewardMap sender SminerError.Unexpected (λ reward,
        ensure (negb (reward.(currently_available_reward) =? 0)) SminerError.NoReward ;;
        lift_field balances
          (transfer_keep_alive RewardPot sender reward.(currently_available_reward)) ;;
        i ← ok_or (checked_add 128 reward.(reward_issued) reward.(currently_available_reward))
              SminerError.Overflow;
        let reward := reward <| reward_issued := i |> in
        deposit_event (Receive sender reward.(currently_available_reward)) ;;
        mret (reward <| currently_available_reward := 0 |>))
  | None => mret ()
  end).

Definition faucet_top_up (origin : Origin) (award : Balance) : MS unit := transactional (
  sender ← ensure_signed origin;
  lift_field balances (transfer_keep_alive sender RewardPot award) ;;
  deposit_event (FaucetTopUpMoney sender)).

Definition faucet (origin : Origin) (to : AccountId) : MS unit := transactional (
  ensure_signed origin ;;
  exists_ ← contains_key FaucetRecordMap to;
  (if negb exists_ then
     insert_at FaucetRecordMap to {| last_claim_time := 0 |} ;;
     now ← gets block_number;
     lift_field balances (transfer_keep_alive RewardPot to FAUCET_VALUE) ;;
     insert_at FaucetRecordMap to {| last_claim_time := now |}
   else
     let one_day := saturated_into 32 OneDayBlock in
     faucet_record ← try_get FaucetRecordMap to SminerError.DataNotExist;
     now ← gets block_number;
     flag ←
       (if one_day <=? now then
          d ← ok_or (checked_sub now one_day) SminerError.Overflow;
          if negb (faucet_record.(last_claim_time) <=? d) then
            deposit_event (LessThan24Hours faucet_record.(last_claim_time) now) ;; mret false
          else mret true
        else
          if negb (faucet_record.(last_claim_time) <=? 0) then
            deposit_event (LessThan24Hours faucet_record.(last_claim_time) now) ;; mret false
          else mret true);
     ensure flag SminerError.LessThan24Hours ;;
     lift_field balances (transfer_keep_alive RewardPot to FAUCET_VALUE) ;;
     insert_at FaucetRecordMap to {| last_claim_time := now |}) ;;
  deposit_event DrawFaucetMoney).

(** *** Space *)

Definition add_miner_idle_space (acc : AccountId) (increment : Z) : MS unit :=
  exists_ ← contains_key MinerItems acc;
  ensure exists_ SminerError.NotMiner ;;
  st ← check_state acc;
  if String.eqb st STATE_EXIT then mret () else
  try_mutate_existing MinerItems acc SminerError.ConversionError (λ miner_info,
    i ← ok_or (checked_add 128 miner_info.(idle_space) increment) SminerError.Overflow;
    mret (miner_info <| idle_space := i |>)).

Definition sub_miner_idle_space (acc : AccountId) (increment : Z) : MS unit :=
  exists_ ← contains_key MinerItems acc;
  if negb exists_ then mret () else
  st ← check_state acc;
  if String.eqb st STATE_EXIT then mret () else
  try_mutate_existing MinerItems acc SminerError.ConversionError (λ miner_info,
    i ← ok_or (checked_sub miner_info.(idle_space) increment) SminerError.Overflow;
    mret (miner_info <| idle_space := i |>)).

Definition add_miner_service_space (acc : AccountId) (increment : Z) : MS unit :=
  exists_ ← contains_key MinerItems acc;
  if negb exists_ then mret () else
  st ← check_state acc;
  if String.eqb st STATE_EXIT then mret () else
  try_mutate_existing MinerItems acc SminerError.ConversionError (λ miner_info,
    i ← ok_or (checked_add 128 miner_info.(service_space) increment) SminerError.Overflow;
    mret (miner_info <| service_space := i |>)).

Definition sub_miner_service_space (acc : AccountId) (increment : Z) : MS unit :=
  exists_ ← contains_key MinerItems acc;
  if negb exists_ then mret () else
  st ← check_state acc;
  if String.eqb st STATE_EXIT then mret () else
  try_mutate_existing MinerItems acc SminerError.ConversionError (λ miner_info,
    i ← ok_or (checked_sub miner_info.(service_space) increment) SminerError.Overflow;
    mret (miner_info <| service_space := i |>)).

Definition lock_space (acc : AccountId) (space : Z) : MS unit :=
  try_mutate_existing MinerItems acc SminerError.NotExisted (λ miner,
    l ← ok_or (checked_add 128 miner.(lock_space_) space) SminerError.Overflow;
    let miner := miner <| lock_space_ := l |> in
    i ← ok_or (checked_sub miner.(idle_space) space) SminerError.Overflow;
    mret (miner <| idle_space := i |>)).

(** A miner that does not exist any more is no error. *)
Definition unlock_space (acc : AccountId) (space : Z) : MS unit :=
  try_mutate MinerItems acc (λ miner_opt,
    match miner_opt with
    | Some miner =>
        l ← ok_or (checked_sub miner.(lock_space_) space) SminerError.Overflow;
        let miner := miner <| lock_space_ := l |> in
        i ← ok_or (checked_add 128 miner.(idle_space) space) SminerError.Overflow;
        mret (Some (miner <| idle_space := i |>), ())
    | None => mret (None, ())
    end).

Definition unlock_space_to_service (acc : AccountId) (space : Z) : MS unit :=
  try_mutate_existing MinerItems acc SminerError.NotExisted (λ miner,
    l ← ok_or (checked_sub miner.(lock_space_) space) SminerError.Overflow;
    let miner := miner <| lock_space_ := l |> in
    i ← ok_or (checked_add 128 miner.(service_space) space) SminerError.Overflow;
    mret (miner <| service_space := i |>)).

Definition test_update_miner_idle_space (acc : AccountId) (space : Z) : MS unit :=
  try_mutate_existing MinerItems acc SminerError.Overflow (λ miner,
    mret (miner <| idle_space := space |>)).

(** *** Rewards *)

(** The loop over the order list: every order that has not been paid out
    [RELEASE_NUMBER] times releases one more share. *)
Fixpoint release_orders (available : Balance) (l : list RewardOrder) : MS (Balance * list RewardOrder) :=
  match l with
  | [] => mret (available, [])
  | order_temp :: l =>
      if order_temp.(award_count) =? RELEASE_NUMBER then
        '(available, l) ← release_orders available l;
        mret (available, order_temp :: l)
      else
        available ← ok_or (checked_add 128 available order_temp.(each_share)) SminerError.Overflow;
        '(available, l) ← release_orders available l;
        mret (available, order_temp <| award_count ::= λ c, wrapping_add 8 c 1 |> :: l)
  end.

Definition calculate_miner_reward (miner : AccountId) (total_reward_ total_idle_space
    total_service_space miner_idle_space miner_service_space : Z) : MS unit :=
  let total_power := calculate_power total_idle_space total_service_space in
  let miner_power := calculate_power miner_idle_space miner_service_space in
  let miner_prop := from_rational miner_power total_power in
  let this_round_reward := mul_floor miner_prop total_reward_ in
  let each_share_ := mul_floor EACH_SHARE_MUTI this_round_reward in
  each_share_ ← ok_or (checked_div each_share_ RELEASE_NUMBER) SminerError.Overflow;
  let issued := mul_floor ISSUE_MUTI this_round_reward in
  let order := {| order_reward := this_round_reward; each_share := each_share_;
                  award_count := 1; has_issued := true |} in
  try_mutate_existing RewardMap miner SminerError.Unexpected (λ reward_info,
    '(available, orders) ←
      release_orders reward_info.(currently_available_reward) reward_info.(order_list);
    let reward_info := reward_info <| currently_available_reward := available |>
                                   <| order_list := orders |> in
    let reward_info :=
      if Z.of_nat (length reward_info.(order_list)) =? RELEASE_NUMBER
      then reward_info <| order_list ::= tail |> else reward_info in
    a ← ok_or (checked_add 128 reward_info.(currently_available_reward) issued) SminerError.Overflow;
    a ← ok_or (checked_add 128 a order.(each_share)) SminerError.Overflow;
    let reward_info := reward_info <| currently_available_reward := a |> in
    t ← ok_or (checked_add 128 reward_info.(total_reward) order.(order_reward)) SminerError.Overflow;
    let reward_info := reward_info <| total_reward := t |> in
    l ← ok_or (try_push RELEASE_NUMBER reward_info.(order_list) order) SminerError.BoundedVecError;
    mret (reward_info <| order_list := l |>)) ;;
  v ← gets CurrencyReward;
  v ← ok_or (checked_sub v order.(order_reward)) SminerError.Overflow;
  put CurrencyReward v.

(** *** Punishments *)

Definition deposit_punish (miner : AccountId) (punish_amount : Balance) : MS unit :=
  try_mutate_existing MinerItems miner SminerError.NotMiner (λ miner_info,
    miner_info ←
      (if punish_amount <? miner_info.(collaterals) then
         modify (λ s, s <| balances ::= unreserve miner punish_amount |>) ;;
         lift_field balances (transfer_keep_alive miner RewardPot punish_amount) ;;
         modify (λ s, s <| CurrencyReward ::= λ v, wrapping_add 128 v punish_amount |>) ;;
         c ← ok_or (checked_sub miner_info.(collaterals) punish_amount) SminerError.Overflow;
         mret (miner_info <| collaterals := c |>)
       else
         modify (λ s, s <| balances ::= unreserve miner miner_info.(collaterals) |>) ;;
         lift_field balances (transfer_keep_alive miner RewardPot miner_info.(collaterals)) ;;
         modify (λ s, s <| CurrencyReward ::= λ v, wrapping_add 128 v miner_info.(collaterals) |>) ;;
         let miner_info := miner_info <| collaterals := 0 |> in
         d ← ok_or (checked_sub punish_amount miner_info.(collaterals)) SminerError.Overflow;
         mret (miner_info <| debt := d |>));
    let power := calculate_power miner_info.(idle_space) miner_info.(service_space) in
    limit ← check_collateral_limit power;
    if miner_info.(collaterals) <? limit then
      st ← ok_or (str_try_into_bounded ItemLimit STATE_FROZEN) SminerError.BoundedVecError;
      mret (miner_info <| state := st |>)
    else mret miner_info).

Definition idle_punish (miner : AccountId) (idle_space service_space : Z) : MS unit :=
  let power := calculate_power idle_space service_space in
  limit ← check_collateral_limit power;
  let punish_amount := mul_floor IDLE_PUNI_MUTI limit in
  deposit_punish miner punish_amount.

Definition service_punish (miner : AccountId) (idle_space service_space : Z) : MS unit :=
  let power := calculate_power idle_space service_space in
  limit ← check_collateral_limit power;
  let punish_amount := mul_floor SERVICE_PUNI_MUTI limit in
  deposit_punish miner punish_amount.

Definition clear_punish (miner : AccountId) (level idle_space service_space : Z) : MS unit :=
  let power := calculate_power idle_space service_space in
  limit ← check_collateral_limit power;
  punish_amount ←
    (if level =? 1 then mret (mul_floor (from_percent 30) limit)
     else if level =? 2 then mret (mul_floor (from_percent 60) limit)
     else if level =? 3 then mret limit
     else throw SminerError.Unexpected);
  deposit_punish miner punish_amount.

(** *** Leaving the network *)

Definition force_miner_exit (acc : AccountId) : MS unit :=
  reward_opt ← gets (λ s, RewardMap s !! acc);
  (match reward_opt with
   | Some reward_info =>
       reward ← ok_or (checked_sub reward_info.(total_reward) reward_info.(reward_issued))
                  SminerError.Overflow;
       modify (λ s, s <| CurrencyReward ::= λ v, wrapping_add 128 v reward |>)
   | None => mret ()
   end) ;;
  modify (λ s, s <| AllMiner ::= filter (λ a, a ≠ acc) |>) ;;
  remove_at RewardMap acc ;;
  try_mutate_existing MinerItems acc SminerError.Unexpected (λ miner,
    st ← ok_or (str_try_into_bounded ItemLimit STATE_OFFLINE) SminerError.BoundedVecError;
    mret (miner <| state := st |>)).

Definition execute_exit (acc : AccountId) : MS unit :=
  reward_opt ← gets (λ s, RewardMap s !! acc);
  (match reward_opt with
   | Some reward_info =>
       reward ← ok_or (checked_sub reward_info.(total_reward) reward_info.(reward_issued))
                  SminerError.Overflow;
       modify (λ s, s <| CurrencyReward ::= λ v, wrapping_add 128 v reward |>)
   | None => mret ()
   end) ;;
  modify (λ s, s <| AllMiner ::= filter (λ a, a ≠ acc) |>) ;;
  remove_at RewardMap acc ;;
  try_mutate_existing MinerItems acc SminerError.NotMiner (λ miner_info,
    st ← vec_to_bound STATE_EXIT;
    mret (miner_info <| state := st |>)).

Definition withdraw (acc : AccountId) : MS unit :=
  miner_info ← try_get MinerItems acc SminerError.NotMiner;
  modify (λ s, s <| balances ::= unreserve acc miner_info.(collaterals) |>) ;;
  remove_at MinerItems acc.

Definition on_nonzero_unbalanced (numeric_amount : Balance) : MS unit :=
  modify (λ s, s <| balances ::= resolve_creating RewardPot numeric_amount |>) ;;
  modify (λ s, s <| CurrencyReward ::= λ v, wrapping_add 128 v numeric_amount |>) ;;
  deposit_event (Deposit numeric_amount).

(** *** Queries and the miner state *)

Definition get_power (acc : AccountId) : MS (Z * Z) :=
  exists_ ← contains_key MinerItems acc;
  ensure exists_ SminerError.NotMiner ;;
  miner ← try_get MinerItems acc SminerError.NotMiner;
  mret (miner.(idle_space), miner.(service_space)).

Definition get_miner_idle_space (acc : AccountId) : MS Z :=
  miner ← try_get MinerItems acc SminerError.NotExisted;
  mret miner.(idle_space).

Definition miner_is_exist (acc : AccountId) : MS bool := contains_key MinerItems acc.

Definition get_miner_state (acc : AccountId) : MS string :=
  miner ← try_get MinerItems acc SminerError.NotMiner;
  mret miner.(state).

Definition get_all_miner : MS (list AccountId) := gets AllMiner.

(** [MinerItems] is a [CountedStorageMap]. *)
Definition get_miner_count : MS Z := gets (λ s, Z.of_nat (size (MinerItems s))).

Definition get_reward : MS Z := gets CurrencyReward.

Definition is_positive (miner : AccountId) : MS bool :=
  st ← get_miner_state miner; mret (String.eqb st STATE_POSITIVE).

Definition is_lock (miner : AccountId) : MS bool :=
  st ← get_miner_state miner; mret (String.eqb st STATE_LOCK).

Definition update_miner_state (miner : AccountId) (state_ : string) : MS unit :=
  ensure (String.eqb state_ STATE_POSITIVE || String.eqb state_ STATE_FROZEN ||
          String.eqb state_ STATE_EXIT || String.eqb state_ STATE_LOCK) SminerError.Overflow ;;
  try_mutate_existing MinerItems miner SminerError.NotMiner (λ miner_info,
    st ← ok_or (str_try_into_bounded ItemLimit state_) SminerError.BoundedVecError;
    mret (miner_info <| state := st |>)).
End operations.

(** ** Power and the collateral limit *)

Section power.
Context {B : Type} `{!PerbillOps} `{!PerbillLaws}.
Implicit Types s : State B.

Lemma mul_floor_percent p x :
  0 <= p <= 100 → 0 <= x → mul_floor (from_percent p) x = p * x / 100.
Proof.
  intros Hp Hx. rewrite mul_floor_spec, parts_from_percent by done.
  replace (p * (BILLION / 100) * x) with (p * x * (BILLION / 100)) by lia.
  replace BILLION with (100 * (BILLION / 100)) at 2 by done.
  by rewrite Z.div_mul_cancel_r by done.
Qed.

Lemma mul_floor_bounds r x : 0 <= x → 0 <= mul_floor r x <= x.
Proof.
  intros Hx. rewrite mul_floor_spec by done. pose proof (parts_bounds r).
  split; [apply Z.div_pos; [nia|done]|]. apply Z.div_le_upper_bound; [done|]. nia.
Qed.

(** The sum cannot wrap, because the weights add up to one. *)
Lemma calculate_power_eq idle service :
  is_u128 idle → is_u128 service →
  calculate_power idle service = 30 * idle / 100 + 70 * service / 100.
Proof.
  intros [? ?] [? ?]. unfold calculate_power, IDLE_MUTI, SERVICE_MUTI.
  rewrite !mul_floor_percent by lia. apply wrapping_add_small.
  split; [apply Z.add_nonneg_nonneg; apply Z.div_pos; lia|].
  Z.to_euclidean_division_equations. lia.
Qed.

Lemma calculate_power_u128 idle service :
  is_u128 idle → is_u128 service → is_u128 (calculate_power idle service).
Proof.
  intros Hi Hs. rewrite calculate_power_eq by done. destruct Hi, Hs.
  split; Z.to_euclidean_division_equations; lia.
Qed.

Definition collateral_limit (power : Z) : Z := BASE_LIMIT * (1 + power / T_BYTE).

Lemma check_collateral_limit_Ok power s s' l :
  is_u128 power →
  check_collateral_limit power s = (s', Ok l) ↔
  s' = s ∧ l = collateral_limit power ∧ collateral_limit power < 2 ^ 128.
Proof.
  intros [Hp1 Hp2]. unfold check_collateral_limit, collateral_limit.
  assert (wrapping_add 128 1 (power / T_BYTE) = 1 + power / T_BYTE) as Hw.
  { apply wrapping_add_small. unfold T_BYTE. Z.to_euclidean_division_equations. lia. }
  split.
  - intros ?. inv_ok. rewrite Hw in *. done.
  - intros (-> & -> & Hlt). run_ok.
    + done.
    + rewrite Hw. by apply checked_mul_Some.
Qed.

Lemma check_collateral_limit_nonneg power s s' l :
  check_collateral_limit power s = (s', Ok l) → s' = s ∧ 0 <= l.
Proof.
  unfold check_collateral_limit. intros ?. inv_ok. split; [done|].
  apply Z.mul_nonneg_nonneg; [done|]. by apply Z.mod_pos_bound.
Qed.

(** The power of a miner is three tenths of its idle space plus seven tenths
    of its service space, each rounded down; the addition, which the source does
    not check, cannot overflow for any sizes, and the power never exceeds the
    larger of the two spaces. *)
Theorem calculate_power_spec idle service :
  is_u128 idle → is_u128 service →
  calculate_power idle service = 30 * idle / 100 + 70 * service / 100 ∧
  0 <= calculate_power idle service <= Z.max idle service.
Proof.
  intros Hi Hs. rewrite calculate_power_eq by done. split; [done|].
  destruct Hi, Hs. Z.to_euclidean_division_equations. lia.
Qed.
End power.

(** ** The release schedule of rewards

    A reward is paid out as one fifth at once and 180 equal shares of the rest,
    one per reward round. *)

Definition unreleased (o : RewardOrder) : Z := (RELEASE_NUMBER - award_count o) * each_share o.

(** The orders of a miner are one round apart: the last has released one share,
    the one before it two, and so on; everything granted covers what has been
    paid, what can be claimed, and what is still to be released. *)
Record reward_ok (r : Reward) : Prop := {
  reward_counts i o : order_list r !! i = Some o →
    award_count o = Z.of_nat (length (order_list r)) - Z.of_nat i ∧ 0 <= each_share o;
  reward_length : Z.of_nat (length (order_list r)) <= RELEASE_NUMBER;
  reward_nonneg : 0 <= reward_issued r ∧ 0 <= currently_available_reward r;
  reward_covered :
    reward_issued r + currently_available_reward r
      + sum_list_with_Z unreleased (order_list r) <= total_reward r
}.

Definition bump (o : RewardOrder) : RewardOrder :=
  if award_count o =? RELEASE_NUMBER then o else o <| award_count ::= Z.succ |>.

Section rewards.
Context {B : Type} `{!Currency B} `{!Config} `{!PerbillOps} `{!PerbillLaws}.
Implicit Types (s : State B) (r : Reward) (o : RewardOrder) (l : list RewardOrder).

Lemma release_orders_Ok a l s s' a' l' :
  (∀ o, o ∈ l → 0 <= award_count o <= RELEASE_NUMBER ∧ 0 <= each_share o) →
  release_orders a l s = (s', Ok (a', l')) →
  s' = s ∧ l' = bump <$> l ∧ a <= a' ∧
  a' + sum_list_with_Z unreleased l' = a + sum_list_with_Z unreleased l.
Proof.
  revert a s s' a' l'. induction l as [|o l IH]; intros a s s' a' l' Hl Hrun; cbn [release_orders] in Hrun.
  { inv_ok. by simplify_eq. }
  destruct (Hl o ltac:(set_solver)) as [[Hc1 Hc2] Hsh].
  assert (∀ o, o ∈ l → 0 <= award_count o <= RELEASE_NUMBER ∧ 0 <= each_share o) as Hl' by set_solver.
  cbn [fmap list_fmap]. unfold bump at 1.
  destruct (Z.eqb_spec (award_count o) RELEASE_NUMBER) as [Heq|Hne]; inv_ok.
  all: match goal with p : Balance * list RewardOrder |- _ => destruct p as [a1 l1] end; inv_ok; simplify_eq.
  all: match goal with H : release_orders _ _ _ = _ |- _ => apply IH in H as (-> & -> & Hle & Hsum); [|done] end.
  all: rewrite !sum_list_cons; split; [done|].
  - split; [done|]. lia.
  - unfold RELEASE_NUMBER in *. unfold wrapping_add. cbn.
    assert ((award_count o + 1) mod 2 ^ 8 = Z.succ (award_count o)) as Hw by (apply Z.mod_small; lia).
    unfold set_ro_award_count. rewrite Hw. split; [done|]. split; [lia|].
    unfold unreleased, RELEASE_NUMBER in *. cbn in *. nia.
Qed.

Lemma reward_ok_orders r o :
  reward_ok r → o ∈ order_list r → 0 <= award_count o <= RELEASE_NUMBER ∧ 0 <= each_share o.
Proof.
  intros Hr [i Hi]%list_elem_of_lookup. destruct (reward_counts _ Hr _ _ Hi) as [Hc Hs].
  pose proof (reward_length _ Hr). apply lookup_lt_Some in Hi. lia.
Qed.

(** What is left of a list of orders after a round, before the new order: one
    share of each released, and the oldest dropped when the list is full. *)
Definition next_orders l : list RewardOrder :=
  if Z.of_nat (length l) =? RELEASE_NUMBER then tail (bump <$> l) else bump <$> l.

(** The order that is dropped has been released completely. *)
Lemma next_orders_sum r :
  reward_ok r →
  sum_list_with_Z unreleased (next_orders (order_list r))
  = sum_list_with_Z unreleased (bump <$> order_list r).
Proof.
  intros Hr. unfold next_orders. destruct (Z.eqb_spec (Z.of_nat (length (order_list r))) RELEASE_NUMBER); [|done].
  destruct (order_list r) as [|o l] eqn:Hl; [done|]. cbn [fmap list_fmap tail].
  destruct (reward_counts _ Hr 0 o) as [Hc Hs]; [by rewrite Hl|]. rewrite sum_list_cons.
  rewrite Hl in Hc. unfold bump at 2. rewrite (proj2 (Z.eqb_eq _ _)) by lia.
  unfold unreleased at 2. replace (award_count o) with RELEASE_NUMBER by lia. lia.
Qed.

Lemma next_orders_counts r new i o :
  reward_ok r → award_count new = 1 → 0 <= each_share new →
  (next_orders (order_list r) ++ [new]) !! i = Some o →
  award_count o = Z.of_nat (length (next_orders (order_list r) ++ [new])) - Z.of_nat i ∧
  0 <= each_share o.
Proof.
  intros Hr Hn Hsh Hi. pose proof (reward_length _ Hr) as Hlen. unfold RELEASE_NUMBER in *.
  rewrite length_app. cbn [length]. apply lookup_app_Some in Hi as [Hi|[Hge Hi]].
  - unfold next_orders, RELEASE_NUMBER in *.
    destruct (Z.eqb_spec (Z.of_nat (length (order_list r))) 180).
    + rewrite lookup_tail, list_lookup_fmap in Hi.
      destruct (order_list r !! S i) as [o'|] eqn:Ho; [|done]. cbn in Hi. simplify_eq.
      destruct (reward_counts _ Hr _ _ Ho) as [Hc ?]. rewrite length_tail, length_fmap.
      apply lookup_lt_Some in Ho. unfold bump, RELEASE_NUMBER. rewrite (proj2 (Z.eqb_neq _ _)) by lia.
      cbn. lia.
    + rewrite list_lookup_fmap in Hi. destruct (order_list r !! i) as [o'|] eqn:Ho; [|done].
      cbn in Hi. simplify_eq. destruct (reward_counts _ Hr _ _ Ho) as [Hc ?]. rewrite length_fmap.
      apply lookup_lt_Some in Ho. unfold bump, RELEASE_NUMBER. rewrite (proj2 (Z.eqb_neq _ _)) by lia.
      cbn. lia.
  - apply list_lookup_singleton_Some in Hi as [Hi ->]. lia.
Qed.

(** The reward of one round and the order it becomes. *)
Definition round_reward (tr ti ts mi ms : Z) : Z :=
  mul_floor (from_rational (calculate_power mi ms) (calculate_power ti ts)) tr.

Definition new_order (reward : Z) : RewardOrder :=
  {| order_reward := reward; each_share := mul_floor EACH_SHARE_MUTI reward / RELEASE_NUMBER;
     award_count := 1; has_issued := true |}.

(** A fifth of the reward and 180 shares never exceed it. *)
Lemma new_order_covered reward :
  0 <= reward →
  0 <= each_share (new_order reward) ∧ 0 <= mul_floor ISSUE_MUTI reward ∧
  mul_floor ISSUE_MUTI reward + RELEASE_NUMBER * each_share (new_order reward) <= reward.
Proof.
  intros Hr. unfold new_order, ISSUE_MUTI, EACH_SHARE_MUTI, RELEASE_NUMBER. cbn.
  rewrite !mul_floor_percent by lia. Z.to_euclidean_division_equations. lia.
Qed.

Lemma reward_ok_next r a rr :
  reward_ok r → 0 <= rr →
  currently_available_reward r <= a →
  a + sum_list_with_Z unreleased (bump <$> order_list r)
    = currently_available_reward r + sum_list_with_Z unreleased (order_list r) →
  Z.of_nat (length (next_orders (order_list r) ++ [new_order rr])) <= RELEASE_NUMBER →
  reward_ok {| total_reward := total_reward r + rr; reward_issued := reward_issued r;
               currently_available_reward :=
                 a + mul_floor ISSUE_MUTI rr + each_share (new_order rr);
               order_list := next_orders (order_list r) ++ [new_order rr] |}.
Proof.
  intros Hr Hrr Ha Hsum Hlen. destruct (new_order_covered rr Hrr) as (Hs & Hi & Hcov).
  pose proof (reward_nonneg _ Hr) as [? ?]. pose proof (reward_covered _ Hr).
  split; cbn [total_reward reward_issued currently_available_reward order_list].
  - intros i o. by apply next_orders_counts.
  - done.
  - lia.
  - rewrite sum_list_app, sum_list_cons, next_orders_sum by done. cbn [sum_list_with_Z foldr].
    unfold unreleased at 2. cbn [award_count new_order] in *. unfold RELEASE_NUMBER in *. lia.
Qed.

Lemma calculate_miner_reward_Ok miner tr ti ts mi ms s s' u :
  0 <= tr → (∀ r, RewardMap s !! miner = Some r → reward_ok r) →
  calculate_miner_reward miner tr ti ts mi ms s = (s', Ok u) →
  let rr := round_reward tr ti ts mi ms in
  ∃ r r', RewardMap s !! miner = Some r ∧ reward_ok r' ∧
    total_reward r' = total_reward r + rr ∧ reward_issued r' = reward_issued r ∧
    order_list r' = next_orders (order_list r) ++ [new_order rr] ∧
    0 <= rr <= CurrencyReward s ∧
    s' = s <| RewardMap ::= <[miner := r']> |> <| CurrencyReward := CurrencyReward s - rr |>.
Proof.
  intros Htr Hok Hrun rr. unfold calculate_miner_reward in Hrun. cbv zeta in Hrun.
  fold (round_reward tr ti ts mi ms) in Hrun. fold rr in Hrun. inv_ok.
  assert (0 <= rr) as Hrr by (by apply mul_floor_bounds).
  match goal with H : RewardMap s !! miner = Some ?r |- _ =>
    specialize (Hok r H); rename r into r0; rename H into Hr end.
  match goal with p : Balance * list RewardOrder |- _ => destruct p as [a1 l1] end. inv_ok.
  match goal with H : release_orders _ _ _ = _ |- _ =>
    apply release_orders_Ok in H as (-> & -> & Hle & Hsum); [|intros; by apply (reward_ok_orders r0)] end.
  fold (new_order rr) in *. unfold try_push in *. cbn in *. rewrite length_fmap in *.
  exists r0. fold (next_orders (order_list r0)) in *.
  pose proof (λ Hlen, reward_ok_next r0 a1 rr Hok Hrr Hle Hsum Hlen) as Hnext.
  unfold next_orders, RELEASE_NUMBER in *. rewrite length_app in *. cbn [length] in *.
  destruct (Z.of_nat (length (order_list r0)) =? 180) eqn:Hl; cbn in *;
    (case_match; [|done]); simplify_eq; eexists; (split; [done|]);
    (split; [apply Hnext; lia|]); split_and!; done.
Qed.

End rewards.

(** ** What the other operations do *)

Section specs.
Context {B : Type} `{!Currency B} `{!Config} `{!PerbillOps}.
Implicit Types (s : State B) (acc : AccountId) (mi : MinerInfo).

Lemma vec_to_bound_Ok st s s' st' :
  vec_to_bound st s = (s', Ok st') → s' = s ∧ st' = st.
Proof.
  unfold vec_to_bound, str_try_into_bounded. intros ?. inv_ok. case_match; naive_solver.
Qed.

Lemma regnstk_Ok o ben pid v s s' u :
  regnstk o ben pid v s = (s', Ok u) →
  ∃ sender b', o = Signed sender ∧ MinerItems s !! sender = None ∧
    reserve sender v (balances s) = Ok b' ∧
    Z.of_nat (length (AllMiner s)) < ItemLimit ∧
    s' = s <| balances := b' |>
           <| MinerItems ::= <[sender := mkMinerInfo ben pid v 0 STATE_POSITIVE 0 0 0]> |>
           <| AllMiner := AllMiner s ++ [sender] |>
           <| RewardMap ::= <[sender := mkReward 0 0 0 []]> |>
           <| events ::= λ l, l ++ [Registered sender v] |>.
Proof.
  unfold regnstk, try_push, deposit_event. intros ?. inv_ok. cbn in *.
  match goal with H : vec_to_bound _ _ = _ |- _ => apply vec_to_bound_Ok in H as [-> ->] end. cbn in *.
  match goal with H : negb (bool_decide (is_Some ?o)) = true |- _ => destruct o eqn:?; [done|] end.
  case_match; [|done]. simplify_eq. do 2 eexists. split_and!; try done. lia.
Qed.

(** Paying towards the collateral first pays off the debt; only what is left is
    reserved. *)
Definition debt_paid mi (v : Balance) : Balance := Z.min (debt mi) v.

Lemma pay_debt_Ok mi v s s' p :
  0 <= debt mi → 0 <= v →
  pay_debt mi v s = (s', Ok p) →
  s' = s ∧ p = (mi <| debt := debt mi - debt_paid mi v |>, v - debt_paid mi v).
Proof.
  intros Hd Hv Hrun. unfold pay_debt in Hrun. inv_ok; split; try done; unfold debt_paid;
    rewrite ?Z.min_l, ?Z.min_r by lia; unfold set_mi_debt; destruct mi; cbn in *; f_equal; try f_equal; lia.
Qed.

(** The state after [increase_collateral]: a frozen miner whose collateral
    reaches the limit becomes positive again. *)
Lemma thaw_Ok mi s s' mi' :
  thaw mi s = (s', Ok mi') →
  s' = s ∧ ∃ st, mi' = mi <| state := st |> ∧
    (st = state mi ∨ state mi = STATE_FROZEN ∧ st = STATE_POSITIVE).
Proof.
  unfold thaw. intros Hrun.
  destruct (String.eqb_spec (state mi) STATE_FROZEN) as [Hf|]; inv_ok.
  all: repeat match goal with
    | H : check_collateral_limit _ _ = _ |- _ => apply check_collateral_limit_nonneg in H as [-> _]
    | H : vec_to_bound _ _ = _ |- _ => apply vec_to_bound_Ok in H as [-> ->] end.
  - split; [done|]. exists STATE_POSITIVE. auto.
  - split; [done|]. exists (state mi). split; [by destruct mi|auto].
  - split; [done|]. exists (state mi). split; [by destruct mi|auto].
Qed.

Lemma increase_collateral_Ok o v s s' u :
  (∀ acc mi, MinerItems s !! acc = Some mi → 0 <= debt mi) → 0 <= v →
  increase_collateral o v s = (s', Ok u) →
  ∃ sender mi st b', o = Signed sender ∧ MinerItems s !! sender = Some mi ∧
    reserve sender (v - debt_paid mi v) (balances s) = Ok b' ∧
    (st = state mi ∨ state mi = STATE_FROZEN ∧ st = STATE_POSITIVE) ∧
    s' = s <| balances := b' |>
           <| MinerItems ::= <[sender := mi <| debt := debt mi - debt_paid mi v |>
                 <| collaterals := collaterals mi + (v - debt_paid mi v) |>
                 <| state := st |>]> |>
           <| events ::= λ l, l ++ [IncreaseCollateral sender (collaterals mi + (v - debt_paid mi v))] |>.
Proof.
  intros Hdebt Hv. unfold increase_collateral, deposit_event. intros Hrun. inv_ok. cbn in *.
  match goal with H : MinerItems _ !! ?a = Some ?m |- _ => pose proof (Hdebt _ _ H) end.
  match goal with H : pay_debt _ _ _ = _ |- _ => apply pay_debt_Ok in H as [-> ->]; [|done..] end.
  inv_ok.
  match goal with H : thaw _ _ = _ |- _ => apply thaw_Ok in H as (-> & st & -> & Hst) end.
  cbn in *. simplify_eq. do 4 eexists. split_and!; done.
Qed.

(** What a punishment takes and what it books as debt.  When the collateral
    does not cover the punishment the debt is the whole punishment, not the part
    that could not be taken: the collateral is zeroed before the subtraction. *)
Definition punished mi (p : Balance) : Balance * MinerInfo :=
  if p <? collaterals mi then (p, mi <| collaterals := collaterals mi - p |>)
  else (collaterals mi, mi <| collaterals := 0 |> <| debt := p |>).

Lemma deposit_punish_Ok acc p s s' u :
  deposit_punish acc p s = (s', Ok u) →
  ∃ mi st b', MinerItems s !! acc = Some mi ∧
    let '(taken, mi') := punished mi p in
    transfer_keep_alive acc RewardPot taken (unreserve acc taken (balances s)) = Ok b' ∧
    (st = state mi ∨ st = STATE_FROZEN) ∧
    s' = s <| balances := b' |>
           <| CurrencyReward := wrapping_add 128 (CurrencyReward s) taken |>
           <| MinerItems ::= <[acc := mi' <| state := st |>]> |>.
Proof.
  unfold deposit_punish, punished, str_try_into_bounded. intros Hrun.
  apply try_mutate_existing_Ok in Hrun as (mi & mi' & s1 & Hmi & Hrun & ->). exists mi.
  destruct (p <? collaterals mi); inv_ok.
  all: match goal with H : check_collateral_limit _ _ = _ |- _ =>
    apply check_collateral_limit_nonneg in H as [-> _] end.
  all: repeat case_match; simplify_eq; cbn in *.
  - exists STATE_FROZEN. eexists. split_and!; first [done|by auto|by destruct mi].
  - exists (state mi). eexists. split_and!; first [done|by auto|by destruct mi].
  - exists STATE_FROZEN. eexists. rewrite Z.sub_0_r. split_and!; first [done|by auto|by destruct mi].
  - exists (state mi). eexists. rewrite Z.sub_0_r. split_and!; first [done|by auto|by destruct mi].
Qed.

Lemma receive_reward_Ok o s s' u :
  receive_reward o s = (s', Ok u) →
  ∃ sender, o = Signed sender ∧
  ((MinerItems s !! sender = None ∧ s' = s) ∨
   ∃ mi r b', MinerItems s !! sender = Some mi ∧ state mi = STATE_POSITIVE ∧
     RewardMap s !! sender = Some r ∧ currently_available_reward r ≠ 0 ∧
     transfer_keep_alive RewardPot sender (currently_available_reward r) (balances s) = Ok b' ∧
     s' = s <| balances := b' |>
            <| RewardMap ::= <[sender :=
                 r <| reward_issued := reward_issued r + currently_available_reward r |>
                   <| currently_available_reward := 0 |>]> |>
            <| events ::= λ l, l ++ [Receive sender (currently_available_reward r)] |>).
Proof.
  unfold receive_reward, deposit_event. intros Hrun. inv_ok. eexists. split; [done|].
  destruct (MinerItems s !! x0) as [mi|] eqn:Hmi; inv_ok; [right|by left].
  destruct (String.eqb_spec (state mi) STATE_POSITIVE); [|done].
  exists mi. do 2 eexists. split_and!; try done. lia.
Qed.

(** Both ways of leaving: what is still owed to the miner goes back to the
    undistributed reward. *)
Definition outstanding (r : Reward) : Z := total_reward r - reward_issued r.

Definition left_network acc (st : string) mi s : State B :=
  s <| CurrencyReward := match RewardMap s !! acc with
                         | Some r => wrapping_add 128 (CurrencyReward s) (outstanding r)
                         | None => CurrencyReward s end |>
    <| AllMiner ::= filter (λ a, a ≠ acc) |>
    <| RewardMap ::= delete acc |>
    <| MinerItems ::= <[acc := mi <| state := st |>]> |>.

Lemma force_miner_exit_Ok acc s s' u :
  force_miner_exit acc s = (s', Ok u) →
  ∃ mi, MinerItems s !! acc = Some mi ∧ s' = left_network acc STATE_OFFLINE mi s.
Proof.
  unfold force_miner_exit, left_network, str_try_into_bounded. intros Hrun. inv_ok.
  destruct (RewardMap s !! acc) eqn:?; inv_ok; cbn in *; case_match; simplify_eq;
    eexists; (split; [done|]); by destruct s.
Qed.

Lemma execute_exit_Ok acc s s' u :
  execute_exit acc s = (s', Ok u) →
  ∃ mi, MinerItems s !! acc = Some mi ∧ s' = left_network acc STATE_EXIT mi s.
Proof.
  unfold execute_exit, left_network. intros Hrun. inv_ok.
  match goal with H : vec_to_bound _ _ = _ |- _ => apply vec_to_bound_Ok in H as [-> ->] end.
  destruct (RewardMap s !! acc) eqn:?; inv_ok; cbn in *;
    eexists; (split; [done|]); by destruct s.
Qed.

Lemma withdraw_Ok acc s s' u :
  withdraw acc s = (s', Ok u) ↔
  ∃ mi, MinerItems s !! acc = Some mi ∧
    s' = s <| balances ::= unreserve acc (collaterals mi) |> <| MinerItems ::= delete acc |>.
Proof.
  unfold withdraw. split.
  - intros ?. inv_ok. eauto.
  - intros (mi & Hmi & ->). destruct u. run_ok.
Qed.

(** The operations on space and on the state of a miner change nothing but one
    entry of [MinerItems], and neither collateral nor debt. *)
Definition miner_only s s' : Prop :=
  s' = s ∨ ∃ acc mi mi', MinerItems s !! acc = Some mi ∧
    collaterals mi' = collaterals mi ∧ debt mi' = debt mi ∧
    s' = s <| MinerItems ::= <[acc := mi']> |>.

Ltac solve_miner_only :=
  intros Hrun; inv_ok;
  repeat match goal with
    | H : match ?o with Some _ => _ | None => _ end _ = (_, Ok _) |- _ => destruct o eqn:?; inv_ok
    | H : check_state _ _ = _ |- _ => unfold check_state in H; inv_ok
    | H : (_, ()) = (_, _) |- _ => simplify_eq
    | H : ok_or _ _ = _ |- _ => inv_ok
    end; cbn in *; simplify_eq;
  first [by left | right; do 3 eexists; split; [eassumption|split; [|split; [|reflexivity]]]; done].

Lemma add_miner_idle_space_only acc n s s' u :
  add_miner_idle_space acc n s = (s', Ok u) → miner_only s s'.
Proof. unfold add_miner_idle_space. solve_miner_only. Qed.

Lemma sub_miner_idle_space_only acc n s s' u :
  sub_miner_idle_space acc n s = (s', Ok u) → miner_only s s'.
Proof. unfold sub_miner_idle_space. solve_miner_only. Qed.

Lemma add_miner_service_space_only acc n s s' u :
  add_miner_service_space acc n s = (s', Ok u) → miner_only s s'.
Proof. unfold add_miner_service_space. solve_miner_only. Qed.

Lemma sub_miner_service_space_only acc n s s' u :
  sub_miner_service_space acc n s = (s', Ok u) → miner_only s s'.
Proof. unfold sub_miner_service_space. solve_miner_only. Qed.

Lemma lock_space_only acc n s s' u : lock_space acc n s = (s', Ok u) → miner_only s s'.
Proof. unfold lock_space. solve_miner_only. Qed.

Lemma unlock_space_to_service_only acc n s s' u :
  unlock_space_to_service acc n s = (s', Ok u) → miner_only s s'.
Proof. unfold unlock_space_to_service. solve_miner_only. Qed.

Lemma update_miner_state_only acc st s s' u :
  update_miner_state acc st s = (s', Ok u) → miner_only s s'.
Proof. unfold update_miner_state. solve_miner_only. Qed.

Lemma unlock_space_only acc n s s' u : unlock_space acc n s = (s', Ok u) → miner_only s s'.
Proof.
  unfold unlock_space. destruct u. intros Hrun. apply try_mutate_Ok in Hrun as (s1 & o & Hrun & ->).
  destruct (MinerItems s !! acc) as [mi|] eqn:Hmi; inv_ok; simplify_eq.
  - right. do 3 eexists. split; [done|]. split; [|split; [|reflexivity]]; done.
  - left. destruct s. unfold set_field, set_sm_MinerItems. cbn in *. f_equal.
    rewrite <- Hmi. apply partial_alter_self.
Qed.

(** A claim from the faucet is due once a day has passed since the last one. *)
Definition claim_due (rec : option FaucetRecord) (now : BlockNumber) : bool :=
  match rec with
  | None => true
  | Some r => if saturated_into 32 OneDayBlock <=? now
              then last_claim_time r <=? now - saturated_into 32 OneDayBlock
              else last_claim_time r <=? 0
  end.

Lemma faucet_Ok o to s s' u :
  faucet o to s = (s', Ok u) →
  ∃ sender b', o = Signed sender ∧ claim_due (FaucetRecordMap s !! to) (block_number s) = true ∧
    transfer_keep_alive RewardPot to FAUCET_VALUE (balances s) = Ok b' ∧
    s' = s <| balances := b' |>
           <| FaucetRecordMap ::= <[to := mkFaucetRecord (block_number s)]> |>
           <| events ::= λ l, l ++ [DrawFaucetMoney] |>.
Proof.
  unfold faucet, deposit_event. intros Hrun. inv_ok; cbn in *.
  all: try match goal with H : negb (bool_decide (is_Some ?o)) = true |- _ => destruct o eqn:Hrec; [done|] end.
  all: try match goal with H : FaucetRecordMap _ !! _ = Some _ |- _ => rewrite H end.
  all: try discriminate.
  all: do 2 eexists; unfold claim_due; try rewrite Hrec; split_and!; try done.
  1: { unfold set_sm_FaucetRecordMap, set_sm_balances. cbn. by rewrite insert_insert_eq. }
  all: case_match; try done; lia.
Qed.
End specs.

(** ** The invariant of the pallet *)

Section invariant.
Context {B : Type} `{!Currency B} `{!CurrencyLaws B} `{!Config} `{!PerbillOps} `{!PerbillLaws}.
Implicit Types (s : State B) (acc : AccountId) (mi : MinerInfo).

(** What the pallet owes: the reward not yet distributed and what each miner has
    been granted but not paid. *)
Definition liabilities s : Z := CurrencyReward s + map_sum outstanding (RewardMap s).

(** What the reward pot holds beyond that. *)
Definition margin s : Z := free_balance (balances s) RewardPot - liabilities s.

Record registry_ok s : Prop := {
  reg_nodup : NoDup (AllMiner s);
  reg_rewards acc : acc ∈ AllMiner s ↔ is_Some (RewardMap s !! acc);
  reg_miners acc : is_Some (RewardMap s !! acc) → is_Some (MinerItems s !! acc);
  reg_limit : Z.of_nat (length (AllMiner s)) <= ItemLimit;
  reg_pot : MinerItems s !! RewardPot = None
}.

Record sminer_inv s : Prop := {
  inv_registry : registry_ok s;
  inv_rewards acc r : RewardMap s !! acc = Some r → reward_ok r;
  inv_miners acc mi : MinerItems s !! acc = Some mi → 0 <= collaterals mi ∧ 0 <= debt mi;
  inv_backed acc : from_option collaterals 0 (MinerItems s !! acc)
                   <= reserved_balance (balances s) acc;
  inv_pool : 0 <= CurrencyReward s
}.

Lemma outstanding_nonneg r : reward_ok r → 0 <= outstanding r.
Proof.
  intros Hr. pose proof (reward_nonneg _ Hr). pose proof (reward_covered _ Hr).
  assert (0 <= sum_list_with_Z unreleased (order_list r)).
  { apply sum_list_nonneg. intros o Ho. apply (reward_ok_orders _ _ Hr) in Ho. unfold unreleased. nia. }
  unfold outstanding. lia.
Qed.

Lemma outstanding_le s acc r :
  sminer_inv s → RewardMap s !! acc = Some r → CurrencyReward s + outstanding r <= liabilities s.
Proof.
  intros Hinv Hr. unfold liabilities.
  assert (outstanding r <= map_sum outstanding (RewardMap s)); [|lia].
  apply (map_sum_lookup_le _ _ acc); [|done]. intros k v Hv. apply outstanding_nonneg.
  by eapply inv_rewards.
Qed.

Lemma liabilities_pool s : sminer_inv s → 0 <= CurrencyReward s <= liabilities s.
Proof.
  intros Hinv. pose proof (inv_pool _ Hinv). unfold liabilities.
  assert (0 <= map_sum outstanding (RewardMap s)); [|lia].
  apply map_sum_nonneg. intros k v Hv. apply outstanding_nonneg. by eapply inv_rewards.
Qed.

(** Only the fields below matter for the invariant. *)
Lemma inv_frame s s' :
  MinerItems s' = MinerItems s → AllMiner s' = AllMiner s → RewardMap s' = RewardMap s →
  CurrencyReward s' = CurrencyReward s →
  (∀ acc, reserved_balance (balances s') acc = reserved_balance (balances s) acc) →
  sminer_inv s → sminer_inv s'.
Proof.
  intros Hm1 Ha1 Hr1 Hc1 Hb1 [[] ? ? ? ?]. split; [split|..]; intros *; rewrite ?Hm1, ?Ha1, ?Hr1, ?Hc1, ?Hb1; eauto.
Qed.

(** Updating the entry of a registered miner. *)
Lemma inv_miner_update s s' acc mi mi' :
  MinerItems s !! acc = Some mi → MinerItems s' = <[acc := mi']> (MinerItems s) →
  AllMiner s' = AllMiner s → RewardMap s' = RewardMap s → 0 <= CurrencyReward s' →
  0 <= collaterals mi' → 0 <= debt mi' →
  (∀ a, reserved_balance (balances s') a
        = reserved_balance (balances s) a + at_acc acc a (collaterals mi' - collaterals mi)) →
  sminer_inv s → sminer_inv s'.
Proof.
  intros Hmi Hm1 Ha1 Hr1 Hc1 Hc Hd Hres [[Hn Hr Hm Hl Hpot] Hrew Hmin Hback Hpool].
  split; [split|..]; intros *; rewrite ?Hm1, ?Ha1, ?Hr1; eauto.
  - intros [r Hr']%Hm. destruct (decide (acc = acc0)) as [->|]; simplify_map_eq; eauto.
  - rewrite lookup_insert_ne; [done|congruence].
  - destruct (decide (acc = acc0)) as [->|]; intros; simplify_map_eq; eauto.
  - rewrite Hres. unfold at_acc. specialize (Hback acc0).
    destruct (decide (acc = acc0)) as [->|]; simplify_map_eq; rewrite ?Hmi in Hback; cbn in *; lia.
Qed.

Lemma inv_miner_only s s' : miner_only s s' → sminer_inv s → sminer_inv s' ∧ margin s' = margin s.
Proof.
  intros [->|(acc & mi & mi' & Hmi & Hc & Hd & ->)] Hinv; [done|]. split; [|done].
  destruct (inv_miners _ Hinv _ _ Hmi).
  apply (inv_miner_update s _ acc mi mi'); cbn; try done; try lia; [by apply inv_pool|].
  intros a. rewrite Hc. unfold at_acc. case_decide; lia.
Qed.
End invariant.

(** ** Calls and traces *)

Inductive call :=
| CRegnstk (origin : Origin) (beneficiary : AccountId) (peer_id : PeerId) (v : Z)
| CIncreaseCollateral (origin : Origin) (v : Z)
| CUpdateBeneficiary (origin : Origin) (beneficiary : AccountId)
| CUpdatePeerId (origin : Origin) (peer_id : PeerId)
| CReceiveReward (origin : Origin)
| CFaucetTopUp (origin : Origin) (award : Z)
| CFaucet (origin : Origin) (to : AccountId)
| CAddIdle (acc : AccountId) (n : Z)
| CSubIdle (acc : AccountId) (n : Z)
| CAddService (acc : AccountId) (n : Z)
| CSubService (acc : AccountId) (n : Z)
| CLockSpace (acc : AccountId) (n : Z)
| CUnlockSpace (acc : AccountId) (n : Z)
| CUnlockSpaceToService (acc : AccountId) (n : Z)
| CReward (miner : AccountId) (total_reward total_idle total_service idle service : Z)
| CIdlePunish (miner : AccountId) (idle service : Z)
| CServicePunish (miner : AccountId) (idle service : Z)
| CClearPunish (miner : AccountId) (level idle service : Z)
| CForceMinerExit (acc : AccountId)
| CExecuteExit (acc : AccountId)
| CWithdraw (acc : AccountId)
| CUnbalanced (amount : Z)
| CUpdateMinerState (miner : AccountId) (st : string).

Section traces.
Context {B : Type} `{!Currency B} `{!CurrencyLaws B} `{!Config} `{!PerbillOps} `{!PerbillLaws}.
Implicit Types (s : State B) (acc : AccountId) (mi : MinerInfo).

Definition exec (c : call) : M (State B) unit :=
  match c with
  | CRegnstk o b p v => regnstk o b p v
  | CIncreaseCollateral o v => increase_collateral o v
  | CUpdateBeneficiary o b => update_beneficiary o b
  | CUpdatePeerId o p => update_peer_id o p
  | CReceiveReward o => receive_reward o
  | CFaucetTopUp o v => faucet_top_up o v
  | CFaucet o to => faucet o to
  | CAddIdle acc n => add_miner_idle_space acc n
  | CSubIdle acc n => sub_miner_idle_space acc n
  | CAddService acc n => add_miner_service_space acc n
  | CSubService acc n => sub_miner_service_space acc n
  | CLockSpace acc n => lock_space acc n
  | CUnlockSpace acc n => unlock_space acc n
  | CUnlockSpaceToService acc n => unlock_space_to_service acc n
  | CReward m tr ti ts i sv => calculate_miner_reward m tr ti ts i sv
  | CIdlePunish m i sv => idle_punish m i sv
  | CServicePunish m i sv => service_punish m i sv
  | CClearPunish m l i sv => clear_punish m l i sv
  | CForceMinerExit acc => force_miner_exit acc
  | CExecuteExit acc => execute_exit acc
  | CWithdraw acc => withdraw acc
  | CUnbalanced v => on_nonzero_unbalanced v
  | CUpdateMinerState acc st => update_miner_state acc st
  end.

(** What a call can at most add to the undistributed reward from outside. *)
Definition credit (c : call) s : Z :=
  match c with
  | CIdlePunish m _ _ | CServicePunish m _ _ | CClearPunish m _ _ _ =>
      from_option collaterals 0 (MinerItems s !! m)
  | CUnbalanced v => v
  | _ => 0
  end.

(** The conditions of a call: amounts are unsigned; the reward pot, an account
    without a key, signs nothing; amounts of the currency stay below [2^128]; a
    miner withdraws after its exit; fees go to an existing pot. *)
Definition call_ok (c : call) s : Prop :=
  liabilities s + credit c s < 2 ^ 128 ∧
  match c with
  | CRegnstk o _ _ v | CFaucetTopUp o v => 0 <= v ∧ o ≠ Signed RewardPot
  | CIncreaseCollateral _ v => 0 <= v
  | CReward _ tr _ _ _ _ => 0 <= tr
  | CWithdraw acc => RewardMap s !! acc = None
  | CUnbalanced v => 0 <= v ∧ 0 < free_balance (balances s) RewardPot
  | _ => True
  end.

(** Money the faucet moves past the books of the reward pool. *)
Definition flow (c : call) : Z :=
  match c with
  | CFaucetTopUp _ v => v
  | CFaucet _ to => if decide (to = RewardPot) then 0 else - FAUCET_VALUE
  | _ => 0
  end.

Lemma at_acc_eq acc v : at_acc acc acc v = v.
Proof. unfold at_acc. by rewrite decide_True. Qed.

Lemma at_acc_ne acc a v : acc ≠ a → at_acc acc a v = 0.
Proof. intros. unfold at_acc. by rewrite decide_False. Qed.

Lemma regnstk_inv o ben pid v s s' u :
  sminer_inv s → call_ok (CRegnstk o ben pid v) s → regnstk o ben pid v s = (s', Ok u) →
  sminer_inv s' ∧ margin s' = margin s.
Proof.
  intros Hinv (_ & Hv & Hpot) Hrun.
  apply regnstk_Ok in Hrun as (acc & b' & -> & Hacc & Hres & Hlim & ->).
  assert (acc ≠ RewardPot) as Hne by congruence.
  pose proof Hinv as [[Hn Hr Hm Hl Hp] Hrew Hmin Hback Hpool].
  assert (RewardMap s !! acc = None) as Hnone.
  { apply eq_None_not_Some. intros HS. apply Hm in HS. rewrite Hacc in HS. by destruct HS. }
  split.
  - split; [split|..]; cbn.
    + apply NoDup_app. split_and!; [done| |apply NoDup_singleton].
      intros a Ha ->%list_elem_of_singleton. apply Hr in Ha. rewrite Hnone in Ha. by destruct Ha.
    + intros a. rewrite elem_of_app, list_elem_of_singleton, Hr.
      destruct (decide (acc = a)) as [->|]; simplify_map_eq; naive_solver.
    + intros a. destruct (decide (acc = a)) as [->|]; simplify_map_eq; [done|]. apply Hm.
    + rewrite length_app. cbn. lia.
    + by rewrite lookup_insert_ne.
    + intros a r. destruct (decide (acc = a)) as [->|]; intros; simplify_map_eq; [|eauto].
      split; cbn; done.
    + intros a mi. destruct (decide (acc = a)) as [->|]; intros; simplify_map_eq; [|eauto]. done.
    + intros a. specialize (Hback a). rewrite (reserve_reserved _ _ _ _ a Hres).
      destruct (decide (acc = a)) as [->|]; simplify_map_eq.
      * rewrite at_acc_eq. cbn in *. lia.
      * rewrite at_acc_ne by done. lia.
    + done.
  - unfold margin, liabilities. cbn. rewrite (reserve_free _ _ _ _ RewardPot Hres), at_acc_ne by done.
    rewrite map_sum_insert_new by done. unfold outstanding at 1. cbn. lia.
Qed.

Lemma increase_collateral_inv o v s s' u :
  sminer_inv s → 0 <= v → increase_collateral o v s = (s', Ok u) →
  sminer_inv s' ∧ margin s' = margin s.
Proof.
  intros Hinv Hv Hrun.
  apply increase_collateral_Ok in Hrun as (acc & mi & st & b' & -> & Hmi & Hres & _ & ->);
    [|by intros a m Hm; apply (inv_miners _ Hinv _ _ Hm)|done].
  pose proof (inv_miners _ Hinv _ _ Hmi) as [? ?].
  assert (acc ≠ RewardPot) by (intros ->; pose proof (reg_pot _ (inv_registry _ Hinv)); congruence).
  split.
  - eapply (inv_miner_update s _ acc mi); [done|reflexivity|done|done|..]; cbn;
      [by apply inv_pool|unfold debt_paid; lia..| |done].
    intros a. rewrite (reserve_reserved _ _ _ _ a Hres). do 2 f_equal. lia.
  - unfold margin, liabilities. cbn. by rewrite (reserve_free _ _ _ _ RewardPot Hres), at_acc_ne, Z.sub_0_r.
Qed.

Lemma deposit_punish_inv acc p s s' u :
  sminer_inv s → 0 <= p →
  liabilities s + from_option collaterals 0 (MinerItems s !! acc) < 2 ^ 128 →
  deposit_punish acc p s = (s', Ok u) →
  sminer_inv s' ∧ margin s' = margin s.
Proof.
  intros Hinv Hp Hcred Hrun. apply deposit_punish_Ok in Hrun as (mi & st & b' & Hmi & Hrun).
  pose proof (inv_miners _ Hinv _ _ Hmi) as [Hc Hd]. pose proof (liabilities_pool _ Hinv).
  pose proof (inv_backed _ Hinv acc) as Hback. rewrite Hmi in *. cbn in *.
  assert (acc ≠ RewardPot) by (intros ->; pose proof (reg_pot _ (inv_registry _ Hinv)); congruence).
  destruct (punished mi p) as [taken mi'] eqn:Hpun. destruct Hrun as (Htr & _ & ->).
  assert (0 <= taken <= collaterals mi ∧ collaterals mi' = collaterals mi - taken ∧ 0 <= debt mi')
    as (? & Hc' & Hd').
  { unfold punished in Hpun. destruct (Z.ltb_spec p (collaterals mi)); simplify_eq; cbn; lia. }
  rewrite wrapping_add_small by lia. split.
  - eapply (inv_miner_update s _ acc mi); [done|reflexivity|done|done|..]; cbn; [lia..| |done].
    intros a. rewrite (transfer_reserved _ _ _ _ _ a Htr), unreserve_reserved, Z.min_l by lia.
    rewrite Hc'. unfold at_acc. case_decide; lia.
  - unfold margin, liabilities. cbn. rewrite (transfer_free _ _ _ _ _ RewardPot Htr), unreserve_free.
    rewrite !at_acc_eq, !(at_acc_ne acc) by done. lia.
Qed.

(** Changing the reward of a registered miner and the undistributed reward. *)
Lemma inv_reward_update s s' acc r r' :
  RewardMap s !! acc = Some r → reward_ok r' → RewardMap s' = <[acc := r']> (RewardMap s) →
  MinerItems s' = MinerItems s → AllMiner s' = AllMiner s → 0 <= CurrencyReward s' →
  (∀ a, reserved_balance (balances s') a = reserved_balance (balances s) a) →
  sminer_inv s → sminer_inv s'.
Proof.
  intros Hr Hok Hr1 Hm1 Ha1 Hc1 Hb1 [[Hn Hreg Hm Hl Hpot] Hrew Hmin Hback Hpool].
  split; [split|..]; intros *; rewrite ?Hm1, ?Ha1, ?Hr1, ?Hb1; eauto.
  - rewrite Hreg. destruct (decide (acc = acc0)) as [->|]; simplify_map_eq; naive_solver.
  - intros HS. apply Hm. destruct (decide (acc = acc0)) as [->|]; simplify_map_eq; eauto.
  - destruct (decide (acc = acc0)) as [->|]; intros; simplify_map_eq; eauto.
Qed.

Lemma receive_reward_inv o s s' u :
  sminer_inv s → receive_reward o s = (s', Ok u) → sminer_inv s' ∧ margin s' = margin s.
Proof.
  intros Hinv Hrun. apply receive_reward_Ok in Hrun as (acc & -> & [[_ ->]|Hrun]); [done|].
  destruct Hrun as (mi & r & b' & Hmi & _ & Hr & _ & Htr & ->).
  assert (acc ≠ RewardPot) by (intros ->; pose proof (reg_pot _ (inv_registry _ Hinv)); congruence).
  pose proof (inv_rewards _ Hinv _ _ Hr) as Hok. split.
  - eapply (inv_reward_update s _ acc r); [done| |reflexivity|done|done|..].
    + destruct Hok as [Hc Hl [? ?] Hcov]. split; cbn -[sum_list_with_Z]; [done|done|lia|lia].
    + cbn. apply (inv_pool _ Hinv).
    + intros a. cbn. by rewrite (transfer_reserved _ _ _ _ _ a Htr).
    + done.
  - unfold margin, liabilities. cbn. rewrite (transfer_free _ _ _ _ _ RewardPot Htr).
    rewrite at_acc_eq, (at_acc_ne acc), map_sum_insert, Hr by done. unfold outstanding at 2 3. cbn. lia.
Qed.

Lemma calculate_miner_reward_inv acc tr ti ts i sv s s' u :
  sminer_inv s → 0 <= tr → calculate_miner_reward acc tr ti ts i sv s = (s', Ok u) →
  sminer_inv s' ∧ margin s' = margin s.
Proof.
  intros Hinv Htr Hrun.
  apply calculate_miner_reward_Ok in Hrun as (r & r' & Hr & Hok & Ht & Hi & _ & Hrr & ->);
    [|done|intros; by eapply inv_rewards]. split.
  - eapply (inv_reward_update s _ acc r); [done|done|reflexivity|..]; cbn; try done. lia.
  - unfold margin, liabilities. cbn. rewrite map_sum_insert, Hr. unfold outstanding at 2 3. cbn. lia.
Qed.

Lemma left_network_inv acc st mi s :
  sminer_inv s → liabilities s < 2 ^ 128 → MinerItems s !! acc = Some mi →
  sminer_inv (left_network acc st mi s) ∧ margin (left_network acc st mi s) = margin s.
Proof.
  intros Hinv Hlt Hmi. pose proof (liabilities_pool _ Hinv).
  assert (CurrencyReward (left_network acc st mi s)
          = CurrencyReward s + from_option outstanding 0 (RewardMap s !! acc)) as HC.
  { cbn. destruct (RewardMap s !! acc) as [r|] eqn:Hr; cbn; [|lia].
    pose proof (outstanding_le _ _ _ Hinv Hr). apply wrapping_add_small.
    pose proof (outstanding_nonneg _ (inv_rewards _ Hinv _ _ Hr)). lia. }
  assert (0 <= from_option outstanding 0 (RewardMap s !! acc)).
  { destruct (RewardMap s !! acc) as [r|] eqn:Hr; cbn; [|done].
    apply outstanding_nonneg. by eapply inv_rewards. }
  split.
  - pose proof Hinv as [[Hn Hreg Hm Hl Hpot] Hrew Hmin Hback Hpool]. split; [split|..]; try (rewrite HC; lia).
    all: cbn -[CurrencyReward]; intros *.
    + by apply NoDup_filter.
    + rewrite list_elem_of_filter, Hreg.
      destruct (decide (acc = acc0)) as [->|]; simplify_map_eq; [|naive_solver].
      split; [naive_solver|intros [? [=]]].
    + intros [r [Hne Hr]%lookup_delete_Some]. rewrite lookup_insert_ne by done. eauto.
    + pose proof (length_filter (λ a, a ≠ acc) (AllMiner s)). lia.
    + rewrite lookup_insert_ne; [done|congruence].
    + intros [Hne Hr]%lookup_delete_Some. eauto.
    + destruct (decide (acc = acc0)) as [->|]; intros; simplify_map_eq; eauto.
    + specialize (Hback acc0). destruct (decide (acc = acc0)) as [->|]; simplify_map_eq; [|done].
      done.
  - unfold margin, liabilities. rewrite HC. cbn.
    rewrite map_sum_delete_opt. lia.
Qed.

Lemma withdraw_inv acc s s' u :
  sminer_inv s → RewardMap s !! acc = None → withdraw acc s = (s', Ok u) →
  sminer_inv s' ∧ margin s' = margin s.
Proof.
  intros Hinv Hnone Hrun. apply withdraw_Ok in Hrun as (mi & Hmi & ->).
  pose proof Hinv as [[Hn Hreg Hm Hl Hpot] Hrew Hmin Hback Hpool].
  destruct (Hmin _ _ Hmi). pose proof (Hback acc) as Hba. rewrite Hmi in Hba. cbn in Hba.
  assert (acc ≠ RewardPot) by congruence. split.
  - split; [split|..]; cbn; try done; intros *.
    + intros [r Hr]. destruct (decide (acc = acc0)) as [->|]; [congruence|]. rewrite lookup_delete_ne by done. eauto.
    + rewrite lookup_delete_ne; done.
    + intros [_ ?]%lookup_delete_Some. eauto.
    + rewrite unreserve_reserved, Z.min_l by done. specialize (Hback acc0).
      destruct (decide (acc = acc0)) as [->|]; simplify_map_eq; rewrite ?at_acc_eq, ?at_acc_ne by done; cbn in *; lia.
  - unfold margin, liabilities. cbn. by rewrite unreserve_free, at_acc_ne, Z.add_0_r.
Qed.

Lemma faucet_inv o to s s' u :
  sminer_inv s → faucet o to s = (s', Ok u) →
  sminer_inv s' ∧ margin s' = margin s + flow (CFaucet o to).
Proof.
  intros Hinv Hrun. apply faucet_Ok in Hrun as (a & b' & -> & _ & Htr & ->). split.
  - apply (inv_frame s); try done. intros acc. cbn. by rewrite (transfer_reserved _ _ _ _ _ acc Htr).
  - unfold margin, liabilities, flow. cbn. rewrite (transfer_free _ _ _ _ _ RewardPot Htr), at_acc_eq.
    unfold at_acc. repeat case_decide; try congruence; lia.
Qed.

Lemma faucet_top_up_inv o v s s' u :
  sminer_inv s → o ≠ Signed RewardPot → faucet_top_up o v s = (s', Ok u) →
  sminer_inv s' ∧ margin s' = margin s + v.
Proof.
  intros Hinv Hne Hrun. unfold faucet_top_up, deposit_event in Hrun. inv_ok.
  match goal with H : transfer_keep_alive ?a _ _ _ = Ok _ |- _ =>
    rename H into Htr; assert (a ≠ RewardPot) by congruence end. split.
  - apply (inv_frame s); try done. intros acc. cbn. by rewrite (transfer_reserved _ _ _ _ _ acc Htr).
  - unfold margin, liabilities. cbn. rewrite (transfer_free _ _ _ _ _ RewardPot Htr), at_acc_eq, at_acc_ne by done. lia.
Qed.

Lemma on_nonzero_unbalanced_inv v s s' u :
  sminer_inv s → call_ok (CUnbalanced v) s → on_nonzero_unbalanced v s = (s', Ok u) →
  sminer_inv s' ∧ margin s' = margin s.
Proof.
  intros Hinv (Hlt & Hv & Hfree) Hrun. cbn in Hlt. pose proof (liabilities_pool _ Hinv).
  unfold on_nonzero_unbalanced, deposit_event in Hrun. inv_ok. cbn.
  unfold set_sm_CurrencyReward. cbn. rewrite wrapping_add_small by lia. split.
  - destruct Hinv as [[] ? ? Hback ?]. split; [split|..]; cbn; try done; [|lia].
    intros acc. rewrite resolve_reserved. apply Hback.
  - unfold margin, liabilities. cbn. rewrite resolve_free, at_acc_eq by done. lia.
Qed.

(** The punishments of the audit are all deposits of some nonnegative amount. *)
Lemma punish_inv c acc s s' u :
  match c with
  | CIdlePunish m _ _ | CServicePunish m _ _ | CClearPunish m _ _ _ => m = acc
  | _ => False
  end →
  sminer_inv s → call_ok c s → exec c s = (s', Ok u) → sminer_inv s' ∧ margin s' = margin s.
Proof.
  intros Hc Hinv [Hlt _] Hrun.
  assert (∃ p, 0 <= p ∧ deposit_punish acc p s = (s', Ok u)) as (p & Hp & Hdep).
  { destruct c; try done; subst; cbn [exec] in Hrun;
      unfold idle_punish, service_punish, clear_punish in Hrun; inv_ok;
      match goal with H : check_collateral_limit _ _ = _ |- _ =>
        apply check_collateral_limit_nonneg in H as [-> ?] end;
      eexists; (split; [|done]); first [done | by apply mul_floor_bounds]. }
  eapply deposit_punish_inv; [done|exact Hp| |exact Hdep].
  destruct c; try done; by subst.
Qed.

Lemma update_info_only (c : call) s s' u :
  match c with CUpdateBeneficiary _ _ | CUpdatePeerId _ _ => True | _ => False end →
  exec c s = (s', Ok u) →
  ∃ s1 e, miner_only s s1 ∧ s' = s1 <| events ::= λ l, l ++ e |>.
Proof.
  intros Hc Hrun. destruct c; try done; cbn [exec] in Hrun;
    unfold update_beneficiary, update_peer_id, deposit_event in Hrun; inv_ok; cbn in *; simplify_eq.
  all: eexists _, [_]; split; [|reflexivity]; right; do 3 eexists;
    (split; [eassumption|]); (split; [|split; [|reflexivity]]); done.
Qed.

Lemma exec_inv c s s' u :
  sminer_inv s → call_ok c s → exec c s = (s', Ok u) →
  sminer_inv s' ∧ margin s' = margin s + flow c.
Proof.
  intros Hinv Hok Hrun. pose proof Hok as [Hlt Hwf].
  destruct c eqn:Hc; cbn [exec flow] in *; rewrite ?Z.add_0_r in *.
  - by eapply regnstk_inv.
  - by eapply increase_collateral_inv.
  - destruct (update_info_only c s s' u) as (s1 & e & Hm & ->); [by subst|by subst|].
    destruct (inv_miner_only _ _ Hm Hinv) as [? <-]. split; [|done]. by apply (inv_frame s1).
  - destruct (update_info_only c s s' u) as (s1 & e & Hm & ->); [by subst|by subst|].
    destruct (inv_miner_only _ _ Hm Hinv) as [? <-]. split; [|done]. by apply (inv_frame s1).
  - by eapply receive_reward_inv.
  - eapply faucet_top_up_inv; [done| |done]. by destruct Hwf.
  - by eapply faucet_inv.
  - eapply inv_miner_only; [by eapply add_miner_idle_space_only|done].
  - eapply inv_miner_only; [by eapply sub_miner_idle_space_only|done].
  - eapply inv_miner_only; [by eapply add_miner_service_space_only|done].
  - eapply inv_miner_only; [by eapply sub_miner_service_space_only|done].
  - eapply inv_miner_only; [by eapply lock_space_only|done].
  - eapply inv_miner_only; [by eapply unlock_space_only|done].
  - eapply inv_miner_only; [by eapply unlock_space_to_service_only|done].
  - by eapply calculate_miner_reward_inv.
  - by eapply (punish_inv c miner); subst.
  - by eapply (punish_inv c miner); subst.
  - by eapply (punish_inv c miner); subst.
  - apply force_miner_exit_Ok in Hrun as (mi & Hmi & ->). apply left_network_inv; [done| |done]. cbn in Hlt. lia.
  - apply execute_exit_Ok in Hrun as (mi & Hmi & ->). apply left_network_inv; [done| |done]. cbn in Hlt. lia.
  - by eapply withdraw_inv.
  - by eapply on_nonzero_unbalanced_inv.
  - eapply inv_miner_only; [by eapply update_miner_state_only|done].
Qed.

(** A sequence of successful calls. *)
Inductive trace : State B → list call → State B → Prop :=
| trace_nil s : trace s [] s
| trace_cons s1 s2 s3 c cs u :
    call_ok c s1 → exec c s1 = (s2, Ok u) → trace s2 cs s3 → trace s1 (c :: cs) s3.

Lemma trace_inv s cs s' : sminer_inv s → trace s cs s' → sminer_inv s'.
Proof.
  intros Hinv Htr. induction Htr as [|s1 s2 s3 c cs u Hok Hrun _ IH]; [done|].
  apply IH. by eapply exec_inv.
Qed.


(** A punished miner loses the punishment from its collateral, or all of the
    collateral when that is less; what is taken goes to the reward pot and is
    added to the undistributed reward, and the miner's total balance (free plus
    reserved) drops by exactly that amount. *)
Theorem deposit_punish_moves acc p mi s s' :
  sminer_inv s → 0 <= p → MinerItems s !! acc = Some mi →
  CurrencyReward s + collaterals mi < 2 ^ 128 →
  deposit_punish acc p s = (s', Ok ()) →
  let taken := Z.min p (collaterals mi) in
  collaterals <$> MinerItems s' !! acc = Some (collaterals mi - taken) ∧
  CurrencyReward s' = CurrencyReward s + taken ∧
  free_balance (balances s') RewardPot = free_balance (balances s) RewardPot + taken ∧
  free_balance (balances s') acc = free_balance (balances s) acc ∧
  reserved_balance (balances s') acc = reserved_balance (balances s) acc - taken.
Proof.
  intros Hinv Hp Hmi Hlt Hrun taken. apply deposit_punish_Ok in Hrun as (mi0 & st & b' & Hmi0 & Hrun).
  simplify_eq. pose proof (inv_miners _ Hinv _ _ Hmi) as [Hc _]. pose proof (inv_pool _ Hinv).
  pose proof (inv_backed _ Hinv acc) as Hback. rewrite Hmi in Hback. cbn in Hback.
  assert (acc ≠ RewardPot) by (intros ->; pose proof (reg_pot _ (inv_registry _ Hinv)); congruence).
  assert (∃ mi', punished mi p = (taken, mi') ∧ collaterals mi' = collaterals mi - taken) as (mi' & Hpun & Hc').
  { unfold punished, taken. destruct (Z.ltb_spec p (collaterals mi)).
    - rewrite Z.min_l by lia. by eexists.
    - rewrite Z.min_r by lia. eexists. split; [done|]. cbn. lia. }
  rewrite Hpun in Hrun. destruct Hrun as (Htr & _ & ->). unfold taken in *. cbn.
  rewrite lookup_insert_eq, !(transfer_free _ _ _ _ _ _ Htr), (transfer_reserved _ _ _ _ _ acc Htr).
  rewrite !unreserve_free, unreserve_reserved, !at_acc_eq, !at_acc_ne, wrapping_add_small by (done || lia).
  cbn. rewrite Hc'. split_and!; [done|lia..].
Qed.

(** The faucet pays an account at most once a day: a claim succeeds only when
    there was no claim before or the last one is at least a day old (in the first
    day of the chain: was made in block 0), it pays the fixed amount from the
    reward pot, and a second claim within a day fails and changes nothing. *)
Theorem faucet_daily o o' to s s1 s2 s3 r :
  0 <= OneDayBlock < 2 ^ 32 → 0 < block_number s →
  faucet o to s = (s1, Ok ()) →
  block_number s <= block_number s2 < block_number s + OneDayBlock →
  FaucetRecordMap s2 !! to = FaucetRecordMap s1 !! to →
  faucet o' to s2 = (s3, r) →
  claim_due (FaucetRecordMap s !! to) (block_number s) = true ∧
  (∀ u, r ≠ Ok u) ∧ s3 = s2.
Proof.
  intros Hday Hblk Hrun Hnow Hrec Hrun2. pose proof Hrun as Hrun0.
  apply faucet_Ok in Hrun0 as (a & b' & -> & Hdue & _ & Hs1).
  assert (∀ u, r ≠ Ok u) as Hr.
  { intros u ->. apply faucet_Ok in Hrun2 as (a2 & b2 & -> & Hdue2 & _ & Hs2).
    rewrite Hrec, Hs1 in Hdue2. cbn in Hdue2. rewrite lookup_insert_eq in Hdue2.
    unfold claim_due, saturated_into in Hdue2. cbn in Hdue2. rewrite Z.min_l in Hdue2 by lia.
    case_match; lia. }
  split_and!; [done..|]. unfold faucet in Hrun2. by eapply transactional_rollback.
Qed.

(** A punishment larger than the collateral is charged twice: the whole
    collateral is taken and yet the debt booked is the whole punishment (and
    replaces a debt from before), so collateral taken plus debt exceeds the
    punishment by the collateral. *)
Theorem deposit_punish_debt acc p mi s s' :
  MinerItems s !! acc = Some mi → collaterals mi <= p →
  deposit_punish acc p s = (s', Ok ()) →
  ∃ mi', MinerItems s' !! acc = Some mi' ∧ collaterals mi' = 0 ∧ debt mi' = p.
Proof.
  intros Hmi Hle Hrun. apply deposit_punish_Ok in Hrun as (mi0 & st & b' & Hmi0 & Hrun). simplify_eq.
  unfold punished in Hrun. rewrite (proj2 (Z.ltb_ge _ _)) in Hrun by done.
  destruct Hrun as (_ & _ & ->). cbn. rewrite lookup_insert_eq. by eexists.
Qed.

(** A payment of collateral cancels debt without money changing hands: of a
    payment [v], the part that covers the debt is taken off the debt but neither
    leaves the free balance of the miner nor reaches the reward pot; only the rest
    is reserved and added to the collateral. *)
Theorem increase_collateral_spec sender v mi s s' :
  sminer_inv s → 0 <= v → MinerItems s !! sender = Some mi →
  increase_collateral (Signed sender) v s = (s', Ok ()) →
  let paid := Z.min (debt mi) v in
  ∃ mi', MinerItems s' !! sender = Some mi' ∧
    debt mi' = debt mi - paid ∧ collaterals mi' = collaterals mi + (v - paid) ∧
    free_balance (balances s') sender = free_balance (balances s) sender - (v - paid) ∧
    reserved_balance (balances s') sender = reserved_balance (balances s) sender + (v - paid) ∧
    free_balance (balances s') RewardPot = free_balance (balances s) RewardPot.
Proof.
  intros Hinv Hv Hmi Hrun paid.
  apply increase_collateral_Ok in Hrun as (a & mi0 & st & b' & [= <-] & Hmi0 & Hres & _ & ->);
    [|by intros a m Hm; apply (inv_miners _ Hinv _ _ Hm)|done]. simplify_eq.
  assert (sender ≠ RewardPot) by (intros ->; pose proof (reg_pot _ (inv_registry _ Hinv)); congruence).
  unfold debt_paid in *. fold paid in Hres |- *. cbn. rewrite lookup_insert_eq. eexists. split; [done|]. cbn.
  rewrite !(reserve_free _ _ _ _ _ Hres), (reserve_reserved _ _ _ _ _ Hres), !at_acc_eq, at_acc_ne by done.
  split_and!; lia.
Qed.

Lemma execute_exit_run acc mi s :
  4 <= ItemLimit → MinerItems s !! acc = Some mi →
  (∀ r, RewardMap s !! acc = Some r → 0 <= outstanding r) →
  execute_exit acc s = (left_network acc STATE_EXIT mi s, Ok ()).
Proof.
  intros Hlim Hmi Hout.
  unfold execute_exit, left_network, vec_to_bound, str_try_into_bounded.
  rewrite (proj2 (Z.leb_le _ _)) by (cbn; lia).
  unfold mbind at 1, M_bind at 1, gets at 1. destruct (RewardMap s !! acc) as [r|] eqn:Hr.
  - specialize (Hout r eq_refl). unfold outstanding in *. run_ok. lia.
  - run_ok.
Qed.

(** C37 Under the invariant a registered miner can always leave: the exit does
    not fail, what the miner was still owed goes back to the undistributed reward,
    the miner disappears from the list of miners and from the reward map, keeps
    its entry in the exit state, and the invariant holds again. *)
Theorem execute_exit_total acc mi s :
  sminer_inv s → liabilities s < 2 ^ 128 → 4 <= ItemLimit → MinerItems s !! acc = Some mi →
  ∃ s', execute_exit acc s = (s', Ok ()) ∧ sminer_inv s' ∧ margin s' = margin s ∧
    (acc ∉ AllMiner s') ∧ RewardMap s' !! acc = None ∧
    MinerItems s' !! acc = Some (mi <| state := STATE_EXIT |>) ∧
    CurrencyReward s' = CurrencyReward s + from_option outstanding 0 (RewardMap s !! acc).
Proof.
  intros Hinv Hlt Hlim Hmi. exists (left_network acc STATE_EXIT mi s). split.
  { apply execute_exit_run; [done|done|]. intros r Hr. apply outstanding_nonneg. by eapply inv_rewards. }
  destruct (left_network_inv acc STATE_EXIT mi s Hinv Hlt Hmi) as [Hinv' Hm]. split_and!; try done; cbn.
  - rewrite list_elem_of_filter. naive_solver.
  - by rewrite lookup_delete_eq.
  - by rewrite lookup_insert_eq.
  - destruct (RewardMap s !! acc) as [r|] eqn:Hr; cbn; [|lia]. apply wrapping_add_small.
    pose proof (outstanding_nonneg _ (inv_rewards _ Hinv _ _ Hr)).
    pose proof (outstanding_le _ _ _ Hinv Hr). pose proof (inv_pool _ Hinv). lia.
Qed.
End traces.

(** ** Locked space of a miner *)

Section space.
Context {B : Type} `{!Currency B} `{!Config} `{!PerbillOps}.
Implicit Types (s : State B) (acc : AccountId) (mi : MinerInfo).

Lemma lock_space_Ok acc n s s' u :
  lock_space acc n s = (s', Ok u) ↔
  ∃ mi, MinerItems s !! acc = Some mi ∧ lock_space_ mi + n < 2 ^ 128 ∧ n <= idle_space mi ∧
    s' = s <| MinerItems ::= <[acc := mi <| lock_space_ := lock_space_ mi + n |>
                                         <| idle_space := idle_space mi - n |>]> |>.
Proof.
  unfold lock_space. rewrite try_mutate_existing_Ok. split.
  - intros (mi & mi' & s1 & Hmi & Hrun & ->). exists mi. inv_ok. cbn in *. done.
  - intros (mi & Hmi & Hn & Hl & ->). do 3 eexists. split_and!; [done| |done]. run_ok; cbn; lia.
Qed.

Lemma partial_alter_insert {V} (m : gmap AccountId V) k v :
  partial_alter (λ _, Some v) k m = <[k := v]> m.
Proof. done. Qed.

(** Space locked for a deal is never lost: unlocking what was locked restores
    the miner exactly, and handing the locked space over to service space takes it
    from the idle space and adds it to the service space, nothing else. *)
Theorem lock_space_outcomes acc n s s1 mi :
  MinerItems s !! acc = Some mi →
  0 <= n → is_u128 (lock_space_ mi) → is_u128 (idle_space mi) → service_space mi + n < 2 ^ 128 →
  lock_space acc n s = (s1, Ok ()) →
  unlock_space acc n s1 = (s, Ok ()) ∧
  unlock_space_to_service acc n s1
  = (s <| MinerItems ::= <[acc := mi <| idle_space := idle_space mi - n |>
                                     <| service_space := service_space mi + n |>]> |>, Ok ()).
Proof.
  intros Hmi Hn [? ?] [? ?] Hsv Hlock.
  apply lock_space_Ok in Hlock as (mi0 & Hmi0 & Hl & Hi & ->). simplify_eq. split.
  - apply try_mutate_Ok. eexists _, (Some _). split.
    + cbn. rewrite lookup_insert_eq. run_ok; cbn; lia.
    + cbn. unfold set_sm_MinerItems. cbn. rewrite partial_alter_insert, insert_insert_eq, insert_id; [by destruct s|].
      rewrite Hmi. unfold set_mi_lock_space_, set_mi_idle_space. destruct mi. cbn. f_equal. f_equal; lia.
  - apply try_mutate_existing_Ok. do 3 eexists. split; [apply lookup_insert_eq|]. split.
    + run_ok; cbn; lia.
    + cbn. unfold set_sm_MinerItems. cbn. rewrite insert_insert_eq. do 2 f_equal.
      unfold set_mi_lock_space_, set_mi_idle_space, set_mi_service_space. destruct mi. cbn. f_equal; lia.
Qed.
End space.

(** ** The runtime's configuration and example runs *)

(** [impl pallet_sminer::Config for Runtime], as far as the pallet reads it. *)
Definition runtime_config (pot : AccountId) : Config := {|
  RewardPot := pot;
  ItemLimit := 10000;
  OneDayBlock := DAYS
|}.

(** The storage before the first call. *)
Definition initial {B} (b : B) : State B := mkState ∅ [] ∅ ∅ 0 b 0 [].

Section examples.
#[local] Instance example_config : Config := runtime_config 900.

Lemma initial_inv {B} `{!Currency B} (b : B) :
  (∀ acc, 0 <= reserved_balance b acc) → sminer_inv (initial b).
Proof.
  intros Hb. split; [split|..]; cbn; try done; try (intros *; rewrite lookup_empty; done).
  - apply NoDup_nil_2.
  - intros acc. rewrite lookup_empty. split; [by intros ?%not_elem_of_nil|by intros [? [=]]].
Qed.

Definition example_ledger : Ledger :=
  mkLedger {[ 7%N := 100000000000000000; 900%N := 1 ]} ∅ 1.

(** Miner 7 registers and gets space; fees arrive; a reward round; the miner
    claims its reward, is punished, and draws from the faucet. *)
Definition example_calls : list call :=
  [CRegnstk (Signed 7) 8 1 4000000000000000; CUpdatePeerId (Signed 7) 2;
   CAddIdle 7 (5 * T_BYTE); CLockSpace 7 T_BYTE; CUnlockSpaceToService 7 T_BYTE;
   CUnbalanced 30000000000000000;
   CReward 7 30000000000000000 (4 * T_BYTE) T_BYTE (4 * T_BYTE) T_BYTE;
   CReceiveReward (Signed 7); CIdlePunish 7 (4 * T_BYTE) T_BYTE;
   CIncreaseCollateral (Signed 7) 100; CFaucet (Signed 7) 8; CExecuteExit 7; CWithdraw 7].

Fixpoint example_run (cs : list call) (s : State Ledger) : State Ledger :=
  match cs with [] => s | c :: cs => example_run cs (exec c s).1 end.

Definition example_end : State Ledger := example_run example_calls (initial example_ledger).

Ltac run_call :=
  eapply (trace_cons _ _ _ _ _ ()); [split; [vm_compute; reflexivity|]|vm_compute; reflexivity|];
  [cbn; first [exact I | vm_compute; reflexivity | vm_compute; discriminate
              | split; [vm_compute; discriminate|first [discriminate | vm_compute; reflexivity]]]|].

Lemma example_initial_inv : sminer_inv (initial example_ledger).
Proof. apply initial_inv. intros acc. cbn. unfold ledger_get. by rewrite lookup_empty. Qed.


Lemma calculate_power_spec_witness :
  calculate_power 100 100 = 30 * 100 / 100 + 70 * 100 / 100 ∧ 0 <= calculate_power 100 100 <= Z.max 100 100.
Proof. apply (calculate_power_spec 100 100); split; done. Defined.

(** The miner with five TiB, before the first reward round. *)
Definition example_miner : State Ledger := example_run (take 6 example_calls) (initial example_ledger).

Lemma example_miner_inv : sminer_inv example_miner.
Proof.
  apply (trace_inv (initial example_ledger) (take 6 example_calls)); [exact example_initial_inv|].
  unfold example_calls. cbn [take]. repeat run_call. apply trace_nil.
Qed.

Definition example_reward : State Ledger * result DispatchError unit :=
  calculate_miner_reward 7 30000000000000000 (4 * T_BYTE) T_BYTE (4 * T_BYTE) T_BYTE example_miner.


Definition example_info : MinerInfo :=
  mkMinerInfo 8 2 4000000000000000 0 STATE_POSITIVE (4 * T_BYTE) T_BYTE 0.

Lemma deposit_punish_moves_witness :
  CurrencyReward (deposit_punish 7 5000000000000000 example_miner).1
  = CurrencyReward example_miner + Z.min 5000000000000000 4000000000000000.
Proof.
  destruct (deposit_punish_moves 7 5000000000000000 example_info example_miner
    (deposit_punish 7 5000000000000000 example_miner).1) as (_ & HC & _).
  - exact example_miner_inv.
  - done.
  - vm_compute. reflexivity.
  - vm_compute. reflexivity.
  - vm_compute. reflexivity.
  - exact HC.
Defined.

Lemma deposit_punish_debt_witness :
  ∃ mi', MinerItems (deposit_punish 7 5000000000000000 example_miner).1 !! 7%N = Some mi' ∧
         collaterals mi' = 0 ∧ debt mi' = 5000000000000000.
Proof.
  apply (deposit_punish_debt 7 5000000000000000 example_info example_miner).
  - vm_compute. reflexivity.
  - vm_compute. discriminate.
  - vm_compute. reflexivity.
Defined.

Lemma increase_collateral_spec_witness :
  ∃ mi', MinerItems (increase_collateral (Signed 7) 100 example_miner).1 !! 7%N = Some mi' ∧
         collaterals mi' = 4000000000000000 + (100 - Z.min 0 100).
Proof.
  destruct (increase_collateral_spec 7 100 example_info example_miner
    (increase_collateral (Signed 7) 100 example_miner).1) as (mi' & Hmi & _ & Hc & _).
  - exact example_miner_inv.
  - done.
  - vm_compute. reflexivity.
  - vm_compute. reflexivity.
  - by exists mi'.
Defined.

Lemma execute_exit_total_witness :
  ∃ s', execute_exit 7 example_miner = (s', Ok ()) ∧ sminer_inv s'.
Proof.
  destruct (execute_exit_total 7 example_info example_miner) as (s' & Hrun & Hinv & _).
  - exact example_miner_inv.
  - vm_compute. reflexivity.
  - done.
  - vm_compute. reflexivity.
  - by exists s'.
Defined.

Lemma lock_space_outcomes_witness :
  unlock_space 7 10 (lock_space 7 10 example_miner).1 = (example_miner, Ok ()).
Proof.
  destruct (lock_space_outcomes 7 10 example_miner (lock_space 7 10 example_miner).1 example_info)
    as [Hunlock _].
  - vm_compute. reflexivity.
  - done.
  - split; vm_compute; [discriminate|reflexivity].
  - split; vm_compute; [discriminate|reflexivity].
  - vm_compute. reflexivity.
  - vm_compute. reflexivity.
  - exact Hunlock.
Defined.

(** A pot with funds, in block 20000, and the same chain an hour later. *)
Definition example_day : State Ledger :=
  (initial (mkLedger {[ 900%N := 30000000000000000 ]} ∅ 1)) <| block_number := 20000 |>.

Definition example_hour_later : State Ledger :=
  (faucet (Signed 7) 8 example_day).1 <| block_number := 20600 |>.

Lemma faucet_daily_witness :
  (faucet (Signed 5) 8 example_hour_later).2 ≠ Ok ().
Proof.
  destruct (faucet_daily (Signed 7) (Signed 5) 8 example_day (faucet (Signed 7) 8 example_day).1
    example_hour_later (faucet (Signed 5) 8 example_hour_later).1 (faucet (Signed 5) 8 example_hour_later).2)
    as (_ & Hfail & _).
  - done.
  - done.
  - vm_compute. reflexivity.
  - vm_compute. split; [discriminate|reflexivity].
  - vm_compute. reflexivity.
  - vm_compute. reflexivity.
  - exact (Hfail ()).
Defined.

(** The faucet and the reward pool draw on the same account. *)
Definition example_drained : State Ledger :=
  example_run [CRegnstk (Signed 7) 8 1 4000000000000000; CAddIdle 7 T_BYTE;
     CUnbalanced 10000000000000000; CReward 7 10000000000000000 T_BYTE 0 T_BYTE 0;
     CFaucet (Signed 5) 5] (initial example_ledger).

(** The faucet can spend money that has been granted as reward: after fees
    have arrived in the pot and were granted to a miner, one withdrawal from the
    faucet empties the pot and the miner's claim of its available reward fails,
    although all books of the pallet are in order. *)
Theorem faucet_spends_rewards :
  currently_available_reward <$> RewardMap example_drained !! 7%N = Some 2044444444444444 ∧
  free_balance (balances example_drained) 900 = 1 ∧
  margin example_drained = 1 - FAUCET_VALUE ∧
  (receive_reward (Signed 7) example_drained).2 = Err (CurrencyError 0).
Proof. split_and!; vm_compute; reflexivity. Qed.
End examples.
