(* ===== verification/Oss.v ===== *)
(** * The oss pallet

    [src/c-pallets/oss/src/lib.rs]: users authorize an operator to act for them
    on the file bank; object storage services publish their endpoint. *)
From S2P Require Import Prelude Errors Frame.

Inductive Event :=
| Authorize (acc operator : AccountId)
| CancelAuthorize (acc : AccountId)
| OssRegister (acc : AccountId) (endpoint : PeerId)
| OssUpdate (acc : AccountId) (new_endpoint : PeerId)
| OssDestroy (acc : AccountId).

Record State := mkState {
  AuthorityList : gmap AccountId AccountId;
  Oss : gmap AccountId PeerId;
  events : list Event
}.
#[export] Instance set_oss_AuthorityList : Setter (AuthorityList) := λ f r,
  mkState (f (AuthorityList r)) (Oss r) (events r).
#[export] Instance set_oss_Oss : Setter (Oss) := λ f r,
  mkState (AuthorityList r) (f (Oss r)) (events r).
#[export] Instance set_oss_events : Setter (events) := λ f r,
  mkState (AuthorityList r) (Oss r) (f (events r)).


Abbreviation MS := (M State).

Definition deposit_event (e : Event) : MS unit :=
  modify (λ s, s <| events ::= λ l, l ++ [e] |>).

Definition authorize (origin : Origin) (operator : AccountId) : MS unit := transactional (
  sender ← ensure_signed origin;
  insert_at AuthorityList sender operator ;;
  deposit_event (Authorize sender operator)).

Definition cancel_authorize (origin : Origin) : MS unit := transactional (
  sender ← ensure_signed origin;
  exists_ ← contains_key AuthorityList sender;
  ensure exists_ OssError.NoAuthorization ;;
  remove_at AuthorityList sender ;;
  deposit_event (CancelAuthorize sender)).

Definition register (origin : Origin) (endpoint : PeerId) : MS unit := transactional (
  sender ← ensure_signed origin;
  exists_ ← contains_key Oss sender;
  ensure (negb exists_) OssError.Registered ;;
  insert_at Oss sender endpoint ;;
  deposit_event (OssRegister sender endpoint)).

Definition update (origin : Origin) (endpoint : PeerId) : MS unit := transactional (
  sender ← ensure_signed origin;
  exists_ ← contains_key Oss sender;
  ensure exists_ OssError.UnRegister ;;
  try_mutate_existing Oss sender OssError.OptionParseError (λ _, mret endpoint) ;;
  deposit_event (OssUpdate sender endpoint)).

Definition destroy (origin : Origin) : MS unit := transactional (
  sender ← ensure_signed origin;
  exists_ ← contains_key Oss sender;
  ensure exists_ OssError.UnRegister ;;
  remove_at Oss sender ;;
  deposit_event (OssDestroy sender)).

Definition is_authorized (owner operator : AccountId) : MS bool :=
  acc_opt ← gets (λ s, AuthorityList s !! owner);
  match acc_opt with
  | Some acc => mret (bool_decide (acc = operator))
  | None => mret false
  end.

(** ** Authorization over a history of calls *)

Inductive call :=
| CAuthorize (origin : Origin) (operator : AccountId)
| CCancelAuthorize (origin : Origin)
| CRegister (origin : Origin) (endpoint : PeerId)
| CUpdate (origin : Origin) (endpoint : PeerId)
| CDestroy (origin : Origin).

Definition exec (c : call) : MS unit :=
  match c with
  | CAuthorize o op => authorize o op
  | CCancelAuthorize o => cancel_authorize o
  | CRegister o e => register o e
  | CUpdate o e => update o e
  | CDestroy o => destroy o
  end.

(** The storage after a list of calls, failing ones included. *)
Fixpoint run (cs : list call) (s : State) : State :=
  match cs with [] => s | c :: cs => run cs (exec c s).1 end.

(** The operator a list of calls leaves [owner] with, read off the calls alone:
    the last authorization or cancellation the owner signed decides. *)
Fixpoint operator_of (owner : AccountId) (cs : list call) (op : option AccountId) : option AccountId :=
  match cs with
  | [] => op
  | CAuthorize (Signed a) op' :: cs =>
      operator_of owner cs (if decide (a = owner) then Some op' else op)
  | CCancelAuthorize (Signed a) :: cs =>
      operator_of owner cs (if decide (a = owner) then None else op)
  | _ :: cs => operator_of owner cs op
  end.

Lemma exec_other c s :
  match c with CAuthorize _ _ | CCancelAuthorize _ => False | _ => True end →
  AuthorityList (exec c s).1 = AuthorityList s.
Proof.
  intros Hc. destruct (exec c s) as [s' r] eqn:Hrun. cbn. destruct r as [[]| |].
  - destruct c; try done; cbn [exec] in Hrun; unfold register, update, destroy, deposit_event in Hrun;
      by inv_ok.
  - destruct c; try done; by rewrite (transactional_rollback _ _ _ _ Hrun).
  - destruct c; try done; by rewrite (transactional_rollback _ _ _ _ Hrun).
Qed.

Lemma exec_authorize a op s :
  AuthorityList (exec (CAuthorize (Signed a) op) s).1 = <[a := op]> (AuthorityList s).
Proof. done. Qed.

Lemma exec_cancel a s :
  AuthorityList (exec (CCancelAuthorize (Signed a)) s).1 = delete a (AuthorityList s).
Proof.
  cbn. unfold cancel_authorize, transactional, mbind, M_bind. cbn.
  unfold ensure. case_bool_decide as Hs; cbn; [done|].
  rewrite delete_id; [done|]. by apply eq_None_not_Some.
Qed.

(** Whatever the calls made, and whether they fail or not, an operator is
    authorized for an owner exactly when the last authorization or cancellation
    signed by that owner names it; calls of other accounts and calls about
    endpoints never change an authorization. *)
Theorem is_authorized_spec cs s owner op :
  (is_authorized owner op (run cs s)).2
  = Ok (bool_decide (operator_of owner cs (AuthorityList s !! owner) = Some op)).
Proof.
  assert (AuthorityList (run cs s) !! owner = operator_of owner cs (AuthorityList s !! owner)) as Heq.
  { revert s. induction cs as [|c cs IH]; intros s; [done|]. cbn [run]. rewrite IH.
    destruct c as [[a| |] o|[a| |]|o e|o e|o]; cbn [operator_of].
    all: try (by rewrite exec_other). all: try done.
    - rewrite exec_authorize. case_decide; simplify_map_eq; done.
    - rewrite exec_cancel. case_decide; simplify_map_eq; done. }
  unfold is_authorized, mbind, M_bind, gets. rewrite Heq.
  destruct (operator_of owner cs _) as [a|]; cbn; [|done].
  do 2 f_equal. apply bool_decide_ext. naive_solver.
Qed.
