(* ===== verification/Cacher.v ===== *)
(** * The cacher pallet

    [src/c-pallets/cacher/src/lib.rs] and [types.rs]: file cachers publish their
    price, users pay them by bills.  [BillsLimit] bounds the list of bills by its
    type; the bound plays no part in the code. *)
From S2P Require Import Prelude Errors Frame Common.

Record CacherInfo := mkCacherInfo {
  payee : AccountId;
  ip : IpAddress;
  byte_price : Balance
}.
#[export] Instance set_ci_payee : Setter (payee) := λ f r,
  mkCacherInfo (f (payee r)) (ip r) (byte_price r).
#[export] Instance set_ci_ip : Setter (ip) := λ f r,
  mkCacherInfo (payee r) (f (ip r)) (byte_price r).
#[export] Instance set_ci_byte_price : Setter (byte_price) := λ f r,
  mkCacherInfo (payee r) (ip r) (f (byte_price r)).

Record Bill := mkBill {
  id : list Z;
  to : AccountId;
  amount : Balance;
  file_hash : Hash;
  slice_hash : Hash;
  expiration_time : Z
}.
#[export] Instance set_bl_id : Setter (id) := λ f r,
  mkBill (f (id r)) (to r) (amount r) (file_hash r) (slice_hash r) (expiration_time r).
#[export] Instance set_bl_to : Setter (to) := λ f r,
  mkBill (id r) (f (to r)) (amount r) (file_hash r) (slice_hash r) (expiration_time r).
#[export] Instance set_bl_amount : Setter (amount) := λ f r,
  mkBill (id r) (to r) (f (amount r)) (file_hash r) (slice_hash r) (expiration_time r).
#[export] Instance set_bl_file_hash : Setter (file_hash) := λ f r,
  mkBill (id r) (to r) (amount r) (f (file_hash r)) (slice_hash r) (expiration_time r).
#[export] Instance set_bl_slice_hash : Setter (slice_hash) := λ f r,
  mkBill (id r) (to r) (amount r) (file_hash r) (f (slice_hash r)) (expiration_time r).
#[export] Instance set_bl_expiration_time : Setter (expiration_time) := λ f r,
  mkBill (id r) (to r) (amount r) (file_hash r) (slice_hash r) (f (expiration_time r)).


Inductive Event :=
| Register (acc : AccountId) (info : CacherInfo)
| Update (acc : AccountId) (info : CacherInfo)
| Logout (acc : AccountId)
| Pay (acc : AccountId) (bills : list Bill).

Record State (B : Type) := mkState {
  Cachers : gmap AccountId CacherInfo;
  balances : B;
  events : list Event
}.
Arguments mkState {B} _ _ _.
Arguments Cachers {B} _.
Arguments balances {B} _.
Arguments events {B} _.
#[export] Instance set_ca_Cachers {B : Type} : Setter (@Cachers B) := λ f r,
  mkState (f (Cachers r)) (balances r) (events r).
#[export] Instance set_ca_balances {B : Type} : Setter (@balances B) := λ f r,
  mkState (Cachers r) (f (balances r)) (events r).
#[export] Instance set_ca_events {B : Type} : Setter (@events B) := λ f r,
  mkState (Cachers r) (balances r) (f (events r)).


Section operations.
Context {B : Type} `{!Currency B}.
Abbreviation MS := (M (State B)).

Definition deposit_event (e : Event) : MS unit :=
  modify (λ s, s <| events ::= λ l, l ++ [e] |>).

Definition register (origin : Origin) (info : CacherInfo) : MS unit :=
  sender ← ensure_signed origin;
  exists_ ← contains_key Cachers sender;
  ensure (negb exists_) CacherError.AlreadyRegistered ;;
  insert_at Cachers sender info ;;
  deposit_event (Register sender info).

Definition update (origin : Origin) (info : CacherInfo) : MS unit :=
  sender ← ensure_signed origin;
  exists_ ← contains_key Cachers sender;
  ensure exists_ CacherError.UnRegistered ;;
  try_mutate_existing Cachers sender CacherError.OptionParseError (λ _, mret info) ;;
  deposit_event (Update sender info).

Definition logout (origin : Origin) : MS unit :=
  sender ← ensure_signed origin;
  exists_ ← contains_key Cachers sender;
  ensure exists_ CacherError.UnRegistered ;;
  remove_at Cachers sender ;;
  deposit_event (Logout sender).

Definition pay (origin : Origin) (bills : list Bill) : MS unit := transactional (
  sender ← ensure_signed origin;
  for_each bills (λ bill,
    lift_field balances (transfer_keep_alive sender bill.(to) bill.(amount))) ;;
  deposit_event (Pay sender bills)).
End operations.

Section payments.
Context {B : Type} `{!Currency B} `{!CurrencyLaws B}.
Implicit Types s : State B.

Definition received (a : AccountId) (bills : list Bill) : Z :=
  sum_list_with_Z (λ bill, at_acc bill.(to) a bill.(amount)) bills.

Lemma pay_loop sender bills s s' u :
  for_each bills (λ bill,
    lift_field balances (transfer_keep_alive sender bill.(to) bill.(amount))) s = (s', Ok u) →
  Cachers s' = Cachers s ∧ events s' = events s ∧
  (∀ a, reserved_balance (balances s') a = reserved_balance (balances s) a) ∧
  ∀ a, free_balance (balances s') a
       = free_balance (balances s) a - at_acc sender a (sum_list_with_Z amount bills)
         + received a bills.
Proof.
  revert s. induction bills as [|bill bills IH]; intros s Hrun; cbn [for_each] in Hrun; inv_ok.
  - split_and!; try done. intros a. unfold received, at_acc. cbn. case_decide; lia.
  - match goal with H : for_each _ _ _ = _ |- _ => apply IH in H as (Hc & He & Hr & Hf) end.
    match goal with H : transfer_keep_alive _ _ _ _ = _ |- _ => rename H into Htr end.
    split_and!; [done..| |].
    + intros a. rewrite Hr. cbn. by rewrite (transfer_reserved _ _ _ _ _ a Htr).
    + intros a. rewrite Hf. cbn -[sum_list_with_Z received]. rewrite (transfer_free _ _ _ _ _ a Htr).
      unfold received. rewrite !sum_list_cons. unfold at_acc. repeat case_decide; lia.
Qed.

(** Paying bills is all or nothing: when it succeeds, the payer's free
    balance drops by the sum of the bills, every account gains exactly what the
    bills made out to it say, reserved balances and the list of cachers stay; when
    any transfer fails, nothing at all changes. *)
Theorem pay_spec sender bills s s' r :
  pay (Signed sender) bills s = (s', r) →
  match r with
  | Ok _ =>
      Cachers s' = Cachers s ∧ events s' = events s ++ [Pay sender bills] ∧
      (∀ a, reserved_balance (balances s') a = reserved_balance (balances s) a) ∧
      ∀ a, free_balance (balances s') a
           = free_balance (balances s) a - at_acc sender a (sum_list_with_Z amount bills)
             + received a bills
  | _ => s' = s
  end.
Proof.
  intros Hrun. destruct r as [u| |].
  - unfold pay, deposit_event in Hrun. inv_ok. simplify_eq.
    match goal with H : for_each _ _ _ = _ |- _ => apply pay_loop in H as (Hc & He & Hr & Hf) end.
    cbn. split_and!; try done. by rewrite He.
  - by apply (transactional_rollback _ _ _ _ Hrun).
  - by apply (transactional_rollback _ _ _ _ Hrun).
Qed.
End payments.

Definition example_state : State Ledger :=
  mkState ∅ (mkLedger {[ 1%N := 100; 2%N := 5 ]} ∅ 1) [].

Lemma pay_spec_witness :
  free_balance (balances (pay (Signed 1) [mkBill [] 2 30 0 0 0; mkBill [] 3 12 0 0 0] example_state).1) 1
  = 100 - 42 + 0.
Proof.
  destruct (pay_spec 1 [mkBill [] 2 30 0 0 0; mkBill [] 3 12 0 0 0] example_state
    (pay (Signed 1) [mkBill [] 2 30 0 0 0; mkBill [] 3 12 0 0 0] example_state).1 (Ok ()))
    as (_ & _ & _ & Hf).
  - vm_compute. reflexivity.
  - exact (Hf 1%N).
Defined.
