(* ===== verification/Interfaces.v ===== *)
(** * Interfaces between the pallets

    The traits through which the file bank, the audit and the tee-worker pallets
    call each other and Substrate, as classes over the state [X] of the rest of
    the chain.  A client pallet is written and verified against the classes; the
    file [Runtime] provides the instances the runtime wires in. *)
From S2P Require Import Prelude Errors Frame.

(** [pub trait StorageHandle] of the storage-handler pallet. *)
Class StorageHandle (X : Type) := {
  update_user_space : AccountId → Z → Z → M X unit;
  add_total_idle_space : Z → M X unit;
  sub_total_idle_space : Z → M X unit;
  add_total_service_space : Z → M X unit;
  sub_total_service_space : Z → M X unit;
  get_total_space : M X Z;
  add_purchased_space : Z → M X unit;
  sub_purchased_space : Z → M X unit;
  lock_user_space : AccountId → Z → M X unit;
  unlock_user_space : AccountId → Z → M X unit;
  unlock_and_used_user_space : AccountId → Z → M X unit;
  get_user_avail_space : AccountId → M X Z;
  frozen_task : M X (list AccountId);
  delete_user_space_storage : AccountId → M X unit
}.

(** [pub trait MinerControl] of the sminer pallet. *)
Class MinerControl (X : Type) := {
  add_miner_idle_space : AccountId → Z → M X unit;
  sub_miner_idle_space : AccountId → Z → M X unit;
  add_miner_service_space : AccountId → Z → M X unit;
  sub_miner_service_space : AccountId → Z → M X unit;
  get_power : AccountId → M X (Z * Z);
  miner_is_exist : AccountId → M X bool;
  get_miner_state : AccountId → M X string;
  get_all_miner : M X (list AccountId);
  lock_space : AccountId → Z → M X unit;
  unlock_space : AccountId → Z → M X unit;
  unlock_space_to_service : AccountId → Z → M X unit;
  get_miner_idle_space : AccountId → M X Z;
  get_miner_count : M X Z;
  get_reward : M X Z;
  calculate_miner_reward : AccountId → Z → Z → Z → Z → Z → M X unit;
  clear_punish : AccountId → Z → Z → Z → M X unit;
  idle_punish : AccountId → Z → Z → M X unit;
  service_punish : AccountId → Z → Z → M X unit;
  execute_exit : AccountId → M X unit;
  withdraw : AccountId → M X unit;
  force_miner_exit : AccountId → M X unit;
  is_positive : AccountId → M X bool;
  is_lock : AccountId → M X bool;
  update_miner_state : AccountId → string → M X unit
}.

(** [pub trait ScheduleFind] of the tee-worker pallet. *)
Class ScheduleFind (X : Type) := {
  contains_scheduler : AccountId → M X bool;
  punish_scheduler : AccountId → M X unit;
  get_first_controller : M X AccountId;
  get_controller_list : M X (list AccountId)
}.

(** [pub trait OssFindAuthor] of the oss pallet. *)
Class OssFindAuthor (X : Type) := {
  is_authorized : AccountId → AccountId → M X bool
}.

(** [pub trait SchedulerCreditCounter] of the scheduler-credit primitives. *)
Class SchedulerCreditCounter (X : Type) := {
  record_proceed_block_size : AccountId → Z → M X unit;
  record_punishment : AccountId → M X unit
}.

(** [pub trait RandomFileList] of the file-bank pallet, the part the audit
    pallet calls. *)
Class RandomFileList (X : Type) := {
  random_force_miner_exit : AccountId → M X unit
}.

(** What the tee-worker pallet calls of the staking pallet: the controller bonded
    to a stash account, and the slash of a scheduler. *)
Class Staking (X : Type) := {
  bonded : AccountId → M X (option AccountId);
  slash_scheduler : AccountId → M X unit
}.

(** ** The task scheduler

    [T::FScheduler] is the scheduler pallet of Substrate.  A task of the file bank
    is named by the bytes of a file hash or of an account, which differ in length. *)
Inductive TaskId := TaskOfHash (h : Hash) | TaskOfAccount (a : AccountId).

#[global] Instance TaskId_eq_dec : EqDecision TaskId.
Proof. solve_decision. Defined.

#[global] Instance TaskId_countable : Countable TaskId.
Proof.
  refine (inj_countable'
    (λ t, match t with TaskOfHash h => inl h | TaskOfAccount a => inr a end)
    (λ t, match t with inl h => TaskOfHash h | inr a => TaskOfAccount a end) _).
  by intros [].
Defined.

(** The calls the file bank schedules. *)
Inductive Task :=
| DealReassignMiner (deal_hash : Hash) (count life : Z)
| CalculateEnd (deal_hash : Hash)
| MinerExit (miner : AccountId).

Class TaskScheduler (X : Type) := {
  schedule_named : TaskId → BlockNumber → Task → M X unit;
  cancel_named : TaskId → M X unit
}.

(** Names are unique among the scheduled tasks. *)
Record Agenda := mkAgenda { agenda : gmap TaskId (BlockNumber * Task); agenda_now : BlockNumber }.

#[export] Instance Agenda_scheduler : TaskScheduler Agenda := {|
  schedule_named id at_ task := λ a,
    match agenda a !! id with
    | Some _ => (a, Err (SchedulerError 0))
    | None => if at_ <=? agenda_now a then (a, Err (SchedulerError 1))
              else (mkAgenda (<[id := (at_, task)]> (agenda a)) (agenda_now a), Ok ())
    end;
  cancel_named id := λ a,
    match agenda a !! id with
    | Some _ => (mkAgenda (delete id (agenda a)) (agenda_now a), Ok ())
    | None => (a, Err (SchedulerError 2))
    end
|}.

(** ** Laws

    The queries of the sminer pallet that the file bank relies on when it chooses
    miners neither write nor panic. *)
Class MinerQueryLaws (X : Type) `{!MinerControl X} := {
  get_all_miner_reads : read_only get_all_miner;
  is_positive_reads m : read_only (is_positive m);
  get_miner_idle_space_reads m : read_only (get_miner_idle_space m);
  get_all_miner_total : no_panic get_all_miner;
  is_positive_total m : no_panic (is_positive m);
  get_miner_idle_space_total m : no_panic (get_miner_idle_space m)
}.
