(* ===== verification/SchedulerCredit.v ===== *)
(** * The scheduler-credit pallet

    [src/c-pallets/scheduler-credit/src/lib.rs]: the work and the punishments of
    each scheduler are counted during a period; at its end they become a credit
    value, and the credit score of a validator weighs the values of the last five
    periods. *)
From S2P Require Import Prelude Errors Frame.

Definition FULL_CREDIT_SCORE : Z := 1000.

(** Percentages of the periods [n-1] to [n-5]. *)
Definition PERIOD_WEIGHT : list Z := [50; 20; 15; 10; 5].

Record SchedulerCounterEntry := mkSchedulerCounterEntry {
  proceed_block_size : Z;
  punishment_count : Z
}.
#[export] Instance set_sce_proceed_block_size : Setter (proceed_block_size) := λ f r,
  mkSchedulerCounterEntry (f (proceed_block_size r)) (punishment_count r).
#[export] Instance set_sce_punishment_count : Setter (punishment_count) := λ f r,
  mkSchedulerCounterEntry (proceed_block_size r) (f (punishment_count r)).

Record State := mkState {
  CurrentCounters : gmap AccountId SchedulerCounterEntry;
  HistoryCreditValues : gmap Z (gmap AccountId Z);
  block_number : BlockNumber
}.
#[export] Instance set_sc_CurrentCounters : Setter (CurrentCounters) := λ f r,
  mkState (f (CurrentCounters r)) (HistoryCreditValues r) (block_number r).
#[export] Instance set_sc_HistoryCreditValues : Setter (HistoryCreditValues) := λ f r,
  mkState (CurrentCounters r) (f (HistoryCreditValues r)) (block_number r).
#[export] Instance set_sc_block_number : Setter (block_number) := λ f r,
  mkState (CurrentCounters r) (HistoryCreditValues r) (f (block_number r)).


Class Config := {
  PeriodDuration : BlockNumber;
  find_stash_account_id : AccountId → option AccountId
}.

Definition default_entry : SchedulerCounterEntry := mkSchedulerCounterEntry 0 0.

(** ** Counters *)

Definition increase_block_size (e : SchedulerCounterEntry) (block_size : Z)
  : result DispatchError SchedulerCounterEntry :=
  match checked_add 64 e.(proceed_block_size) block_size with
  | Some v => Ok (e <| proceed_block_size := v |>)
  | None => Err (E := DispatchError) SchedulerCreditError.Overflow
  end.

Definition increase_punishment_count (e : SchedulerCounterEntry)
  : result DispatchError SchedulerCounterEntry :=
  match checked_add 32 e.(punishment_count) 1 with
  | Some v => Ok (e <| punishment_count := v |>)
  | None => Err (E := DispatchError) SchedulerCreditError.Overflow
  end.

(** Plain [*] and [pow] on [u32]. *)
Definition punishment_part (e : SchedulerCounterEntry) : Z :=
  if negb (e.(punishment_count) =? 0)
  then wrapping_pow 32 (wrapping_mul 32 10 e.(punishment_count)) 2
  else 0.

Section operations.
Context `{!Config} `{!PerbillOps} `{!StorageIter}.
Abbreviation MS := (M State).

Definition figure_credit_value (e : SchedulerCounterEntry) (total_block_size : Z) : Z :=
  if negb (total_block_size =? 0) then
    let a := perbill_mul (from_rational e.(proceed_block_size) total_block_size) FULL_CREDIT_SCORE in
    saturating_sub a (punishment_part e)
  else 0.

(** [CurrentCounters::mutate] with a fallible closure: the entry, the default
    one if there was none, is written back whatever the closure returns. *)
Definition mutate_counter (scheduler_id : AccountId)
    (f : SchedulerCounterEntry → result DispatchError SchedulerCounterEntry) : MS unit :=
  scb ← gets (λ s, default default_entry (CurrentCounters s !! scheduler_id));
  match f scb with
  | Ok scb => insert_at CurrentCounters scheduler_id scb
  | Err e => insert_at CurrentCounters scheduler_id scb ;; throw e
  | Panic => panic
  end.

Definition record_proceed_block_size (scheduler_id : AccountId) (block_size : Z) : MS unit :=
  mutate_counter scheduler_id (λ scb, increase_block_size scb block_size).

Definition record_punishment (scheduler_id : AccountId) : MS unit :=
  mutate_counter scheduler_id increase_punishment_count.

Definition insert_history (period : Z) (acc : AccountId) (credit_value : Z) : MS unit :=
  modify (λ s, s <| HistoryCreditValues ::=
    λ h, <[period := <[acc := credit_value]> (default ∅ (h !! period))]> h |>).

Definition figure_credit_values (period : Z) : MS unit :=
  counters ← gets (λ s, iter_storage (CurrentCounters s));
  let total_size :=
    foldl (λ total_size '(_, counter_entry),
             wrapping_add 64 total_size counter_entry.(proceed_block_size)) 0 counters in
  for_each counters (λ '(ctrl_account_id, counter_entry),
    insert_history period ctrl_account_id (figure_credit_value counter_entry total_size)) ;;
  put CurrentCounters ∅ ;;
  let history_depth := Z.of_nat (length PERIOD_WEIGHT) in
  if history_depth <=? period
  then modify (λ s, s <| HistoryCreditValues ::= delete (saturating_sub period history_depth) |>)
  else mret ().

(** A zero period duration makes the [%] of the source panic. *)
Definition on_initialize (now : BlockNumber) : MS unit :=
  let period_duration := PeriodDuration in
  if period_duration =? 0 then panic else
  if now mod period_duration =? 0 then
    let period := saturated_into 32 (now / period_duration) in
    figure_credit_values (saturating_sub period 1)
  else mret ().

(** The credit score of one controller account. *)
Definition credit_score_of (s : State) (last_period : Z) (ctrl_account_id : AccountId) : Z :=
  foldl (λ credit_score '(index, weight),
    if Z.of_nat index <=? last_period then
      let credit_value :=
        default 0 (default ∅ (HistoryCreditValues s !! saturating_sub last_period (Z.of_nat index))
                   !! ctrl_account_id) in
      wrapping_add 32 credit_score (percent_mul weight credit_value)
    else credit_score) 0 (imap pair PERIOD_WEIGHT).

Definition figure_credit_scores : MS (gmap AccountId Z) :=
  if PeriodDuration =? 0 then panic else
  s ← gets (λ s, s);
  let period := saturated_into 32 (block_number s / PeriodDuration) in
  if period =? 0 then mret ∅ else
  let last_period := saturating_sub period 1 in
  mret (foldl (λ result ctrl_account_id,
      match find_stash_account_id ctrl_account_id with
      | Some stash_account_id =>
          <[stash_account_id := credit_score_of s last_period ctrl_account_id]> result
      | None => result
      end) ∅ (iter_storage (default ∅ (HistoryCreditValues s !! last_period))).*1).
End operations.

(** ** Bounds *)

Section bounds.
Context `{!Config} `{!PerbillOps} `{!PerbillLaws} `{!StorageIter}.

Lemma credit_value_bounds e total : 0 <= figure_credit_value e total <= FULL_CREDIT_SCORE.
Proof.
  unfold figure_credit_value, FULL_CREDIT_SCORE. destruct (total =? 0); cbn; [lia|].
  set (r := from_rational _ _). pose proof (parts_bounds r).
  destruct (perbill_mul_spec r 1000 ltac:(done)) as [Hup _].
  assert (0 <= punishment_part e).
  { unfold punishment_part. case_match; [by apply Z.mod_pos_bound|done]. }
  unfold saturating_sub, BILLION in *. change (1000000000 / 2) with 500000000 in Hup. lia.
Qed.

(** A percentage of a credit value, rounded, is at most the percentage of the full
    score: the rounding cannot push the sum of the weights beyond it. *)
Lemma percent_mul_bounds w v :
  0 <= w <= 100 → 0 <= v <= FULL_CREDIT_SCORE → 0 <= percent_mul w v <= 10 * w.
Proof.
  intros Hw Hv. destruct (percent_mul_spec w v) as [Hup Hlo]; [done|lia|].
  unfold FULL_CREDIT_SCORE in *. change (100 / 2) with 50 in *. nia.
Qed.

Definition history_value (s : State) (period : Z) (acc : AccountId) : Z :=
  default 0 (default ∅ (HistoryCreditValues s !! period) !! acc).

(** The weighted sum the score is meant to be. *)
Definition weighted (s : State) (last : Z) (acc : AccountId) (p : nat * Z) : Z :=
  if Z.of_nat p.1 <=? last
  then percent_mul p.2 (history_value s (last - Z.of_nat p.1) acc) else 0.

Definition weighted_score (s : State) (last : Z) (acc : AccountId) : Z :=
  sum_list_with_Z (weighted s last acc) (imap pair PERIOD_WEIGHT).

Definition values_ok (s : State) : Prop :=
  ∀ p a, 0 <= history_value s p a <= FULL_CREDIT_SCORE.

Lemma credit_fold s last acc l c :
  0 <= last → values_ok s → (∀ p, p ∈ l → 0 <= p.2 <= 100) →
  0 <= c → c + sum_list_with_Z (λ p, 10 * p.2) l <= FULL_CREDIT_SCORE →
  foldl (λ credit_score '(index, weight),
    if Z.of_nat index <=? last then
      wrapping_add 32 credit_score
        (percent_mul weight (default 0 (default ∅ (HistoryCreditValues s
           !! saturating_sub last (Z.of_nat index)) !! acc)))
    else credit_score) c l = c + sum_list_with_Z (weighted s last acc) l ∧
  0 <= sum_list_with_Z (weighted s last acc) l <= sum_list_with_Z (λ p, 10 * p.2) l.
Proof.
  intros Hlast Hv. unfold FULL_CREDIT_SCORE. revert c.
  induction l as [|[i w] l IH]; intros c Hl Hc Hle; [cbn; lia|].
  rewrite !sum_list_cons in *. cbn [foldl fst snd] in *.
  assert (0 <= w <= 100) as Hw by (apply (Hl (i, w)); set_solver).
  assert (0 <= sum_list_with_Z (λ p, 10 * p.2) l) as Hrest.
  { apply sum_list_nonneg. intros p Hp. specialize (Hl p ltac:(set_solver)). lia. }
  assert (∀ p, p ∈ l → 0 <= p.2 <= 100) as Hl' by set_solver.
  unfold weighted at 1 3 5. cbn [fst snd]. destruct (Z.leb_spec (Z.of_nat i) last).
  - replace (saturating_sub last (Z.of_nat i)) with (last - Z.of_nat i) by (unfold saturating_sub; lia).
    fold (history_value s (last - Z.of_nat i) acc).
    pose proof (percent_mul_bounds w _ Hw (Hv (last - Z.of_nat i) acc)).
    rewrite wrapping_add_small by lia.
    edestruct (IH (c + percent_mul w (history_value s (last - Z.of_nat i) acc))) as [-> ?]; [done|lia..|lia].
  - destruct (IH c) as [-> ?]; [done|lia..|lia].
Qed.

Lemma credit_score_eq s last acc :
  0 <= last → values_ok s →
  credit_score_of s last acc = weighted_score s last acc ∧
  0 <= weighted_score s last acc <= FULL_CREDIT_SCORE.
Proof.
  intros Hlast Hv. unfold credit_score_of, weighted_score.
  destruct (credit_fold s last acc (imap pair PERIOD_WEIGHT) 0) as [Heq Hb]; [done|done| |done|done|].
  - intros p Hp. cbn in Hp. repeat (apply elem_of_cons in Hp as [->|Hp]; [cbn; lia|]).
    by apply not_elem_of_nil in Hp.
  - split; [exact Heq|]. exact Hb.
Qed.
End bounds.

(** ** Periods *)

Section periods.
Context `{!Config} `{!PerbillOps} `{!PerbillLaws} `{!StorageIter}.

Definition total_size_of (s : State) : Z :=
  foldl (λ total_size '(_, e), wrapping_add 64 total_size e.(proceed_block_size)) 0
    (iter_storage (CurrentCounters s)).

(** The values of a period: each counter in relation to the total. *)
Definition period_values (s : State) : gmap AccountId Z :=
  (λ e, figure_credit_value e (total_size_of s)) <$> CurrentCounters s.

Lemma insert_history_foldl period total l s :
  NoDup l.*1 →
  ∃ h, foldl (λ s '(a, e), s <| HistoryCreditValues ::= λ h,
            <[period := <[a := figure_credit_value e total]> (default ∅ (h !! period))]> h |>) s l
       = s <| HistoryCreditValues := h |> ∧
    (∀ p, p ≠ period → h !! p = HistoryCreditValues s !! p) ∧
    default ∅ (h !! period)
    = list_to_map ((λ '(a, e), (a, figure_credit_value e total)) <$> l)
      ∪ default ∅ (HistoryCreditValues s !! period).
Proof.
  revert s. induction l as [|[a e] l IH]; intros s Hnd.
  { exists (HistoryCreditValues s). split; [by destruct s|]. split; [done|].
    cbn. by rewrite (left_id_L ∅ (∪)). }
  apply NoDup_cons in Hnd as [Ha Hnd]. cbn [foldl].
  destruct (IH (s <| HistoryCreditValues ::= λ h,
    <[period := <[a := figure_credit_value e total]> (default ∅ (h !! period))]> h |>) Hnd)
    as (h & -> & Hne & Heq).
  exists h. split; [done|]. split.
  - intros p Hp. rewrite Hne by done. cbn. by rewrite lookup_insert_ne.
  - rewrite Heq. cbn. rewrite lookup_insert_eq. cbn. apply map_eq. intros k.
    rewrite !lookup_union.
    destruct (decide (a = k)) as [<-|Hk]; [|by rewrite !lookup_insert_ne by done].
    rewrite !lookup_insert_eq. rewrite (not_elem_of_list_to_map_1 _ a); [by destruct (default ∅ (HistoryCreditValues s !! period) !! a)|].
    intros [[a' v] [Ha' [[b e'] [Hb Hin]]%list_elem_of_fmap]]%list_elem_of_fmap. cbn in *. simplify_eq.
    apply Ha. apply (list_elem_of_fmap_2 fst l (b, e') Hin).
Qed.

Lemma iter_storage_to_map {K V} `{Countable K} (m : gmap K V) : list_to_map (iter_storage m) = m.
Proof.
  rewrite <- (list_to_map_to_list m) at 2. apply list_to_map_proper.
  - apply iter_storage_NoDup.
  - apply iter_storage_perm.
Qed.

Lemma insert_history_loop period total l s :
  for_each l (λ '(a, e), insert_history period a (figure_credit_value e total)) s
  = (foldl (λ s '(a, e), s <| HistoryCreditValues ::= λ h,
       <[period := <[a := figure_credit_value e total]> (default ∅ (h !! period))]> h |>) s l, Ok ()).
Proof. revert s. induction l as [|[a e] l IH]; intros s; [done|]. cbn. apply IH. Qed.

Lemma figure_credit_values_run period s :
  0 <= period →
  ∃ h, figure_credit_values period s
       = (s <| CurrentCounters := ∅ |> <| HistoryCreditValues := h |>, Ok ()) ∧
    (∀ p, p ≠ period →
       h !! p = if decide (p = period - 5 ∧ 5 <= period) then None else HistoryCreditValues s !! p) ∧
    default ∅ (h !! period) = period_values s ∪ default ∅ (HistoryCreditValues s !! period).
Proof.
  intros Hper. unfold figure_credit_values, mbind, M_bind, gets. fold (total_size_of s).
  rewrite insert_history_loop.
  destruct (insert_history_foldl period (total_size_of s) (iter_storage (CurrentCounters s)) s)
    as (h & -> & Hne & Heq); [apply iter_storage_NoDup|].
  assert (default ∅ (h !! period) = period_values s ∪ default ∅ (HistoryCreditValues s !! period)) as Heq'.
  { rewrite Heq. f_equal. unfold period_values. rewrite <- (iter_storage_to_map (CurrentCounters s)) at 2.
    rewrite <- list_to_map_fmap. f_equal. by apply list_fmap_ext; intros ? [] ?. }
  change (Z.of_nat (length PERIOD_WEIGHT)) with 5. unfold put, modify. destruct (Z.leb_spec 5 period).
  - eexists (delete (period - 5) h). split_and!.
    + cbn. unfold saturating_sub. by rewrite Z.max_l by lia.
    + intros p Hp. case_decide as Hd; [destruct Hd as [-> _]; by rewrite lookup_delete_eq|].
      rewrite lookup_delete_ne by lia. auto.
    + rewrite lookup_delete_ne by lia. done.
  - exists h. split_and!; [done| |done]. intros p Hp. rewrite decide_False by lia. auto.
Qed.

(** Between the end of one period and the end of the next the history holds the
    values of the last five periods, each within the full score. *)
Definition history_ok (n : BlockNumber) s : Prop :=
  ∀ p m, HistoryCreditValues s !! p = Some m →
    (Z.max 0 (n / PeriodDuration - 5) <= p < n / PeriodDuration) ∧
    ∀ a v, m !! a = Some v → 0 <= v <= FULL_CREDIT_SCORE.

Lemma history_ok_values n s : history_ok n s → values_ok s.
Proof.
  intros Hh p a. unfold history_value. destruct (HistoryCreditValues s !! p) as [m|] eqn:Hm; cbn.
  - destruct (m !! a) as [v|] eqn:Hv; cbn; [|done]. destruct (Hh p m Hm) as [_ Hok]. eauto.
  - by rewrite lookup_empty.
Qed.

Lemma next_period n :
  0 < PeriodDuration →
  (n + 1) / PeriodDuration
  = n / PeriodDuration + (if (n + 1) mod PeriodDuration =? 0 then 1 else 0).
Proof.
  intros HD. set (q := (n + 1) / PeriodDuration). set (r := (n + 1) mod PeriodDuration).
  assert (n + 1 = PeriodDuration * q + r) as Hdm by (apply Z.div_mod; lia).
  assert (0 <= r < PeriodDuration) as Hr by (apply Z.mod_pos_bound; lia).
  destruct (Z.eqb_spec r 0).
  - rewrite <- (Z.div_unique n PeriodDuration (q - 1) (PeriodDuration - 1)); lia.
  - rewrite <- (Z.div_unique n PeriodDuration q (r - 1)); lia.
Qed.

Lemma on_initialize_history n s :
  0 < PeriodDuration → 0 <= n → (n + 1) / PeriodDuration < 2 ^ 32 → history_ok n s →
  ∃ s', on_initialize (n + 1) s = (s', Ok ()) ∧ history_ok (n + 1) s'.
Proof.
  intros HD Hn Hmax Hok. pose proof (next_period n HD) as Hnext. unfold on_initialize, history_ok.
  rewrite (proj2 (Z.eqb_neq PeriodDuration 0)) by lia.
  destruct (_ mod _ =? 0); rewrite Hnext, ?Z.add_0_r in *; [|by exists s].
  assert (0 <= n / PeriodDuration) by (apply Z.div_pos; lia).
  unfold saturated_into, saturating_sub. rewrite Z.min_l, Z.max_l by lia. rewrite Z.add_simpl_r.
  destruct (figure_credit_values_run (n / PeriodDuration) s) as (h & -> & Hne & Heq); [done|].
  eexists. split; [done|]. cbn. intros p m Hm. destruct (decide (p = n / PeriodDuration)) as [->|Hp].
  - split; [lia|]. rewrite Hm in Heq. cbn in Heq. subst m.
    intros a v [Hv|[_ Hv]]%lookup_union_Some_raw.
    + unfold period_values in Hv. apply lookup_fmap_Some in Hv as (e & <- & _). apply credit_value_bounds.
    + destruct (HistoryCreditValues s !! (n / PeriodDuration)) as [m|] eqn:Hm'; cbn in Hv.
      * destruct (Hok _ _ Hm') as [? _]. lia.
      * by rewrite lookup_empty in Hv.
  - rewrite Hne in Hm by done. case_decide as Hd; [done|]. destruct (Hok p m Hm) as [Hb Hv]. split; [lia|done].
Qed.

(** The chain runs [on_initialize] in every block; in between, the pallets that
    use the counters record work and punishments. *)
Inductive reach : BlockNumber → State → Prop :=
| reach_start : reach 0 (mkState ∅ ∅ 0)
| reach_block n s s' r :
    reach n s → on_initialize (n + 1) (s <| block_number := n + 1 |>) = (s', r) → reach (n + 1) s'
| reach_work n s s' acc size r :
    reach n s → record_proceed_block_size acc size s = (s', r) → reach n s'
| reach_punish n s s' acc r :
    reach n s → record_punishment acc s = (s', r) → reach n s'.

Lemma mutate_counter_history acc f s s' r :
  mutate_counter acc f s = (s', r) →
  HistoryCreditValues s' = HistoryCreditValues s ∧ block_number s' = block_number s.
Proof.
  unfold mutate_counter, insert_at, modify, throw, panic, mbind, M_bind, gets.
  destruct (f _); intros [= <- <-]; done.
Qed.

Lemma reach_history n s :
  0 < PeriodDuration → n / PeriodDuration < 2 ^ 32 → reach n s →
  history_ok n s ∧ block_number s = n ∧ 0 <= n.
Proof.
  intros HD Hmax Hreach. induction Hreach as [|n s s' r Hr IH Hrun|n s s' acc size r Hr IH Hrun|n s s' acc r Hr IH Hrun].
  - split_and!; [|done|done]. intros p m Hm. cbn in Hm. by rewrite lookup_empty in Hm.
  - pose proof (next_period n HD). destruct IH as (Hok & Hblk & Hn); [case_match; lia|].
    destruct (on_initialize_history n (s <| block_number := n + 1 |>)) as (s1 & Hrun1 & Hok1); [done..|].
    assert (s1 = s') as -> by congruence. assert (r = Ok ()) as -> by congruence. split_and!; [done| |lia].
    unfold on_initialize in Hrun. rewrite (proj2 (Z.eqb_neq PeriodDuration 0)) in Hrun by lia.
    case_match; [|by apply ret_Ok in Hrun as [-> _]].
    edestruct (figure_credit_values_run (saturating_sub (saturated_into 32 ((n + 1) / PeriodDuration)) 1)
      (s <| block_number := n + 1 |>)) as (h & Hr' & _); [unfold saturating_sub; lia|].
    rewrite Hr' in Hrun. by simplify_eq.
  - destruct IH as (Hok & Hblk & Hn); [done|]. apply mutate_counter_history in Hrun as [Hh Hb].
    split_and!; [|congruence|done]. unfold history_ok. by rewrite Hh.
  - destruct IH as (Hok & Hblk & Hn); [done|]. apply mutate_counter_history in Hrun as [Hh Hb].
    split_and!; [|congruence|done]. unfold history_ok. by rewrite Hh.
Qed.

(** C38 In every block the history holds at most the five last finished periods,
    all its values lie between 0 and the full score, and the score of each
    scheduler is the weighted sum of its values, computed without overflow and
    never above the full score. *)
Theorem credit_scores_ok n s acc :
  0 < PeriodDuration → n / PeriodDuration < 2 ^ 32 → reach n s →
  history_ok n s ∧
  ∀ last, 0 <= last →
    credit_score_of s last acc = weighted_score s last acc ∧
    0 <= credit_score_of s last acc <= FULL_CREDIT_SCORE.
Proof.
  intros HD Hmax Hreach. destruct (reach_history _ _ HD Hmax Hreach) as (Hok & _ & _).
  split; [done|]. intros last Hlast.
  destruct (credit_score_eq s last acc Hlast (history_ok_values _ _ Hok)) as [-> ?]. done.
Qed.

(** The end of a period turns every counter into a credit value, clears the
    counters, forgets the period that drops out of the five-period window and
    leaves the other periods alone. *)
Theorem figure_credit_values_spec period s :
  0 <= period → HistoryCreditValues s !! period = None →
  ∃ s', figure_credit_values period s = (s', Ok ()) ∧ CurrentCounters s' = ∅ ∧
    (∀ a, history_value s' period a
          = from_option (λ e, figure_credit_value e (total_size_of s)) 0 (CurrentCounters s !! a)) ∧
    (∀ p, p ≠ period → p ≠ period - 5 → HistoryCreditValues s' !! p = HistoryCreditValues s !! p) ∧
    (5 <= period → HistoryCreditValues s' !! (period - 5) = None).
Proof.
  intros Hper Hnone. destruct (figure_credit_values_run period s Hper) as (h & -> & Hne & Heq).
  eexists. split; [done|]. split; [done|]. cbn. split_and!.
  - intros a. unfold history_value. cbn. rewrite Heq, Hnone. cbn. rewrite (right_id_L ∅ (∪)).
    unfold period_values. rewrite lookup_fmap. by destruct (CurrentCounters s !! a).
  - intros p Hp Hp5. rewrite Hne by done. by rewrite decide_False by lia.
  - intros H5. rewrite Hne by lia. by rewrite decide_True.
Qed.
End periods.

(** ** Example runs *)

Section examples.
#[local] Instance example_config : Config := {| PeriodDuration := 2; find_stash_account_id a := Some a |}.

(** Two schedulers work in the first period. *)
Definition example_worked : State :=
  ((record_proceed_block_size 1 300 ;; record_proceed_block_size 2 100 ;; record_punishment 2)
     (mkState ∅ ∅ 0)).1.

Definition example_block1 : State := (on_initialize (0 + 1) (example_worked <| block_number := 0 + 1 |>)).1.
Definition example_block2 : State :=
  (on_initialize (0 + 1 + 1) (example_block1 <| block_number := 0 + 1 + 1 |>)).1.

Lemma example_reach : reach (0 + 1 + 1) example_block2.
Proof.
  eapply (reach_block (0 + 1) example_block1 _ (Ok ())); [|vm_compute; reflexivity].
  eapply (reach_block 0 example_worked _ (Ok ())); [|vm_compute; reflexivity].
  eapply (reach_punish 0 (record_proceed_block_size 2 100 (record_proceed_block_size 1 300 (mkState ∅ ∅ 0)).1).1
    _ 2 (Ok ())); [|vm_compute; reflexivity].
  eapply (reach_work 0 (record_proceed_block_size 1 300 (mkState ∅ ∅ 0)).1 _ 2 100 (Ok ()));
    [|vm_compute; reflexivity].
  eapply (reach_work 0 (mkState ∅ ∅ 0) _ 1 300 (Ok ())); [apply reach_start|vm_compute; reflexivity].
Qed.

Lemma credit_scores_ok_witness :
  credit_score_of example_block2 0 1 = weighted_score example_block2 0 1.
Proof.
  destruct (credit_scores_ok (0 + 1 + 1) example_block2 1) as [_ Hscore].
  - done.
  - done.
  - exact example_reach.
  - apply (Hscore 0). done.
Defined.

Lemma figure_credit_values_spec_witness :
  ∃ s', figure_credit_values 0 example_block1 = (s', Ok ()) ∧ CurrentCounters s' = ∅.
Proof.
  destruct (figure_credit_values_spec 0 example_block1) as (s' & Hrun & Hc & _).
  - done.
  - vm_compute. reflexivity.
  - by exists s'.
Defined.

(** The penalty grows with the square of the punishments only until it
    wraps around: a scheduler punished 32768 times in a period, which has done all
    the work, keeps the full score, while three punishments already cost it nine
    tenths of the score. *)
Theorem punishment_wraps :
  figure_credit_value (mkSchedulerCounterEntry 100 3) 100 = 100 ∧
  figure_credit_value (mkSchedulerCounterEntry 100 4) 100 = 0 ∧
  figure_credit_value (mkSchedulerCounterEntry 100 32768) 100 = FULL_CREDIT_SCORE.
Proof. split_and!; vm_compute; reflexivity. Qed.
End examples.
