(* ===== verification/TeeWorker.v ===== *)
(** * The tee-worker pallet

    [src/c-pallets/tee-worker/src/lib.rs] and [types.rs]: registration of the
    trusted execution workers, their common Podr2 key, and the punishment of a
    worker.  The verification of an attestation certificate
    ([cp_enclave_verify::verify_miner_cert], X.509 and RSA) is an argument of the
    configuration that [EnclaveVerify] fills in; [EnclaveProofs] has the composition.  So are
    the staking pallet and the credit counter, reached through their interfaces.
    The storage value [BondAcc] is declared in the source and never used. *)
From S2P Require Import Prelude Errors Frame Interfaces.

Inductive Event :=
| RegistrationTeeWorker (acc : AccountId) (peer_id : PeerId)
| Exit (acc : AccountId)
| UpdatePeerId (acc : AccountId).

Record TeeWorkerInfo := mkTeeWorkerInfo {
  controller_account : AccountId;
  peer_id : PeerId;
  node_key : N;
  stash_account : AccountId
}.
#[export] Instance set_tw_controller_account : Setter (controller_account) := λ f r,
  mkTeeWorkerInfo (f (controller_account r)) (peer_id r) (node_key r) (stash_account r).
#[export] Instance set_tw_peer_id : Setter (peer_id) := λ f r,
  mkTeeWorkerInfo (controller_account r) (f (peer_id r)) (node_key r) (stash_account r).
#[export] Instance set_tw_node_key : Setter (node_key) := λ f r,
  mkTeeWorkerInfo (controller_account r) (peer_id r) (f (node_key r)) (stash_account r).
#[export] Instance set_tw_stash_account : Setter (stash_account) := λ f r,
  mkTeeWorkerInfo (controller_account r) (peer_id r) (node_key r) (f (stash_account r)).

Record SgxAttestationReport := mkSgxAttestationReport {
  report_json_raw : list Z;
  sign : list Z;
  cert_der : list Z
}.
#[export] Instance set_sgx_report_json_raw : Setter (report_json_raw) := λ f r,
  mkSgxAttestationReport (f (report_json_raw r)) (sign r) (cert_der r).
#[export] Instance set_sgx_sign : Setter (sign) := λ f r,
  mkSgxAttestationReport (report_json_raw r) (f (sign r)) (cert_der r).
#[export] Instance set_sgx_cert_der : Setter (cert_der) := λ f r,
  mkSgxAttestationReport (report_json_raw r) (sign r) (f (cert_der r)).

Record State (X : Type) := mkState {
  TeeWorkerMap : gmap AccountId TeeWorkerInfo;
  TeePodr2Pk : option (list Z);
  MrEnclaveWhitelist : list (list Z);
  ext : X;
  events : list Event
}.
Arguments mkState {X} _ _ _ _ _.
Arguments TeeWorkerMap {X} _.
Arguments TeePodr2Pk {X} _.
Arguments MrEnclaveWhitelist {X} _.
Arguments ext {X} _.
Arguments events {X} _.
#[export] Instance set_te_TeeWorkerMap {X : Type} : Setter (@TeeWorkerMap X) := λ f r,
  mkState (f (TeeWorkerMap r)) (TeePodr2Pk r) (MrEnclaveWhitelist r) (ext r) (events r).
#[export] Instance set_te_TeePodr2Pk {X : Type} : Setter (@TeePodr2Pk X) := λ f r,
  mkState (TeeWorkerMap r) (f (TeePodr2Pk r)) (MrEnclaveWhitelist r) (ext r) (events r).
#[export] Instance set_te_MrEnclaveWhitelist {X : Type} : Setter (@MrEnclaveWhitelist X) := λ f r,
  mkState (TeeWorkerMap r) (TeePodr2Pk r) (f (MrEnclaveWhitelist r)) (ext r) (events r).
#[export] Instance set_te_ext {X : Type} : Setter (@ext X) := λ f r,
  mkState (TeeWorkerMap r) (TeePodr2Pk r) (MrEnclaveWhitelist r) (f (ext r)) (events r).
#[export] Instance set_te_events {X : Type} : Setter (@events X) := λ f r,
  mkState (TeeWorkerMap r) (TeePodr2Pk r) (MrEnclaveWhitelist r) (ext r) (f (events r)).


(** [verify_miner_cert sign cert_der report] returns [None] when a check fails, or panics. *)
Class Config := {
  MaxWhitelist : Z;
  verify_miner_cert : list Z → list Z → list Z → result Empty_set (option Z)
}.

Section operations.
Context {X : Type} `{!Staking X} `{!SchedulerCreditCounter X} `{!Config} `{!StorageIter}.
Abbreviation MS := (M (State X)).

Definition deposit_event (e : Event) : MS unit :=
  modify (λ s, s <| events ::= λ l, l ++ [e] |>).

(** [TeeWorkerMap] is a [CountedStorageMap]. *)
Definition worker_count : MS Z := gets (λ s, Z.of_nat (size (TeeWorkerMap s))).

Definition register (origin : Origin) (stash_account : AccountId) (node_key : N)
    (peer_id : PeerId) (podr2_pbk : list Z) (report : SgxAttestationReport) : MS unit := transactional (
  sender ← ensure_signed origin;
  bonded_ ← zoom ext (bonded stash_account);
  acc ← ok_or bonded_ TeeWorkerError.NotBond;
  ensure (bool_decide (sender = acc)) TeeWorkerError.NotController ;;
  exists_ ← contains_key TeeWorkerMap sender;
  ensure (negb exists_) TeeWorkerError.AlreadyRegistration ;;
  verified ←
    match verify_miner_cert report.(sign) report.(cert_der) report.(report_json_raw) with
    | Ok verified => mret verified
    | Err e => match e with end
    | Panic => panic
    end;
  ok_or verified TeeWorkerError.VerifyCertFailed ;;
  let tee_worker_info :=
    {| controller_account := sender; peer_id := peer_id; node_key := node_key;
       stash_account := stash_account |} in
  count ← worker_count;
  (if count =? 0 then put TeePodr2Pk (Some podr2_pbk) else mret ()) ;;
  insert_at TeeWorkerMap sender tee_worker_info ;;
  deposit_event (RegistrationTeeWorker sender peer_id)).

Definition update_whitelist (origin : Origin) (mr_enclave : list Z) : MS unit := transactional (
  ensure_root origin ;;
  list ← gets MrEnclaveWhitelist;
  list ← unwrap (try_push MaxWhitelist list mr_enclave);
  put MrEnclaveWhitelist list).

Definition exit (origin : Origin) : MS unit := transactional (
  sender ← ensure_signed origin;
  remove_at TeeWorkerMap sender ;;
  count ← worker_count;
  (if count =? 0 then put TeePodr2Pk None else mret ()) ;;
  deposit_event (Exit sender)).

Definition contains_scheduler (acc : AccountId) : MS bool := contains_key TeeWorkerMap acc.

Definition punish_scheduler (acc : AccountId) : MS unit :=
  tee_worker ← try_get TeeWorkerMap acc TeeWorkerError.NonTeeWorker;
  zoom ext (slash_scheduler tee_worker.(stash_account)) ;;
  zoom ext (record_punishment tee_worker.(stash_account)).

Definition get_first_controller : MS AccountId :=
  l ← gets (λ s, iter_storage (TeeWorkerMap s));
  p ← ok_or (head l) TeeWorkerError.NonTeeWorker;
  mret p.1.

Definition get_controller_list : MS (list AccountId) :=
  gets (λ s, (iter_storage (TeeWorkerMap s)).*1).
End operations.

(** ** The registry of workers *)

Inductive call :=
| CRegister (origin : Origin) (stash : AccountId) (node_key : N) (peer_id : PeerId)
    (podr2_pbk : list Z) (report : SgxAttestationReport)
| CUpdateWhitelist (origin : Origin) (mr_enclave : list Z)
| CExit (origin : Origin)
| CPunish (acc : AccountId).

Section registry.
Context {X : Type} `{!Staking X} `{!SchedulerCreditCounter X} `{!Config} `{!StorageIter}.
Implicit Types s : State X.

Definition exec (c : call) : M (State X) unit :=
  match c with
  | CRegister o stash k p pk r => register o stash k p pk r
  | CUpdateWhitelist o m => update_whitelist o m
  | CExit o => exit o
  | CPunish acc => punish_scheduler acc
  end.

(** The common key is set exactly while there are workers; a worker is filed
    under its controller account; the whitelist respects its bound. *)
Record registry_ok s : Prop := {
  reg_key : is_Some (TeePodr2Pk s) ↔ TeeWorkerMap s ≠ ∅;
  reg_controller a w : TeeWorkerMap s !! a = Some w → controller_account w = a;
  reg_whitelist : Z.of_nat (length (MrEnclaveWhitelist s)) <= MaxWhitelist
}.

Lemma map_size_0 {K V} `{Countable K} (m : gmap K V) : (Z.of_nat (size m) =? 0) = bool_decide (m = ∅).
Proof.
  case_bool_decide as Hm; [by rewrite Hm, map_size_empty|].
  apply Z.eqb_neq. intros Hz. apply Hm, map_size_empty_iff. lia.
Qed.

Lemma punish_scheduler_registry acc s s' r :
  punish_scheduler acc s = (s', r) →
  TeeWorkerMap s' = TeeWorkerMap s ∧ TeePodr2Pk s' = TeePodr2Pk s ∧
  MrEnclaveWhitelist s' = MrEnclaveWhitelist s.
Proof.
  unfold punish_scheduler, try_get, ok_or, throw, zoom, mbind, M_bind, gets.
  destruct (TeeWorkerMap s !! acc) as [w|]; [|by intros [= <- <-]].
  cbn. destruct (slash_scheduler _ _) as [x [u| |]]; [|by intros [= <- <-]..].
  destruct (record_punishment _ _) as [x' r']. by intros [= <- <-].
Qed.

Lemma register_Ok o stash k p pk rep s s' u :
  register o stash k p pk rep s = (s', Ok u) →
  ∃ sender x cert, o = Signed sender ∧ bonded stash (ext s) = (x, Ok (Some sender)) ∧
    TeeWorkerMap s !! sender = None ∧
    verify_miner_cert (sign rep) (cert_der rep) (report_json_raw rep) = Ok (Some cert) ∧
    s' = s <| ext := x |>
           <| TeePodr2Pk := if bool_decide (TeeWorkerMap s = ∅) then Some pk else TeePodr2Pk s |>
           <| TeeWorkerMap ::= <[sender := mkTeeWorkerInfo sender p k stash]> |>
           <| events ::= λ l, l ++ [RegistrationTeeWorker sender p] |>.
Proof.
  unfold register, deposit_event, worker_count. intros Hrun.
  destruct (verify_miner_cert _ _ _) as [v|[]|] eqn:Hv; [|inv_ok; case_match; done]. inv_ok; cbn in *; simplify_eq.
  all: match goal with H : bool_decide (?a = ?b) = true |- _ => apply bool_decide_eq_true in H as -> end.
  all: match goal with H : negb (bool_decide (is_Some ?o)) = true |- _ => destruct o eqn:?; [done|] end.
  all: match goal with H : (Z.of_nat (size _) =? 0) = _ |- _ => rewrite map_size_0 in H; rewrite H end.
  all: do 3 eexists; split_and!; try done. all: by destruct s.
Qed.

Lemma exit_Ok o s s' u :
  exit o s = (s', Ok u) →
  ∃ sender, o = Signed sender ∧
    s' = s <| TeeWorkerMap ::= delete sender |>
           <| TeePodr2Pk := if bool_decide (delete sender (TeeWorkerMap s) = ∅) then None else TeePodr2Pk s |>
           <| events ::= λ l, l ++ [Exit sender] |>.
Proof.
  unfold exit, deposit_event, worker_count. intros Hrun. inv_ok; cbn in *; simplify_eq.
  all: eexists; split; [done|].
  all: match goal with H : (Z.of_nat (size _) =? 0) = _ |- _ => rewrite map_size_0 in H; rewrite H end.
  all: by destruct s.
Qed.

Lemma exec_registry c s s' r : registry_ok s → exec c s = (s', r) → registry_ok s'.
Proof.
  intros [Hk Hc Hw] Hrun. destruct c as [o stash k p pk rep|o m|o|acc]; cbn [exec] in Hrun.
  4: { apply punish_scheduler_registry in Hrun as (H1 & H2 & H3). split; rewrite ?H1, ?H2, ?H3; done. }
  all: destruct r as [u| |]; try (by rewrite (transactional_rollback _ _ _ _ Hrun)).
  - apply register_Ok in Hrun as (a & x & cert & -> & _ & Ha & _ & ->). split; cbn; [| |done].
    + split; [intros _; apply insert_non_empty|]. intros _.
      case_bool_decide; [done|]. by apply Hk.
    + intros b w. destruct (decide (a = b)) as [->|]; intros; simplify_map_eq; eauto.
  - unfold update_whitelist, try_push in Hrun. inv_ok. case_match; [|done]. simplify_eq.
    split; cbn; [done|done|]. rewrite length_app. cbn. lia.
  - apply exit_Ok in Hrun as (a & -> & ->). split; cbn; [| |done].
    + case_bool_decide as Hd; [split; [intros [? [=]]|done]|]. split; [done|]. intros _.
      apply Hk. intros He. apply Hd. rewrite He. apply delete_empty.
    + intros b w [_ Hb]%lookup_delete_Some. eauto.
Qed.

(** C39 After any sequence of calls, failing ones included, the common Podr2 key
    is present exactly when some worker is registered, every worker is filed under
    its controller account, and the enclave whitelist keeps within its bound. *)
Theorem tee_registry_reachable s s' :
  registry_ok s → rtc (λ s s', ∃ c r, exec c s = (s', r)) s s' → registry_ok s'.
Proof.
  intros Hok Hsteps. induction Hsteps as [|s1 s2 s3 (c & r & Hrun) _ IH]; [done|].
  apply IH. by eapply exec_registry.
Qed.

(** C40 A worker can register only with the account bonded to its stash account,
    once, and with a certificate that verifies; the first worker sets the common
    key, later ones leave it. *)
Theorem register_spec o stash k p pk rep s s' :
  register o stash k p pk rep s = (s', Ok ()) →
  ∃ sender, o = Signed sender ∧ (bonded stash (ext s)).2 = Ok (Some sender) ∧
    TeeWorkerMap s !! sender = None ∧
    (∃ cert, verify_miner_cert (sign rep) (cert_der rep) (report_json_raw rep) = Ok (Some cert)) ∧
    TeeWorkerMap s' = <[sender := mkTeeWorkerInfo sender p k stash]> (TeeWorkerMap s) ∧
    TeePodr2Pk s' = if bool_decide (TeeWorkerMap s = ∅) then Some pk else TeePodr2Pk s.
Proof.
  intros Hrun. apply register_Ok in Hrun as (a & x & cert & -> & Hb & Ha & Hcert & ->).
  exists a. rewrite Hb, Hcert. split_and!; eauto.
Qed.

(** Adding to a full whitelist panics: the result of the bounded push is
    unwrapped. *)
Theorem update_whitelist_panics m s :
  Z.of_nat (length (MrEnclaveWhitelist s)) = MaxWhitelist →
  update_whitelist Root m s = (s, Panic).
Proof.
  intros Hfull. unfold update_whitelist, try_push, transactional, mbind, M_bind, ensure_root, gets, mret, M_ret.
  by rewrite Hfull, Z.ltb_irrefl.
Qed.
End registry.

(** ** Example runs

    A staking pallet with one bonded pair and a credit counter that counts. *)

Section examples.
#[local] Instance example_config : Config :=
  {| MaxWhitelist := 2; verify_miner_cert sign cert report := Ok (if decide (sign = []) then None else Some 1) |}.
#[local] Instance example_staking : Staking (gmap AccountId Z) :=
  {| bonded stash := mret (if decide (stash = 10%N) then Some 1%N else None);
     slash_scheduler stash := mret () |}.
#[local] Instance example_credit : SchedulerCreditCounter (gmap AccountId Z) :=
  {| record_proceed_block_size acc n := mret ();
     record_punishment acc := modify (λ m, <[acc := default 0 (m !! acc) + 1]> m) |}.

Definition example_initial : State (gmap AccountId Z) := mkState ∅ None [] ∅ [].
Definition example_report : SgxAttestationReport := mkSgxAttestationReport [1] [2] [3].
Definition example_registered : State (gmap AccountId Z) :=
  (register (Signed 1) 10 5 6 [7] example_report example_initial).1.

Lemma tee_registry_reachable_witness : registry_ok example_registered.
Proof.
  apply (tee_registry_reachable example_initial).
  - split; cbn; [split; [by intros [? [=]]|done]| |done]. intros a w Hw. by rewrite lookup_empty in Hw.
  - apply rtc_once. exists (CRegister (Signed 1) 10 5 6 [7] example_report), (Ok ()).
    vm_compute. reflexivity.
Defined.

Lemma register_spec_witness : TeePodr2Pk example_registered = Some [7].
Proof.
  destruct (register_spec (Signed 1) 10 5 6 [7] example_report example_initial example_registered)
    as (a & _ & _ & _ & _ & _ & Hpk).
  - vm_compute. reflexivity.
  - exact Hpk.
Defined.

Lemma update_whitelist_panics_witness :
  (update_whitelist Root [3] (mkState ∅ None [[1]; [2]] (∅ : gmap AccountId Z) [])).2 = Panic.
Proof.
  rewrite (update_whitelist_panics [3] (mkState ∅ None [[1]; [2]] (∅ : gmap AccountId Z) [])); done.
Defined.

(** The punishment of a worker is counted for its stash account, not for the
    controller account under which its work is counted and its credit value is
    kept. *)
Theorem punishment_counts_for_stash :
  ext (punish_scheduler 1 example_registered).1 = {[ 10%N := 1 ]}.
Proof. vm_compute. reflexivity. Qed.
End examples.
