(* ===== verification/FileBankData.v ===== *)
(** * The file-bank pallet: data and helpers

    [src/c-pallets/file-bank/src/types.rs], [constants.rs] and [functions.rs]: the
    deals in which a file is spread over miners, the files with their segments,
    fragments and owners, buckets, fillers, and the orders to restore lost
    fragments.  The pallet is written over the state [X] of the rest of the chain
    and calls it through the classes of [Interfaces].

    Fields carry a prefix per structure because Rocq has one name space for the
    fields of all records.  A product of a list length, which is below [2^32], and
    a constant size below [2^25] cannot reach [2^128]; it is written without the
    wrap-around.  The storage map [InvalidFile] is declared in the source and never
    used. *)
From S2P Require Import Prelude Errors Frame Common Interfaces.

Definition TRANSFER_RATE : Z := 8947849.
Definition CALCULATE_RATE : Z := 67108864.

Inductive FileState := Active | Calculate | Missing | Recovery.

#[global] Instance FileState_eq_dec : EqDecision FileState.
Proof. solve_decision. Defined.

Inductive Event :=
| UploadDeclaration (operator owner : AccountId) (deal_hash : Hash)
| TransferReport (acc : AccountId) (failed_list : list Hash)
| DeleteFile (operator owner : AccountId) (file_hash_list : list Hash)
| ReplaceFiller (acc : AccountId) (filler_list : list Hash)
| CalculateEnd_ (file_hash : Hash)
| FillerUpload (acc : AccountId) (file_size : Z)
| FillerDelete (acc : AccountId) (filler_hash : Hash)
| CreateBucket (operator owner : AccountId) (bucket_name : list Z)
| DeleteBucket (operator owner : AccountId) (bucket_name : list Z)
| Withdraw (acc : AccountId)
| GenerateRestoralOrder (miner : AccountId) (fragment_hash : Hash)
| ClaimRestoralOrder (miner : AccountId) (order_id : Hash)
| RecoveryCompleted (miner : AccountId) (order_id : Hash)
| StorageCompleted (file_hash : Hash)
| MinerExitPrep (miner : AccountId).

Class Config := {
  OneDay : BlockNumber;
  StringLimit : Z;
  UploadFillerLimit : Z;
  NameStrLimit : Z;
  FileListLimit : Z;
  BucketLimit : Z;
  NameMinLength : Z;
  SegmentCount : Z;
  FragmentCount : Z;
  OwnerLimit : Z;
  RestoralOrderLife : Z;
  MissionCount : Z
}.

(** [random seed] is the number decoded from the randomness of the block for the
    subject [seed], zero when there is none. *)
Class Randomness (X : Type) := { random : Z → M X Z }.

(** The randomness of a block is a function of the block. *)
Class RandomnessLaws (X : Type) `{!Randomness X} := {
  random_reads seed : read_only (random seed);
  random_total seed : no_panic (random seed)
}.

Record SegmentList := mkSegmentList {
  sl_hash : Hash;
  sl_fragment_list : list Hash
}.
#[export] Instance set_sl_sl_hash : Setter (sl_hash) := λ f r,
  mkSegmentList (f (sl_hash r)) (sl_fragment_list r).
#[export] Instance set_sl_sl_fragment_list : Setter (sl_fragment_list) := λ f r,
  mkSegmentList (sl_hash r) (f (sl_fragment_list r)).

Record MinerTaskList := mkMinerTaskList {
  mt_miner : AccountId;
  mt_fragment_list : list Hash
}.
#[export] Instance set_mt_mt_miner : Setter (mt_miner) := λ f r,
  mkMinerTaskList (f (mt_miner r)) (mt_fragment_list r).
#[export] Instance set_mt_mt_fragment_list : Setter (mt_fragment_list) := λ f r,
  mkMinerTaskList (mt_miner r) (f (mt_fragment_list r)).

Record UserBrief := mkUserBrief {
  ub_user : AccountId;
  ub_file_name : list Z;
  ub_bucket_name : list Z
}.
#[export] Instance set_ub_ub_user : Setter (ub_user) := λ f r,
  mkUserBrief (f (ub_user r)) (ub_file_name r) (ub_bucket_name r).
#[export] Instance set_ub_ub_file_name : Setter (ub_file_name) := λ f r,
  mkUserBrief (ub_user r) (f (ub_file_name r)) (ub_bucket_name r).
#[export] Instance set_ub_ub_bucket_name : Setter (ub_bucket_name) := λ f r,
  mkUserBrief (ub_user r) (ub_file_name r) (f (ub_bucket_name r)).

Record FragmentInfo := mkFragmentInfo {
  fg_hash : Hash;
  fg_avail : bool;
  fg_miner : AccountId
}.
#[export] Instance set_fg_fg_hash : Setter (fg_hash) := λ f r,
  mkFragmentInfo (f (fg_hash r)) (fg_avail r) (fg_miner r).
#[export] Instance set_fg_fg_avail : Setter (fg_avail) := λ f r,
  mkFragmentInfo (fg_hash r) (f (fg_avail r)) (fg_miner r).
#[export] Instance set_fg_fg_miner : Setter (fg_miner) := λ f r,
  mkFragmentInfo (fg_hash r) (fg_avail r) (f (fg_miner r)).

Record SegmentInfo := mkSegmentInfo {
  si_hash : Hash;
  si_fragment_list : list FragmentInfo
}.
#[export] Instance set_si_si_hash : Setter (si_hash) := λ f r,
  mkSegmentInfo (f (si_hash r)) (si_fragment_list r).
#[export] Instance set_si_si_fragment_list : Setter (si_fragment_list) := λ f r,
  mkSegmentInfo (si_hash r) (f (si_fragment_list r)).

Record DealInfo := mkDealInfo {
  di_stage : Z;
  di_count : Z;
  di_file_size : Z;
  di_segment_list : list SegmentList;
  di_needed_list : list SegmentList;
  di_user : UserBrief;
  di_assigned_miner : list MinerTaskList;
  di_share_info : list SegmentInfo;
  di_complete_list : list AccountId
}.
#[export] Instance set_di_di_stage : Setter (di_stage) := λ f r,
  mkDealInfo (f (di_stage r)) (di_count r) (di_file_size r) (di_segment_list r) (di_needed_list r) (di_user r) (di_assigned_miner r) (di_share_info r) (di_complete_list r).
#[export] Instance set_di_di_count : Setter (di_count) := λ f r,
  mkDealInfo (di_stage r) (f (di_count r)) (di_file_size r) (di_segment_list r) (di_needed_list r) (di_user r) (di_assigned_miner r) (di_share_info r) (di_complete_list r).
#[export] Instance set_di_di_file_size : Setter (di_file_size) := λ f r,
  mkDealInfo (di_stage r) (di_count r) (f (di_file_size r)) (di_segment_list r) (di_needed_list r) (di_user r) (di_assigned_miner r) (di_share_info r) (di_complete_list r).
#[export] Instance set_di_di_segment_list : Setter (di_segment_list) := λ f r,
  mkDealInfo (di_stage r) (di_count r) (di_file_size r) (f (di_segment_list r)) (di_needed_list r) (di_user r) (di_assigned_miner r) (di_share_info r) (di_complete_list r).
#[export] Instance set_di_di_needed_list : Setter (di_needed_list) := λ f r,
  mkDealInfo (di_stage r) (di_count r) (di_file_size r) (di_segment_list r) (f (di_needed_list r)) (di_user r) (di_assigned_miner r) (di_share_info r) (di_complete_list r).
#[export] Instance set_di_di_user : Setter (di_user) := λ f r,
  mkDealInfo (di_stage r) (di_count r) (di_file_size r) (di_segment_list r) (di_needed_list r) (f (di_user r)) (di_assigned_miner r) (di_share_info r) (di_complete_list r).
#[export] Instance set_di_di_assigned_miner : Setter (di_assigned_miner) := λ f r,
  mkDealInfo (di_stage r) (di_count r) (di_file_size r) (di_segment_list r) (di_needed_list r) (di_user r) (f (di_assigned_miner r)) (di_share_info r) (di_complete_list r).
#[export] Instance set_di_di_share_info : Setter (di_share_info) := λ f r,
  mkDealInfo (di_stage r) (di_count r) (di_file_size r) (di_segment_list r) (di_needed_list r) (di_user r) (di_assigned_miner r) (f (di_share_info r)) (di_complete_list r).
#[export] Instance set_di_di_complete_list : Setter (di_complete_list) := λ f r,
  mkDealInfo (di_stage r) (di_count r) (di_file_size r) (di_segment_list r) (di_needed_list r) (di_user r) (di_assigned_miner r) (di_share_info r) (f (di_complete_list r)).

Record FileInfo := mkFileInfo {
  fi_segment_list : list SegmentInfo;
  fi_owner : list UserBrief;
  fi_file_size : Z;
  fi_completion : BlockNumber;
  fi_stat : FileState
}.
#[export] Instance set_fi_fi_segment_list : Setter (fi_segment_list) := λ f r,
  mkFileInfo (f (fi_segment_list r)) (fi_owner r) (fi_file_size r) (fi_completion r) (fi_stat r).
#[export] Instance set_fi_fi_owner : Setter (fi_owner) := λ f r,
  mkFileInfo (fi_segment_list r) (f (fi_owner r)) (fi_file_size r) (fi_completion r) (fi_stat r).
#[export] Instance set_fi_fi_file_size : Setter (fi_file_size) := λ f r,
  mkFileInfo (fi_segment_list r) (fi_owner r) (f (fi_file_size r)) (fi_completion r) (fi_stat r).
#[export] Instance set_fi_fi_completion : Setter (fi_completion) := λ f r,
  mkFileInfo (fi_segment_list r) (fi_owner r) (fi_file_size r) (f (fi_completion r)) (fi_stat r).
#[export] Instance set_fi_fi_stat : Setter (fi_stat) := λ f r,
  mkFileInfo (fi_segment_list r) (fi_owner r) (fi_file_size r) (fi_completion r) (f (fi_stat r)).

Record FillerInfo := mkFillerInfo {
  fl_block_num : Z;
  fl_miner_address : AccountId;
  fl_filler_hash : Hash
}.
#[export] Instance set_fl_fl_block_num : Setter (fl_block_num) := λ f r,
  mkFillerInfo (f (fl_block_num r)) (fl_miner_address r) (fl_filler_hash r).
#[export] Instance set_fl_fl_miner_address : Setter (fl_miner_address) := λ f r,
  mkFillerInfo (fl_block_num r) (f (fl_miner_address r)) (fl_filler_hash r).
#[export] Instance set_fl_fl_filler_hash : Setter (fl_filler_hash) := λ f r,
  mkFillerInfo (fl_block_num r) (fl_miner_address r) (f (fl_filler_hash r)).

Record UserFileSliceInfo := mkUserFileSliceInfo {
  us_file_hash : Hash;
  us_file_size : Z
}.
#[export] Instance set_us_us_file_hash : Setter (us_file_hash) := λ f r,
  mkUserFileSliceInfo (f (us_file_hash r)) (us_file_size r).
#[export] Instance set_us_us_file_size : Setter (us_file_size) := λ f r,
  mkUserFileSliceInfo (us_file_hash r) (f (us_file_size r)).

Record BucketInfo := mkBucketInfo {
  bk_object_list : list Hash;
  bk_authority : list AccountId
}.
#[export] Instance set_bk_bk_object_list : Setter (bk_object_list) := λ f r,
  mkBucketInfo (f (bk_object_list r)) (bk_authority r).
#[export] Instance set_bk_bk_authority : Setter (bk_authority) := λ f r,
  mkBucketInfo (bk_object_list r) (f (bk_authority r)).

Record RestoralTargetInfo := mkRestoralTargetInfo {
  rt_miner : AccountId;
  rt_service_space : Z;
  rt_restored_space : Z;
  rt_cooling_block : BlockNumber
}.
#[export] Instance set_rt_rt_miner : Setter (rt_miner) := λ f r,
  mkRestoralTargetInfo (f (rt_miner r)) (rt_service_space r) (rt_restored_space r) (rt_cooling_block r).
#[export] Instance set_rt_rt_service_space : Setter (rt_service_space) := λ f r,
  mkRestoralTargetInfo (rt_miner r) (f (rt_service_space r)) (rt_restored_space r) (rt_cooling_block r).
#[export] Instance set_rt_rt_restored_space : Setter (rt_restored_space) := λ f r,
  mkRestoralTargetInfo (rt_miner r) (rt_service_space r) (f (rt_restored_space r)) (rt_cooling_block r).
#[export] Instance set_rt_rt_cooling_block : Setter (rt_cooling_block) := λ f r,
  mkRestoralTargetInfo (rt_miner r) (rt_service_space r) (rt_restored_space r) (f (rt_cooling_block r)).

Record RestoralOrderInfo := mkRestoralOrderInfo {
  or_count : Z;
  or_miner : AccountId;
  or_origin_miner : AccountId;
  or_fragment_hash : Hash;
  or_file_hash : Hash;
  or_gen_block : BlockNumber;
  or_deadline : BlockNumber
}.
#[export] Instance set_or_or_count : Setter (or_count) := λ f r,
  mkRestoralOrderInfo (f (or_count r)) (or_miner r) (or_origin_miner r) (or_fragment_hash r) (or_file_hash r) (or_gen_block r) (or_deadline r).
#[export] Instance set_or_or_miner : Setter (or_miner) := λ f r,
  mkRestoralOrderInfo (or_count r) (f (or_miner r)) (or_origin_miner r) (or_fragment_hash r) (or_file_hash r) (or_gen_block r) (or_deadline r).
#[export] Instance set_or_or_origin_miner : Setter (or_origin_miner) := λ f r,
  mkRestoralOrderInfo (or_count r) (or_miner r) (f (or_origin_miner r)) (or_fragment_hash r) (or_file_hash r) (or_gen_block r) (or_deadline r).
#[export] Instance set_or_or_fragment_hash : Setter (or_fragment_hash) := λ f r,
  mkRestoralOrderInfo (or_count r) (or_miner r) (or_origin_miner r) (f (or_fragment_hash r)) (or_file_hash r) (or_gen_block r) (or_deadline r).
#[export] Instance set_or_or_file_hash : Setter (or_file_hash) := λ f r,
  mkRestoralOrderInfo (or_count r) (or_miner r) (or_origin_miner r) (or_fragment_hash r) (f (or_file_hash r)) (or_gen_block r) (or_deadline r).
#[export] Instance set_or_or_gen_block : Setter (or_gen_block) := λ f r,
  mkRestoralOrderInfo (or_count r) (or_miner r) (or_origin_miner r) (or_fragment_hash r) (or_file_hash r) (f (or_gen_block r)) (or_deadline r).
#[export] Instance set_or_or_deadline : Setter (or_deadline) := λ f r,
  mkRestoralOrderInfo (or_count r) (or_miner r) (or_origin_miner r) (or_fragment_hash r) (or_file_hash r) (or_gen_block r) (f (or_deadline r)).

Record State (X : Type) := mkState {
  DealMap : gmap Hash DealInfo;
  File : gmap Hash FileInfo;
  UserHoldFileList : gmap AccountId (list UserFileSliceInfo);
  FillerMap : gmap AccountId (gmap Hash FillerInfo);
  PendingReplacements : gmap AccountId Z;
  MinerLock : gmap AccountId BlockNumber;
  Bucket : gmap AccountId (gmap (list Z) BucketInfo);
  UserBucketList : gmap AccountId (list (list Z));
  RestoralTarget : gmap AccountId RestoralTargetInfo;
  RestoralOrder : gmap Hash RestoralOrderInfo;
  ClearUserList : list AccountId;
  ext : X;
  block_number : BlockNumber;
  events : list Event
}.
Arguments mkState {X} _ _ _ _ _ _ _ _ _ _ _ _ _ _.
Arguments DealMap {X} _.
Arguments File {X} _.
Arguments UserHoldFileList {X} _.
Arguments FillerMap {X} _.
Arguments PendingReplacements {X} _.
Arguments MinerLock {X} _.
Arguments Bucket {X} _.
Arguments UserBucketList {X} _.
Arguments RestoralTarget {X} _.
Arguments RestoralOrder {X} _.
Arguments ClearUserList {X} _.
Arguments ext {X} _.
Arguments block_number {X} _.
Arguments events {X} _.
#[export] Instance set_fb_DealMap {X : Type} : Setter (@DealMap X) := λ f r,
  mkState (f (DealMap r)) (File r) (UserHoldFileList r) (FillerMap r) (PendingReplacements r) (MinerLock r) (Bucket r) (UserBucketList r) (RestoralTarget r) (RestoralOrder r) (ClearUserList r) (ext r) (block_number r) (events r).
#[export] Instance set_fb_File {X : Type} : Setter (@File X) := λ f r,
  mkState (DealMap r) (f (File r)) (UserHoldFileList r) (FillerMap r) (PendingReplacements r) (MinerLock r) (Bucket r) (UserBucketList r) (RestoralTarget r) (RestoralOrder r) (ClearUserList r) (ext r) (block_number r) (events r).
#[export] Instance set_fb_UserHoldFileList {X : Type} : Setter (@UserHoldFileList X) := λ f r,
  mkState (DealMap r) (File r) (f (UserHoldFileList r)) (FillerMap r) (PendingReplacements r) (MinerLock r) (Bucket r) (UserBucketList r) (RestoralTarget r) (RestoralOrder r) (ClearUserList r) (ext r) (block_number r) (events r).
#[export] Instance set_fb_FillerMap {X : Type} : Setter (@FillerMap X) := λ f r,
  mkState (DealMap r) (File r) (UserHoldFileList r) (f (FillerMap r)) (PendingReplacements r) (MinerLock r) (Bucket r) (UserBucketList r) (RestoralTarget r) (RestoralOrder r) (ClearUserList r) (ext r) (block_number r) (events r).
#[export] Instance set_fb_PendingReplacements {X : Type} : Setter (@PendingReplacements X) := λ f r,
  mkState (DealMap r) (File r) (UserHoldFileList r) (FillerMap r) (f (PendingReplacements r)) (MinerLock r) (Bucket r) (UserBucketList r) (RestoralTarget r) (RestoralOrder r) (ClearUserList r) (ext r) (block_number r) (events r).
#[export] Instance set_fb_MinerLock {X : Type} : Setter (@MinerLock X) := λ f r,
  mkState (DealMap r) (File r) (UserHoldFileList r) (FillerMap r) (PendingReplacements r) (f (MinerLock r)) (Bucket r) (UserBucketList r) (RestoralTarget r) (RestoralOrder r) (ClearUserList r) (ext r) (block_number r) (events r).
#[export] Instance set_fb_Bucket {X : Type} : Setter (@Bucket X) := λ f r,
  mkState (DealMap r) (File r) (UserHoldFileList r) (FillerMap r) (PendingReplacements r) (MinerLock r) (f (Bucket r)) (UserBucketList r) (RestoralTarget r) (RestoralOrder r) (ClearUserList r) (ext r) (block_number r) (events r).
#[export] Instance set_fb_UserBucketList {X : Type} : Setter (@UserBucketList X) := λ f r,
  mkState (DealMap r) (File r) (UserHoldFileList r) (FillerMap r) (PendingReplacements r) (MinerLock r) (Bucket r) (f (UserBucketList r)) (RestoralTarget r) (RestoralOrder r) (ClearUserList r) (ext r) (block_number r) (events r).
#[export] Instance set_fb_RestoralTarget {X : Type} : Setter (@RestoralTarget X) := λ f r,
  mkState (DealMap r) (File r) (UserHoldFileList r) (FillerMap r) (PendingReplacements r) (MinerLock r) (Bucket r) (UserBucketList r) (f (RestoralTarget r)) (RestoralOrder r) (ClearUserList r) (ext r) (block_number r) (events r).
#[export] Instance set_fb_RestoralOrder {X : Type} : Setter (@RestoralOrder X) := λ f r,
  mkState (DealMap r) (File r) (UserHoldFileList r) (FillerMap r) (PendingReplacements r) (MinerLock r) (Bucket r) (UserBucketList r) (RestoralTarget r) (f (RestoralOrder r)) (ClearUserList r) (ext r) (block_number r) (events r).
#[export] Instance set_fb_ClearUserList {X : Type} : Setter (@ClearUserList X) := λ f r,
  mkState (DealMap r) (File r) (UserHoldFileList r) (FillerMap r) (PendingReplacements r) (MinerLock r) (Bucket r) (UserBucketList r) (RestoralTarget r) (RestoralOrder r) (f (ClearUserList r)) (ext r) (block_number r) (events r).
#[export] Instance set_fb_ext {X : Type} : Setter (@ext X) := λ f r,
  mkState (DealMap r) (File r) (UserHoldFileList r) (FillerMap r) (PendingReplacements r) (MinerLock r) (Bucket r) (UserBucketList r) (RestoralTarget r) (RestoralOrder r) (ClearUserList r) (f (ext r)) (block_number r) (events r).
#[export] Instance set_fb_block_number {X : Type} : Setter (@block_number X) := λ f r,
  mkState (DealMap r) (File r) (UserHoldFileList r) (FillerMap r) (PendingReplacements r) (MinerLock r) (Bucket r) (UserBucketList r) (RestoralTarget r) (RestoralOrder r) (ClearUserList r) (ext r) (f (block_number r)) (events r).
#[export] Instance set_fb_events {X : Type} : Setter (@events X) := λ f r,
  mkState (DealMap r) (File r) (UserHoldFileList r) (FillerMap r) (PendingReplacements r) (MinerLock r) (Bucket r) (UserBucketList r) (RestoralTarget r) (RestoralOrder r) (ClearUserList r) (ext r) (block_number r) (f (events r)).


(** ** Helpers without storage *)

(** The first element that satisfies [p], and the list with [f] applied to it. *)
Fixpoint update_first {A} (p : A → bool) (f : A → A) (l : list A) : option (A * list A) :=
  match l with
  | [] => None
  | x :: l =>
      if p x then Some (x, f x :: l)
      else '(y, l) ← update_first p f l; Some (y, x :: l)
  end.

(** The loops over all fragments of all segments that act on the first fragment
    satisfying a condition. *)
Fixpoint update_fragment (p : FragmentInfo → bool) (f : FragmentInfo → FragmentInfo)
    (segs : list SegmentInfo) : option (FragmentInfo * list SegmentInfo) :=
  match segs with
  | [] => None
  | seg :: segs =>
      match update_first p f seg.(si_fragment_list) with
      | Some (x, frags) => Some (x, seg <| si_fragment_list := frags |> :: segs)
      | None => '(y, segs) ← update_fragment p f segs; Some (y, seg :: segs)
      end
  end.

(** [b'.'], that is [BUCKET_ALLOW_CHAR[64]]. *)
Definition POINT : Z := default 0 (BUCKET_ALLOW_CHAR !! 64%nat).

(** The first loop of [check_bucket_name_spec]: [None] when it returns [false],
    otherwise the number of points. *)
Fixpoint name_loop (point_flag : bool) (count : Z) (name : list Z) : option Z :=
  match name with
  | [] => Some count
  | elem :: name =>
      if negb (bool_decide (elem ∈ BUCKET_ALLOW_CHAR)) then None else
      if elem =? POINT then
        if point_flag then None else name_loop true (count + 1) name
      else name_loop false count name
  end.

(** [name.split(|num| num == &b'.')]. *)
Fixpoint split_points (cur : list Z) (name : list Z) : list (list Z) :=
  match name with
  | [] => [rev cur]
  | elem :: name =>
      if elem =? POINT then rev cur :: split_points [] name else split_points (elem :: cur) name
  end.

Definition check_bucket_name_spec (name : list Z) : bool :=
  match name_loop false 0 name with
  | None => false
  | Some count =>
      if count =? 3 then
        existsb (λ arr, existsb (λ elem, negb (bool_decide (elem ∈ BUCKET_ALLOW_CHAR))) arr)
          (split_points [] name)
      else true
  end.

Definition cal_file_size (len : Z) : Z := len * (SEGMENT_SIZE * 15 / 10).

(** [binary_search] followed by [remove] on a sorted list.  The search may stop at
    any of several equal elements; [remove_one_sorted] shows that it does not
    matter which one is removed. *)
Fixpoint remove_one (x : Hash) (l : list Hash) : option (list Hash) :=
  match l with
  | [] => None
  | y :: l => if decide (x = y) then Some l else (cons y) <$> remove_one x l
  end.

Lemma remove_one_None x l : remove_one x l = None ↔ x ∉ l.
Proof.
  induction l as [|y l IH]; cbn; [set_solver|]. case_decide as Hxy.
  - subst. set_solver.
  - rewrite fmap_None, IH. set_solver.
Qed.

Lemma remove_one_perm x l l' : remove_one x l = Some l' → l ≡ₚ x :: l'.
Proof.
  revert l'. induction l as [|y l IH]; intros l'; cbn; [done|]. case_decide; [by intros [= <-]; subst|].
  intros (l'' & Hl'' & ->)%fmap_Some. rewrite (IH l'' Hl''). apply Permutation_swap.
Qed.

(** In a sorted list every occurrence of an element leaves the same list. *)
Lemma remove_one_sorted x l i :
  StronglySorted N.le l → l !! i = Some x → remove_one x l = Some (delete i l).
Proof.
  revert i. induction l as [|y l IH]; intros i Hs Hi; [done|]. apply StronglySorted_inv in Hs as [Hs Hy].
  cbn. case_decide as Hxy.
  - subst y. f_equal. revert i Hi. clear IH. intros [|i] Hi; [done|]. cbn in *.
    revert i Hi. induction l as [|z l IHl]; intros i Hi; [done|].
    apply StronglySorted_inv in Hs as [Hs Hz]. apply Forall_cons in Hy as [Hxz Hy].
    destruct i as [|i]; cbn in *; [by simplify_eq|].
    assert (z = x) as ->.
    { apply (N.le_antisymm z x); [|done]. rewrite Forall_forall in Hz. apply Hz.
      by eapply list_elem_of_lookup_2. }
    f_equal. by apply IHl.
  - destruct i as [|i]; cbn in *; [by simplify_eq|]. by rewrite (IH i).
Qed.

(** One fragment of [generate_file]: the first miner that has the fragment on its
    sorted list (and, if [flag], has no fragment of the segment yet) gives it up. *)
Fixpoint place_fragment (flag : bool) (frag_hash : Hash) (mark_miner : list AccountId)
    (miner_task_list : list MinerTaskList) : option (AccountId * list MinerTaskList) :=
  match miner_task_list with
  | [] => None
  | miner_task :: rest =>
      let skip := '(miner, rest) ← place_fragment flag frag_hash mark_miner rest;
                  Some (miner, miner_task :: rest) in
      if flag && bool_decide (miner_task.(mt_miner) ∈ mark_miner) then skip
      else match remove_one frag_hash miner_task.(mt_fragment_list) with
           | Some l => Some (miner_task.(mt_miner), miner_task <| mt_fragment_list := l |> :: rest)
           | None => skip
           end
  end.

(** The number of fragments per miner, a [BTreeMap]: iterated in the order of the
    accounts. *)
Definition count_fragments (segs : list SegmentInfo) : gmap AccountId Z :=
  foldl (λ m segment,
    foldl (λ m fragment,
      <[fragment.(fg_miner) := default 0 (m !! fragment.(fg_miner)) + 1]> m)
      m segment.(si_fragment_list)) ∅ segs.

Definition total_fragments (segs : list SegmentInfo) : Z :=
  sum_list_with_Z (λ segment, Z.of_nat (length segment.(si_fragment_list))) segs.
