(* ===== verification/FileBank.v ===== *)
(** * The file-bank pallet: operations

    The storage functions of [src/c-pallets/file-bank/src/functions.rs] and the
    dispatchables and the block hook of [lib.rs]. *)
From S2P Require Import Prelude Errors Frame Common Interfaces FileBankData.

Section operations.
Context {X : Type} `{!MinerControl X} `{!StorageHandle X} `{!ScheduleFind X} `{!OssFindAuthor X}
  `{!TaskScheduler X} `{!Randomness X} `{!Config} `{!StorageIter}.
Abbreviation MS := (M (State X)).

Definition deposit_event (e : Event) : MS unit :=
  modify (λ s, s <| events ::= λ l, l ++ [e] |>).

(** A call of another pallet. *)
Definition call {A} (m : M X A) : MS A := zoom ext m.

(** ** Double maps and value queries *)

Definition bucket_get (user : AccountId) (name : list Z) : MS (option BucketInfo) :=
  gets (λ s, default ∅ (Bucket s !! user) !! name).

Definition bucket_put (user : AccountId) (name : list Z) (b : BucketInfo) : MS unit :=
  modify (λ s, s <| Bucket ::= λ m, <[user := <[name := b]> (default ∅ (m !! user))]> m |>).

Definition bucket_contains (user : AccountId) (name : list Z) : MS bool :=
  o ← bucket_get user name; mret (bool_decide (is_Some o)).

Definition bucket_remove (user : AccountId) (name : list Z) : MS unit :=
  modify (λ s, s <| Bucket ::= λ m, <[user := delete name (default ∅ (m !! user))]> m |>).

Definition filler_contains (miner : AccountId) (h : Hash) : MS bool :=
  gets (λ s, bool_decide (is_Some (default ∅ (FillerMap s !! miner) !! h))).

Definition filler_put (miner : AccountId) (h : Hash) (f : FillerInfo) : MS unit :=
  modify (λ s, s <| FillerMap ::= λ m, <[miner := <[h := f]> (default ∅ (m !! miner))]> m |>).

Definition filler_remove (miner : AccountId) (h : Hash) : MS unit :=
  modify (λ s, s <| FillerMap ::= λ m, <[miner := delete h (default ∅ (m !! miner))]> m |>).

(** [UserHoldFileList::try_mutate], a value query. *)
Definition hold_list_update (acc : AccountId)
    (f : list UserFileSliceInfo → option (list UserFileSliceInfo)) (e : DispatchError) : MS unit :=
  l ← gets (λ s, default [] (UserHoldFileList s !! acc));
  l ← ok_or (f l) e;
  insert_at UserHoldFileList acc l.

(** ** Helpers *)

Definition check_file_spec (seg_list : list SegmentList) : bool :=
  forallb (λ segment, Z.of_nat (length segment.(sl_fragment_list)) =? FragmentCount) seg_list.

(** The fragments of one segment of [generate_file]. *)
Fixpoint place_fragments (flag : bool) (frags : list Hash) (mark_miner : list AccountId)
    (tasks : list MinerTaskList) (placed : list FragmentInfo)
  : MS (list FragmentInfo * list MinerTaskList) :=
  match frags with
  | [] => mret (placed, tasks)
  | frag_hash :: frags =>
      match place_fragment flag frag_hash mark_miner tasks with
      | Some (miner, tasks) =>
          placed ← ok_or (try_push FragmentCount placed (mkFragmentInfo frag_hash true miner))
                     FileBankError.BoundedVecError;
          place_fragments flag frags (mark_miner ++ [miner]) tasks placed
      | None => place_fragments flag frags mark_miner tasks placed
      end
  end.

Definition sort_tasks (tasks : list MinerTaskList) : list MinerTaskList :=
  (λ t, t <| mt_fragment_list ::= merge_sort N.le |>) <$> tasks.

(** One segment: shared segments are copied, the others are placed. *)
Definition generate_segment (share_info : list SegmentInfo) (segment : SegmentList)
    (tasks : list MinerTaskList) : MS (SegmentInfo * list MinerTaskList) :=
  match find (λ share, bool_decide (segment.(sl_hash) = share.(si_hash))) share_info with
  | Some share => mret (mkSegmentInfo segment.(sl_hash) share.(si_fragment_list), tasks)
  | None =>
      let tasks := sort_tasks tasks in
      let best_count := SEGMENT_SIZE * 15 / 10 / FRAGMENT_SIZE in
      let flag := best_count =? Z.of_nat (length tasks) in
      '(frags, tasks) ← place_fragments flag segment.(sl_fragment_list) [] tasks [];
      mret (mkSegmentInfo segment.(sl_hash) frags, tasks)
  end.

Fixpoint generate_segments (share_info : list SegmentInfo) (deal_info : list SegmentList)
    (tasks : list MinerTaskList) (segs : list SegmentInfo) : MS (list SegmentInfo) :=
  match deal_info with
  | [] => mret segs
  | segment :: deal_info =>
      '(seg, tasks) ← generate_segment share_info segment tasks;
      segs ← ok_or (try_push SegmentCount segs seg) FileBankError.BoundedVecError;
      generate_segments share_info deal_info tasks segs
  end.

Definition generate_file (file_hash : Hash) (deal_info : list SegmentList)
    (miner_task_list : list MinerTaskList) (share_info : list SegmentInfo) (user_brief : UserBrief)
    (stat : FileState) (file_size : Z) : MS unit :=
  segs ← generate_segments share_info deal_info miner_task_list [];
  cur_block ← gets block_number;
  owner ← ok_or (try_into_bounded OwnerLimit [user_brief]) FileBankError.BoundedVecError;
  insert_at File file_hash
    {| fi_segment_list := segs; fi_owner := owner; fi_file_size := file_size;
       fi_completion := cur_block; fi_stat := stat |}.

Definition create_bucket_helper (user : AccountId) (bucket_name : list Z) (file_hash : option Hash) : MS unit :=
  ensure (3 <=? Z.of_nat (length bucket_name)) FileBankError.LessMinLength ;;
  exists_ ← bucket_contains user bucket_name;
  ensure (negb exists_) FileBankError.Existed ;;
  ensure (check_bucket_name_spec bucket_name) FileBankError.SpecError ;;
  authority ← ok_or (try_into_bounded StringLimit [user]) FileBankError.BoundedVecError;
  object_list ← match file_hash with
                | Some hash => ok_or (try_push FileListLimit [] hash) FileBankError.BoundedVecError
                | None => mret []
                end;
  bucket_put user bucket_name {| bk_object_list := object_list; bk_authority := authority |} ;;
  bucket_list ← gets (λ s, default [] (UserBucketList s !! user));
  bucket_list ← ok_or (try_push BucketLimit bucket_list bucket_name) FileBankError.LengthExceedsLimit;
  insert_at UserBucketList user bucket_list.

Definition add_file_to_bucket (user : AccountId) (bucket_name : list Z) (file_hash : Hash) : MS unit :=
  o ← bucket_get user bucket_name;
  bucket ← ok_or o FileBankError.NonExistent;
  l ← ok_or (try_push FileListLimit bucket.(bk_object_list) file_hash) FileBankError.BoundedVecError;
  bucket_put user bucket_name (bucket <| bk_object_list := l |>).

Definition start_first_task (deal_hash : Hash) (count life : Z) : MS unit :=
  now ← gets block_number;
  let start := saturated_into 32 now in
  b ← ok_or (checked_add 32 start (wrapping_mul 32 50 count)) FileBankError.Overflow;
  survival_block ← ok_or (checked_add 32 b life) FileBankError.Overflow;
  r ← catch (call (schedule_named (TaskOfHash deal_hash) survival_block
                     (DealReassignMiner deal_hash count life)));
  ensure (match r with Ok _ => true | _ => false end) FileBankError.Unexpected.

Definition start_second_task (deal_hash : Hash) (life : Z) : MS unit :=
  now ← gets block_number;
  let start := saturated_into 32 now in
  survival_block ← ok_or (checked_add 32 start life) FileBankError.Overflow;
  r ← catch (call (schedule_named (TaskOfHash deal_hash) survival_block (CalculateEnd deal_hash)));
  ensure (match r with Ok _ => true | _ => false end) FileBankError.Unexpected.

(** [generate_random_number]: the counter of the loop is a [u32]. *)
Definition random_round (seed counter : Z) : MS (Z + Z) :=
  random_number ← call (random (wrapping_add 32 seed counter));
  if negb (random_number =? 0) then mret (inr random_number)
  else c ← ok_or (checked_add 32 counter 1) FileBankError.Overflow; mret (inl c).

Definition generate_random_number (seed : Z) : MS Z :=
  r ← loop_pos (2 ^ 32) (random_round seed) 0;
  match r with inr n => mret n | inl _ => panic end.

(** ** Choosing miners for a deal *)

Definition MINER_COUNT : Z := SEGMENT_SIZE * 15 / 10 / FRAGMENT_SIZE.

(** The variables of the first loop of [random_assign_miner]; a chosen miner is
    kept with its idle space. *)
Record Choice := mkChoice {
  ch_seed : Z;
  ch_all_miner : list AccountId;
  ch_cur_count : Z;
  ch_total_idle_space : Z;
  ch_chosen : list (AccountId * Z)
}.

(** One round; [inr] leaves the loop. *)
Definition choose_round (needed : Z) (c : Choice) : MS (Choice + Choice) :=
  let total := Z.of_nat (length c.(ch_all_miner)) in
  if total =? 0 then mret (inr c) else
  n ← generate_random_number c.(ch_seed);
  let index := n mod total in
  seed ← ok_or (checked_add 32 c.(ch_seed) 1) FileBankError.Overflow;
  if c.(ch_cur_count) =? MINER_COUNT * 5 then mret (inr c) else
  let cur_count := c.(ch_cur_count) + 1 in
  miner ← unwrap (c.(ch_all_miner) !! Z.to_nat index);
  let all_miner := delete (Z.to_nat index) c.(ch_all_miner) in
  positive ← call (is_positive miner);
  if negb positive then
    mret (inl (mkChoice seed all_miner cur_count c.(ch_total_idle_space) c.(ch_chosen)))
  else
    cur_space ← call (get_miner_idle_space miner);
    '(total_idle_space, chosen) ←
      (if needed * FRAGMENT_SIZE <? cur_space then
         t ← ok_or (checked_add 128 c.(ch_total_idle_space) cur_space) FileBankError.Overflow;
         l ← ok_or (try_push StringLimit c.(ch_chosen) (miner, cur_space)) FileBankError.BoundedVecError;
         mret (t, l)
       else mret (c.(ch_total_idle_space), c.(ch_chosen)));
    let c := mkChoice seed all_miner cur_count total_idle_space chosen in
    if Z.of_nat (length chosen) =? MINER_COUNT then mret (inr c) else mret (inl c).

(** The inner loop of the assignment: from [index] on, the first miner with room
    for one more fragment gets [hash]; the index is a [usize]. *)
Definition assign_round (idle : list Z) (hash : Hash)
    (st : Z * list MinerTaskList) : MS ((Z * list MinerTaskList) + (Z * list MinerTaskList)) :=
  let '(index, tasks) := st in
  let temp_index := Z.to_nat (index mod Z.of_nat (length tasks)) in
  cur_space ← unwrap (idle !! temp_index);
  task ← unwrap (tasks !! temp_index);
  if (Z.of_nat (length task.(mt_fragment_list)) + 1) * FRAGMENT_SIZE <? cur_space then
    l ← ok_or (try_push MissionCount task.(mt_fragment_list) hash) FileBankError.BoundedVecError;
    mret (inr (index, <[temp_index := task <| mt_fragment_list := l |>]> tasks))
  else
    i ← ok_or (checked_add usize index 1) FileBankError.PanicOverflow;
    mret (inl (i, tasks)).

Definition assign_fragment (idle : list Z) (st : Z * list MinerTaskList) (hash : Hash)
  : MS (Z * list MinerTaskList) :=
  r ← loop_pos (2 ^ 32) (assign_round idle hash) st;
  match r with
  | inr (index, tasks) =>
      i ← ok_or (checked_add usize index 1) FileBankError.PanicOverflow;
      mret (i, tasks)
  | inl _ => panic
  end.

Definition assign_segment (idle : list Z) (tasks : list MinerTaskList) (segment : SegmentList)
  : MS (list MinerTaskList) :=
  '(_, tasks) ← fold_m (assign_fragment idle) (0, tasks) segment.(sl_fragment_list);
  mret tasks.

Definition random_assign_miner (needed_list : list SegmentList) : MS (list MinerTaskList) :=
  now ← gets block_number;
  let seed := saturated_into 32 now in
  all_miner ← call get_all_miner;
  r ← loop_pos 16 (choose_round (Z.of_nat (length needed_list))) (mkChoice seed all_miner 0 0 []);
  c ← match r with inr c => mret c | inl _ => panic end;
  ensure (negb (Z.of_nat (length c.(ch_chosen)) =? 0)) FileBankError.BugInvalid ;;
  ensure (SEGMENT_SIZE * 15 / 10 <? c.(ch_total_idle_space)) FileBankError.NodesInsufficient ;;
  let tasks := (λ p, mkMinerTaskList p.1 []) <$> c.(ch_chosen) in
  tasks ← fold_m (assign_segment c.(ch_chosen).*2) tasks needed_list;
  for_each tasks (λ miner_task,
    call (lock_space miner_task.(mt_miner)
            (Z.of_nat (length miner_task.(mt_fragment_list)) * FRAGMENT_SIZE))) ;;
  mret tasks.

Definition generate_deal (file_hash : Hash) (file_info : list SegmentList) (user_brief : UserBrief)
    (file_size : Z) : MS unit :=
  miner_task_list ← random_assign_miner file_info;
  let space := cal_file_size (Z.of_nat (length file_info)) in
  let life := space / TRANSFER_RATE + 1 in
  start_first_task file_hash 1 (cast 32 life) ;;
  insert_at DealMap file_hash
    {| di_stage := 1; di_count := 0; di_file_size := file_size; di_segment_list := file_info;
       di_needed_list := file_info; di_user := user_brief; di_assigned_miner := miner_task_list;
       di_share_info := []; di_complete_list := [] |}.

(** ** Removing files *)

Definition update_restoral_target (miner : AccountId) (service_space : Z) : MS unit :=
  try_mutate_existing RestoralTarget miner FileBankError.NonExistent (λ info,
    r ← ok_or (checked_add 128 info.(rt_restored_space) service_space) FileBankError.Overflow;
    mret (info <| rt_restored_space := r |>)).

(** The first owner entry of [acc] goes; its space is released when
    [user_clear]. *)
Definition remove_file_owner (file_hash : Hash) (acc : AccountId) (user_clear : bool) : MS unit :=
  try_mutate_existing File file_hash FileBankError.Overflow (λ file,
    match list_find (λ user_brief, acc = user_brief.(ub_user)) file.(fi_owner) with
    | Some (index, _) =>
        let file_size := cal_file_size (Z.of_nat (length file.(fi_segment_list))) in
        (if user_clear then call (update_user_space acc 2 file_size) else mret ()) ;;
        mret (file <| fi_owner ::= delete index |>)
    | None => mret file
    end).

Definition remove_file_last_owner (file_hash : Hash) (acc : AccountId) (user_clear : bool) : MS unit :=
  file ← try_get File file_hash FileBankError.NonExistent;
  let total_fragment_dec := total_fragments file.(fi_segment_list) in
  let miner_list := count_fragments file.(fi_segment_list) in
  for_each (btree_iter miner_list) (λ '(miner, count),
    target ← contains_key RestoralTarget miner;
    if target : bool then update_restoral_target miner (FRAGMENT_SIZE * count)
    else call (sub_miner_service_space miner (FRAGMENT_SIZE * count))) ;;
  (if user_clear then call (update_user_space acc 2 (total_fragment_dec * FRAGMENT_SIZE)) else mret ()) ;;
  call (sub_total_service_space (total_fragment_dec * FRAGMENT_SIZE)) ;;
  remove_at File file_hash.

(** The loop runs over the owners of the [file] read before. *)
Definition delete_user_file (file_hash : Hash) (acc : AccountId) (file : FileInfo) : MS unit :=
  ensure (bool_decide (file.(fi_stat) ≠ Calculate)) FileBankError.Calculate ;;
  for_each file.(fi_owner) (λ user_brief,
    if bool_decide (user_brief.(ub_user) = acc) then
      if 1 <? Z.of_nat (length file.(fi_owner))
      then remove_file_owner file_hash acc true
      else remove_file_last_owner file_hash acc true
    else mret ()).

Definition bucket_remove_file (file_hash : Hash) (acc : AccountId) (file : FileInfo) : MS unit :=
  for_each file.(fi_owner) (λ user_brief,
    if bool_decide (user_brief.(ub_user) = acc) then
      o ← bucket_get acc user_brief.(ub_bucket_name);
      bucket ← ok_or o FileBankError.NonExistent;
      bucket_put acc user_brief.(ub_bucket_name)
        (bucket <| bk_object_list ::= filter (λ f, f ≠ file_hash) |>)
    else mret ()).

Definition remove_user_hold_file_list (file_hash : Hash) (acc : AccountId) : MS unit :=
  hold_list_update acc (λ l, Some (filter (λ f, us_file_hash f ≠ file_hash) l)) FileBankError.BugInvalid.

Definition add_user_hold_fileslice (user : AccountId) (file_hash : Hash) (file_size : Z) : MS unit :=
  hold_list_update user (λ l, try_push StringLimit l (mkUserFileSliceInfo file_hash file_size))
    FileBankError.StorageLimitReached.

Definition check_is_file_owner (acc : AccountId) (file_hash : Hash) : MS bool :=
  o ← gets (λ s, File s !! file_hash);
  match o with
  | Some file => mret (existsb (λ user_brief, bool_decide (user_brief.(ub_user) = acc)) file.(fi_owner))
  | None => mret false
  end.

Definition check_permission (operator owner : AccountId) : MS bool :=
  if bool_decide (owner = operator) then mret true else call (is_authorized owner operator).

(** [clear_prefix] is repeated until nothing is left. *)
Definition clear_filler (miner : AccountId) : MS unit := remove_at FillerMap miner.

Definition create_restoral_target (miner : AccountId) (service_space : Z) : MS unit :=
  b ← ok_or (checked_div service_space T_BYTE) FileBankError.Overflow;
  b ← ok_or (checked_add 128 b 1) FileBankError.Overflow;
  b ← ok_or (checked_mul 128 b OneDay) FileBankError.Overflow;
  let block := cast 32 b in
  now ← gets block_number;
  block ← ok_or (checked_add 32 now block) FileBankError.Overflow;
  insert_at RestoralTarget miner
    {| rt_miner := miner; rt_service_space := service_space; rt_restored_space := 0;
       rt_cooling_block := block |}.

Definition force_miner_exit (miner : AccountId) : MS unit :=
  clear_filler miner ;;
  '(idle_space, service_space) ← call (get_power miner);
  call (sub_total_idle_space idle_space) ;;
  call (Interfaces.force_miner_exit miner) ;;
  create_restoral_target miner service_space.

Definition delete_miner_all_filler (miner_acc : AccountId) : MS unit := remove_at FillerMap miner_acc.

(** ** Dispatchables *)

Definition upload_declaration (origin : Origin) (file_hash : Hash) (deal_info : list SegmentList)
    (user_brief : UserBrief) (file_size : Z) : MS unit := transactional (
  sender ← ensure_signed origin;
  permission ← check_permission sender user_brief.(ub_user);
  ensure permission FileBankError.NoPermission ;;
  ensure (check_file_spec deal_info) FileBankError.SpecError ;;
  let minimum := NameMinLength in
  ensure (minimum <=? Z.of_nat (length user_brief.(ub_file_name))) FileBankError.SpecError ;;
  ensure (minimum <=? Z.of_nat (length user_brief.(ub_bucket_name))) FileBankError.SpecError ;;
  let needed_space := Z.of_nat (length deal_info) * (SEGMENT_SIZE * 15 / 10) in
  avail ← call (get_user_avail_space user_brief.(ub_user));
  ensure (needed_space <? avail) FileBankError.InsufficientAvailableSpace ;;
  exists_ ← contains_key File file_hash;
  (if exists_ : bool then
     call (update_user_space user_brief.(ub_user) 1 needed_space) ;;
     has_bucket ← bucket_contains user_brief.(ub_user) user_brief.(ub_bucket_name);
     (if has_bucket : bool
      then add_file_to_bucket user_brief.(ub_user) user_brief.(ub_bucket_name) file_hash
      else create_bucket_helper user_brief.(ub_user) user_brief.(ub_bucket_name) (Some file_hash)) ;;
     add_user_hold_fileslice user_brief.(ub_user) file_hash needed_space ;;
     try_mutate_existing File file_hash FileBankError.FileNonExistent (λ file,
       owner ← ok_or (try_push OwnerLimit file.(fi_owner) user_brief) FileBankError.BoundedVecError;
       mret (file <| fi_owner := owner |>))
   else
     call (lock_user_space user_brief.(ub_user) needed_space) ;;
     generate_deal file_hash deal_info user_brief file_size) ;;
  deposit_event (UploadDeclaration sender user_brief.(ub_user) file_hash)).

(** The space locked at the miners of a deal is released. *)
Definition unlock_tasks (tasks : list MinerTaskList) : MS unit :=
  for_each tasks (λ miner_task,
    call (unlock_space miner_task.(mt_miner)
            (FRAGMENT_SIZE * Z.of_nat (length miner_task.(mt_fragment_list))))).

Definition deal_reassign_miner (origin : Origin) (deal_hash : Hash) (count life : Z) : MS unit := transactional (
  ensure_root origin ;;
  if count <? 5 then
    try_mutate_existing DealMap deal_hash FileBankError.NonExistent (λ deal_info,
      unlock_tasks deal_info.(di_assigned_miner) ;;
      miner_task_list ← random_assign_miner deal_info.(di_needed_list);
      let deal_info := deal_info <| di_assigned_miner := miner_task_list |>
                                 <| di_complete_list := [] |> <| di_count := count |> in
      start_first_task deal_hash (wrapping_add 8 count 1) life ;;
      mret deal_info)
  else
    deal_info ← try_get DealMap deal_hash FileBankError.NonExistent;
    let needed_space := cal_file_size (Z.of_nat (length deal_info.(di_segment_list))) in
    call (unlock_user_space deal_info.(di_user).(ub_user) needed_space) ;;
    unlock_tasks deal_info.(di_assigned_miner) ;;
    remove_at DealMap deal_hash).

Definition ownership_transfer (origin : Origin) (target_brief : UserBrief) (file_hash : Hash) : MS unit := transactional (
  sender ← ensure_signed origin;
  file ← try_get File file_hash FileBankError.FileNonExistent;
  is_owner ← check_is_file_owner sender file_hash;
  ensure is_owner FileBankError.NotOwner ;;
  target_owner ← check_is_file_owner target_brief.(ub_user) file_hash;
  ensure (negb target_owner) FileBankError.IsOwned ;;
  ensure (bool_decide (file.(fi_stat) = Active)) FileBankError.Unprepared ;;
  has_bucket ← bucket_contains target_brief.(ub_user) target_brief.(ub_bucket_name);
  ensure has_bucket FileBankError.NonExistent ;;
  let file_size := cal_file_size (Z.of_nat (length file.(fi_segment_list))) in
  call (update_user_space target_brief.(ub_user) 1 file_size) ;;
  try_mutate_existing File file_hash FileBankError.FileNonExistent (λ file,
    owner ← ok_or (try_push OwnerLimit file.(fi_owner) target_brief) FileBankError.BoundedVecError;
    mret (file <| fi_owner := owner |>)) ;;
  o ← bucket_get target_brief.(ub_user) target_brief.(ub_bucket_name);
  bucket_info ← ok_or o FileBankError.NonExistent;
  object_list ← ok_or (try_push FileListLimit bucket_info.(bk_object_list) file_hash)
                  FileBankError.LengthExceedsLimit;
  bucket_put target_brief.(ub_user) target_brief.(ub_bucket_name)
    (bucket_info <| bk_object_list := object_list |>) ;;
  add_user_hold_fileslice target_brief.(ub_user) file_hash file_size ;;
  file ← try_get File file_hash FileBankError.NonExistent;
  delete_user_file file_hash sender file ;;
  bucket_remove_file file_hash sender file ;;
  remove_user_hold_file_list file_hash sender).

(** The last report of a deal: the file is entered, the space of the user becomes
    used space, and the end of the calculation is scheduled. *)
Definition finish_deal (hash : Hash) (deal_info : DealInfo) : MS unit :=
  generate_file hash deal_info.(di_segment_list) deal_info.(di_assigned_miner)
    deal_info.(di_share_info) deal_info.(di_user) Calculate deal_info.(di_file_size) ;;
  max_task_count ← fold_m (λ max_task_count miner_task,
      let count := Z.of_nat (length miner_task.(mt_fragment_list)) in
      let max_task_count := if max_task_count <? count then count else max_task_count in
      pending_count ← gets (λ s, default 0 (PendingReplacements s !! miner_task.(mt_miner)));
      pending_count ← ok_or (checked_add 32 pending_count count) FileBankError.Overflow;
      insert_at PendingReplacements miner_task.(mt_miner) pending_count ;;
      mret max_task_count) 0 deal_info.(di_assigned_miner);
  let needed_space := cal_file_size (Z.of_nat (length deal_info.(di_segment_list))) in
  call (unlock_and_used_user_space deal_info.(di_user).(ub_user) needed_space) ;;
  call (sub_total_idle_space needed_space) ;;
  call (add_total_service_space needed_space) ;;
  catch (call (cancel_named (TaskOfHash hash))) ;;
  let max_needed_cal_space := max_task_count * FRAGMENT_SIZE in
  let life := cast 32 (max_needed_cal_space / TRANSFER_RATE + 1) in
  let life := wrapping_add 32 life (cast 32 (max_needed_cal_space / CALCULATE_RATE + 1)) in
  start_second_task hash life ;;
  has_bucket ← bucket_contains deal_info.(di_user).(ub_user) deal_info.(di_user).(ub_bucket_name);
  (if has_bucket : bool
   then add_file_to_bucket deal_info.(di_user).(ub_user) deal_info.(di_user).(ub_bucket_name) hash
   else create_bucket_helper deal_info.(di_user).(ub_user) deal_info.(di_user).(ub_bucket_name) (Some hash)) ;;
  add_user_hold_fileslice deal_info.(di_user).(ub_user) hash needed_space ;;
  deposit_event (StorageCompleted hash).

(** One deal of a report; the result is the list of failed deals. *)
Definition report_deal (sender : AccountId) (failed_list : list Hash) (hash : Hash) : MS (list Hash) :=
  exists_ ← contains_key DealMap hash;
  if negb exists_ then mret (failed_list ++ [hash]) else
  try_mutate DealMap hash (λ deal_info_opt,
    deal_info ← unwrap deal_info_opt;
    let task_miner_list := mt_miner <$> deal_info.(di_assigned_miner) in
    if bool_decide (sender ∈ task_miner_list) then
      deal_info ←
        (if negb (bool_decide (sender ∈ deal_info.(di_complete_list))) then
           l ← ok_or (try_push FragmentCount deal_info.(di_complete_list) sender) FileBankError.BoundedVecError;
           mret (deal_info <| di_complete_list := l |>)
         else mret deal_info);
      if (length deal_info.(di_complete_list) =? length deal_info.(di_assigned_miner))%nat then
        let deal_info := deal_info <| di_stage := 2 |> in
        finish_deal hash deal_info ;;
        mret (Some deal_info, failed_list)
      else mret (Some deal_info, failed_list)
    else mret (Some deal_info, failed_list ++ [hash])).

Definition transfer_report (origin : Origin) (deal_hash : list Hash) : MS unit := transactional (
  sender ← ensure_signed origin;
  ensure (Z.of_nat (length deal_hash) <? 5) FileBankError.LengthExceedsLimit ;;
  failed_list ← fold_m (report_deal sender) [] deal_hash;
  deposit_event (TransferReport sender failed_list)).

Definition calculate_end (origin : Origin) (deal_hash : Hash) : MS unit := transactional (
  ensure_root origin ;;
  deal_info ← try_get DealMap deal_hash FileBankError.NonExistent;
  for_each deal_info.(di_assigned_miner) (λ miner_task,
    call (unlock_space_to_service miner_task.(mt_miner)
            (FRAGMENT_SIZE * Z.of_nat (length miner_task.(mt_fragment_list))))) ;;
  try_mutate_existing File deal_hash FileBankError.BugInvalid (λ file,
    mret (file <| fi_stat := Active |>)) ;;
  remove_at DealMap deal_hash ;;
  deposit_event (CalculateEnd_ deal_hash)).

Definition replace_file_report (origin : Origin) (filler : list Hash) : MS unit := transactional (
  sender ← ensure_signed origin;
  ensure (Z.of_nat (length filler) <=? 30) FileBankError.LengthExceedsLimit ;;
  pending_count ← gets (λ s, default 0 (PendingReplacements s !! sender));
  ensure (Z.of_nat (length filler) <=? pending_count) FileBankError.LengthExceedsLimit ;;
  count ← fold_m (λ count filler_hash,
      exists_ ← filler_contains sender filler_hash;
      if exists_ : bool then filler_remove sender filler_hash ;; mret (count + 1)
      else mret count) 0 filler;
  pending_count ← gets (λ s, default 0 (PendingReplacements s !! sender));
  pending_count ← ok_or (checked_sub pending_count count) FileBankError.Overflow;
  insert_at PendingReplacements sender pending_count ;;
  deposit_event (ReplaceFiller sender filler)).

Definition delete_file (origin : Origin) (owner : AccountId) (file_hash_list : list Hash) : MS unit := transactional (
  sender ← ensure_signed origin;
  permission ← check_permission sender owner;
  ensure permission FileBankError.NoPermission ;;
  ensure (Z.of_nat (length file_hash_list) <? 10) FileBankError.LengthExceedsLimit ;;
  for_each file_hash_list (λ file_hash,
    file ← try_get File file_hash FileBankError.NonExistent;
    delete_user_file file_hash owner file ;;
    bucket_remove_file file_hash owner file ;;
    remove_user_hold_file_list file_hash owner) ;;
  deposit_event (DeleteFile sender owner file_hash_list)).

Definition upload_filler (origin : Origin) (tee_worker : AccountId) (filler_list : list FillerInfo) : MS unit := transactional (
  sender ← ensure_signed origin;
  let limit := UploadFillerLimit in
  ensure (negb (limit <? Z.of_nat (length filler_list))) FileBankError.LengthExceedsLimit ;;
  known ← call (contains_scheduler tee_worker);
  ensure known FileBankError.ScheduleNonExistent ;;
  positive ← call (is_positive sender);
  ensure positive FileBankError.NotQualified ;;
  for_each filler_list (λ i,
    exists_ ← filler_contains sender i.(fl_filler_hash);
    ensure (negb exists_) FileBankError.FileExistent ;;
    filler_put sender i.(fl_filler_hash) i) ;;
  size ← ok_or (checked_mul 128 M_BYTE 8) FileBankError.Overflow;
  idle_space ← ok_or (checked_mul 128 size (Z.of_nat (length filler_list))) FileBankError.Overflow;
  call (add_miner_idle_space sender idle_space) ;;
  call (add_total_idle_space idle_space) ;;
  deposit_event (FillerUpload sender (cast 64 idle_space))).

Definition delete_filler (origin : Origin) (filler_hash : Hash) : MS unit := transactional (
  sender ← ensure_signed origin;
  positive ← call (is_positive sender);
  ensure positive FileBankError.NotQualified ;;
  exists_ ← filler_contains sender filler_hash;
  ensure exists_ FileBankError.NonExistent ;;
  idle_space ← ok_or (checked_mul 128 M_BYTE 8) FileBankError.Overflow;
  call (sub_miner_idle_space sender idle_space) ;;
  call (sub_total_idle_space idle_space) ;;
  filler_remove sender filler_hash ;;
  deposit_event (FillerDelete sender filler_hash)).

Definition create_bucket (origin : Origin) (owner : AccountId) (name : list Z) : MS unit := transactional (
  sender ← ensure_signed origin;
  permission ← check_permission sender owner;
  ensure permission FileBankError.NoPermission ;;
  create_bucket_helper owner name None ;;
  deposit_event (CreateBucket sender owner name)).

(** [bucket_list.remove(index)] panics when the name is not on the list. *)
Definition delete_bucket (origin : Origin) (owner : AccountId) (name : list Z) : MS unit := transactional (
  sender ← ensure_signed origin;
  permission ← check_permission sender owner;
  ensure permission FileBankError.NoPermission ;;
  exists_ ← bucket_contains owner name;
  ensure exists_ FileBankError.NonExistent ;;
  o ← bucket_get owner name;
  bucket ← ok_or o FileBankError.Unexpected;
  for_each bucket.(bk_object_list) (λ file_hash,
    file ← try_get File file_hash FileBankError.Unexpected;
    (if 1 <? Z.of_nat (length file.(fi_owner))
     then remove_file_owner file_hash owner true
     else remove_file_last_owner file_hash owner true) ;;
    remove_user_hold_file_list file_hash owner) ;;
  bucket_remove owner name ;;
  bucket_list ← gets (λ s, default [] (UserBucketList s !! owner));
  '(index, _) ← unwrap (list_find (λ name_tmp, name_tmp = name) bucket_list);
  insert_at UserBucketList owner (delete index bucket_list) ;;
  deposit_event (DeleteBucket sender owner name)).

Definition generate_restoral_order (origin : Origin) (file_hash restoral_fragment : Hash) : MS unit := transactional (
  sender ← ensure_signed origin;
  exists_ ← contains_key RestoralOrder restoral_fragment;
  ensure (negb exists_) FileBankError.Existed ;;
  try_mutate_existing File file_hash FileBankError.NonExistent (λ file,
    now ← gets block_number;
    match update_fragment (λ fragment, bool_decide (fragment.(fg_hash) = restoral_fragment) &&
                                       bool_decide (fragment.(fg_miner) = sender))
            (λ fragment, fragment <| fg_avail := false |>) file.(fi_segment_list) with
    | Some (_, segs) =>
        insert_at RestoralOrder restoral_fragment
          {| or_count := 0; or_miner := sender; or_origin_miner := sender;
             or_fragment_hash := restoral_fragment; or_file_hash := file_hash;
             or_gen_block := now; or_deadline := 0 |} ;;
        deposit_event (GenerateRestoralOrder sender restoral_fragment) ;;
        mret (file <| fi_segment_list := segs |>)
    | None => throw FileBankError.SpecError
    end)).

Definition claim_restoral_order (origin : Origin) (restoral_fragment : Hash) : MS unit := transactional (
  sender ← ensure_signed origin;
  positive ← call (is_positive sender);
  ensure positive FileBankError.MinerStateError ;;
  now ← gets block_number;
  try_mutate_existing RestoralOrder restoral_fragment FileBankError.NonExistent (λ order,
    ensure (order.(or_deadline) <? now) FileBankError.SpecError ;;
    let life := RestoralOrderLife in
    c ← ok_or (checked_add 32 order.(or_count) 1) FileBankError.Overflow;
    let order := order <| or_count := c |> in
    d ← ok_or (checked_add 32 now (saturated_into 32 life)) FileBankError.Overflow;
    mret (order <| or_deadline := d |> <| or_miner := sender |>)) ;;
  deposit_event (ClaimRestoralOrder sender restoral_fragment)).

Definition claim_restoral_noexist_order (origin : Origin) (miner : AccountId)
    (file_hash restoral_fragment : Hash) : MS unit := transactional (
  sender ← ensure_signed origin;
  positive ← call (is_positive sender);
  ensure positive FileBankError.MinerStateError ;;
  exists_ ← contains_key RestoralOrder restoral_fragment;
  ensure (negb exists_) FileBankError.Existed ;;
  target ← contains_key RestoralTarget miner;
  ensure target FileBankError.NonExistent ;;
  try_mutate_existing File file_hash FileBankError.NonExistent (λ file,
    match update_fragment (λ fragment, bool_decide (fragment.(fg_hash) = restoral_fragment) &&
                                       bool_decide (fragment.(fg_miner) = miner))
            (λ fragment, fragment <| fg_avail := false |>) file.(fi_segment_list) with
    | Some (fragment, segs) =>
        now ← gets block_number;
        let life := RestoralOrderLife in
        deadline ← ok_or (checked_add 32 now (saturated_into 32 life)) FileBankError.Overflow;
        insert_at RestoralOrder restoral_fragment
          {| or_count := 0; or_miner := sender; or_origin_miner := fragment.(fg_miner);
             or_fragment_hash := restoral_fragment; or_file_hash := file_hash;
             or_gen_block := now; or_deadline := deadline |} ;;
        mret (file <| fi_segment_list := segs |>)
    | None => throw FileBankError.SpecError
    end) ;;
  deposit_event (ClaimRestoralOrder sender restoral_fragment)).

Definition restoral_order_complete (origin : Origin) (fragment_hash : Hash) : MS unit := transactional (
  sender ← ensure_signed origin;
  positive ← call (is_positive sender);
  ensure positive FileBankError.MinerStateError ;;
  order ← try_get RestoralOrder fragment_hash FileBankError.NonExistent;
  ensure (bool_decide (order.(or_miner) = sender)) FileBankError.SpecError ;;
  now ← gets block_number;
  ensure (now <? order.(or_deadline)) FileBankError.Expired ;;
  exists_ ← contains_key File order.(or_file_hash);
  if negb exists_ then remove_at RestoralOrder fragment_hash
  else
    try_mutate_existing File order.(or_file_hash) FileBankError.BugInvalid (λ file,
      match update_fragment (λ fragment, bool_decide (fragment.(fg_hash) = fragment_hash) &&
                                         bool_decide (fragment.(fg_miner) = order.(or_origin_miner)))
              (λ fragment, fragment <| fg_avail := true |> <| fg_miner := sender |>)
              file.(fi_segment_list) with
      | Some (fragment, segs) =>
          call (sub_miner_service_space fragment.(fg_miner) FRAGMENT_SIZE) ;;
          call (add_miner_service_space sender FRAGMENT_SIZE) ;;
          target ← contains_key RestoralTarget fragment.(fg_miner);
          (if target : bool then update_restoral_target fragment.(fg_miner) FRAGMENT_SIZE else mret ()) ;;
          mret (file <| fi_segment_list := segs |>)
      | None => mret file
      end) ;;
    remove_at RestoralOrder fragment_hash ;;
    deposit_event (RecoveryCompleted sender fragment_hash)).

Definition miner_exit_prep (origin : Origin) : MS unit := transactional (
  sender ← ensure_signed origin;
  lock ← gets (λ s, MinerLock s !! sender);
  now ← gets block_number;
  (match lock with
   | Some lock_time => ensure (lock_time <? now) FileBankError.MinerStateError
   | None => mret ()
   end) ;;
  result ← call (is_positive sender);
  ensure result FileBankError.MinerStateError ;;
  call (update_miner_state sender "lock") ;;
  lock_time ← ok_or (checked_add 32 OneDay now) FileBankError.Overflow;
  insert_at MinerLock sender lock_time ;;
  r ← catch (call (schedule_named (TaskOfAccount sender) lock_time (MinerExit sender)));
  ensure (match r with Ok _ => true | _ => false end) FileBankError.Unexpected ;;
  deposit_event (MinerExitPrep sender)).

Definition miner_exit (origin : Origin) (miner : AccountId) : MS unit := transactional (
  ensure_root origin ;;
  result ← call (is_lock miner);
  ensure result FileBankError.MinerStateError ;;
  clear_filler miner ;;
  '(idle_space, service_space) ← call (get_power miner);
  call (sub_total_idle_space idle_space) ;;
  call (execute_exit miner) ;;
  create_restoral_target miner service_space).

Definition miner_withdraw (origin : Origin) : MS unit := transactional (
  sender ← ensure_signed origin;
  restoral_info ← try_get RestoralTarget sender FileBankError.MinerStateError;
  now ← gets block_number;
  ensure (negb ((now <? restoral_info.(rt_cooling_block)) &&
                negb (restoral_info.(rt_restored_space) =? restoral_info.(rt_service_space))))
    FileBankError.MinerStateError ;;
  call (withdraw sender) ;;
  deposit_event (Withdraw sender)).

(** ** The block hook

    A user whose lease has run out loses the files it holds, at most 299 files per
    block; [count] counts the files taken off the lists in this block. *)

Definition clear_file_of (acc : AccountId) (file_hash : Hash) : MS unit :=
  o ← gets (λ s, File s !! file_hash);
  match o with
  | Some file =>
      if 1 <? Z.of_nat (length file.(fi_owner)) then
        catch (remove_file_owner file_hash acc false) ;; mret ()
      else
        catch (remove_file_last_owner file_hash acc false) ;;
        catch (remove_file_last_owner file_hash acc false) ;; mret ()
  | None => mret ()
  end.

(** [while let Some(file_info) = file_info_list.pop()]: the list is given in the
    order in which it is popped.  [None] is the early return of the hook. *)
Fixpoint clear_files (acc : AccountId) (popped : list UserFileSliceInfo) (count : Z) : MS (option Z) :=
  match popped with
  | [] => mret (Some count)
  | file_info :: rest =>
      let count := count + 1 in
      if count =? 300 then insert_at UserHoldFileList acc (rev rest) ;; mret None
      else clear_file_of acc file_info.(us_file_hash) ;; clear_files acc rest count
  end.

Definition clear_bucket_prefix (acc : AccountId) : MS unit :=
  modify (λ s, s <| Bucket ::= λ m,
    let rest := drop (Z.to_nat 100000) (iter_storage (default ∅ (m !! acc))) in
    if bool_decide (rest = []) then delete acc m else <[acc := list_to_map rest]> m |>).

Fixpoint clear_users (acc_list : list AccountId) (count : Z) : MS unit :=
  match acc_list with
  | [] => mret ()
  | acc :: acc_list =>
      held ← gets (λ s, UserHoldFileList s !! acc);
      match held with
      | Some file_info_list =>
          r ← clear_files acc (rev file_info_list) count;
          match r with
          | None => mret ()
          | Some count =>
              catch (call (delete_user_space_storage acc)) ;;
              modify (λ s, s <| ClearUserList ::= filter (λ temp_acc, temp_acc ≠ acc) |>) ;;
              remove_at UserHoldFileList acc ;;
              clear_bucket_prefix acc ;;
              remove_at UserBucketList acc ;;
              clear_users acc_list count
          end
      | None => clear_users acc_list count
      end
  end.

Definition on_initialize (now : BlockNumber) : MS unit :=
  let days := OneDay in
  if days =? 0 then panic else
  (if now mod days =? 0 then
     acc_list ← call frozen_task;
     put ClearUserList (default [] (try_into_bounded 5000 acc_list))
   else mret ()) ;;
  acc_list ← gets ClearUserList;
  clear_users acc_list 0.
End operations.
