(* ===== verification/FileBankProofs.v ===== *)
(** * The file-bank pallet: theorems

    Bucket names, the choice of miners for a deal, the file a deal becomes, the
    orders to restore fragments, and the clean-up of expired users. *)
From S2P Require Import Prelude Errors Frame Common Interfaces FileBankData FileBank.

(** ** Bucket names *)

Definition points (name : list Z) : Z := sum_list_with_Z (λ c, if c =? POINT then 1 else 0) name.

(** No two points next to each other. *)
Fixpoint points_apart (after_point : bool) (name : list Z) : bool :=
  match name with
  | [] => true
  | c :: name =>
      if c =? POINT then negb after_point && points_apart true name else points_apart false name
  end.

Definition allowed (name : list Z) : bool := forallb (λ c, bool_decide (c ∈ BUCKET_ALLOW_CHAR)) name.

Lemma name_loop_spec flag c name :
  name_loop flag c name = if allowed name && points_apart flag name then Some (c + points name) else None.
Proof.
  revert flag c. induction name as [|x name IH]; intros flag c.
  { cbn. unfold points, sum_list_with_Z. cbn. f_equal. lia. }
  cbn [name_loop allowed forallb points_apart]. fold (allowed name).
  unfold points. rewrite sum_list_cons. fold (points name).
  destruct (bool_decide (x ∈ BUCKET_ALLOW_CHAR)); cbn [negb andb]; [|done].
  destruct (x =? POINT).
  - destruct flag; cbn [negb andb]; [by destruct (allowed name)|]. rewrite IH.
    destruct (_ && _); [f_equal; lia|done].
  - rewrite IH. destruct (_ && _); [f_equal; lia|done].
Qed.

Lemma split_points_elem name cur arr c :
  arr ∈ split_points cur name → c ∈ arr → c ∈ cur ∨ c ∈ name.
Proof.
  revert cur. induction name as [|x name IH]; intros cur; cbn [split_points].
  - intros ->%list_elem_of_singleton Hc. left. by apply list_elem_of_In, in_rev, list_elem_of_In.
  - destruct (x =? POINT).
    + intros [->|Harr]%elem_of_cons Hc.
      * left. by apply list_elem_of_In, in_rev, list_elem_of_In.
      * destruct (IH [] Harr Hc) as [?%not_elem_of_nil|?]; set_solver.
    + intros Harr Hc. destruct (IH (x :: cur) Harr Hc) as [[->|?]%elem_of_cons|?]; set_solver.
Qed.

(** A bucket name is accepted exactly when all its characters are allowed, no
    two points are adjacent, and the number of points is not three: the test
    that follows the third point never accepts a name. *)
Theorem check_bucket_name_spec_iff name :
  check_bucket_name_spec name = true ↔
  (∀ c, c ∈ name → c ∈ BUCKET_ALLOW_CHAR) ∧ points_apart false name = true ∧ points name ≠ 3.
Proof.
  unfold check_bucket_name_spec. rewrite name_loop_spec, Z.add_0_l.
  assert (allowed name = true ↔ ∀ c, c ∈ name → c ∈ BUCKET_ALLOW_CHAR) as Hall.
  { unfold allowed. rewrite forallb_forall. setoid_rewrite <- list_elem_of_In.
    by setoid_rewrite bool_decide_eq_true. }
  destruct (allowed name) eqn:Ha; cbn [andb]; [|naive_solver].
  destruct (points_apart false name); [|naive_solver].
  destruct (Z.eqb_spec (points name) 3) as [H3|H3]; [|naive_solver].
  split; [|naive_solver]. intros (arr & Harr & (c & Hc & Hn)%existsb_exists)%existsb_exists.
  rewrite negb_true_iff, bool_decide_eq_false in Hn. exfalso. apply Hn. apply Hall; [done|].
  apply list_elem_of_In in Harr, Hc. destruct (split_points_elem _ _ _ _ Harr Hc) as [?%not_elem_of_nil|?]; done.
Qed.

(** No bucket name with the letter j, small or capital, (codes 106 and 74) is accepted: the
    table of allowed characters has g in its place. *)
Theorem bucket_name_without_j name :
  (106 ∈ name) ∨ (74 ∈ name) → check_bucket_name_spec name = false.
Proof.
  intros Hj. unfold check_bucket_name_spec. rewrite name_loop_spec.
  assert (allowed name = false) as ->; [|done].
  apply not_true_iff_false. unfold allowed. rewrite forallb_forall. intros Hall.
  destruct Hj as [Hj|Hj]; apply list_elem_of_In, Hall, bool_decide_eq_true in Hj; revert Hj;
    apply (bool_decide_eq_false_1 _); vm_compute; reflexivity.
Qed.

Lemma bucket_name_without_j_witness : check_bucket_name_spec (bytes_of "project") = false.
Proof. apply bucket_name_without_j. left. vm_compute. set_solver. Defined.

(** ** Choosing miners *)

Section choice.
Context {X : Type} `{!MinerControl X} `{!StorageHandle X} `{!ScheduleFind X} `{!OssFindAuthor X}
  `{!TaskScheduler X} `{!Randomness X} `{!Config} `{!StorageIter}
  `{!MinerQueryLaws X} `{!RandomnessLaws X}.
Implicit Types (s : State X) (c : Choice).

Lemma call_read_only {A} (m : M X A) : read_only m → read_only (call m : M (State X) A).
Proof. apply read_only_zoom. by intros []. Qed.

Lemma generate_random_number_reads seed : read_only (generate_random_number (X := X) seed).
Proof.
  unfold generate_random_number. apply read_only_bind.
  - apply loop_pos_read_only. intros counter. unfold random_round.
    apply read_only_bind; [apply call_read_only, random_reads|]. intros. eauto with frame.
  - intros [?|?]; [|eauto with frame]. intros ? ? ? [= <- <-]. done.
Qed.

(** What holds of the miners chosen so far: they are distinct, come from the list
    of miners, and each has idle space for a fragment of every segment. *)
Record chosen_ok (all : list AccountId) (needed : Z) (x : X) c : Prop := {
  chosen_nodup : NoDup (c.(ch_chosen).*1 ++ c.(ch_all_miner));
  chosen_sub a : a ∈ c.(ch_chosen).*1 ++ c.(ch_all_miner) → a ∈ all;
  chosen_space a sp : (a, sp) ∈ c.(ch_chosen) →
    (get_miner_idle_space a x).2 = Ok sp ∧ needed * FRAGMENT_SIZE < sp;
  chosen_total : c.(ch_total_idle_space) = sum_list_with_Z snd c.(ch_chosen)
}.

Lemma choose_round_reads needed c : read_only (choose_round (X := X) needed c).
Proof.
  unfold choose_round. pose proof generate_random_number_reads.
  pose proof (λ m, call_read_only _ (is_positive_reads m)).
  pose proof (λ m, call_read_only _ (get_miner_idle_space_reads m)).
  apply read_only_if; [eauto with frame|]. apply read_only_bind; [done|]. intros n.
  apply read_only_bind; [eauto with frame|]. intros seed. apply read_only_if; [eauto with frame|].
  apply read_only_bind; [eauto with frame|]. intros m. apply read_only_bind; [done|]. intros b.
  apply read_only_if; [eauto with frame|].
  apply read_only_bind; [done|]. intros sp. apply read_only_bind; [eauto 10 with frame|].
  intros [t l]. eauto with frame.
Qed.

(** Picking the miner at an index and, if [keep], adding it to the chosen. *)
Lemma chosen_ok_pick all needed x c i m seed cur :
  chosen_ok all needed x c → c.(ch_all_miner) !! i = Some m →
  chosen_ok all needed x
    (mkChoice seed (delete i c.(ch_all_miner)) cur c.(ch_total_idle_space) c.(ch_chosen)) ∧
  ∀ sp, (get_miner_idle_space m x).2 = Ok sp → needed * FRAGMENT_SIZE < sp →
    chosen_ok all needed x
      (mkChoice seed (delete i c.(ch_all_miner)) cur (c.(ch_total_idle_space) + sp)
         (c.(ch_chosen) ++ [(m, sp)])).
Proof.
  intros [Hnd Hsub Hsp Htot] Hm. pose proof (delete_Permutation _ _ _ Hm) as Hperm.
  split; [|intros sp Hget Hlt]; split; cbn [ch_chosen ch_all_miner ch_total_idle_space].
  - rewrite Hperm in Hnd. apply NoDup_app in Hnd as (H1 & H2 & H3). apply NoDup_cons in H3 as [_ H3].
    apply NoDup_app. split_and!; [done| |done]. intros a Ha Ha'. apply (H2 a Ha). set_solver.
  - intros a Ha. apply Hsub. rewrite Hperm. set_solver.
  - done.
  - done.
  - rewrite fmap_app. cbn. rewrite <- app_assoc. cbn. by rewrite Hperm in Hnd.
  - intros a. rewrite fmap_app. cbn. rewrite <- app_assoc. cbn. intros Ha. apply Hsub. by rewrite Hperm.
  - intros a sp'. rewrite elem_of_app, list_elem_of_singleton. intros [?|[= -> ->]]; [eauto|done].
  - rewrite sum_list_app, sum_list_cons, Htot. cbn. lia.
Qed.

Lemma choose_round_ok all needed c s s' r :
  chosen_ok all needed (ext s) c → Z.of_nat (length c.(ch_chosen)) < MINER_COUNT →
  choose_round needed c s = (s', Ok r) →
  s' = s ∧
  match r with
  | inl c' => chosen_ok all needed (ext s) c' ∧ Z.of_nat (length c'.(ch_chosen)) < MINER_COUNT
  | inr c' => chosen_ok all needed (ext s) c' ∧ Z.of_nat (length c'.(ch_chosen)) <= MINER_COUNT
  end.
Proof.
  intros Hok Hlen Hrun. split; [by eapply choose_round_reads|]. unfold choose_round in Hrun.
  destruct (Z.of_nat (length (ch_all_miner c)) =? 0); [inv_ok; split; [done|lia]|].
  apply bind_Ok in Hrun as (s1 & n & Hn & Hrun). apply generate_random_number_reads in Hn as ->.
  apply bind_Ok in Hrun as (s1 & seed & [-> [-> _]%checked_add_Some]%ok_or_Ok & Hrun).
  destruct (ch_cur_count c =? MINER_COUNT * 5); [inv_ok; split; [done|lia]|].
  apply bind_Ok in Hrun as (s1 & m & [-> Hm]%unwrap_Ok & Hrun).
  apply (chosen_ok_pick all needed (ext s) c _ _ (ch_seed c + 1) (ch_cur_count c + 1) Hok) in Hm as [Hskip Hkeep].
  apply bind_Ok in Hrun as (s1 & b & Hb & Hrun). apply (call_read_only _ (is_positive_reads m)) in Hb as ->.
  destruct b; cbn [negb] in Hrun; [|inv_ok; by split].
  apply bind_Ok in Hrun as (s1 & sp & Hsp & Hrun).
  assert ((get_miner_idle_space m (ext s)).2 = Ok sp) as Hget.
  { unfold call in Hsp. apply zoom_Ok in Hsp as (x & Hx & _). by rewrite Hx. }
  apply (call_read_only _ (get_miner_idle_space_reads m)) in Hsp as ->.
  apply bind_Ok in Hrun as (s1 & [t l] & Htl & Hrun). unfold try_push in Htl.
  destruct (Z.ltb_spec (needed * FRAGMENT_SIZE) sp) as [Hlt|]; inv_ok.
  all: repeat (case_match; try done); simplify_eq; (split; [by auto|]);
    cbn [ch_chosen length] in *; rewrite ?length_app in *; cbn [length] in *; lia.
Qed.

(** The tasks while fragments are handed out: the miners stay, every fragment
    handed out so far is on exactly one list, and no miner has more fragments than
    its idle space holds. *)
Definition fits (t : MinerTaskList) (sp : Z) : Prop :=
  t.(mt_fragment_list) = [] ∨ Z.of_nat (length t.(mt_fragment_list)) * FRAGMENT_SIZE < sp.

Record tasks_ok (chosen : list (AccountId * Z)) (frags : list Hash) (tasks : list MinerTaskList) : Prop := {
  tasks_miners : mt_miner <$> tasks = chosen.*1;
  tasks_frags : tasks ≫= mt_fragment_list ≡ₚ frags;
  tasks_fit : Forall2 fits tasks chosen.*2
}.

Lemma tasks_ok_push chosen frags tasks i task sp hash l :
  tasks_ok chosen frags tasks → tasks !! i = Some task → chosen.*2 !! i = Some sp →
  (Z.of_nat (length task.(mt_fragment_list)) + 1) * FRAGMENT_SIZE < sp →
  l = task.(mt_fragment_list) ++ [hash] →
  tasks_ok chosen (frags ++ [hash]) (<[i := task <| mt_fragment_list := l |>]> tasks).
Proof.
  intros [Hm Hf Hfit] Hi Hsp Hlt ->. split.
  - rewrite list_fmap_insert. cbn. rewrite list_insert_id; [done|]. by rewrite list_lookup_fmap, Hi.
  - rewrite <- Hf. rewrite <- (take_drop_middle tasks i task Hi) at 1 2.
    rewrite insert_app_r_alt by (rewrite length_take; apply lookup_lt_Some in Hi; lia).
    rewrite length_take_le by (apply lookup_lt_Some in Hi; lia). rewrite Nat.sub_diag. cbn [insert list_insert].
    rewrite !bind_app, !bind_cons. cbn [mt_fragment_list set_field set_mt_mt_fragment_list].
    solve_Permutation.
  - rewrite <- (list_insert_id chosen.*2 i sp Hsp). apply Forall2_insert; [done|].
    right. cbn. rewrite length_app. cbn. lia.
Qed.

Lemma assign_round_ok chosen frags hash i tasks s s' r :
  tasks_ok chosen frags tasks → assign_round (X := X) chosen.*2 hash (i, tasks) s = (s', Ok r) →
  s' = s ∧
  match r with
  | inl (_, tasks') => tasks_ok chosen frags tasks'
  | inr (_, tasks') => tasks_ok chosen (frags ++ [hash]) tasks'
  end.
Proof.
  intros Hok Hrun. unfold assign_round in Hrun.
  apply bind_Ok in Hrun as (s1 & sp & [-> Hsp]%unwrap_Ok & Hrun).
  apply bind_Ok in Hrun as (s1 & task & [-> Htask]%unwrap_Ok & Hrun).
  destruct (Z.ltb_spec ((Z.of_nat (length task.(mt_fragment_list)) + 1) * FRAGMENT_SIZE) sp).
  - apply bind_Ok in Hrun as (s1 & l & [-> Hl]%ok_or_Ok & [-> ->]%ret_Ok). split; [done|].
    eapply tasks_ok_push; eauto. unfold try_push in Hl. by case_match; simplify_eq.
  - apply bind_Ok in Hrun as (s1 & j & [-> _]%ok_or_Ok & [-> ->]%ret_Ok). done.
Qed.

Lemma assign_fragment_ok chosen frags hash i tasks i' tasks' s s' :
  tasks_ok chosen frags tasks → assign_fragment (X := X) chosen.*2 (i, tasks) hash s = (s', Ok (i', tasks')) →
  s' = s ∧ tasks_ok chosen (frags ++ [hash]) tasks'.
Proof.
  intros Hok Hrun. unfold assign_fragment in Hrun. apply bind_Ok in Hrun as (s1 & r & Hl & Hrun).
  apply (loop_pos_Ok (λ s1 st, s1 = s ∧ tasks_ok chosen frags st.2)
           (λ s1 st, s1 = s ∧ tasks_ok chosen (frags ++ [hash]) st.2)) in Hl; [|clear Hrun|done].
  - destruct r as [[]|[j l]]; [done|]. destruct Hl as [-> Hl].
    apply bind_Ok in Hrun as (s1 & k & [-> _]%ok_or_Ok & [-> [= -> ->]]%ret_Ok). done.
  - intros [j l] ? s2 r2 [-> Hj] Hr. apply (assign_round_ok _ _ _ _ _ _ _ _ Hj) in Hr as [-> Hr].
    by destruct r2 as [[]|[]].
Qed.

Lemma assign_segments_ok chosen frags needed tasks s s' tasks' :
  tasks_ok chosen frags tasks → fold_m (assign_segment (X := X) chosen.*2) tasks needed s = (s', Ok tasks') →
  s' = s ∧ tasks_ok chosen (frags ++ (needed ≫= sl_fragment_list)) tasks'.
Proof.
  revert frags tasks s. induction needed as [|[h fs] needed IH]; intros frags tasks s Hok Hrun; cbn [fold_m] in Hrun.
  { apply ret_Ok in Hrun as [-> ->]. split; [done|]. by rewrite app_nil_r. }
  apply bind_Ok in Hrun as (s1 & tasks1 & Hseg & Hrun).
  unfold assign_segment in Hseg. cbn [sl_fragment_list] in Hseg.
  apply bind_Ok in Hseg as (s2 & [i l] & Hfold & [-> ->]%ret_Ok).
  assert (s2 = s ∧ tasks_ok chosen (frags ++ fs) l) as [-> Hl].
  { clear Hrun IH. revert frags tasks Hok Hfold. generalize 0.
    induction fs as [|f fs IH]; intros j frags tasks Hok Hfold; cbn [fold_m] in Hfold.
    - apply ret_Ok in Hfold as [-> [= -> ->]]. by rewrite app_nil_r.
    - apply bind_Ok in Hfold as (s3 & [j' l'] & Hf & Hfold).
      apply (assign_fragment_ok _ _ _ _ _ _ _ _ _ Hok) in Hf as [-> Hl].
      apply (IH _ _ _ Hl) in Hfold. by rewrite <- app_assoc in Hfold. }
  apply (IH _ _ _ Hl) in Hrun. by rewrite bind_cons, app_assoc.
Qed.

Lemma tasks_ok_initial chosen :
  tasks_ok chosen [] ((λ p, mkMinerTaskList p.1 []) <$> chosen).
Proof.
  split.
  - rewrite <- list_fmap_compose. done.
  - induction chosen as [|c l IH]; [done|]. cbn. apply IH.
  - rewrite Forall2_fmap. apply Forall_Forall2_diag, Forall_true. intros []. by left.
Qed.

(** The first half of [random_assign_miner]: the choice. *)
Lemma choose_loop_ok all needed seed p s s' r :
  NoDup all → loop_pos (S := State X) p (choose_round needed) (mkChoice seed all 0 0 []) s = (s', Ok (inr r)) →
  s' = s ∧ chosen_ok all needed (ext s) r ∧ Z.of_nat (length r.(ch_chosen)) <= MINER_COUNT.
Proof.
  intros Hnd Hrun.
  apply (loop_pos_Ok
    (λ s1 c, s1 = s ∧ chosen_ok all needed (ext s) c ∧ Z.of_nat (length c.(ch_chosen)) < MINER_COUNT)
    (λ s1 c, s1 = s ∧ chosen_ok all needed (ext s) c ∧ Z.of_nat (length c.(ch_chosen)) <= MINER_COUNT)) in Hrun; [done| |].
  - intros c ? s1 r1 (-> & Hc & Hlen) Hr. apply (choose_round_ok _ _ _ _ _ _ Hc Hlen) in Hr as [-> Hr].
    by destruct r1.
  - split_and!; [done| |vm_compute; reflexivity]. split; cbn; [done|done|by intros ?? ?%not_elem_of_nil|done].
Qed.

Lemma tasks_fit_space chosen frags tasks t :
  tasks_ok chosen frags tasks → t ∈ tasks → t.(mt_fragment_list) ≠ [] →
  ∃ sp, (t.(mt_miner), sp) ∈ chosen ∧ Z.of_nat (length t.(mt_fragment_list)) * FRAGMENT_SIZE < sp.
Proof.
  intros [Hm _ Hfit] [i Hi]%list_elem_of_lookup Hne.
  assert (chosen.*1 !! i = Some t.(mt_miner)) as Hf by by rewrite <- Hm, list_lookup_fmap, Hi.
  rewrite list_lookup_fmap in Hf. destruct (chosen !! i) as [[a sp]|] eqn:Hc; simplify_eq/=.
  exists sp. split; [by apply list_elem_of_lookup_2 in Hc|].
  destruct (Forall2_lookup_lr _ _ _ i _ sp Hfit Hi) as [?|?]; [|done|done].
  by rewrite list_lookup_fmap, Hc.
Qed.

(** The parts of a successful run. *)
Lemma random_assign_miner_run all needed s s' tasks :
  (get_all_miner (ext s)).2 = Ok all → NoDup all →
  random_assign_miner needed s = (s', Ok tasks) →
  ∃ c, chosen_ok all (Z.of_nat (length needed)) (ext s) c ∧
    (0 < length c.(ch_chosen))%nat ∧ Z.of_nat (length c.(ch_chosen)) <= MINER_COUNT ∧
    fold_m (assign_segment c.(ch_chosen).*2) ((λ p, mkMinerTaskList p.1 []) <$> c.(ch_chosen)) needed s
      = (s, Ok tasks) ∧
    for_each tasks (λ t, call (lock_space t.(mt_miner)
      (Z.of_nat (length t.(mt_fragment_list)) * FRAGMENT_SIZE))) s = (s', Ok ()).
Proof.
  intros Hall Hnd Hrun. unfold random_assign_miner in Hrun.
  apply bind_Ok in Hrun as (s1 & now & [-> ->]%gets_Ok & Hrun).
  apply bind_Ok in Hrun as (s1 & all' & Hget & Hrun).
  assert (all' = all) as ->.
  { unfold call in Hget. apply zoom_Ok in Hget as (x & Hx & _). rewrite Hx in Hall. by injection Hall. }
  apply (call_read_only _ get_all_miner_reads) in Hget as ->.
  apply bind_Ok in Hrun as (s1 & r & Hloop & Hrun).
  apply bind_Ok in Hrun as (s2 & c & Hc & Hrun). destruct r as [?|c']; [done|]. apply ret_Ok in Hc as [-> ->].
  apply choose_loop_ok in Hloop as (-> & Hok & Hlen); [|done].
  apply bind_Ok in Hrun as (s1 & [] & [-> Hne]%ensure_Ok & Hrun).
  apply bind_Ok in Hrun as (s1 & [] & [-> _]%ensure_Ok & Hrun).
  apply bind_Ok in Hrun as (s1 & tasks1 & Hassign & Hrun).
  destruct (assign_segments_ok _ _ _ _ _ _ _ (tasks_ok_initial _) Hassign) as [-> _].
  apply bind_Ok in Hrun as (s1 & [] & Hlock & [-> ->]%ret_Ok).
  exists c'. split_and!; [done|lia|done..].
Qed.


(** *** The loops return *)

Lemma call_total {A} (m : M X A) : no_panic m → no_panic (call m : M (State X) A).
Proof. apply no_panic_zoom. Qed.

Lemma generate_random_number_total seed : no_panic (generate_random_number (X := X) seed).
Proof.
  intros s. unfold generate_random_number.
  apply (loop_pos_returns (λ _ counter, 0 <= counter < 2 ^ 32) (λ counter, 2 ^ 32 - 1 - counter)); [|lia|lia|by intros ???].
  intros counter s1 Hc. unfold random_round. split.
  - apply returns_bind; [apply call_total, random_total|]. intros. case_match; [by intros ?|].
    apply no_panic_bind; [apply no_panic_ok_or|]. intros. apply no_panic_ret.
  - intros s2 c' Hrun. apply bind_Ok in Hrun as (s3 & n & _ & Hrun). case_match; [by inv_ok|].
    apply bind_Ok in Hrun as (s4 & i & [-> [-> ?]%checked_add_Some]%ok_or_Ok & [-> [= ->]]%ret_Ok). lia.
Qed.

Lemma choose_round_total needed c : no_panic (choose_round (X := X) needed c).
Proof.
  pose proof (λ m, call_total _ (is_positive_total m)). pose proof (λ m, call_total _ (get_miner_idle_space_total m)).
  intros s. unfold choose_round. destruct (Z.eqb_spec (Z.of_nat (length (ch_all_miner c))) 0) as [|Hne]; [by intros ?|].
  apply returns_bind; [apply generate_random_number_total|]. intros s1 n _.
  apply returns_bind; [apply no_panic_ok_or|]. intros s2 seed _. case_match; [by intros ?|].
  destruct (lookup_lt_is_Some_2 (ch_all_miner c) (Z.to_nat (n mod Z.of_nat (length (ch_all_miner c))))) as [m Hm].
  { pose proof (Z.mod_pos_bound n (Z.of_nat (length (ch_all_miner c)))). lia. }
  rewrite Hm. apply returns_bind; [by intros ?|]. intros s3 m' _.
  apply no_panic_bind; [done|]. intros b. apply no_panic_if; [apply no_panic_ret|].
  apply no_panic_bind; [done|]. intros sp. apply no_panic_bind; [|intros []; eauto with frame].
  eauto 10 with frame.
Qed.

Lemma choose_round_counts needed c s s' c' :
  choose_round needed c s = (s', Ok (inl c')) → c.(ch_cur_count) <= 15 →
  c'.(ch_cur_count) = c.(ch_cur_count) + 1 ∧ c'.(ch_cur_count) <= 15.
Proof.
  unfold choose_round. change (MINER_COUNT * 5) with 15. intros Hrun Hc. case_match; [by inv_ok|].
  apply bind_Ok in Hrun as (? & n & _ & Hrun). apply bind_Ok in Hrun as (? & seed & _ & Hrun).
  destruct (Z.eqb_spec (ch_cur_count c) 15); [by inv_ok|].
  apply bind_Ok in Hrun as (? & m & _ & Hrun). apply bind_Ok in Hrun as (? & b & _ & Hrun).
  destruct b; cbn [negb] in Hrun.
  2: { inv_ok. simplify_eq/=. lia. }
  apply bind_Ok in Hrun as (? & sp & _ & Hrun). apply bind_Ok in Hrun as (? & [] & _ & Hrun).
  case_match; inv_ok; simplify_eq/=. lia.
Qed.

(** Handing out a fragment: the tasks never become empty and the index stays a
    [usize]. *)
Lemma assign_round_total (idle : list Z) hash i tasks :
  length tasks = length idle → tasks ≠ [] → no_panic (assign_round (X := X) idle hash (i, tasks)).
Proof.
  intros Hlen Hne s. unfold assign_round.
  set (k := Z.to_nat (i mod Z.of_nat (length tasks))).
  assert (k < length tasks)%nat as Hk.
  { destruct tasks; [done|]. subst k. pose proof (Z.mod_pos_bound i (Z.of_nat (length (m :: tasks)))). cbn [length] in *. lia. }
  destruct (lookup_lt_is_Some_2 tasks k Hk) as [t Ht]. rewrite Hlen in Hk.
  destruct (lookup_lt_is_Some_2 idle k Hk) as [sp Hsp]. rewrite Ht, Hsp.
  apply returns_bind; [by intros ?|]. intros s1 sp1 _. apply returns_bind; [by intros ?|]. intros s2 t1 _.
  apply no_panic_if; eauto with frame.
Qed.

Lemma assign_round_shape (idle : list Z) hash i tasks s s' r :
  assign_round (X := X) idle hash (i, tasks) s = (s', Ok r) →
  match r with
  | inl (j, tasks') => j = i + 1 ∧ i + 1 < 2 ^ usize ∧ tasks' = tasks
  | inr (j, tasks') => j = i ∧ length tasks' = length tasks
  end.
Proof.
  intros Hrun. unfold assign_round in Hrun.
  apply bind_Ok in Hrun as (s1 & sp & [-> Hsp]%unwrap_Ok & Hrun).
  apply bind_Ok in Hrun as (s1 & task & [-> Htask]%unwrap_Ok & Hrun). case_match.
  - apply bind_Ok in Hrun as (s1 & l & [-> Hl]%ok_or_Ok & [-> ->]%ret_Ok). by rewrite length_insert.
  - by apply bind_Ok in Hrun as (s1 & j & [-> [-> ?]%checked_add_Some]%ok_or_Ok & [-> ->]%ret_Ok).
Qed.

Definition shape (idle : list Z) (st : Z * list MinerTaskList) : Prop :=
  0 <= st.1 < 2 ^ usize ∧ length st.2 = length idle ∧ st.2 ≠ [].

Lemma assign_fragment_total (idle : list Z) st hash s :
  shape idle st →
  returns (assign_fragment (X := X) idle st hash) s ∧
  ∀ s' st', assign_fragment idle st hash s = (s', Ok st') → shape idle st'.
Proof.
  intros Hst. unfold assign_fragment. split.
  - apply (loop_pos_returns (λ _ st, shape idle st) (λ st, 2 ^ 32 - 1 - st.1)); [|done| |].
    + intros [i l] s1 (? & ? & ?). split; [by apply assign_round_total|].
      intros s2 [j l'] (-> & ? & ->)%assign_round_shape. unfold shape, usize in *. cbn in *. split_and!; done || lia.
    + destruct Hst as ([? ?] & _). unfold usize in *. lia.
    + intros s1 [i l] _. apply no_panic_bind; [apply no_panic_ok_or|]. intros. apply no_panic_ret.
  - intros s' st' Hrun. apply bind_Ok in Hrun as (s1 & r & Hl & Hrun).
    apply (loop_pos_Ok (λ _ st, shape idle st) (λ _ st, shape idle st)) in Hl; [| |done].
    + destruct r as [?|[i l]]; [done|]. destruct Hl as (? & ? & ?).
      apply bind_Ok in Hrun as (s2 & j & [-> [-> ?]%checked_add_Some]%ok_or_Ok & [-> ->]%ret_Ok).
      unfold shape in *. cbn in *. split_and!; done || lia.
    + intros [i l] s2 s3 r1 (? & ? & ?) Hr. cbn in *. apply assign_round_shape in Hr.
      destruct r1 as [[j l']|[j l']]; unfold shape; cbn.
      * destruct Hr as (-> & ? & ->). split_and!; done || lia.
      * destruct Hr as (-> & Hl'). split_and!; [lia..|congruence|]. intros ->. by destruct l.
Qed.

(** C31 [random_assign_miner] returns: its two loops leave within the rounds the model
    gives them (16 for the choice, 2^32 for the inner loop, whose index is a [usize]), and no
    index is out of range, whatever the miners' idle space is. Reads of the miners, the
    locking of their space and the randomness are assumed not to panic. *)
Theorem random_assign_miner_total needed s :
  (∀ a n, no_panic (lock_space a n : M X _)) → (random_assign_miner needed s).2 ≠ Panic.
Proof.
  intros Hlock. change (returns (random_assign_miner needed) s). unfold random_assign_miner.
  apply returns_bind; [by intros ?|]. intros s1 now _.
  apply returns_bind; [apply call_total, get_all_miner_total|]. intros s2 all _.
  apply (loop_pos_returns (λ _ c, c.(ch_cur_count) <= 15) (λ c, 15 - c.(ch_cur_count))); [|cbn; lia|cbn; lia|].
  { intros c s3 Hc. split; [apply choose_round_total|]. intros s4 c' Hr.
    apply choose_round_counts in Hr; [lia|done]. }
  intros s3 c _. apply returns_bind; [by intros ?|]. intros s4 c' [-> ->]%ret_Ok.
  apply returns_bind; [apply no_panic_ensure|]. intros s5 [] [-> Hne]%ensure_Ok.
  apply returns_bind; [apply no_panic_ensure|]. intros s6 [] _.
  apply returns_bind.
  2: { intros s7 tasks _. apply no_panic_bind; [|intros; apply no_panic_ret].
       apply no_panic_for_each. intros t. by apply call_total. }
  apply (fold_m_returns (λ tasks, length tasks = length c.(ch_chosen).*2 ∧ tasks ≠ [])).
  2: { rewrite !length_fmap. split; [done|]. by destruct (ch_chosen c). }
  intros tasks seg s7 [Hlen Hne']. unfold assign_segment.
  destruct (fold_m_returns (shape c.(ch_chosen).*2) (assign_fragment c.(ch_chosen).*2)
    seg.(sl_fragment_list) (0, tasks) s7) as [Hr Hin].
  - intros. by apply assign_fragment_total.
  - by split_and!.
  - split; [apply returns_bind; [done|]; intros ? [] _; by intros ?|].
    intros s8 tasks' Hrun. apply bind_Ok in Hrun as (s9 & [i l] & Hf & [-> ->]%ret_Ok). by apply Hin in Hf as (_ & ? & ?).
Qed.

(** *** Three miners *)

Lemma assign_fragment_first (idle : list Z) (i : nat) tasks t sp hash s s' st :
  tasks !! i = Some t → idle !! i = Some sp →
  (Z.of_nat (length t.(mt_fragment_list)) + 1) * FRAGMENT_SIZE < sp →
  assign_fragment (X := X) idle (Z.of_nat i, tasks) hash s = (s', Ok st) →
  s' = s ∧ st = (Z.of_nat (S i), <[i := mkMinerTaskList t.(mt_miner) (t.(mt_fragment_list) ++ [hash])]> tasks).
Proof.
  intros Ht Hsp Hlt Hrun. pose proof (lookup_lt_Some _ _ _ Ht). unfold assign_fragment in Hrun.
  apply bind_Ok in Hrun as (s1 & r & Hl & Hrun).
  assert (assign_round (X := X) idle hash (Z.of_nat i, tasks) s = (s1, Ok r) ∧ ∃ st, r = inr st) as [Hround [[j l] ->]].
  { assert (∀ st', (assign_round (X := X) idle hash (Z.of_nat i, tasks) s).2 ≠ Ok (inl st')) as Hne.
    { intros st' He. destruct (assign_round (X := X) idle hash (Z.of_nat i, tasks) s) as [s2 r2] eqn:Hr.
      cbn in He. subst r2. unfold assign_round in Hr. rewrite Z.mod_small, Nat2Z.id, Ht, Hsp in Hr by lia.
      apply bind_Ok in Hr as (? & ? & [-> [= <-]]%unwrap_Ok & Hr). apply bind_Ok in Hr as (? & ? & [-> [= <-]]%unwrap_Ok & Hr).
      rewrite (proj2 (Z.ltb_lt _ _) Hlt) in Hr. by apply bind_Ok in Hr as (? & ? & _ & [_ ?]%ret_Ok). }
    rewrite loop_pos_first in Hl by done. split; [done|]. destruct r as [st'|st']; [|by eauto].
    destruct (Hne st'). by rewrite Hl. }
  clear Hl. unfold assign_round in Hround. rewrite Z.mod_small, Nat2Z.id, Ht, Hsp in Hround by lia.
  apply bind_Ok in Hround as (? & ? & [-> [= <-]]%unwrap_Ok & Hr). apply bind_Ok in Hr as (? & ? & [-> [= <-]]%unwrap_Ok & Hr).
  rewrite (proj2 (Z.ltb_lt _ _) Hlt) in Hr.
  apply bind_Ok in Hr as (? & l' & [-> Hl]%ok_or_Ok & [-> [= -> ->]]%ret_Ok).
  apply bind_Ok in Hrun as (? & k & [-> [-> ?]%checked_add_Some]%ok_or_Ok & [-> ->]%ret_Ok).
  split; [done|]. unfold try_push in Hl. case_match; simplify_eq. f_equal. lia.
Qed.

(** The task of miner [i] has the [i]-th fragment of each segment, in order. *)
Definition columns (segs : list SegmentList) (tasks : list MinerTaskList) : Prop :=
  ∀ i t, tasks !! i = Some t →
    Forall2 (λ seg h, seg.(sl_fragment_list) !! i = Some h) segs t.(mt_fragment_list).

Lemma assign_segment_columns (idle : list Z) segs seg tasks s s' tasks' :
  length idle = 3%nat → length tasks = 3%nat → length seg.(sl_fragment_list) = 3%nat →
  Forall (λ sp, (Z.of_nat (length segs) + 1) * FRAGMENT_SIZE < sp) idle → columns segs tasks →
  assign_segment (X := X) idle tasks seg s = (s', Ok tasks') →
  s' = s ∧ columns (segs ++ [seg]) tasks' ∧ length tasks' = 3%nat.
Proof.
  intros Hi Ht Hs Hsp Hcol Hrun.
  destruct idle as [|p0 [|p1 [|p2 [|]]]]; try done. destruct tasks as [|t0 [|t1 [|t2 [|]]]]; try done.
  destruct seg as [h fs]. cbn [sl_fragment_list] in Hs. destruct fs as [|f0 [|f1 [|f2 [|]]]]; try done.
  rewrite !Forall_cons in Hsp. destruct Hsp as (Hp0 & Hp1 & Hp2 & _).
  pose proof (Forall2_length _ _ _ (Hcol 0%nat t0 eq_refl)) as L0.
  pose proof (Forall2_length _ _ _ (Hcol 1%nat t1 eq_refl)) as L1.
  pose proof (Forall2_length _ _ _ (Hcol 2%nat t2 eq_refl)) as L2.
  unfold assign_segment in Hrun. cbn [sl_fragment_list fold_m] in Hrun.
  apply bind_Ok in Hrun as (s1 & [i l] & Hf & [-> ->]%ret_Ok).
  apply bind_Ok in Hf as (s2 & st & Hf & Hrun).
  apply (assign_fragment_first _ 0 _ t0 p0) in Hf as [-> ->]; [|done|done|by rewrite <- L0].
  apply bind_Ok in Hrun as (s2 & st & Hf & Hrun).
  apply (assign_fragment_first _ 1 _ t1 p1) in Hf as [-> ->]; [|done|done|by rewrite <- L1].
  apply bind_Ok in Hrun as (s2 & st & Hf & Hrun).
  apply (assign_fragment_first _ 2 _ t2 p2) in Hf as [-> ->]; [|done|done|by rewrite <- L2].
  apply ret_Ok in Hrun as [-> [= -> ->]]. split_and!; [done| |done].
  intros i t Hit. destruct i as [|[|[|]]]; [..|done]; injection Hit as <-; cbn [mt_fragment_list];
    (apply Forall2_app; [first [by apply (Hcol 0%nat)|by apply (Hcol 1%nat)|by apply (Hcol 2%nat)]|by repeat constructor]).
Qed.

Lemma assign_segments_columns (idle : list Z) segs needed tasks s s' tasks' :
  length idle = 3%nat → length tasks = 3%nat →
  Forall (λ seg, length seg.(sl_fragment_list) = 3%nat) needed →
  Forall (λ sp, (Z.of_nat (length segs) + Z.of_nat (length needed)) * FRAGMENT_SIZE < sp) idle →
  columns segs tasks → fold_m (assign_segment (X := X) idle) tasks needed s = (s', Ok tasks') →
  columns (segs ++ needed) tasks'.
Proof.
  intros Hi. revert segs tasks s.
  induction needed as [|seg needed IH]; intros segs tasks s Ht Hall Hsp Hcol Hrun; cbn [fold_m] in Hrun.
  - apply ret_Ok in Hrun as [-> ->]. by rewrite app_nil_r.
  - apply bind_Ok in Hrun as (s1 & tasks1 & Hseg & Hrun). rewrite Forall_cons in Hall. destruct Hall as [Hs Hall].
    apply (assign_segment_columns _ segs) in Hseg as (-> & Hcol1 & Hlen1); try done.
    + replace (segs ++ seg :: needed) with ((segs ++ [seg]) ++ needed) by by rewrite <- app_assoc.
      eapply IH; [done|done| |done|done]. eapply Forall_impl; [exact Hsp|]. intros sp.
      rewrite length_app. cbn [length]. intros. lia.
    + eapply Forall_impl; [exact Hsp|]. cbn [length]. intros sp ?. assert (0 < FRAGMENT_SIZE) by done. nia.
Qed.

(** When three miners are found and every segment has three fragments, miner [i]
    gets exactly the [i]-th fragment of every segment: no miner holds two fragments
    of a segment, and the assignment never falls back to another miner for want of space. *)
Lemma random_assign_miner_columns all needed s s' tasks :
  (get_all_miner (ext s)).2 = Ok all → NoDup all →
  Forall (λ seg, length seg.(sl_fragment_list) = 3%nat) needed →
  random_assign_miner needed s = (s', Ok tasks) → length tasks = 3%nat →
  ∀ i t, tasks !! i = Some t →
    Forall2 (λ seg h, seg.(sl_fragment_list) !! i = Some h) needed t.(mt_fragment_list).
Proof.
  intros Hall Hnd Hseg Hrun Hlen.
  destruct (random_assign_miner_run _ _ _ _ _ Hall Hnd Hrun) as (c & [_ _ Hsp _] & _ & _ & Hassign & _).
  destruct (assign_segments_ok _ _ _ _ _ _ _ (tasks_ok_initial _) Hassign) as [_ [Hm _ _]].
  apply (f_equal length) in Hm. rewrite !length_fmap in Hm.
  eapply (assign_segments_columns c.(ch_chosen).*2 []) in Hassign; [exact Hassign| | |done| |].
  - rewrite length_fmap. lia.
  - rewrite length_fmap. lia.
  - apply Forall_forall. intros sp ([a sp'] & -> & Hin)%list_elem_of_fmap. cbn. apply Hsp in Hin. lia.
  - intros i t. rewrite list_lookup_fmap. intros Ht. apply fmap_Some_1 in Ht as (p & _ & ->). constructor.
Qed.

Lemma random_assign_miner_nodup all needed s s' tasks :
  (get_all_miner (ext s)).2 = Ok all → NoDup all →
  random_assign_miner needed s = (s', Ok tasks) → NoDup (mt_miner <$> tasks).
Proof.
  intros Hall Hnd Hrun.
  destruct (random_assign_miner_run _ _ _ _ _ Hall Hnd Hrun) as (c & [Hcnd _ _ _] & _ & _ & Hassign & _).
  destruct (assign_segments_ok _ _ _ _ _ _ _ (tasks_ok_initial _) Hassign) as [_ [Hm _ _]].
  rewrite Hm. by apply NoDup_app in Hcnd as (? & _ & _).
Qed.
End choice.
