(* ===== verification/FileBankFiles.v ===== *)
(** * The file-bank pallet: files

    The file a deal becomes, the owners of a file, restoring a lost fragment, and
    the clean-up of the files of expired users. *)
From S2P Require Import Prelude Errors Frame Common Interfaces FileBankData FileBank FileBankProofs.

Section files.
Context {X : Type} `{!MinerControl X} `{!StorageHandle X} `{!ScheduleFind X} `{!OssFindAuthor X}
  `{!TaskScheduler X} `{!Randomness X} `{!Config} `{!StorageIter}
  `{!MinerQueryLaws X} `{!RandomnessLaws X}.
Implicit Types (s : State X).

(** ** From the tasks to the file *)

(** The [i]-th fragments of the segments. *)
Definition column (i : nat) (segs : list SegmentList) : list Hash :=
  omap (λ seg, seg.(sl_fragment_list) !! i) segs.

Lemma columns_column segs tasks i t : columns segs tasks → tasks !! i = Some t → t.(mt_fragment_list) = column i segs.
Proof.
  intros Hcol Hi. apply Hcol in Hi. clear Hcol. induction Hi as [|seg h segs l Hh _ IH]; [done|].
  unfold column in *. cbn. by rewrite Hh, IH.
Qed.

Lemma remove_one_of_perm x l l' : l ≡ₚ x :: l' → ∃ l'', remove_one x l = Some l'' ∧ l'' ≡ₚ l'.
Proof.
  intros Hp. destruct (remove_one x l) as [l''|] eqn:Hr.
  - exists l''. split; [done|]. apply remove_one_perm in Hr. apply (Permutation_cons_inv (a := x)). by rewrite <- Hr, Hp.
  - apply remove_one_None in Hr. destruct Hr. rewrite Hp. by left.
Qed.

Lemma place_fragments_step flag f frags mark tasks placed m tasks' s :
  place_fragment flag f mark tasks = Some (m, tasks') → Z.of_nat (length placed) < FragmentCount →
  place_fragments (X := X) flag (f :: frags) mark tasks placed s =
  place_fragments flag frags (mark ++ [m]) tasks' (placed ++ [mkFragmentInfo f true m]) s.
Proof.
  intros Hp Hlt. cbn [place_fragments]. rewrite Hp. unfold try_push. by rewrite (proj2 (Z.ltb_lt _ _) Hlt).
Qed.

(** Three miners, the [i]-th with the [i]-th fragment on its list: each gives its
    own. *)
Lemma place_three m0 m1 m2 f0 f1 f2 l0 l1 l2 r0 r1 r2 s :
  NoDup [m0; m1; m2] → FragmentCount = 3 →
  l0 ≡ₚ f0 :: r0 → l1 ≡ₚ f1 :: r1 → l2 ≡ₚ f2 :: r2 →
  ∃ l0' l1' l2', l0' ≡ₚ r0 ∧ l1' ≡ₚ r1 ∧ l2' ≡ₚ r2 ∧
    place_fragments (X := X) true [f0; f1; f2] []
      [mkMinerTaskList m0 l0; mkMinerTaskList m1 l1; mkMinerTaskList m2 l2] [] s =
    (s, Ok ([mkFragmentInfo f0 true m0; mkFragmentInfo f1 true m1; mkFragmentInfo f2 true m2],
            [mkMinerTaskList m0 l0'; mkMinerTaskList m1 l1'; mkMinerTaskList m2 l2'])).
Proof.
  intros Hnd HF Hl0 Hl1 Hl2. rewrite !NoDup_cons in Hnd. destruct Hnd as (N0 & N1 & _ & _).
  destruct (remove_one_of_perm _ _ _ Hl0) as (l0' & R0 & P0). destruct (remove_one_of_perm _ _ _ Hl1) as (l1' & R1 & P1).
  destruct (remove_one_of_perm _ _ _ Hl2) as (l2' & R2 & P2).
  exists l0', l1', l2'. split_and!; [done..|].
  erewrite place_fragments_step; [|cbn; rewrite R0; reflexivity|cbn; lia].
  erewrite place_fragments_step; [| |cbn; lia].
  2: { cbn. rewrite (bool_decide_eq_true_2 (m0 ∈ [m0])), (bool_decide_eq_false_2 (m1 ∈ [m0])) by set_solver.
       rewrite R1. reflexivity. }
  erewrite place_fragments_step; [| |cbn; lia].
  2: { cbn. rewrite (bool_decide_eq_true_2 (m0 ∈ [m0; m1])), (bool_decide_eq_true_2 (m1 ∈ [m0; m1])),
         (bool_decide_eq_false_2 (m2 ∈ [m0; m1])) by set_solver.
       rewrite R2. reflexivity. }
  done.
Qed.

(** Every fragment available, the [i]-th fragment with the [i]-th miner. *)
Definition laid_out (miners : list AccountId) (seg : SegmentList) : SegmentInfo :=
  mkSegmentInfo seg.(sl_hash) (zip_with (λ f m, mkFragmentInfo f true m) seg.(sl_fragment_list) miners).

Lemma generate_segments_three m0 m1 m2 needed l0 l1 l2 segs s :
  NoDup [m0; m1; m2] → FragmentCount = 3 →
  Forall (λ seg, length seg.(sl_fragment_list) = 3%nat) needed →
  Z.of_nat (length segs) + Z.of_nat (length needed) <= SegmentCount →
  l0 ≡ₚ column 0 needed → l1 ≡ₚ column 1 needed → l2 ≡ₚ column 2 needed →
  generate_segments (X := X) [] needed
    [mkMinerTaskList m0 l0; mkMinerTaskList m1 l1; mkMinerTaskList m2 l2] segs s =
  (s, Ok (segs ++ (laid_out [m0; m1; m2] <$> needed))).
Proof.
  intros Hnd HF. revert l0 l1 l2 segs.
  induction needed as [|[h fs] needed IH]; intros l0 l1 l2 segs Hall Hlen H0' H1' H2'.
  { cbn. by rewrite app_nil_r. }
  rewrite Forall_cons in Hall. destruct Hall as [Hfs Hall]. cbn [sl_fragment_list] in Hfs.
  destruct fs as [|f0 [|f1 [|f2 [|]]]]; try done. unfold column in H0', H1', H2'. cbn in H0', H1', H2'.
  rewrite <- (merge_sort_Permutation N.le l0) in H0'. rewrite <- (merge_sort_Permutation N.le l1) in H1'.
  rewrite <- (merge_sort_Permutation N.le l2) in H2'.
  destruct (place_three m0 m1 m2 f0 f1 f2 _ _ _ _ _ _ s Hnd HF H0' H1' H2') as (l0' & l1' & l2' & P0 & P1 & P2 & Hrun).
  cbn [generate_segments]. apply bind_Ok.
  exists s, (laid_out [m0; m1; m2] (mkSegmentList h [f0; f1; f2]),
             [mkMinerTaskList m0 l0'; mkMinerTaskList m1 l1'; mkMinerTaskList m2 l2']).
  split; [apply bind_Ok; eexists s, (_, _); split; [exact Hrun|done]|].
  apply bind_Ok. exists s, (segs ++ [laid_out [m0; m1; m2] (mkSegmentList h [f0; f1; f2])]).
  cbn [length] in Hlen. split.
  { unfold try_push. by rewrite (proj2 (Z.ltb_lt _ _)) by lia. }
  rewrite IH; [cbn; by rewrite <- app_assoc|done| |done..]. rewrite length_app. cbn [length]. lia.
Qed.


(** ** Restoring a fragment *)

Lemma update_first_spec {A} (p : A → bool) (f : A → A) l x l' :
  update_first p f l = Some (x, l') →
  p x = true ∧ ∃ pre post, l = pre ++ x :: post ∧ l' = pre ++ f x :: post.
Proof.
  revert l'. induction l as [|y l IH]; intros l' Hu; cbn in Hu; [done|]. destruct (p y) eqn:Hp.
  - simplify_eq. split; [done|]. by exists [], l.
  - destruct (update_first p f l) as [[z l1]|] eqn:Hl; cbn in Hu; simplify_eq.
    destruct (IH _ eq_refl) as (? & pre & post & -> & ->). split; [done|]. by exists (y :: pre), post.
Qed.

(** Exactly one fragment of the file changes. *)
Definition replaced (x y : FragmentInfo) (segs segs' : list SegmentInfo) : Prop :=
  si_hash <$> segs' = si_hash <$> segs ∧
  ∃ pre post, segs ≫= si_fragment_list = pre ++ x :: post ∧ segs' ≫= si_fragment_list = pre ++ y :: post.

Lemma update_fragment_spec p f segs x segs' :
  update_fragment p f segs = Some (x, segs') → p x = true ∧ replaced x (f x) segs segs'.
Proof.
  unfold replaced. revert segs'. induction segs as [|seg segs IH]; intros segs' Hu; cbn in Hu; [done|].
  destruct (update_first p f (si_fragment_list seg)) as [[z frags]|] eqn:Hf.
  - simplify_eq. apply update_first_spec in Hf as (Hp & pre & post & Heq & ->). split; [done|]. split; [done|].
    exists pre, (post ++ (segs ≫= si_fragment_list)). rewrite !bind_cons, Heq. cbn. by rewrite <- !app_assoc.
  - destruct (update_fragment p f segs) as [[z l1]|] eqn:Hl; cbn in Hu; simplify_eq.
    destruct (IH _ eq_refl) as (Hp & Hh & pre & post & He1 & He2). split; [done|]. split; [cbn; by f_equal|].
    exists (si_fragment_list seg ++ pre), post. rewrite !bind_cons, He1, He2. by rewrite <- !app_assoc.
Qed.

Lemma update_fragment_None p f segs :
  update_fragment p f segs = None → Forall (λ x, p x = false) (segs ≫= si_fragment_list).
Proof.
  assert (∀ l, update_first p f l = None → Forall (λ x, p x = false) l) as Hfirst.
  { induction l as [|y l IH]; cbn; [constructor|]. destruct (p y) eqn:Hp; [done|].
    destruct (update_first p f l) as [[]|]; cbn; [done|]. constructor; [done|]. by apply IH. }
  induction segs as [|seg segs IH]; intros Hu; cbn in Hu; [constructor|].
  destruct (update_first p f (si_fragment_list seg)) as [[]|] eqn:Hf; [done|].
  destruct (update_fragment p f segs) as [[]|]; cbn in Hu; [done|].
  rewrite bind_cons, Forall_app. split; [by apply Hfirst|by apply IH].
Qed.

Lemma update_restoral_target_frame miner n s s' :
  update_restoral_target (X := X) miner n s = (s', Ok ()) →
  File s' = File s ∧ RestoralOrder s' = RestoralOrder s.
Proof. unfold update_restoral_target. intros Hrun. inv_ok. done. Qed.

(** C33 A completed restoral. The order is for the sender, still open and gone afterwards; if
    the file exists, the fragment the order names with its former miner is now with the
    sender and available, every other fragment of the file is unchanged, and if no
    such fragment is left the file is unchanged. No other file changes. *)
Theorem restoral_order_complete_spec sender h s s' :
  restoral_order_complete (Signed sender) h s = (s', Ok ()) →
  ∃ order, RestoralOrder s !! h = Some order ∧ order.(or_miner) = sender ∧
    block_number s < order.(or_deadline) ∧ RestoralOrder s' = delete h (RestoralOrder s) ∧
    match File s !! order.(or_file_hash) with
    | None => File s' = File s
    | Some file => ∃ segs,
        File s' = <[order.(or_file_hash) := file <| fi_segment_list := segs |>]> (File s) ∧
        ((∃ avail, replaced (mkFragmentInfo h avail order.(or_origin_miner)) (mkFragmentInfo h true sender)
                     file.(fi_segment_list) segs) ∨
         (segs = file.(fi_segment_list) ∧
          Forall (λ x, ¬ (x.(fg_hash) = h ∧ x.(fg_miner) = order.(or_origin_miner)))
            (segs ≫= si_fragment_list)))
    end.
Proof.
  unfold restoral_order_complete. rewrite transactional_Ok. intros Hrun.
  apply bind_Ok in Hrun as (s1 & who & [-> [= <-]]%ensure_signed_Ok & Hrun).
  apply bind_Ok in Hrun as (s1 & pos & (x & _ & ->)%zoom_Ok & Hrun).
  apply bind_Ok in Hrun as (s1 & [] & [-> _]%ensure_Ok & Hrun).
  apply bind_Ok in Hrun as (s1 & order & [-> Ho]%try_get_Ok & Hrun).
  apply bind_Ok in Hrun as (s1 & [] & [-> Hmine]%ensure_Ok & Hrun). apply bool_decide_eq_true in Hmine.
  apply bind_Ok in Hrun as (s1 & now & [-> ->]%gets_Ok & Hrun).
  apply bind_Ok in Hrun as (s1 & [] & [-> Hdead]%ensure_Ok & Hrun).
  apply bind_Ok in Hrun as (s1 & ex & [-> ->]%contains_key_Ok & Hrun). cbn in Ho, Hdead.
  exists order. split; [done|]. split; [done|]. split; [lia|]. cbn in Hrun.
  destruct (File s !! or_file_hash order) as [file|] eqn:Hfile.
  2: { rewrite bool_decide_eq_false_2 in Hrun by by intros []. cbn in Hrun. inv_ok. done. }
  rewrite bool_decide_eq_true_2 in Hrun by by eexists. cbn in Hrun.
  apply bind_Ok in Hrun as (s2 & [] & Hmut & Hrun).
  apply bind_Ok in Hrun as (s3 & [] & Hrem%remove_at_Ok & Hdep%modify_Ok). subst s' s3.
  apply try_mutate_existing_Ok in Hmut as (v & v' & s4 & Hv & Hf & ->). cbn in Hv. rewrite Hfile in Hv. injection Hv as <-.
  destruct (update_fragment _ _ _) as [[fr segs]|] eqn:Hu.
  - apply update_fragment_spec in Hu as [Hp Hrep]. apply andb_true_iff in Hp as [Hp1 Hp2].
    apply bool_decide_eq_true in Hp1, Hp2.
    apply bind_Ok in Hf as (s5 & [] & (x1 & _ & ->)%zoom_Ok & Hf).
    apply bind_Ok in Hf as (s5 & [] & (x2 & _ & ->)%zoom_Ok & Hf).
    apply bind_Ok in Hf as (s5 & tgt & [-> _]%contains_key_Ok & Hf).
    apply bind_Ok in Hf as (s5 & [] & Htgt & [-> ->]%ret_Ok).
    assert (File s5 = File s ∧ RestoralOrder s5 = RestoralOrder s) as [E1 E2].
    { destruct tgt; [by apply update_restoral_target_frame in Htgt|]. by apply ret_Ok in Htgt as [-> _]. }
    cbn. rewrite E1, E2. split; [done|]. exists segs. split; [done|]. left.
    destruct fr as [fh av fm]. cbn in *. subst fh fm. by exists av.
  - apply ret_Ok in Hf as [-> ->]. cbn. split; [done|]. exists file.(fi_segment_list).
    split; [by destruct file|]. right. split; [done|].
    apply update_fragment_None in Hu. eapply Forall_impl; [exact Hu|]. intros y Hy [H1' H2'].
    cbn in Hy. by rewrite H1', H2', !bool_decide_eq_true_2 in Hy.
Qed.

(** A claimed order is its claimant's until it expires: while the order stands as the
    claim left it, up to [RestoralOrderLife] blocks after the claim no claim of it succeeds, and no other
    miner can ever complete it. *)
Theorem restoral_claim_exclusive a h s s1 :
  claim_restoral_order (Signed a) h s = (s1, Ok ()) → 0 <= RestoralOrderLife < 2 ^ 32 →
  ∀ s2, RestoralOrder s2 !! h = RestoralOrder s1 !! h →
  (block_number s2 <= block_number s + RestoralOrderLife →
   ∀ b s3, claim_restoral_order (Signed b) h s2 ≠ (s3, Ok ())) ∧
  (∀ b s3, b ≠ a → restoral_order_complete (Signed b) h s2 ≠ (s3, Ok ())).
Proof.
  intros Hclaim Hlife s2 Hsame. unfold claim_restoral_order in Hclaim. rewrite transactional_Ok in Hclaim.
  assert (∃ o, RestoralOrder s1 !! h = Some o ∧ or_deadline o = block_number s + RestoralOrderLife ∧ or_miner o = a)
    as (o & Ho & Hd & Hm).
  { inv_ok. unfold deposit_event in *. inv_ok. simplify_eq.
    match goal with H : _ s = (_, Ok true) |- _ => apply zoom_Ok in H as (? & _ & ->) end.
    cbn. rewrite lookup_insert_eq. eexists. split; [done|]. split; [|done].
    cbn. unfold saturated_into. lia. }
  rewrite Ho in Hsame. split.
  - intros Hb b s3 Hrun. unfold claim_restoral_order in Hrun. rewrite transactional_Ok in Hrun.
    apply bind_Ok in Hrun as (? & who & [-> [= <-]]%ensure_signed_Ok & Hrun).
    apply bind_Ok in Hrun as (? & pos & (x & _ & ->)%zoom_Ok & Hrun).
    apply bind_Ok in Hrun as (? & [] & [-> _]%ensure_Ok & Hrun).
    apply bind_Ok in Hrun as (? & now & [-> ->]%gets_Ok & Hrun).
    apply bind_Ok in Hrun as (? & [] & (v & v' & s4 & Hv & Hf & _)%try_mutate_existing_Ok & _).
    cbn in Hv. rewrite Hsame in Hv. injection Hv as <-.
    apply bind_Ok in Hf as (? & [] & [_ Hlt]%ensure_Ok & _). cbn in Hlt. lia.
  - intros b s3 Hne Hrun. unfold restoral_order_complete in Hrun. rewrite transactional_Ok in Hrun.
    apply bind_Ok in Hrun as (? & who & [-> [= <-]]%ensure_signed_Ok & Hrun).
    apply bind_Ok in Hrun as (? & pos & (x & _ & ->)%zoom_Ok & Hrun).
    apply bind_Ok in Hrun as (? & [] & [-> _]%ensure_Ok & Hrun).
    apply bind_Ok in Hrun as (? & order & [-> Ho']%try_get_Ok & Hrun). cbn in Ho'.
    apply bind_Ok in Hrun as (? & [] & [-> Hmine]%ensure_Ok & _). apply bool_decide_eq_true in Hmine. congruence.
Qed.

(** ** Owners *)

Lemma remove_first_owner h acc b rest file s x1 :
  File s !! h = Some file → file.(fi_owner) = b :: rest → b.(ub_user) = acc →
  update_user_space acc 2 (cal_file_size (Z.of_nat (length file.(fi_segment_list)))) (ext s) = (x1, Ok ()) →
  remove_file_owner h acc true s =
  (s <| ext := x1 |> <| File ::= <[h := file <| fi_owner := rest |>]> |>, Ok ()).
Proof.
  intros Hf Ho Hb Hu. unfold remove_file_owner. apply try_mutate_existing_Ok.
  exists file, (file <| fi_owner := rest |>), (s <| ext := x1 |>). split; [done|]. split; [|done].
  rewrite Ho. cbn [list_find]. rewrite decide_True by done.
  apply bind_Ok. exists (s <| ext := x1 |>), (). split.
  - unfold call. rewrite zoom_Ok. by exists x1.
  - apply ret_Ok. split; [done|]. destruct file. cbn in *. by subst.
Qed.

(** A user who declared an existing file twice owns it twice; when it deletes the file both
    entries go as one of several owners, because the loop looks at the owners read before: the file
    stays, with no owner left, and its space stays in service. *)
Theorem delete_leaves_orphan h acc b1 b2 file s x1 x2 :
  let size := cal_file_size (Z.of_nat (length file.(fi_segment_list))) in
  File s !! h = Some file → file.(fi_owner) = [b1; b2] → b1.(ub_user) = acc → b2.(ub_user) = acc →
  file.(fi_stat) ≠ Calculate →
  update_user_space acc 2 size (ext s) = (x1, Ok ()) → update_user_space acc 2 size x1 = (x2, Ok ()) →
  ∃ s', delete_user_file h acc file s = (s', Ok ()) ∧
    File s' !! h = Some (file <| fi_owner := [] |>) ∧ ext s' = x2.
Proof.
  intros size Hf Ho H1' H2' Hst Hu1 Hu2. unfold delete_user_file. rewrite Ho. cbn [for_each length Z.of_nat].
  eexists. split.
  - apply bind_Ok. eexists _, (). split; [apply ensure_Ok; split; [done|by rewrite bool_decide_eq_true]|].
    rewrite !bool_decide_eq_true_2 by done. cbn [Z.ltb].
    apply bind_Ok. eexists _, (). split; [by eapply remove_first_owner|].
    apply bind_Ok. eexists _, (). split; [|done].
    eapply (remove_first_owner _ _ b2 [] (file <| fi_owner := [b2] |>)); [|done|done|exact Hu2].
    cbn. by rewrite lookup_insert_eq.
  - cbn. rewrite lookup_insert_eq. by destruct file.
Qed.

(** ** The block hook *)

(** The entry of file [k]. *)
Definition file_is (k : Hash) (v : option FileInfo) s : Prop := File s !! k = v.

Lemma file_is_call k v {A} (m : M X A) : preserves (file_is k v) (call m).
Proof. by apply preserves_zoom. Qed.

Lemma remove_owner_keeps k v h acc b : h ≠ k → preserves (file_is k v) (remove_file_owner h acc b).
Proof.
  intros Hne. apply preserves_try_mutate_existing.
  - intros file. destruct (list_find _ _) as [[]|]; preserves. apply file_is_call.
  - intros s o Hs. unfold file_is. cbn. by rewrite lookup_partial_alter_ne.
Qed.

Lemma remove_last_owner_keeps k v h acc b : h ≠ k → preserves (file_is k v) (remove_file_last_owner h acc b).
Proof.
  intros Hne. unfold remove_file_last_owner. preserves; try apply file_is_call.
  - destruct a0 as [m c]. preserves; [|apply file_is_call].
    apply preserves_try_mutate_existing; [|done]. intros v0. preserves.
  - apply preserves_modify. intros s Hs. unfold file_is. cbn. by rewrite lookup_delete_ne.
Qed.

Lemma clear_file_of_keeps k v h acc : h ≠ k → preserves (file_is k v) (clear_file_of acc h).
Proof.
  intros Hne. unfold clear_file_of. apply preserves_bind; [by intros s|]. intros [file|]; [|by intros s].
  preserves; by (apply remove_owner_keeps || apply remove_last_owner_keeps).
Qed.

(** The hook that clears the files of an expired user stops at the 300th file of a block
    after taking it off the user's list: the file is neither cleared nor kept for the next block, and the user
    stays its owner. *)
Theorem hook_loses_file acc cleared f rest s s' r :
  length cleared = 299%nat → f.(us_file_hash) ∉ us_file_hash <$> cleared →
  clear_files acc (cleared ++ f :: rest) 0 s = (s', Ok r) →
  r = None ∧ UserHoldFileList s' !! acc = Some (rev rest) ∧
  File s' !! f.(us_file_hash) = File s !! f.(us_file_hash).
Proof.
  intros Hlen Hf Hrun. replace 0 with (299 - Z.of_nat (length cleared)) in Hrun by lia. clear Hlen.
  revert s Hrun. induction cleared as [|g cleared IH]; intros s Hrun.
  - cbn [app clear_files length Z.of_nat] in Hrun. change (299 - 0 + 1 =? 300) with true in Hrun. cbn iota in Hrun.
    apply bind_Ok in Hrun as (s1 & [] & ->%insert_at_Ok & [-> ->]%ret_Ok). cbn. by rewrite lookup_insert_eq.
  - cbn [app clear_files] in Hrun. rewrite (proj2 (Z.eqb_neq _ _)) in Hrun by (cbn [length]; lia).
    apply bind_Ok in Hrun as (s1 & [] & Hc & Hrun). cbn in Hf. apply not_elem_of_cons in Hf as [Hne Hf].
    pose proof (clear_file_of_keeps _ _ (us_file_hash g) acc (not_eq_sym Hne) s eq_refl) as Hk.
    unfold file_is in Hk. rewrite Hc in Hk.
    replace (299 - Z.of_nat (length (g :: cleared)) + 1) with (299 - Z.of_nat (length cleared)) in Hrun by (cbn [length]; lia).
    apply (IH Hf) in Hrun as (? & ? & ?). cbn in Hk. split_and!; [done..|congruence].
Qed.
End files.
