(* ===== verification/FileBankLife.v ===== *)
(** * The life of a file

    A file hash moves through declared deals, the calculation and storage.  The
    abstract life cycle says which moves there are and which call may make which
    one; every dispatchable and the block hook of the file bank is shown to make at
    most its move, for every file. *)
From S2P Require Import Prelude Errors Frame Common Interfaces FileBankData FileBank FileBankProofs.

(** ** The abstract life cycle *)

(** The stage of the open deal and the state of the file. *)
Abbreviation View := (option Z * option FileState)%type (only parsing).

Inductive Move := Declaration | Complete | Finish | Cancel | Delete.

Inductive life : Move → View → View → Prop :=
| life_declare d : life Declaration (d, None) (Some 1, None)
| life_complete k f : life Complete (Some k, f) (Some 2, Some Calculate)
| life_finish k f : life Finish (Some k, Some f) (None, Some Active)
| life_cancel k f : life Cancel (Some k, f) (None, f)
| life_delete d f : life Delete (d, Some f) (d, None).

(** Making a move twice is making it once. *)
Lemma life_compose m v1 v2 v3 : life m v1 v2 → life m v2 v3 → life m v1 v3.
Proof. destruct 1; inversion 1; subst; constructor. Qed.

Section lifecycle.
Context {X : Type} `{!MinerControl X} `{!StorageHandle X} `{!ScheduleFind X} `{!OssFindAuthor X}
  `{!TaskScheduler X} `{!Randomness X} `{!Config} `{!StorageIter}
  `{!MinerQueryLaws X} `{!RandomnessLaws X}.
Implicit Types (s : State X) (h : Hash).

Definition view_of h s : View := (di_stage <$> DealMap s !! h, fi_stat <$> File s !! h).

(** ** Computations that touch neither deals nor files *)

Definition df_is (d : gmap Hash DealInfo) (f : gmap Hash FileInfo) s : Prop := DealMap s = d ∧ File s = f.

Lemma df_call d f {A} (m : M X A) : preserves (df_is d f) (call m).
Proof. by apply preserves_zoom. Qed.

Create HintDb life.
#[local] Hint Resolve df_call : life.

Ltac solve_df :=
  repeat (preserves; try match goal with |- preserves _ (match ?o with _ => _ end) => destruct o end);
  try solve [eauto with life | by apply preserves_modify].

Lemma df_permission d f a b : preserves (df_is d f) (check_permission a b).
Proof. unfold check_permission. solve_df. Qed.
#[local] Hint Resolve df_permission : life.

Lemma df_hold d f acc g (e : DispatchError) : preserves (df_is d f) (hold_list_update acc g e).
Proof. unfold hold_list_update. solve_df. Qed.
#[local] Hint Resolve df_hold : life.

Lemma df_create_bucket d f u n o : preserves (df_is d f) (create_bucket_helper u n o).
Proof. unfold create_bucket_helper, bucket_contains, bucket_get. solve_df. Qed.
#[local] Hint Resolve df_create_bucket : life.

Lemma df_add_to_bucket d f u n h : preserves (df_is d f) (add_file_to_bucket u n h).
Proof. unfold add_file_to_bucket, bucket_get. solve_df. Qed.
#[local] Hint Resolve df_add_to_bucket : life.

Lemma df_first_task d f h c l : preserves (df_is d f) (start_first_task h c l).
Proof. unfold start_first_task. solve_df. Qed.
#[local] Hint Resolve df_first_task : life.

Lemma df_second_task d f h l : preserves (df_is d f) (start_second_task h l).
Proof. unfold start_second_task. solve_df. Qed.
#[local] Hint Resolve df_second_task : life.

Lemma df_unlock d f tasks : preserves (df_is d f) (unlock_tasks tasks).
Proof. unfold unlock_tasks. solve_df. Qed.
#[local] Hint Resolve df_unlock : life.

Lemma assign_segment_reads (idle : list Z) tasks seg : read_only (assign_segment (X := X) idle tasks seg).
Proof.
  unfold assign_segment. apply read_only_bind; [|intros []; eauto with frame].
  apply fold_m_read_only. intros st h. unfold assign_fragment. apply read_only_bind.
  - apply loop_pos_read_only. intros [i l]. unfold assign_round. eauto 10 with frame.
  - intros [?|[]]; eauto with frame.
Qed.

Lemma df_assign d f needed : preserves (df_is d f) (random_assign_miner needed).
Proof.
  unfold random_assign_miner. pose proof (call_read_only (X := X) _ get_all_miner_reads).
  pose proof choose_round_reads. pose proof assign_segment_reads. solve_df.
Qed.
#[local] Hint Resolve df_assign : life.

(** What a computation that returned [Ok] left of the two maps. *)
Lemma df_run {A} (m : M (State X) A) s s' a :
  (∀ d f, preserves (df_is d f) m) → m s = (s', Ok a) → DealMap s' = DealMap s ∧ File s' = File s.
Proof. intros Hm Hrun. specialize (Hm _ _ s (conj eq_refl eq_refl)). by rewrite Hrun in Hm. Qed.

(** ** The file a deal becomes *)

Lemma place_fragments_reads flag frags mark tasks placed :
  read_only (place_fragments (X := X) flag frags mark tasks placed).
Proof.
  revert mark tasks placed. induction frags as [|fr frags IH]; intros; cbn [place_fragments]; [eauto with frame|].
  destruct (place_fragment _ _ _ _) as [[]|]; eauto with frame.
Qed.

Lemma generate_segments_reads share segs tasks acc : read_only (generate_segments (X := X) share segs tasks acc).
Proof.
  revert tasks acc. induction segs as [|seg segs IH]; intros; cbn [generate_segments]; [eauto with frame|].
  apply read_only_bind; [|intros []; eauto with frame]. unfold generate_segment.
  destruct (find _ _); [eauto with frame|]. cbv zeta. apply read_only_bind; [apply place_fragments_reads|].
  intros []. eauto with frame.
Qed.

Lemma generate_file_Ok k segs tasks share user st size s s' :
  generate_file k segs tasks share user st size s = (s', Ok ()) →
  ∃ file, fi_stat file = st ∧ DealMap s' = DealMap s ∧ File s' = <[k := file]> (File s).
Proof.
  intros Hrun. unfold generate_file in Hrun. apply bind_Ok in Hrun as (s1 & l & Hl & Hrun).
  apply generate_segments_reads in Hl as ->. apply bind_Ok in Hrun as (s1 & now & [-> ->]%gets_Ok & Hrun).
  apply bind_Ok in Hrun as (s1 & o & [-> _]%ok_or_Ok & ->%insert_at_Ok). eexists. by split_and!; [|done|done].
Qed.

Lemma df_pending d f deal :
  preserves (df_is d f) (fold_m (λ max_task_count miner_task,
      let count := Z.of_nat (length miner_task.(mt_fragment_list)) in
      let max_task_count := if max_task_count <? count then count else max_task_count in
      pending_count ← gets (λ s, default 0 (PendingReplacements s !! miner_task.(mt_miner)));
      pending_count ← ok_or (checked_add 32 pending_count count) FileBankError.Overflow;
      insert_at PendingReplacements miner_task.(mt_miner) pending_count ;;
      mret max_task_count) 0 deal.(di_assigned_miner) : M (State X) Z).
Proof. solve_df. Qed.

Lemma finish_deal_Ok k deal s s' :
  finish_deal k deal s = (s', Ok ()) →
  ∃ file, fi_stat file = Calculate ∧ DealMap s' = DealMap s ∧ File s' = <[k := file]> (File s).
Proof.
  intros Hrun. unfold finish_deal in Hrun. apply bind_Ok in Hrun as (s1 & [] & Hgen & Hrun).
  apply generate_file_Ok in Hgen as (file & Hst & Hd & Hf). exists file. split; [done|].
  rewrite <- Hd, <- Hf. revert Hrun. apply df_run. intros d f.
  apply preserves_bind; [apply df_pending|]. intros max. unfold bucket_contains, bucket_get, add_user_hold_fileslice. solve_df.
Qed.

(** ** Following the life cycle *)

(** Whatever the outcome: from the view [v], nothing or the move [o]. *)
Definition follows h (o : option Move) (v : View) s : Prop :=
  view_of h s = v ∨ ∃ m, o = Some m ∧ life m v (view_of h s).

Lemma follows_df h mv v {A} (m : M (State X) A) :
  (∀ d f, preserves (df_is d f) m) → preserves (follows h mv v) m.
Proof.
  intros Hm s Hs. destruct (Hm _ _ s (conj eq_refl eq_refl)) as [Hd Hf]. unfold follows, view_of in *. by rewrite Hd, Hf.
Qed.

(** A change of a file that keeps its state. *)
Lemma follows_mutate_file h mv v k (e : DispatchError) (g : FileInfo → M (State X) FileInfo) :
  (∀ x d f, preserves (df_is d f) (g x)) →
  (∀ x s s' x', g x s = (s', Ok x') → fi_stat x' = fi_stat x) →
  preserves (follows h mv v) (try_mutate_existing File k e g).
Proof.
  intros Hg Hstat s Hs. destruct (try_mutate_existing File k e g s) as [s' r] eqn:Hrun. cbn [fst].
  unfold try_mutate_existing, try_mutate, mbind, M_bind, gets, mret, M_ret in Hrun.
  destruct (File s !! k) as [x|] eqn:Hk; [|by injection Hrun as <- _]. cbn in Hrun.
  destruct (Hg x _ _ s (conj eq_refl eq_refl)) as [Hd Hf]. destruct (g x s) as [s1 [x'|e'|]] eqn:Hx; cbn in Hd, Hf.
  - unfold modify in Hrun. injection Hrun as <- _. apply Hstat in Hx. unfold follows, view_of in *. cbn. rewrite Hd, Hf.
    destruct (decide (k = h)) as [->|]; [|by rewrite lookup_partial_alter_ne].
    rewrite lookup_partial_alter_eq. cbn. rewrite Hk in Hs. cbn in Hs. by rewrite Hx.
  - injection Hrun as <- _. unfold follows, view_of in *. by rewrite Hd, Hf.
  - injection Hrun as <- _. unfold follows, view_of in *. by rewrite Hd, Hf.
Qed.

Lemma follows_step h m v s s' :
  follows h (Some m) v s → life m (view_of h s) (view_of h s') → follows h (Some m) v s'.
Proof.
  intros [<-|(m' & [= <-] & Hv)] Hs; right; exists m; (split; [done|]); [done|]. by eapply life_compose.
Qed.

Lemma follows_remove_owner h mv v k acc b : preserves (follows h mv v) (remove_file_owner k acc b).
Proof.
  apply follows_mutate_file.
  - intros x d f. solve_df.
  - intros x s s' x' Hrun. destruct (list_find _ _) as [[]|].
    + by apply bind_Ok in Hrun as (? & ? & _ & [_ ->]%ret_Ok).
    + by apply ret_Ok in Hrun as [_ ->].
Qed.

Lemma follows_remove_last h mv v k acc b :
  (k = h → mv = Some Delete) → preserves (follows h mv v) (remove_file_last_owner k acc b).
Proof.
  intros Hmv.
  unfold remove_file_last_owner. apply preserves_bind; [apply preserves_read_only; eauto with frame|]. intros x.
  cbv zeta. apply preserves_bind.
  - apply follows_df. intros d f. apply preserves_for_each. intros [m c]. solve_df.
    by apply preserves_try_mutate_existing; [intros ?; solve_df|].
  - intros _. apply preserves_bind; [apply follows_df; intros; solve_df|]. intros _.
    apply preserves_bind; [apply follows_df; intros; solve_df|]. intros _.
    apply preserves_modify. intros s Hs. destruct (decide (k = h)) as [->|].
    + rewrite Hmv in * by done. destruct (File s !! h) as [x'|] eqn:Hf.
      * eapply follows_step; [exact Hs|]. unfold view_of. cbn. rewrite lookup_delete_eq, Hf. constructor.
      * unfold follows, view_of in *. cbn. by rewrite lookup_delete_eq, Hf in *.
    + unfold follows, view_of in *. cbn. by rewrite lookup_delete_ne.
Qed.

Lemma follows_clear_file h v acc k : preserves (follows h (Some Delete) v) (clear_file_of acc k).
Proof.
  unfold clear_file_of. apply preserves_bind; [apply preserves_read_only; eauto with frame|]. intros [x|]; [|by intros s].
  preserves; apply follows_remove_owner || by apply follows_remove_last.
Qed.

Lemma follows_clear_files h v acc l count : preserves (follows h (Some Delete) v) (clear_files acc l count).
Proof.
  revert count. induction l as [|x l IH]; intros count; cbn [clear_files]; preserves.
  - by apply preserves_modify.
  - apply follows_clear_file.
  - apply IH.
Qed.

Lemma follows_clear_users h v l count : preserves (follows h (Some Delete) v) (clear_users l count).
Proof.
  revert count. induction l as [|acc l IH]; intros count; cbn [clear_users]; preserves.
  destruct a as [held|]; [|apply IH]. apply preserves_bind; [apply follows_clear_files|]. intros [k|]; [|by intros s].
  preserves; try apply IH; try (by apply preserves_modify); apply follows_df; intros; solve_df.
Qed.

Lemma follows_on_initialize h v now : preserves (follows h (Some Delete) v) (on_initialize now).
Proof.
  unfold on_initialize. preserves; try apply follows_clear_users; try (by apply preserves_modify).
  apply follows_df; intros; solve_df.
Qed.

(** ** The dispatchables *)

Lemma follows_upload h mv v o k deal_info brief size :
  (k = h → mv = Some Declaration) → preserves (follows h mv v) (upload_declaration o k deal_info brief size).
Proof.
  intros Hmv.
  apply preserves_transactional_Ok. intros s s' [] Hs Hrun.
  apply bind_Ok in Hrun as (s1 & who & [-> _]%ensure_signed_Ok & Hrun).
  apply bind_Ok in Hrun as (s1 & p & Hp & Hrun). apply df_run in Hp as [Hd1 Hf1]; [|eauto with life].
  do 4 (apply bind_Ok in Hrun as (s2 & [] & [-> _]%ensure_Ok & Hrun)).
  apply bind_Ok in Hrun as (s2 & av & Hav & Hrun). apply df_run in Hav as [Hd2 Hf2]; [|eauto with life].
  apply bind_Ok in Hrun as (s3 & [] & [-> _]%ensure_Ok & Hrun).
  apply bind_Ok in Hrun as (s3 & ex & [-> ->]%contains_key_Ok & Hrun).
  assert (follows h mv v s2) as Hs2 by (unfold follows, view_of in *; by rewrite Hd2, Hf2, Hd1, Hf1).
  clear s s1 Hs Hd1 Hf1 Hd2 Hf2 av p. apply bind_Ok in Hrun as (s3 & [] & Hbody & ->%modify_Ok).
  change (follows h mv v s3). case_bool_decide as Hex.
  - eapply preserves_run; [|exact Hs2|exact Hbody]. unfold bucket_contains, bucket_get, add_user_hold_fileslice.
    preserves; try solve [apply follows_df; intros; solve_df].
    apply follows_mutate_file; [intros; solve_df|]. intros x t t' x' Hx. by inv_ok.
  - apply bind_Ok in Hbody as (s4 & [] & Hlock & Hgen). apply df_run in Hlock as [Hd4 Hf4]; [|eauto with life].
    unfold generate_deal in Hgen. apply bind_Ok in Hgen as (s5 & tasks & Hass & Hgen). cbv zeta in Hgen.
    apply df_run in Hass as [Hd5 Hf5]; [|eauto with life].
    apply bind_Ok in Hgen as (s6 & [] & Htask & ->%insert_at_Ok). apply df_run in Htask as [Hd6 Hf6]; [|eauto with life].
    unfold follows, view_of in *. cbn. rewrite Hd6, Hf6, Hd5, Hf5, Hd4, Hf4.
    destruct (decide (k = h)) as [->|]; [|by rewrite lookup_insert_ne].
    rewrite Hmv in * by done. rewrite lookup_insert_eq. destruct (File s2 !! h) eqn:Hf; [by destruct Hex|].
    destruct Hs2 as [<-|(m & [= <-] & Hs2)]; right; exists Declaration; (split; [done|]).
    + constructor.
    + eapply life_compose; [exact Hs2|]. constructor.
Qed.

Lemma follows_reassign h mv v o k count l :
  (k = h → 5 <= count → mv = Some Cancel) → preserves (follows h mv v) (deal_reassign_miner o k count l).
Proof.
  intros Hmv. apply preserves_transactional_Ok. intros s s' [] Hs Hrun.
  apply bind_Ok in Hrun as (s1 & [] & [-> _]%ensure_root_Ok & Hrun). destruct (Z.ltb_spec count 5).
  - apply try_mutate_existing_Ok in Hrun as (d & d' & s1 & Hd & Hf & ->).
    assert (DealMap s1 = DealMap s ∧ File s1 = File s) as [Ed Ef].
    { revert Hf. apply df_run. intros. solve_df. }
    assert (di_stage d' = di_stage d) as Hst.
    { apply bind_Ok in Hf as (? & ? & _ & Hf). apply bind_Ok in Hf as (? & ? & _ & Hf). cbv zeta in Hf.
      by apply bind_Ok in Hf as (? & ? & _ & [_ ->]%ret_Ok). }
    unfold follows, view_of in *. cbn. rewrite Ed, Ef. destruct (decide (k = h)) as [->|].
    + rewrite lookup_insert_eq. rewrite Hd in Hs. cbn in *. by rewrite Hst.
    + by rewrite lookup_insert_ne.
  - apply bind_Ok in Hrun as (s1 & d & [-> Hd]%try_get_Ok & Hrun). cbv zeta in Hrun.
    apply bind_Ok in Hrun as (s1 & [] & Hu & Hrun). apply df_run in Hu as [Ed1 Ef1]; [|eauto with life].
    apply bind_Ok in Hrun as (s2 & [] & Hu & ->%remove_at_Ok). apply df_run in Hu as [Ed2 Ef2]; [|eauto with life].
    unfold follows, view_of in *. cbn. rewrite Ed2, Ef2, Ed1, Ef1. destruct (decide (k = h)) as [->|].
    + rewrite Hmv in * by done. rewrite lookup_delete_eq. rewrite Hd in Hs.
      destruct Hs as [<-|(m & [= <-] & Hs)]; right; exists Cancel; (split; [done|]); [constructor|].
      eapply life_compose; [exact Hs|]. constructor.
    + by rewrite lookup_delete_ne.
Qed.

Lemma follows_delete_user_file h mv v k acc x :
  (k = h → mv = Some Delete) → preserves (follows h mv v) (delete_user_file k acc x).
Proof. intros Hmv. unfold delete_user_file. preserves; apply follows_remove_owner || by apply follows_remove_last. Qed.

Lemma df_bucket_remove d f k acc x : preserves (df_is d f) (bucket_remove_file k acc x).
Proof. unfold bucket_remove_file, bucket_get. solve_df. Qed.
#[local] Hint Resolve df_bucket_remove : life.

Lemma follows_owner_push h mv v k brief (e : DispatchError) :
  preserves (follows h mv v) (try_mutate_existing File k e (λ file,
    owner ← ok_or (try_push OwnerLimit file.(fi_owner) brief) FileBankError.BoundedVecError;
    mret (file <| fi_owner := owner |>))).
Proof. apply follows_mutate_file; [intros; solve_df|]. intros x t t' x' Hx. by inv_ok. Qed.

Ltac solve_follows :=
  preserves; try lazymatch goal with
  | |- preserves _ (delete_user_file _ _ _) => apply follows_delete_user_file; try done
  | |- preserves _ (remove_file_owner _ _ _) => apply follows_remove_owner
  | |- preserves _ (remove_file_last_owner _ _ _) => apply follows_remove_last; try done
  | |- preserves _ (try_mutate_existing _ _ _ _) => first [apply follows_owner_push | idtac]
  | |- _ => solve [apply follows_df; intros; unfold remove_user_hold_file_list, add_user_hold_fileslice; solve_df]
  end.

Lemma follows_transfer h mv v o brief k :
  (k = h → mv = Some Delete) → preserves (follows h mv v) (ownership_transfer o brief k).
Proof. intros Hmv. unfold ownership_transfer, check_is_file_owner, bucket_contains, bucket_get. solve_follows. Qed.

Lemma follows_report_deal h mv v who failed k s s' l :
  (k = h → mv = Some Complete) →
  follows h mv v s → report_deal who failed k s = (s', Ok l) → follows h mv v s'.
Proof.
  intros Hmv Hs Hrun. unfold report_deal in Hrun. apply bind_Ok in Hrun as (s1 & ex & [-> ->]%contains_key_Ok & Hrun).
  case_bool_decide as Hex; cbn [negb] in Hrun; [|by apply ret_Ok in Hrun as [-> _]].
  destruct Hex as [d Hd]. apply try_mutate_Ok in Hrun as (s1 & o & Hf & ->). rewrite Hd in Hf.
  apply bind_Ok in Hf as (s2 & d0 & [-> [= <-]]%unwrap_Ok & Hf). cbv zeta in Hf.
  assert (∃ d', o = Some d' ∧ ((DealMap s1 = DealMap s ∧ File s1 = File s ∧ di_stage d' = di_stage d) ∨
    (di_stage d' = 2 ∧ ∃ file, fi_stat file = Calculate ∧ DealMap s1 = DealMap s ∧ File s1 = <[k := file]> (File s))))
    as (d' & -> & Hcase).
  { case_bool_decide; [|apply ret_Ok in Hf as [-> [= -> _]]; eexists; split; [done|]; by left].
    apply bind_Ok in Hf as (s2 & d1 & Hd1 & Hf).
    assert (s2 = s ∧ di_stage d1 = di_stage d) as [-> Hst].
    { destruct (negb _); [|by apply ret_Ok in Hd1 as [-> ->]].
      by apply bind_Ok in Hd1 as (? & ? & [-> _]%ok_or_Ok & [-> ->]%ret_Ok). }
    destruct (_ =? _)%nat.
    - apply bind_Ok in Hf as (s3 & [] & Hfin & [-> [= -> _]]%ret_Ok). apply finish_deal_Ok in Hfin.
      eexists. split; [done|]. by right.
    - apply ret_Ok in Hf as [-> [= -> _]]. eexists. split; [done|]. left. by rewrite Hst. }
  unfold follows, view_of in *. cbn. destruct (decide (k = h)) as [->|].
  - rewrite lookup_partial_alter_eq. cbn. rewrite Hd in Hs. cbn in Hs. destruct Hcase as [(_ & Ef & Hst)|(Hst & x & Hx & _ & Ef)].
    + by rewrite Ef, Hst.
    + rewrite Hmv in * by done. rewrite Ef, lookup_insert_eq, Hst. cbn. rewrite Hx.
      destruct Hs as [<-|(m & [= <-] & Hs)]; right; exists Complete; (split; [done|]); [constructor|].
      eapply life_compose; [exact Hs|]. constructor.
  - rewrite lookup_partial_alter_ne by done.
    destruct Hcase as [(Ed & Ef & _)|(_ & x & _ & Ed & Ef)]; rewrite Ed, Ef; [done|]. by rewrite lookup_insert_ne.
Qed.

Lemma follows_transfer_report h mv v o l :
  (h ∈ l → mv = Some Complete) → preserves (follows h mv v) (transfer_report o l).
Proof.
  intros Hmv. apply preserves_transactional_Ok. intros s s' [] Hs Hrun.
  apply bind_Ok in Hrun as (s1 & who & [-> _]%ensure_signed_Ok & Hrun).
  apply bind_Ok in Hrun as (s1 & [] & [-> _]%ensure_Ok & Hrun).
  apply bind_Ok in Hrun as (s1 & failed & Hfold & ->%modify_Ok). change (follows h mv v s1).
  revert Hfold. generalize (@nil Hash). revert s Hs. induction l as [|k l IH]; intros s Hs acc Hfold; cbn [fold_m] in Hfold.
  - by apply ret_Ok in Hfold as [-> _].
  - apply bind_Ok in Hfold as (s2 & acc' & Hr & Hfold). eapply IH; [|eapply follows_report_deal; [|exact Hs|exact Hr]|exact Hfold];
      intros; apply Hmv; subst; by constructor.
Qed.

Lemma follows_calculate_end h mv v o k :
  (k = h → mv = Some Finish) → preserves (follows h mv v) (calculate_end o k).
Proof.
  intros Hmv. apply preserves_transactional_Ok. intros s s' [] Hs Hrun.
  apply bind_Ok in Hrun as (s1 & [] & [-> _]%ensure_root_Ok & Hrun).
  apply bind_Ok in Hrun as (s1 & d & [-> Hd]%try_get_Ok & Hrun).
  apply bind_Ok in Hrun as (s1 & [] & Hu & Hrun). apply df_run in Hu as [Ed Ef]; [|intros; solve_df].
  apply bind_Ok in Hrun as (s2 & [] & Hm & Hrun). apply bind_Ok in Hrun as (s3 & [] & ->%remove_at_Ok & ->%modify_Ok).
  apply try_mutate_existing_Ok in Hm as (x & x' & s3 & Hx & [-> ->]%ret_Ok & ->).
  unfold follows, view_of in *. cbn. rewrite Ed. rewrite Ef in *. destruct (decide (k = h)) as [->|].
  - rewrite Hmv in * by done. rewrite lookup_delete_eq, lookup_insert_eq. rewrite Hd, Hx in Hs.
    destruct Hs as [<-|(m & [= <-] & Hs)]; right; exists Finish; (split; [done|]); [constructor|].
    eapply life_compose; [exact Hs|]. constructor.
  - by rewrite lookup_delete_ne, lookup_insert_ne.
Qed.

Lemma follows_delete_file h mv v o owner l :
  (h ∈ l → mv = Some Delete) → preserves (follows h mv v) (delete_file o owner l).
Proof.
  intros Hmv. unfold delete_file. apply preserves_transactional.
  do 4 (apply preserves_bind; [solve_follows|intros ?]).
  apply preserves_bind; [|intros _; solve_follows]. apply preserves_for_each_in. intros k Hk.
  solve_follows. intros ->. by apply Hmv.
Qed.

Lemma follows_delete_bucket h v o owner name : preserves (follows h (Some Delete) v) (delete_bucket o owner name).
Proof.
  unfold delete_bucket, bucket_contains, bucket_get, bucket_remove. solve_follows.
Qed.

Lemma df_restoral_target d f m n : preserves (df_is d f) (update_restoral_target m n).
Proof. apply preserves_try_mutate_existing; [intros; solve_df|done]. Qed.
#[local] Hint Resolve df_restoral_target : life.

(** The changes of one fragment keep the state of the file. *)
Ltac solve_fragment :=
  apply follows_mutate_file;
  [ intros ? ? ?; solve_df
  | intros ? ? ? ? Hx; inv_ok; repeat (case_match; inv_ok); simplify_eq; done ].

Lemma follows_generate_order h mv v o k fr : preserves (follows h mv v) (generate_restoral_order o k fr).
Proof. unfold generate_restoral_order. solve_follows. solve_fragment. Qed.

Lemma follows_noexist_order h mv v o m k fr : preserves (follows h mv v) (claim_restoral_noexist_order o m k fr).
Proof. unfold claim_restoral_noexist_order. solve_follows. solve_fragment. Qed.

Lemma follows_complete h mv v o fr : preserves (follows h mv v) (restoral_order_complete o fr).
Proof. unfold restoral_order_complete. solve_follows. solve_fragment. Qed.

Lemma df_claim d f o fr : preserves (df_is d f) (claim_restoral_order o fr).
Proof. unfold claim_restoral_order. solve_df. apply preserves_try_mutate_existing; [intros; solve_df|done]. Qed.

Lemma df_replace d f o l : preserves (df_is d f) (replace_file_report o l).
Proof. unfold replace_file_report, filler_contains, filler_remove. solve_df. Qed.

Lemma df_upload_filler d f o t l : preserves (df_is d f) (upload_filler o t l).
Proof. unfold upload_filler, filler_contains, filler_put. solve_df. Qed.

Lemma df_delete_filler d f o k : preserves (df_is d f) (delete_filler o k).
Proof. unfold delete_filler, filler_contains, filler_remove. solve_df. Qed.

Lemma df_bucket d f o a n : preserves (df_is d f) (create_bucket o a n).
Proof. unfold create_bucket. solve_df. Qed.

Lemma df_target d f m n : preserves (df_is d f) (create_restoral_target m n).
Proof. unfold create_restoral_target. solve_df. Qed.
#[local] Hint Resolve df_target : life.

Lemma df_exit_prep d f o : preserves (df_is d f) (miner_exit_prep o).
Proof. unfold miner_exit_prep. solve_df. Qed.

Lemma df_exit d f o m : preserves (df_is d f) (miner_exit o m).
Proof. unfold miner_exit, clear_filler. solve_df. Qed.

Lemma df_withdraw d f o : preserves (df_is d f) (miner_withdraw o).
Proof. unfold miner_withdraw. solve_df. Qed.

Lemma df_force_exit d f m : preserves (df_is d f) (force_miner_exit m).
Proof. unfold force_miner_exit, clear_filler. solve_df. Qed.

(** The calls of the pallet, the block hook, and the forced exit the audit pallet
    orders. *)
Inductive bank_call :=
| BUploadDeclaration (o : Origin) (h : Hash) (l : list SegmentList) (b : UserBrief) (size : Z)
| BDealReassign (o : Origin) (h : Hash) (count l : Z)
| BTransfer (o : Origin) (b : UserBrief) (h : Hash)
| BReport (o : Origin) (l : list Hash)
| BCalculateEnd (o : Origin) (h : Hash)
| BReplace (o : Origin) (l : list Hash)
| BDeleteFile (o : Origin) (a : AccountId) (l : list Hash)
| BUploadFiller (o : Origin) (t : AccountId) (l : list FillerInfo)
| BDeleteFiller (o : Origin) (h : Hash)
| BCreateBucket (o : Origin) (a : AccountId) (n : list Z)
| BDeleteBucket (o : Origin) (a : AccountId) (n : list Z)
| BGenerateOrder (o : Origin) (h fr : Hash)
| BClaimOrder (o : Origin) (fr : Hash)
| BClaimNoexist (o : Origin) (m : AccountId) (h fr : Hash)
| BOrderComplete (o : Origin) (fr : Hash)
| BExitPrep (o : Origin)
| BExit (o : Origin) (m : AccountId)
| BWithdraw (o : Origin)
| BHook (now : BlockNumber)
| BForceExit (m : AccountId).

Definition exec_bank (c : bank_call) : M (State X) unit :=
  match c with
  | BUploadDeclaration o h l b size => upload_declaration o h l b size
  | BDealReassign o h count l => deal_reassign_miner o h count l
  | BTransfer o b h => ownership_transfer o b h
  | BReport o l => transfer_report o l
  | BCalculateEnd o h => calculate_end o h
  | BReplace o l => replace_file_report o l
  | BDeleteFile o a l => delete_file o a l
  | BUploadFiller o t l => upload_filler o t l
  | BDeleteFiller o h => delete_filler o h
  | BCreateBucket o a n => create_bucket o a n
  | BDeleteBucket o a n => delete_bucket o a n
  | BGenerateOrder o h fr => generate_restoral_order o h fr
  | BClaimOrder o fr => claim_restoral_order o fr
  | BClaimNoexist o m h fr => claim_restoral_noexist_order o m h fr
  | BOrderComplete o fr => restoral_order_complete o fr
  | BExitPrep o => miner_exit_prep o
  | BExit o m => miner_exit o m
  | BWithdraw o => miner_withdraw o
  | BHook now => on_initialize now
  | BForceExit m => force_miner_exit m
  end.

(** The move a call may make with the file [h]. *)
Definition move_of (c : bank_call) (h : Hash) : option Move :=
  let only (b : bool) m := if b then Some m else None in
  match c with
  | BUploadDeclaration _ k _ _ _ => only (bool_decide (k = h)) Declaration
  | BReport _ l => only (bool_decide (h ∈ l)) Complete
  | BCalculateEnd _ k => only (bool_decide (k = h)) Finish
  | BDealReassign _ k count _ => only (bool_decide (k = h) && (5 <=? count)) Cancel
  | BTransfer _ _ k => only (bool_decide (k = h)) Delete
  | BDeleteFile _ _ l => only (bool_decide (h ∈ l)) Delete
  | BDeleteBucket _ _ _ | BHook _ => Some Delete
  | _ => None
  end.

Lemma exec_bank_follows h c v : preserves (follows h (move_of c h) v) (exec_bank c).
Proof.
  destruct c; cbn [exec_bank move_of].
  - apply follows_upload. intros ->. by rewrite bool_decide_eq_true_2.
  - apply follows_reassign. intros -> ?. rewrite bool_decide_eq_true_2, (proj2 (Z.leb_le _ _)) by done. done.
  - apply follows_transfer. intros ->. by rewrite bool_decide_eq_true_2.
  - apply follows_transfer_report. intros ?. by rewrite bool_decide_eq_true_2.
  - apply follows_calculate_end. intros ->. by rewrite bool_decide_eq_true_2.
  - apply follows_df. intros. apply df_replace.
  - apply follows_delete_file. intros ?. by rewrite bool_decide_eq_true_2.
  - apply follows_df. intros. apply df_upload_filler.
  - apply follows_df. intros. apply df_delete_filler.
  - apply follows_df. intros. apply df_bucket.
  - apply follows_delete_bucket.
  - apply follows_generate_order.
  - apply follows_df. intros. apply df_claim.
  - apply follows_noexist_order.
  - apply follows_complete.
  - apply follows_df. intros. apply df_exit_prep.
  - apply follows_df. intros. apply df_exit.
  - apply follows_df. intros. apply df_withdraw.
  - apply follows_on_initialize.
  - apply follows_df. intros. apply df_force_exit.
Qed.

(** C27 Every call of the file bank refines the life cycle of files.  For every file hash and whatever the
    outcome, a call leaves the deal's stage and the file's state alone or makes the one move of its kind:
    only a declaration of a hash without a file opens a deal, only a report on an open deal enters the file in
    calculation, only the end of the calculation makes it active and closes the deal, only the last
    reassignment drops a deal, and only the calls that delete or hand over the file and the block hook
    remove it. *)
Theorem file_lifecycle c h s :
  let v := view_of h s in
  let v' := view_of h (exec_bank c s).1 in
  v' = v ∨ ∃ m, move_of c h = Some m ∧ life m v v'.
Proof. apply (exec_bank_follows h c (view_of h s) s). by left. Qed.
End lifecycle.
