(* ===== verification/FileBankTypes.v ===== *)
(** * The file-bank pallet: the types of its storage

    The model keeps a [BoundedVec] as a list and a machine integer as a [Z].  Here
    is that nothing is lost by it: in every state the pallet reaches, every list in
    storage is within the bound of its type and every counter within its width, so the
    storage is a value of the types the source declares. *)
From S2P Require Import Prelude Errors Frame Common Interfaces FileBankData FileBank FileBankProofs FileBankLife.

Section types.
Context {X : Type} `{!MinerControl X} `{!StorageHandle X} `{!ScheduleFind X} `{!OssFindAuthor X}
  `{!TaskScheduler X} `{!Randomness X} `{!Config} `{!StorageIter}.
Implicit Types (s : State X).

(** ** Well-typed values *)

Definition bounded {A} (limit : Z) (l : list A) : Prop := Z.of_nat (length l) <= limit.

Definition brief_ok (b : UserBrief) : Prop :=
  bounded NameStrLimit b.(ub_file_name) ∧ bounded NameStrLimit b.(ub_bucket_name).

Definition segments_ok (l : list SegmentList) : Prop :=
  bounded SegmentCount l ∧ Forall (λ seg, bounded FragmentCount seg.(sl_fragment_list)) l.

Definition infos_ok (l : list SegmentInfo) : Prop :=
  bounded SegmentCount l ∧ Forall (λ seg, bounded FragmentCount seg.(si_fragment_list)) l.

Definition tasks_typed (l : list MinerTaskList) : Prop :=
  bounded StringLimit l ∧ Forall (λ t, bounded MissionCount t.(mt_fragment_list)) l.

Record deal_ok (d : DealInfo) : Prop := {
  deal_stage : is_u8 d.(di_stage);
  deal_count : is_u8 d.(di_count);
  deal_segments : segments_ok d.(di_segment_list);
  deal_needed : segments_ok d.(di_needed_list);
  deal_user : brief_ok d.(di_user);
  deal_tasks : tasks_typed d.(di_assigned_miner);
  deal_share : infos_ok d.(di_share_info);
  deal_complete : bounded FragmentCount d.(di_complete_list)
}.

Record file_ok (f : FileInfo) : Prop := {
  file_segments : infos_ok f.(fi_segment_list);
  file_owners : bounded OwnerLimit f.(fi_owner);
  file_briefs : Forall brief_ok f.(fi_owner);
  file_completion : is_u32 f.(fi_completion)
}.

Definition bucket_ok (b : BucketInfo) : Prop :=
  bounded FileListLimit b.(bk_object_list) ∧ bounded StringLimit b.(bk_authority).

Definition order_ok (o : RestoralOrderInfo) : Prop :=
  is_u32 o.(or_count) ∧ is_u32 o.(or_gen_block) ∧ is_u32 o.(or_deadline).

(** A bucket under its name. *)
Definition named_ok (name : list Z) (b : BucketInfo) : Prop := bounded NameStrLimit name ∧ bucket_ok b.

Definition names_ok (l : list (list Z)) : Prop := bounded BucketLimit l ∧ Forall (bounded NameStrLimit) l.

Record typed s : Prop := {
  ty_deals : map_Forall (λ _, deal_ok) (DealMap s);
  ty_files : map_Forall (λ _, file_ok) (File s);
  ty_held : map_Forall (λ _, bounded StringLimit) (UserHoldFileList s);
  ty_pending : map_Forall (λ _, is_u32) (PendingReplacements s);
  ty_lock : map_Forall (λ _, is_u32) (MinerLock s);
  ty_buckets : map_Forall (λ _, map_Forall named_ok) (Bucket s);
  ty_names : map_Forall (λ _, names_ok) (UserBucketList s);
  ty_orders : map_Forall (λ _, order_ok) (RestoralOrder s);
  ty_targets : map_Forall (λ _ t, is_u32 t.(rt_cooling_block)) (RestoralTarget s);
  ty_clear : bounded 5000 (ClearUserList s);
  ty_block : is_u32 (block_number s)
}.

(** The constants the pallet is configured with are unsigned. *)
Class UnsignedConfig : Prop := {
  unsigned_day : 0 <= OneDay;
  unsigned_string : 0 <= StringLimit;
  unsigned_files : 0 <= FileListLimit;
  unsigned_buckets : 0 <= BucketLimit;
  unsigned_segments : 0 <= SegmentCount;
  unsigned_fragments : 0 <= FragmentCount;
  unsigned_missions : 0 <= MissionCount;
  unsigned_life : 0 <= RestoralOrderLife
}.
Context `{!UnsignedConfig}.

(** Arguments of the types the dispatchables declare. *)
Definition args_typed (c : bank_call) : Prop :=
  match c with
  | BUploadDeclaration _ _ l b _ => segments_ok l ∧ brief_ok b
  | BDealReassign _ _ count _ => is_u8 count
  | BTransfer _ b _ => brief_ok b
  | BCreateBucket _ _ n => bounded NameStrLimit n
  | _ => True
  end.

(** ** Lists and integers *)

Lemma bounded_push {A} limit (l l' : list A) x : try_push limit l x = Some l' → bounded limit l'.
Proof. unfold try_push, bounded. case_match; [|done]. intros [= <-]. rewrite length_app. cbn. lia. Qed.

Lemma bounded_into {A} limit (l l' : list A) : try_into_bounded limit l = Some l' → l' = l ∧ bounded limit l'.
Proof. unfold try_into_bounded, bounded. case_match; [|done]. intros [= <-]. split; [done|lia]. Qed.

Lemma bounded_filter {A} limit (P : A → Prop) `{∀ x, Decision (P x)} l : bounded limit l → bounded limit (filter P l).
Proof. unfold bounded. pose proof (length_filter P l). lia. Qed.

Lemma bounded_delete {A} limit (l : list A) i : bounded limit l → bounded limit (delete i l).
Proof. unfold bounded. pose proof (sublist_length _ _ (sublist_delete l i)). lia. Qed.

Lemma checked_add_u32 a b c : 0 <= a → 0 <= b → checked_add 32 a b = Some c → is_u32 c.
Proof. intros ? ? [-> ?]%checked_add_Some. unfold in_width. lia. Qed.

(** ** Stores of well-typed values *)

Ltac typed_store :=
  intros ?; unfold insert_at, put; apply hoare_modify; intros s []; split; cbn; try done;
  try (apply map_Forall_insert_2; done).

Lemma store_deal k d : deal_ok d → hoare typed (insert_at DealMap k d) (λ _, True).
Proof. typed_store. Qed.
Lemma store_file k f : file_ok f → hoare typed (insert_at File k f) (λ _, True).
Proof. typed_store. Qed.
Lemma store_held a l : bounded StringLimit l → hoare typed (insert_at UserHoldFileList a l) (λ _, True).
Proof. typed_store. Qed.
Lemma store_pending a n : is_u32 n → hoare typed (insert_at PendingReplacements a n) (λ _, True).
Proof. typed_store. Qed.
Lemma store_lock a n : is_u32 n → hoare typed (insert_at MinerLock a n) (λ _, True).
Proof. typed_store. Qed.
Lemma store_names a l : names_ok l → hoare typed (insert_at UserBucketList a l) (λ _, True).
Proof. typed_store. Qed.
Lemma store_order k o : order_ok o → hoare typed (insert_at RestoralOrder k o) (λ _, True).
Proof. typed_store. Qed.
Lemma store_target a t : is_u32 t.(rt_cooling_block) → hoare typed (insert_at RestoralTarget a t) (λ _, True).
Proof. typed_store. Qed.

(** Removals and changes of fields whose types say nothing. *)
Ltac typed_free := apply hoare_modify; intros s []; split; cbn; try done; by apply map_Forall_delete.

Lemma free_call {A} (m : M X A) : hoare typed (call m) (λ _, True).
Proof. apply hoare_preserves. apply preserves_zoom. by intros s x []. Qed.
Lemma free_event e : hoare typed (deposit_event (X := X) e) (λ _, True).
Proof. typed_free. Qed.
Lemma free_deal k : hoare typed (remove_at DealMap k) (λ _, True).
Proof. typed_free. Qed.
Lemma free_file k : hoare typed (remove_at File k) (λ _, True).
Proof. typed_free. Qed.
Lemma free_held k : hoare typed (remove_at UserHoldFileList k) (λ _, True).
Proof. typed_free. Qed.
Lemma free_names k : hoare typed (remove_at UserBucketList k) (λ _, True).
Proof. typed_free. Qed.
Lemma free_order k : hoare typed (remove_at RestoralOrder k) (λ _, True).
Proof. typed_free. Qed.
Lemma free_fillers k : hoare typed (remove_at FillerMap k) (λ _, True).
Proof. typed_free. Qed.
Lemma free_filler_put a h f : hoare typed (filler_put a h f) (λ _, True).
Proof. typed_free. Qed.
Lemma free_filler_remove a h : hoare typed (filler_remove a h) (λ _, True).
Proof. typed_free. Qed.

Lemma read_any {A} (m : M (State X) A) : read_only m → hoare typed m (λ _, True).
Proof. intros Hm. by apply hoare_read. Qed.

Create HintDb typed.
#[local] Hint Resolve store_deal store_file store_held store_pending store_lock store_names store_order store_target
  free_call free_event free_deal free_file free_held free_names free_order free_fillers free_filler_put
  free_filler_remove : typed.

(** Operations of the pallet: by a lemma, or as a read. *)
Ltac typed_op := first [solve [eauto with typed] | apply read_any; solve [eauto with frame] ].
Ltac typed_step := hoare_step ltac:(typed_op).

(** One bind, with the names of the result and of what is known of it. *)
Tactic Notation "step" simple_intropattern(x) simple_intropattern(H) :=
  eapply hoare_bind; [hoare_head ltac:(typed_op)|cbv beta; intros x H].

(** ** Buckets *)

Lemma buckets_typed s u : typed s → map_Forall named_ok (default ∅ (Bucket s !! u)).
Proof. intros []. destruct (Bucket s !! u) as [m|] eqn:Hm; [by eapply ty_buckets0|apply map_Forall_empty]. Qed.

Lemma bucket_get_typed u n : hoare typed (bucket_get u n) (λ o, ∀ b, o = Some b → named_ok n b).
Proof.
  apply hoare_read; [unfold bucket_get; eauto with frame|]. intros s o Hs Hrun b ->.
  apply gets_Ok in Hrun as [_ Hb]. by apply (buckets_typed s u Hs).
Qed.

Lemma buckets_change (f : gmap AccountId (gmap (list Z) BucketInfo) → gmap AccountId (gmap (list Z) BucketInfo)) :
  (∀ s, typed s → map_Forall (λ _, map_Forall named_ok) (f (Bucket s))) →
  hoare typed (modify (λ s, s <| Bucket ::= f |>)) (λ _, True).
Proof. intros Hf. apply hoare_modify. intros s Hs. pose proof (Hf s Hs). by destruct Hs. Qed.

Lemma bucket_put_typed u n b : named_ok n b → hoare typed (bucket_put u n b) (λ _, True).
Proof.
  intros Hb. apply buckets_change. intros s Hs. apply map_Forall_insert_2; [|apply Hs].
  apply map_Forall_insert_2; [done|]. by apply buckets_typed.
Qed.

Lemma bucket_remove_typed u n : hoare typed (bucket_remove u n) (λ _, True).
Proof.
  apply buckets_change. intros s Hs. apply map_Forall_insert_2; [|apply Hs].
  apply map_Forall_delete. by apply buckets_typed.
Qed.

Lemma clear_prefix_typed a : hoare typed (clear_bucket_prefix a) (λ _, True).
Proof.
  apply buckets_change. intros s Hs. cbv zeta. case_bool_decide; [apply map_Forall_delete; apply Hs|].
  apply map_Forall_insert_2; [|apply Hs]. intros n b Hn. apply elem_of_list_to_map_2 in Hn.
  apply (buckets_typed s a Hs n b), iter_storage_elem. by apply (subseteq_drop _ _ _ Hn).
Qed.

#[local] Hint Resolve bucket_get_typed bucket_put_typed bucket_remove_typed clear_prefix_typed : typed.

Lemma hold_update_typed a f (e : DispatchError) :
  (∀ l l', bounded StringLimit l → f l = Some l' → bounded StringLimit l') →
  hoare typed (hold_list_update a f e) (λ _, True).
Proof.
  intros Hf. unfold hold_list_update. step l (s & Hs & ->). step l' Hl'. apply store_held.
  eapply Hf; [|done]. destruct Hs. destruct (UserHoldFileList s !! a) eqn:Ha; [by eapply ty_held0|].
  pose proof unsigned_string. unfold bounded. cbn. lia.
Qed.

Lemma remove_held_typed h a : hoare typed (remove_user_hold_file_list h a) (λ _, True).
Proof. apply hold_update_typed. intros l l' Hl [= <-]. by apply bounded_filter. Qed.

Lemma add_held_typed a h n : hoare typed (add_user_hold_fileslice a h n) (λ _, True).
Proof. apply hold_update_typed. intros l l' _. apply bounded_push. Qed.

#[local] Hint Resolve remove_held_typed add_held_typed : typed.

Lemma bucket_names_typed s u : typed s → names_ok (default [] (UserBucketList s !! u)).
Proof.
  intros []. destruct (UserBucketList s !! u) eqn:Hu; [by eapply ty_names0|].
  pose proof unsigned_buckets. split; [|constructor]. unfold bounded. cbn. lia.
Qed.

Lemma names_push n l l' : names_ok l → bounded NameStrLimit n → try_push BucketLimit l n = Some l' → names_ok l'.
Proof.
  intros [_ Hl] Hn Hp. split; [by eapply bounded_push|]. unfold try_push in Hp. case_match; simplify_eq.
  apply Forall_app. by rewrite Forall_singleton.
Qed.

Lemma create_bucket_typed u n o : bounded NameStrLimit n → hoare typed (create_bucket_helper u n o) (λ _, True).
Proof.
  intros Hn. unfold create_bucket_helper, bucket_contains. do 3 typed_step. step u1 _. step au Hau.
  eapply (hoare_bind _ _ _ (bounded FileListLimit)).
  { pose proof unsigned_files. destruct o as [h|]; [|apply hoare_ret; unfold bounded; cbn; lia].
    eapply hoare_weaken; [apply hoare_ok_or|]. intros l. apply bounded_push. }
  intros objects Hobj.
  eapply hoare_bind; [apply bucket_put_typed; apply bounded_into in Hau as [_ Hau]; done|]. intros _ _.
  step l (s & Hs & ->). step l' Hl'. apply store_names. eapply names_push; [|done..]. by apply bucket_names_typed.
Qed.

Lemma add_to_bucket_typed u n h : hoare typed (add_file_to_bucket u n h) (λ _, True).
Proof.
  unfold add_file_to_bucket. step o Hb. step b ->. step l Hl. apply bucket_put_typed.
  destruct (Hb b eq_refl) as [Hn [_ Ha]]. split; [done|]. split; [by eapply bounded_push|done].
Qed.

#[local] Hint Resolve create_bucket_typed add_to_bucket_typed : typed.

(** ** Deals *)

Lemma first_task_typed h c l : hoare typed (start_first_task (X := X) h c l) (λ _, True).
Proof. unfold start_first_task. do 3 typed_step. eapply hoare_bind; [by eapply hoare_catch, free_call|]. intros. typed_op. Qed.
Lemma second_task_typed h l : hoare typed (start_second_task (X := X) h l) (λ _, True).
Proof. unfold start_second_task. do 2 typed_step. eapply hoare_bind; [by eapply hoare_catch, free_call|]. intros. typed_op. Qed.
#[local] Hint Resolve first_task_typed second_task_typed : typed.

(** Changes of one entry of a map. *)
Ltac typed_mutate :=
  intros Hf; eapply hoare_try_mutate_existing; [|exact Hf|];
  [ intros s v [] Hv; eauto
  | intros s v [] Hv; split; cbn; try done; by apply map_Forall_insert_2 ].

Lemma mutate_deal k (e : DispatchError) f :
  (∀ d, deal_ok d → hoare typed (f d) deal_ok) → hoare typed (try_mutate_existing DealMap k e f) (λ _, True).
Proof. typed_mutate. Qed.
Lemma mutate_file k (e : DispatchError) f :
  (∀ d, file_ok d → hoare typed (f d) file_ok) → hoare typed (try_mutate_existing File k e f) (λ _, True).
Proof. typed_mutate. Qed.
Lemma mutate_order k (e : DispatchError) f :
  (∀ d, order_ok d → hoare typed (f d) order_ok) → hoare typed (try_mutate_existing RestoralOrder k e f) (λ _, True).
Proof. typed_mutate. Qed.
Lemma mutate_target k (e : DispatchError) f :
  (∀ t, is_u32 t.(rt_cooling_block) → hoare typed (f t) (λ t, is_u32 t.(rt_cooling_block))) →
  hoare typed (try_mutate_existing RestoralTarget k e f) (λ _, True).
Proof. typed_mutate. Qed.

(** *** Assigning miners *)

Lemma random_number_typed n : hoare typed (generate_random_number (X := X) n) (λ _, True).
Proof.
  unfold generate_random_number. eapply hoare_bind.
  - apply (hoare_loop _ _ _ (λ _, True) (λ _, True)); [|done]. intros c _. unfold random_round.
    typed_step. typed_step; [by apply hoare_ret|]. typed_step. by apply hoare_ret.
  - intros [k|k] _; [apply hoare_panic|by apply hoare_ret].
Qed.
#[local] Hint Resolve random_number_typed : typed.

Definition choice_ok (c : Choice) : Prop := bounded StringLimit c.(ch_chosen).

Lemma choose_typed n c :
  choice_ok c → hoare typed (choose_round n c) (λ r, match r with inl c | inr c => choice_ok c end).
Proof.
  intros Hc. unfold choose_round. cbv zeta. typed_step; [by apply hoare_ret|]. do 2 typed_step.
  typed_step; [by apply hoare_ret|]. do 2 typed_step. typed_step; [by apply hoare_ret|]. typed_step.
  eapply (hoare_bind _ _ _ (λ p, bounded StringLimit p.2)).
  - typed_step; [|by apply hoare_ret]. step t _. step l Hl. apply hoare_ret. by eapply bounded_push.
  - intros [t l] Hl. cbv zeta. by typed_step; apply hoare_ret.
Qed.

Lemma assign_fragment_typed idle st h :
  tasks_typed st.2 → hoare typed (assign_fragment (X := X) idle st h) (λ st, tasks_typed st.2).
Proof.
  intros Hst. unfold assign_fragment. eapply hoare_bind.
  - apply (hoare_loop _ _ _ (λ st, tasks_typed st.2) (λ st, tasks_typed st.2)); [|done].
    intros [i tasks] [Hlen Hall]. unfold assign_round. cbv zeta. step sp _. step t Ht.
    typed_step; [|step k _; by apply hoare_ret]. step l Hl. apply hoare_ret. split; cbn.
    + unfold bounded. by rewrite length_insert.
    + apply Forall_insert; [done|]. by eapply bounded_push.
  - intros [?|[i tasks]] Hr; [apply hoare_panic|]. step k _. by apply hoare_ret.
Qed.

Lemma assign_typed needed : hoare typed (random_assign_miner needed) tasks_typed.
Proof.
  unfold random_assign_miner. step now _. cbv zeta. step all _.
  eapply hoare_bind.
  { apply (hoare_loop _ _ _ choice_ok choice_ok); [apply choose_typed|].
    pose proof unsigned_string. unfold choice_ok, bounded. cbn. lia. }
  intros r Hr. eapply (hoare_bind _ _ _ choice_ok).
  { destruct r; [apply hoare_panic|by apply hoare_ret]. }
  intros c Hc. do 2 typed_step. eapply hoare_bind.
  { apply (hoare_fold_m _ _ _ (λ _, True) tasks_typed); [by apply Forall_true| |].
    - intros tasks seg Ht _. unfold assign_segment.
      apply (hoare_bind _ _ _ (λ st, tasks_typed st.2)); [|intros [i l] Hl; by apply hoare_ret].
      apply (hoare_fold_m _ _ _ (λ _, True)); [by apply Forall_true| |done]. intros. by apply assign_fragment_typed.
    - split; [unfold bounded; by rewrite length_fmap|]. apply Forall_fmap, Forall_true. intros p. cbn.
      pose proof unsigned_missions. unfold bounded. cbn. lia. }
  intros tasks Ht. apply (hoare_bind _ _ _ (λ _, True)); [|intros _ _; by apply hoare_ret].
  apply (hoare_for_each _ _ _ (λ _, True)); [by apply Forall_true|]. intros. typed_op.
Qed.
#[local] Hint Resolve assign_typed : typed.

(** *** Entering files *)

Lemma place_fragments_typed flag frags mark tasks placed :
  bounded FragmentCount placed →
  hoare typed (place_fragments (X := X) flag frags mark tasks placed) (λ p, bounded FragmentCount p.1).
Proof.
  revert mark tasks placed. induction frags as [|fr frags IH]; intros mark tasks placed Hp; cbn [place_fragments].
  { by apply hoare_ret. }
  destruct (place_fragment _ _ _ _) as [[m l]|]; [|by apply IH]. step pl Hpl. apply IH. by eapply bounded_push.
Qed.

Lemma generate_segments_typed share l tasks segs :
  infos_ok share → infos_ok segs → hoare typed (generate_segments (X := X) share l tasks segs) infos_ok.
Proof.
  intros [_ Hshare]. revert tasks segs. induction l as [|seg l IH]; intros tasks segs Hsegs; cbn [generate_segments].
  { by apply hoare_ret. }
  apply (hoare_bind _ _ _ (λ p, bounded FragmentCount p.1.(si_fragment_list))).
  - unfold generate_segment. destruct (find _ _) as [sh|] eqn:Hf.
    + apply hoare_ret. cbn. apply find_some in Hf as [Hin _]. rewrite Forall_forall in Hshare.
      by apply Hshare, list_elem_of_In.
    + cbv zeta. eapply hoare_bind; [apply place_fragments_typed|].
      * pose proof unsigned_fragments. unfold bounded. cbn. lia.
      * intros [frags tasks'] Hfr. by apply hoare_ret.
  - intros [i tasks'] Hi. step segs' Hs'. apply IH. split; [by eapply bounded_push|].
    unfold try_push in Hs'. case_match; simplify_eq. apply Forall_app. rewrite Forall_singleton. by split; [apply Hsegs|].
Qed.

Lemma generate_file_typed h l tasks share b st n :
  infos_ok share → brief_ok b → hoare typed (generate_file (X := X) h l tasks share b st n) (λ _, True).
Proof.
  intros Hsh Hb. unfold generate_file. eapply hoare_bind.
  { apply generate_segments_typed; [done|]. pose proof unsigned_segments. split; [unfold bounded; cbn; lia|constructor]. }
  cbv beta. intros segs Hsegs. step now (s & Hs & ->). step o Ho. apply bounded_into in Ho as [-> Ho].
  apply store_file. split; cbn; [done..| |apply Hs]. by apply Forall_singleton.
Qed.

Lemma finish_typed h d : deal_ok d → hoare typed (finish_deal h d) (λ _, True).
Proof.
  intros []. unfold finish_deal. eapply hoare_bind; [by apply generate_file_typed|]. intros _ _.
  eapply hoare_bind.
  { apply (hoare_fold_m _ _ _ (λ _, True) (λ _, True)); [by apply Forall_true| |done].
    intros m t _ _. cbv zeta. step p (s & Hs & ->). step p Hp.
    eapply hoare_bind; [apply store_pending|intros _ _; by apply hoare_ret].
    destruct Hs. eapply checked_add_u32; [| |exact Hp]; [|lia].
    destruct (PendingReplacements s !! _) eqn:Hm; [|done]. cbn. by apply ty_pending0 in Hm as []. }
  intros m _. cbv zeta. do 3 typed_step.
  eapply hoare_bind; [by eapply hoare_catch, free_call|]. intros _ _. cbv zeta. step u2 _.
  unfold bucket_contains. step has Hhas. eapply hoare_bind.
  { typed_step; [apply add_to_bucket_typed|]. apply create_bucket_typed. by destruct deal_user0. }
  intros _ _. step u3 _. typed_op.
Qed.

Lemma report_typed who failed h : hoare typed (report_deal who failed h) (λ _, True).
Proof.
  unfold report_deal. typed_step. typed_step; [by apply hoare_ret|].
  apply (hoare_try_mutate _ _ _ _ (λ o, ∀ d, o = Some d → deal_ok d)).
  - intros s []. intros d Hd. by eapply ty_deals0.
  - intros o Ho. step d ->. specialize (Ho d eq_refl). cbv zeta. typed_step; [|apply hoare_ret; naive_solver].
    apply (hoare_bind _ _ _ deal_ok).
    { typed_step; [|by apply hoare_ret]. step l Hl. apply hoare_ret. destruct Ho. split; cbn; try done.
      by eapply bounded_push. }
    intros d' Hd'. typed_step; [|apply hoare_ret; naive_solver]. cbv zeta.
    assert (deal_ok (d' <| di_stage := 2 |>)) by (destruct Hd'; by split).
    eapply hoare_bind; [by apply finish_typed|]. intros _ _. apply hoare_ret. naive_solver.
  - intros s o [] Ho. split; cbn; try done. destruct o as [d|].
    + exact (map_Forall_insert_2 (λ _, deal_ok) _ h d (Ho d eq_refl) ty_deals0).
    + exact (map_Forall_delete (λ _, deal_ok) _ h ty_deals0).
Qed.

(** ** Removing files *)

Lemma restoral_target_typed m n : hoare typed (update_restoral_target m n) (λ _, True).
Proof. apply mutate_target. intros t Ht. step r _. by apply hoare_ret. Qed.

Lemma remove_owner_typed h a b : hoare typed (remove_file_owner h a b) (λ _, True).
Proof.
  apply mutate_file. intros f Hf. destruct (list_find _ _) as [[i o]|]; [|by apply hoare_ret]. cbv zeta.
  eapply (hoare_bind _ _ _ (λ _, True)); [typed_step; [typed_op|by apply hoare_ret]|]. intros _ _. apply hoare_ret.
  destruct Hf. split; cbn; try done; [by apply bounded_delete|]. by apply Forall_delete.
Qed.
#[local] Hint Resolve restoral_target_typed remove_owner_typed : typed.

Lemma remove_last_typed h a b : hoare typed (remove_file_last_owner h a b) (λ _, True).
Proof.
  unfold remove_file_last_owner. typed_step. cbv zeta. eapply (hoare_bind _ _ _ (λ _, True)).
  { apply (hoare_for_each _ _ _ (λ _, True)); [by apply Forall_true|]. intros [m c] _.
    typed_step. typed_step; typed_op. }
  intros _ _. eapply (hoare_bind _ _ _ (λ _, True)); [typed_step; [typed_op|by apply hoare_ret]|]. intros _ _.
  typed_step. typed_op.
Qed.
#[local] Hint Resolve remove_last_typed : typed.

Lemma delete_user_file_typed h a f : hoare typed (delete_user_file h a f) (λ _, True).
Proof.
  unfold delete_user_file. typed_step. apply (hoare_for_each _ _ _ (λ _, True)); [by apply Forall_true|].
  intros b _. typed_step; [|by apply hoare_ret]. typed_step; typed_op.
Qed.

Lemma bucket_remove_file_typed h a f : hoare typed (bucket_remove_file h a f) (λ _, True).
Proof.
  unfold bucket_remove_file. apply (hoare_for_each _ _ _ (λ _, True)); [by apply Forall_true|].
  intros b _. typed_step; [|by apply hoare_ret]. step o Ho. step bk ->. apply bucket_put_typed.
  destruct (Ho bk eq_refl) as [Hn [Hl Ha]]. split; [done|]. split; [by apply bounded_filter|done].
Qed.
#[local] Hint Resolve delete_user_file_typed bucket_remove_file_typed : typed.

Lemma clear_file_typed a h : hoare typed (clear_file_of a h) (λ _, True).
Proof.
  unfold clear_file_of. typed_step. destruct a0 as [f|]; [|by apply hoare_ret]. typed_step.
  - eapply hoare_bind; [by eapply hoare_catch, remove_owner_typed|]. intros. by apply hoare_ret.
  - do 2 (eapply hoare_bind; [by eapply hoare_catch, remove_last_typed|]; intros ? _). by apply hoare_ret.
Qed.

Lemma clear_files_typed a l count :
  bounded StringLimit l → hoare typed (clear_files a l count) (λ _, True).
Proof.
  revert count. induction l as [|x l IH]; intros count Hl; cbn [clear_files]; [by apply hoare_ret|]. cbv zeta.
  assert (bounded StringLimit l) by (unfold bounded in *; cbn in Hl; lia). typed_step.
  - eapply hoare_bind; [apply store_held; unfold bounded; by rewrite length_rev|]. intros. by apply hoare_ret.
  - eapply hoare_bind; [apply clear_file_typed|]. intros _ _. by apply IH.
Qed.

Lemma clear_users_typed l count : hoare typed (clear_users l count) (λ _, True).
Proof.
  revert count. induction l as [|a l IH]; intros count; cbn [clear_users]; [by apply hoare_ret|].
  step held (s & Hs & ->). destruct (UserHoldFileList s !! a) as [held|] eqn:Hheld; [|apply IH].
  eapply hoare_bind.
  { apply clear_files_typed. unfold bounded. rewrite length_rev. by apply (ty_held s Hs a). }
  intros [c|] _; [|by apply hoare_ret].
  eapply hoare_bind; [by eapply hoare_catch, free_call|]. intros _ _. eapply (hoare_bind _ _ _ (λ _, True)).
  { apply hoare_modify. intros t []. split; cbn; try done. by apply bounded_filter. }
  intros _ _. do 3 typed_step. apply IH.
Qed.

Lemma on_initialize_typed now : hoare typed (on_initialize now) (λ _, True).
Proof.
  unfold on_initialize. cbv zeta. typed_step; [apply hoare_panic|]. eapply (hoare_bind _ _ _ (λ _, True)).
  - typed_step; [|by apply hoare_ret]. step l _. apply hoare_modify. intros s []. split; cbn; try done.
    destruct (try_into_bounded 5000 l) eqn:Hl; [by apply bounded_into in Hl as [_ Hl]|]. unfold bounded. cbn. lia.
  - intros _ _. typed_step. apply clear_users_typed.
Qed.

(** ** The dispatchables *)

Lemma permission_typed a b : hoare typed (check_permission (X := X) a b) (λ _, True).
Proof. unfold check_permission. typed_step; [by apply hoare_ret|typed_op]. Qed.
#[local] Hint Resolve permission_typed : typed.

Lemma push_owner_typed h b (e e' : DispatchError) :
  brief_ok b → hoare typed (try_mutate_existing File h e (λ file,
    owner ← ok_or (try_push OwnerLimit file.(fi_owner) b) e';
    mret (file <| fi_owner := owner |>))) (λ _, True).
Proof.
  intros Hb. apply mutate_file. intros f Hf. step l Hl. apply hoare_ret. destruct Hf. split; cbn; try done.
  - by eapply bounded_push.
  - unfold try_push in Hl. case_match; simplify_eq. apply Forall_app. by rewrite Forall_singleton.
Qed.
#[local] Hint Resolve push_owner_typed : typed.

Lemma upload_typed o h l b n :
  segments_ok l → brief_ok b → hoare typed (upload_declaration o h l b n) (λ _, True).
Proof.
  intros Hl Hb. unfold upload_declaration. typed_step. do 6 typed_step. cbv zeta. do 3 typed_step.
  eapply (hoare_bind _ _ _ (λ _, True)); [|intros; typed_op]. typed_step.
  - typed_step. unfold bucket_contains. step has Hhas. eapply (hoare_bind _ _ _ (λ _, True)).
    { typed_step; [typed_op|]. apply create_bucket_typed. apply Hb. }
    intros _ _. typed_step. typed_op.
  - typed_step. unfold generate_deal. step tasks Ht. cbv zeta. typed_step. apply store_deal.
    pose proof unsigned_segments. pose proof unsigned_fragments.
    split; cbn; try done; unfold infos_ok, bounded; cbn; lia || (split; [lia|constructor]).
Qed.

Lemma reassign_typed o h count l : is_u8 count → hoare typed (deal_reassign_miner o h count l) (λ _, True).
Proof.
  intros Hc. unfold deal_reassign_miner. typed_step. typed_step.
  assert (∀ tasks, hoare typed (unlock_tasks (X := X) tasks) (λ _, True)) as Hunlock.
  { intros tasks. apply (hoare_for_each _ _ _ (λ _, True)); [by apply Forall_true|]. intros. typed_op. }
  typed_step.
  - apply mutate_deal. intros d Hd. eapply hoare_bind; [apply Hunlock|]. intros _ _. step tasks Ht. cbv zeta.
    typed_step. apply hoare_ret. destruct Hd. pose proof unsigned_fragments. split; cbn; done || (unfold bounded; cbn; lia).
  - typed_step. cbv zeta. typed_step. eapply hoare_bind; [apply Hunlock|]. intros _ _. typed_op.
Qed.

Lemma is_owner_typed a h : hoare typed (check_is_file_owner (X := X) a h) (λ _, True).
Proof. unfold check_is_file_owner. typed_step. destruct a0; by apply hoare_ret. Qed.
Lemma bucket_contains_typed a n : hoare typed (bucket_contains (X := X) a n) (λ _, True).
Proof. unfold bucket_contains. step o _. by apply hoare_ret. Qed.
#[local] Hint Resolve is_owner_typed bucket_contains_typed : typed.

Lemma transfer_typed o b h : brief_ok b → hoare typed (ownership_transfer o b h) (λ _, True).
Proof.
  intros Hb. unfold ownership_transfer. typed_step. do 9 typed_step. cbv zeta. do 2 typed_step.
  step ob Hob. step bk ->. step l Hl. eapply hoare_bind.
  { apply bucket_put_typed. destruct (Hob bk eq_refl) as [Hn [_ Ha]]. split; [done|].
    split; [by eapply bounded_push|done]. }
  intros _ _. do 4 typed_step. typed_op.
Qed.

Lemma transfer_report_typed o l : hoare typed (transfer_report o l) (λ _, True).
Proof.
  unfold transfer_report. do 3 typed_step. eapply (hoare_bind _ _ _ (λ _, True)); [|intros; typed_op].
  apply (hoare_fold_m _ _ _ (λ _, True) (λ _, True)); [by apply Forall_true| |done]. intros. apply report_typed.
Qed.

Lemma calculate_end_typed o h : hoare typed (calculate_end o h) (λ _, True).
Proof.
  unfold calculate_end. do 3 typed_step. eapply (hoare_bind _ _ _ (λ _, True)).
  { apply (hoare_for_each _ _ _ (λ _, True)); [by apply Forall_true|]. intros. typed_op. }
  intros _ _. eapply (hoare_bind _ _ _ (λ _, True)).
  { apply mutate_file. intros f []. apply hoare_ret. by split. }
  intros _ _. typed_step. typed_op.
Qed.

Lemma replace_typed o l : hoare typed (replace_file_report o l) (λ _, True).
Proof.
  unfold replace_file_report. do 5 typed_step. apply (hoare_bind _ _ _ (λ c, 0 <= c)).
  { apply (hoare_fold_m _ _ _ (λ _, True)); [by apply Forall_true| |done]. intros c h Hc _. unfold filler_contains.
    typed_step. typed_step; [typed_step; apply hoare_ret; lia|by apply hoare_ret]. }
  intros c Hc. step p (s & Hs & ->). step p Hp. eapply hoare_bind; [apply store_pending|intros; typed_op].
  apply checked_sub_Some in Hp as [-> Hp]. destruct Hs. unfold in_width.
  destruct (PendingReplacements s !! _) as [q|] eqn:Hq; [|cbn in *; lia]. cbn in *. apply ty_pending0 in Hq as [? ?]. lia.
Qed.

Lemma delete_file_typed o a l : hoare typed (delete_file o a l) (λ _, True).
Proof.
  unfold delete_file. do 5 typed_step. eapply (hoare_bind _ _ _ (λ _, True)); [|intros; typed_op].
  apply (hoare_for_each _ _ _ (λ _, True)); [by apply Forall_true|]. intros h _. do 3 typed_step. typed_op.
Qed.

Lemma upload_filler_typed o t l : hoare typed (upload_filler o t l) (λ _, True).
Proof.
  unfold upload_filler. typed_step. typed_step. cbv zeta. do 5 typed_step. eapply (hoare_bind _ _ _ (λ _, True)).
  { apply (hoare_for_each _ _ _ (λ _, True)); [by apply Forall_true|]. intros f _. unfold filler_contains.
    do 2 typed_step. typed_op. }
  intros _ _. do 4 typed_step. typed_op.
Qed.

Lemma delete_filler_typed o h : hoare typed (delete_filler o h) (λ _, True).
Proof. unfold delete_filler, filler_contains. do 10 typed_step. typed_op. Qed.

Lemma create_typed o a n : bounded NameStrLimit n → hoare typed (create_bucket o a n) (λ _, True).
Proof. intros Hn. unfold create_bucket. do 5 typed_step. typed_op. Qed.

Lemma delete_bucket_typed o a n : hoare typed (delete_bucket o a n) (λ _, True).
Proof.
  unfold delete_bucket. do 6 typed_step. step ob Hob. step b ->. eapply (hoare_bind _ _ _ (λ _, True)).
  { apply (hoare_for_each _ _ _ (λ _, True)); [by apply Forall_true|]. intros h _. typed_step.
    eapply (hoare_bind _ _ _ (λ _, True)); [typed_step; typed_op|]. intros. typed_op. }
  intros _ _. typed_step. step l (s & Hs & ->). step [i x] Hi. eapply hoare_bind; [apply store_names|intros; typed_op].
  destruct (bucket_names_typed s a Hs) as [Hb Hf]. split; [by apply bounded_delete|by apply Forall_delete].
Qed.

(** ** Restoral and exit *)

(** The first matching fragment is replaced, the lists keep their lengths. *)
Lemma update_first_length {A} p (f : A → A) l x l' : update_first p f l = Some (x, l') → length l' = length l.
Proof.
  revert l'. induction l as [|y l IH]; intros l'; cbn; [done|]. case_match; [by intros [= <- <-]|].
  intros ([z m] & Hu & [= <- <-])%bind_Some. cbn. by rewrite (IH m).
Qed.

Lemma update_fragment_typed p f segs x segs' :
  infos_ok segs → update_fragment p f segs = Some (x, segs') → infos_ok segs'.
Proof.
  intros [Hlen Hall]. unfold infos_ok, bounded in *.
  enough (update_fragment p f segs = Some (x, segs') → length segs' = length segs ∧
    Forall (λ seg, bounded FragmentCount seg.(si_fragment_list)) segs') as He by (intros [-> ?]%He; done).
  clear Hlen. revert segs'. induction Hall as [|seg segs Hseg Hall IH]; intros segs'; cbn; [done|].
  destruct (update_first p f _) as [[y l]|] eqn:Hu.
  - intros [= <- <-]. split; [done|]. constructor; [|done]. cbn. unfold bounded. by rewrite (update_first_length _ _ _ _ _ Hu).
  - intros ([y l] & Hl & [= <- <-])%bind_Some. destruct (IH _ Hl) as [Hn Hf]. split; [cbn; by rewrite Hn|]. by constructor.
Qed.

Lemma file_with_segments f segs : file_ok f → infos_ok segs → file_ok (f <| fi_segment_list := segs |>).
Proof. intros [] Hs. by split. Qed.

Lemma zero_u32 : is_u32 0.
Proof. done. Qed.

Lemma life_deadline s d :
  typed s → checked_add 32 (block_number s) (saturated_into 32 RestoralOrderLife) = Some d → is_u32 d.
Proof.
  intros [] Hd. pose proof unsigned_life. eapply checked_add_u32; [| |exact Hd]; [by destruct ty_block0|].
  unfold saturated_into. lia.
Qed.

Lemma generate_order_typed o h fr : hoare typed (generate_restoral_order o h fr) (λ _, True).
Proof.
  unfold generate_restoral_order. do 4 typed_step. apply mutate_file. intros f Hf. step now (s & Hs & ->).
  destruct (update_fragment _ _ _) as [[x segs]|] eqn:Hu; [|apply hoare_throw].
  eapply hoare_bind; [apply store_order; split_and!; try apply zero_u32; apply Hs|]. intros _ _. typed_step.
  apply hoare_ret, file_with_segments; [done|]. eapply update_fragment_typed; [by destruct Hf|done].
Qed.

Lemma claim_typed o fr : hoare typed (claim_restoral_order o fr) (λ _, True).
Proof.
  unfold claim_restoral_order. do 4 typed_step. step now (s & Hs & ->).
  eapply (hoare_bind _ _ _ (λ _, True)); [|intros; typed_op]. apply mutate_order. intros d (Hc & Hg & Hd).
  typed_step. cbv zeta. step c Hc'. cbv zeta. step d' Hd'. apply hoare_ret. split_and!; cbn; [|done|].
  - eapply checked_add_u32; [| |exact Hc']; [by destruct Hc|done].
  - by eapply life_deadline.
Qed.

Lemma noexist_typed o m h fr : hoare typed (claim_restoral_noexist_order o m h fr) (λ _, True).
Proof.
  unfold claim_restoral_noexist_order. do 8 typed_step. eapply (hoare_bind _ _ _ (λ _, True)); [|intros; typed_op].
  apply mutate_file. intros f Hf. destruct (update_fragment _ _ _) as [[x segs]|] eqn:Hu; [|apply hoare_throw].
  step now (s & Hs & ->). cbv zeta. step d Hd. eapply hoare_bind.
  { apply store_order. split_and!; [apply zero_u32|apply Hs|]. by eapply life_deadline. }
  intros _ _. apply hoare_ret, file_with_segments; [done|]. eapply update_fragment_typed; [by destruct Hf|done].
Qed.

Lemma complete_typed o fr : hoare typed (restoral_order_complete o fr) (λ _, True).
Proof.
  unfold restoral_order_complete. do 9 typed_step. typed_step; [typed_op|].
  eapply (hoare_bind _ _ _ (λ _, True)); [|intros; typed_step; typed_op].
  apply mutate_file. intros f Hf. destruct (update_fragment _ _ _) as [[x segs]|] eqn:Hu; [|by apply hoare_ret].
  do 3 typed_step. eapply (hoare_bind _ _ _ (λ _, True)); [typed_step; [typed_op|by apply hoare_ret]|]. intros _ _.
  apply hoare_ret, file_with_segments; [done|]. eapply update_fragment_typed; [by destruct Hf|done].
Qed.

Lemma exit_prep_typed o : hoare typed (miner_exit_prep o) (λ _, True).
Proof.
  unfold miner_exit_prep. typed_step. typed_step. step lock _. step now (s & Hs & ->).
  eapply (hoare_bind _ _ _ (λ _, True)).
  { destruct lock; [|by apply hoare_ret]. eapply hoare_weaken; [apply hoare_ensure|done]. }
  intros _ _. do 3 typed_step. step t Ht. eapply hoare_bind.
  { apply store_lock. pose proof unsigned_day. eapply checked_add_u32; [| |exact Ht]; [done|]. by destruct Hs as [? ? ? ? ? ? ? ? ? ? []]. }
  intros _ _. eapply hoare_bind; [by eapply hoare_catch, free_call|]. intros r _. typed_step. typed_op.
Qed.

Lemma create_target_typed m n : hoare typed (create_restoral_target (X := X) m n) (λ _, True).
Proof.
  unfold create_restoral_target. do 3 typed_step. cbv zeta. step now (s & Hs & ->). step b Hb.
  apply store_target. cbn. eapply checked_add_u32; [| |exact Hb]; [by destruct Hs as [? ? ? ? ? ? ? ? ? ? []]|].
  apply Z.mod_pos_bound. lia.
Qed.
#[local] Hint Resolve create_target_typed : typed.

Lemma exit_typed o m : hoare typed (miner_exit o m) (λ _, True).
Proof. unfold miner_exit, clear_filler. do 5 typed_step. step [i sv] _. do 2 typed_step. typed_op. Qed.

Lemma withdraw_typed o : hoare typed (miner_withdraw o) (λ _, True).
Proof. unfold miner_withdraw. do 6 typed_step. typed_op. Qed.

Lemma force_exit_typed m : hoare typed (force_miner_exit m) (λ _, True).
Proof. unfold force_miner_exit, clear_filler. typed_step. step [i sv] _. do 2 typed_step. typed_op. Qed.

Lemma exec_bank_typed c : args_typed c → hoare typed (exec_bank c) (λ _, True).
Proof.
  destruct c; cbn [exec_bank args_typed]; intros Hc.
  - by apply upload_typed; destruct Hc.
  - by apply reassign_typed.
  - by apply transfer_typed.
  - apply transfer_report_typed.
  - apply calculate_end_typed.
  - apply replace_typed.
  - apply delete_file_typed.
  - apply upload_filler_typed.
  - apply delete_filler_typed.
  - by apply create_typed.
  - apply delete_bucket_typed.
  - apply generate_order_typed.
  - apply claim_typed.
  - apply noexist_typed.
  - apply complete_typed.
  - apply exit_prep_typed.
  - apply exit_typed.
  - apply withdraw_typed.
  - apply on_initialize_typed.
  - apply force_exit_typed.
Qed.

(** A step of the chain as the pallet sees it: a call with arguments of the declared types, whatever its
    outcome, or the next block and anything the other pallets do. *)
Inductive bank_step : State X → State X → Prop :=
| bank_step_call c s : args_typed c → bank_step s (exec_bank c s).1
| bank_step_other s x n : is_u32 n → bank_step s (s <| ext := x |> <| block_number := n |>).

End types.
