(* ===== verification/AuditPallet.v ===== *)
(** * The audit pallet

    [src/c-pallets/audit/src/lib.rs], [types.rs] and [constants.rs]: the storage
    challenge of miners.  Validators propose a challenge from their off-chain
    workers, miners submit proofs, tee workers report the results, and the block
    hooks punish miners that submitted nothing and hand open missions to other tee
    workers.  The calls of other pallets go through the classes of [Interfaces].
    Weights, logging and the unused storage items [CurAuthorityIndex], [Lock] and
    [TestOption] are left out. *)
From S2P Require Import Prelude Errors Frame Common Interfaces.

Definition IDLE_FAULT_TOLERANT : Z := 2.
Definition SERVICE_FAULT_TOLERANT : Z := 2.

(** [LIMIT], that is [u64::MAX]. *)
Definition LIMIT : Z := 2 ^ 64 - 1.

(** The public key and the signature of an authority are opaque. *)
Abbreviation AuthorityId := N (only parsing).
Abbreviation AuthoritySignature := N (only parsing).

Inductive Event :=
| GenerateChallenge
| SubmitProof (miner : AccountId)
| VerifyProof (tee_worker miner : AccountId).

Class Config := {
  StringLimit : Z;
  ChallengeMinerMax : Z;
  VerifyMissionMax : Z;
  OneDay : BlockNumber;
  OneHours : BlockNumber;
  UnsignedPriority : Z;
  LockTime : BlockNumber
}.

Record NetSnapShot := mkNetSnapShot {
  ns_start : BlockNumber;
  ns_life : BlockNumber;
  ns_total_reward : Z;
  ns_total_idle_space : Z;
  ns_total_service_space : Z;
  ns_random_index_list : list Z;
  ns_random_list : list (list Z)
}.
#[export] Instance set_ns_ns_start : Setter (ns_start) := λ f r,
  mkNetSnapShot (f (ns_start r)) (ns_life r) (ns_total_reward r) (ns_total_idle_space r) (ns_total_service_space r) (ns_random_index_list r) (ns_random_list r).
#[export] Instance set_ns_ns_life : Setter (ns_life) := λ f r,
  mkNetSnapShot (ns_start r) (f (ns_life r)) (ns_total_reward r) (ns_total_idle_space r) (ns_total_service_space r) (ns_random_index_list r) (ns_random_list r).
#[export] Instance set_ns_ns_total_reward : Setter (ns_total_reward) := λ f r,
  mkNetSnapShot (ns_start r) (ns_life r) (f (ns_total_reward r)) (ns_total_idle_space r) (ns_total_service_space r) (ns_random_index_list r) (ns_random_list r).
#[export] Instance set_ns_ns_total_idle_space : Setter (ns_total_idle_space) := λ f r,
  mkNetSnapShot (ns_start r) (ns_life r) (ns_total_reward r) (f (ns_total_idle_space r)) (ns_total_service_space r) (ns_random_index_list r) (ns_random_list r).
#[export] Instance set_ns_ns_total_service_space : Setter (ns_total_service_space) := λ f r,
  mkNetSnapShot (ns_start r) (ns_life r) (ns_total_reward r) (ns_total_idle_space r) (f (ns_total_service_space r)) (ns_random_index_list r) (ns_random_list r).
#[export] Instance set_ns_ns_random_index_list : Setter (ns_random_index_list) := λ f r,
  mkNetSnapShot (ns_start r) (ns_life r) (ns_total_reward r) (ns_total_idle_space r) (ns_total_service_space r) (f (ns_random_index_list r)) (ns_random_list r).
#[export] Instance set_ns_ns_random_list : Setter (ns_random_list) := λ f r,
  mkNetSnapShot (ns_start r) (ns_life r) (ns_total_reward r) (ns_total_idle_space r) (ns_total_service_space r) (ns_random_index_list r) (f (ns_random_list r)).

Record MinerSnapShot := mkMinerSnapShot {
  ms_miner : AccountId;
  ms_idle_space : Z;
  ms_service_space : Z
}.
#[export] Instance set_ms_ms_miner : Setter (ms_miner) := λ f r,
  mkMinerSnapShot (f (ms_miner r)) (ms_idle_space r) (ms_service_space r).
#[export] Instance set_ms_ms_idle_space : Setter (ms_idle_space) := λ f r,
  mkMinerSnapShot (ms_miner r) (f (ms_idle_space r)) (ms_service_space r).
#[export] Instance set_ms_ms_service_space : Setter (ms_service_space) := λ f r,
  mkMinerSnapShot (ms_miner r) (ms_idle_space r) (f (ms_service_space r)).

Record ChallengeInfo := mkChallengeInfo {
  ci_net_snap_shot : NetSnapShot;
  ci_miner_snapshot_list : list MinerSnapShot
}.
#[export] Instance set_ci_ci_net_snap_shot : Setter (ci_net_snap_shot) := λ f r,
  mkChallengeInfo (f (ci_net_snap_shot r)) (ci_miner_snapshot_list r).
#[export] Instance set_ci_ci_miner_snapshot_list : Setter (ci_miner_snapshot_list) := λ f r,
  mkChallengeInfo (ci_net_snap_shot r) (f (ci_miner_snapshot_list r)).

Record ProveInfo := mkProveInfo {
  pv_snap_shot : MinerSnapShot;
  pv_idle_prove : list Z;
  pv_service_prove : list Z
}.
#[export] Instance set_pv_pv_snap_shot : Setter (pv_snap_shot) := λ f r,
  mkProveInfo (f (pv_snap_shot r)) (pv_idle_prove r) (pv_service_prove r).
#[export] Instance set_pv_pv_idle_prove : Setter (pv_idle_prove) := λ f r,
  mkProveInfo (pv_snap_shot r) (f (pv_idle_prove r)) (pv_service_prove r).
#[export] Instance set_pv_pv_service_prove : Setter (pv_service_prove) := λ f r,
  mkProveInfo (pv_snap_shot r) (pv_idle_prove r) (f (pv_service_prove r)).

Record SegDigest := mkSegDigest {
  sd_validators_len : Z;
  sd_block_num : BlockNumber;
  sd_network_state : list Z
}.
#[export] Instance set_sd_sd_validators_len : Setter (sd_validators_len) := λ f r,
  mkSegDigest (f (sd_validators_len r)) (sd_block_num r) (sd_network_state r).
#[export] Instance set_sd_sd_block_num : Setter (sd_block_num) := λ f r,
  mkSegDigest (sd_validators_len r) (f (sd_block_num r)) (sd_network_state r).
#[export] Instance set_sd_sd_network_state : Setter (sd_network_state) := λ f r,
  mkSegDigest (sd_validators_len r) (sd_block_num r) (f (sd_network_state r)).

(** An unsigned [save_challenge_info] handed to the transaction pool. *)
Record Submitted := mkSubmitted {
  sb_challenge_info : ChallengeInfo;
  sb_key : AuthorityId;
  sb_seg_digest : SegDigest;
  sb_signature : AuthoritySignature
}.

Record State (X : Type) := mkState {
  ChallengeDuration : BlockNumber;
  VerifyDuration : BlockNumber;
  Keys : list AuthorityId;
  ChallengeProposal : gmap Hash (Z * ChallengeInfo);
  ChallengeSnapShot : option ChallengeInfo;
  UnverifyProof : gmap AccountId (list ProveInfo);
  CountedIdleFailed : gmap AccountId Z;
  CountedServiceFailed : gmap AccountId Z;
  CountedClear : gmap AccountId Z;
  ext : X;
  block_number : BlockNumber;
  events : list Event
}.
Arguments mkState {X} _ _ _ _ _ _ _ _ _ _ _ _.
Arguments ChallengeDuration {X} _.
Arguments VerifyDuration {X} _.
Arguments Keys {X} _.
Arguments ChallengeProposal {X} _.
Arguments ChallengeSnapShot {X} _.
Arguments UnverifyProof {X} _.
Arguments CountedIdleFailed {X} _.
Arguments CountedServiceFailed {X} _.
Arguments CountedClear {X} _.
Arguments ext {X} _.
Arguments block_number {X} _.
Arguments events {X} _.
#[export] Instance set_st_ChallengeDuration {X : Type} : Setter (@ChallengeDuration X) := λ f r,
  mkState (f (ChallengeDuration r)) (VerifyDuration r) (Keys r) (ChallengeProposal r) (ChallengeSnapShot r) (UnverifyProof r) (CountedIdleFailed r) (CountedServiceFailed r) (CountedClear r) (ext r) (block_number r) (events r).
#[export] Instance set_st_VerifyDuration {X : Type} : Setter (@VerifyDuration X) := λ f r,
  mkState (ChallengeDuration r) (f (VerifyDuration r)) (Keys r) (ChallengeProposal r) (ChallengeSnapShot r) (UnverifyProof r) (CountedIdleFailed r) (CountedServiceFailed r) (CountedClear r) (ext r) (block_number r) (events r).
#[export] Instance set_st_Keys {X : Type} : Setter (@Keys X) := λ f r,
  mkState (ChallengeDuration r) (VerifyDuration r) (f (Keys r)) (ChallengeProposal r) (ChallengeSnapShot r) (UnverifyProof r) (CountedIdleFailed r) (CountedServiceFailed r) (CountedClear r) (ext r) (block_number r) (events r).
#[export] Instance set_st_ChallengeProposal {X : Type} : Setter (@ChallengeProposal X) := λ f r,
  mkState (ChallengeDuration r) (VerifyDuration r) (Keys r) (f (ChallengeProposal r)) (ChallengeSnapShot r) (UnverifyProof r) (CountedIdleFailed r) (CountedServiceFailed r) (CountedClear r) (ext r) (block_number r) (events r).
#[export] Instance set_st_ChallengeSnapShot {X : Type} : Setter (@ChallengeSnapShot X) := λ f r,
  mkState (ChallengeDuration r) (VerifyDuration r) (Keys r) (ChallengeProposal r) (f (ChallengeSnapShot r)) (UnverifyProof r) (CountedIdleFailed r) (CountedServiceFailed r) (CountedClear r) (ext r) (block_number r) (events r).
#[export] Instance set_st_UnverifyProof {X : Type} : Setter (@UnverifyProof X) := λ f r,
  mkState (ChallengeDuration r) (VerifyDuration r) (Keys r) (ChallengeProposal r) (ChallengeSnapShot r) (f (UnverifyProof r)) (CountedIdleFailed r) (CountedServiceFailed r) (CountedClear r) (ext r) (block_number r) (events r).
#[export] Instance set_st_CountedIdleFailed {X : Type} : Setter (@CountedIdleFailed X) := λ f r,
  mkState (ChallengeDuration r) (VerifyDuration r) (Keys r) (ChallengeProposal r) (ChallengeSnapShot r) (UnverifyProof r) (f (CountedIdleFailed r)) (CountedServiceFailed r) (CountedClear r) (ext r) (block_number r) (events r).
#[export] Instance set_st_CountedServiceFailed {X : Type} : Setter (@CountedServiceFailed X) := λ f r,
  mkState (ChallengeDuration r) (VerifyDuration r) (Keys r) (ChallengeProposal r) (ChallengeSnapShot r) (UnverifyProof r) (CountedIdleFailed r) (f (CountedServiceFailed r)) (CountedClear r) (ext r) (block_number r) (events r).
#[export] Instance set_st_CountedClear {X : Type} : Setter (@CountedClear X) := λ f r,
  mkState (ChallengeDuration r) (VerifyDuration r) (Keys r) (ChallengeProposal r) (ChallengeSnapShot r) (UnverifyProof r) (CountedIdleFailed r) (CountedServiceFailed r) (f (CountedClear r)) (ext r) (block_number r) (events r).
#[export] Instance set_st_ext {X : Type} : Setter (@ext X) := λ f r,
  mkState (ChallengeDuration r) (VerifyDuration r) (Keys r) (ChallengeProposal r) (ChallengeSnapShot r) (UnverifyProof r) (CountedIdleFailed r) (CountedServiceFailed r) (CountedClear r) (f (ext r)) (block_number r) (events r).
#[export] Instance set_st_block_number {X : Type} : Setter (@block_number X) := λ f r,
  mkState (ChallengeDuration r) (VerifyDuration r) (Keys r) (ChallengeProposal r) (ChallengeSnapShot r) (UnverifyProof r) (CountedIdleFailed r) (CountedServiceFailed r) (CountedClear r) (ext r) (f (block_number r)) (events r).
#[export] Instance set_st_events {X : Type} : Setter (@events X) := λ f r,
  mkState (ChallengeDuration r) (VerifyDuration r) (Keys r) (ChallengeProposal r) (ChallengeSnapShot r) (UnverifyProof r) (CountedIdleFailed r) (CountedServiceFailed r) (CountedClear r) (ext r) (block_number r) (f (events r)).

(** A node that runs the off-chain worker: the chain it sees, its local storage,
    where the worker keeps the block of its last run, and what it has submitted. *)
Record Node (X : Type) := mkNode {
  nd_chain : State X;
  nd_local : gmap AuthorityId BlockNumber;
  nd_pool : list Submitted
}.
Arguments mkNode {X} _ _ _.
Arguments nd_chain {X} _.
Arguments nd_local {X} _.
Arguments nd_pool {X} _.
#[export] Instance set_nd_nd_chain {X : Type} : Setter (@nd_chain X) := λ f r,
  mkNode (f (nd_chain r)) (nd_local r) (nd_pool r).
#[export] Instance set_nd_nd_local {X : Type} : Setter (@nd_local X) := λ f r,
  mkNode (nd_chain r) (f (nd_local r)) (nd_pool r).
#[export] Instance set_nd_nd_pool {X : Type} : Setter (@nd_pool X) := λ f r,
  mkNode (nd_chain r) (nd_local r) (f (nd_pool r)).

(** ** What the pallet is configured with

    [random_hash seed] is the randomness of the block for the subject [seed], as
    bytes; [proposal_hash] the hash of an encoded challenge; [verify] and [sign]
    the signature scheme of the authorities; the session is Substrate's. *)
Class RandomHash (X : Type) := { random_hash : Z → X → option (list Z) }.

Class Crypto := {
  proposal_hash : ChallengeInfo → Hash;
  verify : AuthorityId → SegDigest → AuthoritySignature → bool;
  sign : AuthorityId → SegDigest → option AuthoritySignature
}.

Class Session (X : Type) := {
  session_index : X → Z;
  average_session_length : X → Z;
  estimate_current_session_progress : BlockNumber → X → option Z
}.

(** The node: whether it validates, its keys, its network state and whether the
    pool takes a transaction. *)
Class NodeConfig := {
  is_validator : bool;
  local_keys : list AuthorityId;
  network_state : option (list Z);
  pool_accepts : Submitted → bool
}.

Section operations.
Context {X : Type} `{!MinerControl X} `{!ScheduleFind X} `{!RandomFileList X}
  `{!RandomHash X} `{!Crypto} `{!Session X} `{!NodeConfig} `{!Config} `{!StorageIter}.
Abbreviation MS := (M (State X)).

Definition deposit_event (e : Event) : MS unit :=
  modify (λ s, s <| events ::= λ l, l ++ [e] |>).

(** A call of another pallet. *)
Definition call {A} (m : M X A) : MS A := zoom ext m.

(** ** Randomness *)

(** The bytes of the hash; [Default] is the zero hash. *)
Definition random_seed (seed : Z) : MS (list Z) :=
  gets (λ s, default (replicate 32 0) (random_hash seed (ext s))).

(** A little-endian number. *)
Fixpoint le_number (bytes : list Z) : Z :=
  match bytes with [] => 0 | b :: bytes => b + 256 * le_number bytes end.

(** [<u64>::decode(..).expect(..)] *)
Definition random_number (seed : Z) : MS Z :=
  bytes ← random_seed seed;
  if (length bytes <? 8)%nat then panic else mret (le_number (take 8 bytes)).

(** The first 20 bytes of an [H256]; the loop around it leaves in its first round,
    because an [H256] has 32 bytes. *)
Definition generate_challenge_random (seed : Z) : MS (list Z) :=
  let increase := wrapping_add 32 seed 1 in
  bytes ← random_seed increase;
  if (length bytes <? 32)%nat then panic else mret (take 20 (take 32 bytes)).

(** ** Dispatchables *)

Definition save_challenge_info (origin : Origin) (challenge_info : ChallengeInfo) (_key : AuthorityId)
    (_seg_digest : SegDigest) (_signature : AuthoritySignature) : MS unit := transactional (
  ensure_none origin ;;
  let hash := proposal_hash challenge_info in
  count ← gets (λ s, cast 32 (Z.of_nat (length (Keys s))));
  limit ← ok_or (checked_mul 32 count 2) AuditError.Overflow;
  limit ← ok_or (checked_div limit 3) AuditError.Overflow;
  exists_ ← contains_key ChallengeProposal hash;
  if exists_ : bool then
    o ← gets (λ s, ChallengeProposal s !! hash);
    proposal ← unwrap o;
    if limit <=? wrapping_add 32 proposal.1 1 then
      cur_block ← gets ChallengeDuration;
      now ← gets block_number;
      (if cur_block <? now then
         let life := proposal.2.(ci_net_snap_shot).(ns_life) in
         duration ← ok_or (checked_add 32 now life) AuditError.Overflow;
         put ChallengeDuration duration ;;
         let one_hour := OneHours in
         v_duration ← ok_or (checked_add 32 duration life) AuditError.Overflow;
         v_duration ← ok_or (checked_add 32 v_duration one_hour) AuditError.Overflow;
         put VerifyDuration v_duration ;;
         put ChallengeProposal ∅
       else mret ()) ;;
      deposit_event GenerateChallenge
    else mret ()
  else
    proposals ← gets (λ s, Z.of_nat (size (ChallengeProposal s)));
    if count <? proposals then put ChallengeProposal ∅
    else insert_at ChallengeProposal hash (1, challenge_info)).

(** The miner's snapshot, taken off the challenge. *)
Definition take_snapshot (sender : AccountId) : MS MinerSnapShot :=
  challenge_opt ← gets ChallengeSnapShot;
  challenge_info ← ok_or challenge_opt AuditError.NoChallenge;
  match list_find (λ m, m.(ms_miner) = sender) challenge_info.(ci_miner_snapshot_list) with
  | Some (index, miner_snapshot) =>
      now ← gets block_number;
      duration ← gets ChallengeDuration;
      ensure (now <? duration) AuditError.NoChallenge ;;
      put ChallengeSnapShot
        (Some (challenge_info <| ci_miner_snapshot_list ::= delete index |>)) ;;
      mret miner_snapshot
  | None => throw AuditError.NoChallenge
  end.

Definition submit_proof (origin : Origin) (idle_prove service_prove : list Z) : MS unit := transactional (
  sender ← ensure_signed origin;
  miner_snapshot ← take_snapshot sender;
  tee_list ← call get_controller_list;
  ensure (0 <? Z.of_nat (length tee_list)) AuditError.SystemError ;;
  now ← gets block_number;
  let seed := saturated_into 32 now in
  index ← random_number seed;
  let index := cast 32 index mod cast 32 (Z.of_nat (length tee_list)) in
  tee_acc ← unwrap (tee_list !! Z.to_nat index);
  let prove_info := mkProveInfo miner_snapshot idle_prove service_prove in
  insert_at CountedClear sender 0 ;;
  unverify_list ← gets (λ s, default [] (UnverifyProof s !! tee_acc));
  unverify_list ← ok_or (try_push VerifyMissionMax unverify_list prove_info) AuditError.Overflow;
  insert_at UnverifyProof tee_acc unverify_list ;;
  deposit_event (SubmitProof sender)).

(** A passed check resets the count of failures, a failed one raises it; from
    [tolerant] failures on the miner is punished. *)
Definition count_failed (fld : State X → gmap AccountId Z) `{!Setter fld} (tolerant : Z)
    (punish : M X unit) (miner : AccountId) (result : bool) : MS unit :=
  if result then insert_at fld miner 0
  else
    count ← gets (λ s, default 0 (fld s !! miner));
    let count := wrapping_add 32 count 1 in
    (if tolerant <=? count then call punish else mret ()) ;;
    insert_at fld miner count.

Definition submit_verify_result (origin : Origin) (miner : AccountId) (idle_result service_result : bool)
  : MS unit := transactional (
  sender ← ensure_signed origin;
  unverify_list ← gets (λ s, default [] (UnverifyProof s !! sender));
  unverify_list ←
    match list_find (λ miner_info, miner_info.(pv_snap_shot).(ms_miner) = miner) unverify_list with
    | Some (index, miner_info) =>
        o ← gets ChallengeSnapShot;
        snap_shot ← ok_or o AuditError.UnexpectedError;
        let net := snap_shot.(ci_net_snap_shot) in
        let idle_space := miner_info.(pv_snap_shot).(ms_idle_space) in
        let service_space := miner_info.(pv_snap_shot).(ms_service_space) in
        (if idle_result && service_result then
           call (calculate_miner_reward miner net.(ns_total_reward) net.(ns_total_idle_space)
                   net.(ns_total_service_space) idle_space service_space)
         else mret ()) ;;
        count_failed CountedIdleFailed IDLE_FAULT_TOLERANT (idle_punish miner idle_space service_space)
          miner idle_result ;;
        count_failed CountedServiceFailed SERVICE_FAULT_TOLERANT (service_punish miner idle_space service_space)
          miner service_result ;;
        mret (delete index unverify_list)
    | None => throw AuditError.NonExistentMission
    end;
  insert_at UnverifyProof sender unverify_list ;;
  deposit_event (VerifyProof sender miner)).

(** ** Block hooks *)

(** A miner of the challenge that submitted no proof. *)
Definition clear_miner (miner_snapshot : MinerSnapShot) : MS unit :=
  let miner := miner_snapshot.(ms_miner) in
  count ← gets (λ s, wrapping_add 8 (default 0 (CountedClear s !! miner)) 1);
  catch (call (clear_punish miner count miner_snapshot.(ms_idle_space) miner_snapshot.(ms_service_space))) ;;
  if 3 <=? count then
    catch (call (random_force_miner_exit miner)) ;;
    remove_at CountedClear miner
  else insert_at CountedClear miner count.

Definition clear_challenge (now : BlockNumber) : MS unit :=
  duration ← gets ChallengeDuration;
  if now =? duration then
    o ← gets ChallengeSnapShot;
    match o with
    | Some snap_shot => for_each snap_shot.(ci_miner_snapshot_list) clear_miner
    | None => mret ()
    end
  else mret ().

(** The other tee worker for the missions of [acc]. *)
Definition choose_tee (tee_list : list AccountId) (acc : AccountId) (random : Z) : MS AccountId :=
  let len := cast 32 (Z.of_nat (length tee_list)) in
  if len =? 0 then panic else
  let index := cast 32 random mod len in
  tee_acc ← unwrap (tee_list !! Z.to_nat index);
  if bool_decide (acc = tee_acc) then
    let index := wrapping_add 32 index 1 mod len in
    unwrap (tee_list !! Z.to_nat index)
  else mret tee_acc.

(** The variables of the loop over the open missions. *)
Record Reassign := mkReassign {
  ra_seed : Z;
  ra_mission_count : Z;
  ra_list : gmap AccountId (list ProveInfo)
}.

(** One entry of [UnverifyProof]; [None] is the early return of the hook. *)
Definition reassign_entry (now : BlockNumber) (tee_list : list AccountId) (r : Reassign)
    (acc : AccountId) (unverify_list : list ProveInfo) : MS (option Reassign) :=
  let seed := wrapping_add 32 r.(ra_seed) 1 in
  if 0 <? Z.of_nat (length unverify_list) then
    catch (call (punish_scheduler acc)) ;;
    let mission_count := saturating_add 32 r.(ra_mission_count) (Z.of_nat (length unverify_list)) in
    n ← random_number seed;
    tee_acc ← choose_tee tee_list acc n;
    match (match r.(ra_list) !! tee_acc with
           | Some value => try_append VerifyMissionMax value unverify_list
           | None => Some unverify_list
           end) with
    | Some value =>
        remove_at UnverifyProof acc ;;
        mret (Some (mkReassign seed mission_count (<[tee_acc := value]> r.(ra_list))))
    | None =>
        put VerifyDuration (saturating_add 32 now 800) ;;
        mret None
    end
  else mret (Some (mkReassign seed r.(ra_mission_count) r.(ra_list))).

Fixpoint reassign_loop (now : BlockNumber) (tee_list : list AccountId) (r : Reassign)
    (l : list (AccountId * list ProveInfo)) : MS (option Reassign) :=
  match l with
  | [] => mret (Some r)
  | (acc, unverify_list) :: l =>
      o ← reassign_entry now tee_list r acc unverify_list;
      match o with
      | Some r => reassign_loop now tee_list r l
      | None => mret None
      end
  end.

(** The new lists are entered; [false] is the early return. *)
Fixpoint enter_missions (now : BlockNumber) (l : list (AccountId * list ProveInfo)) : MS bool :=
  match l with
  | [] => mret true
  | (acc, unverify_list) :: l =>
      tar_unverify_list ← gets (λ s, default [] (UnverifyProof s !! acc));
      match try_append VerifyMissionMax tar_unverify_list unverify_list with
      | Some value => insert_at UnverifyProof acc value ;; enter_missions now l
      | None =>
          insert_at UnverifyProof acc tar_unverify_list ;;
          put VerifyDuration (saturating_add 32 now 5) ;;
          mret false
      end
  end.

Definition clear_verify_mission (now : BlockNumber) : MS unit :=
  duration ← gets VerifyDuration;
  if now =? duration then
    tee_list ← call get_controller_list;
    entries ← gets (λ s, iter_storage (UnverifyProof s));
    o ← reassign_loop now tee_list (mkReassign 0 0 ∅) entries;
    match o with
    | None => mret ()
    | Some r =>
        if r.(ra_mission_count) =? 0 then put ChallengeSnapShot None
        else
          done_ ← enter_missions now (btree_iter r.(ra_list));
          if done_ : bool then
            let duration := saturating_mul 32 r.(ra_mission_count) 10 in
            put VerifyDuration (saturating_add 32 now duration)
          else mret ()
    end
  else mret ().

Definition on_initialize (now : BlockNumber) : MS unit :=
  clear_challenge now ;; clear_verify_mission now.

Definition _record_challenge_time (duration : BlockNumber) : MS unit :=
  now ← gets block_number;
  verify_deadline ← ok_or (checked_add 32 now duration) AuditError.Overflow;
  verify_deadline ← ok_or (checked_add 32 verify_deadline 2000) AuditError.Overflow;
  put VerifyDuration verify_deadline ;;
  d ← ok_or (checked_add 32 now duration) AuditError.Overflow;
  put ChallengeDuration d.

(** ** Sessions *)

(** [assert!] and [expect] panic. *)
Definition initialize_keys (keys : list AuthorityId) : MS unit :=
  if bool_decide (keys = []) then mret () else
  old ← gets Keys;
  if negb (bool_decide (old = [])) then panic else
  bounded_keys ← unwrap (try_into_bounded StringLimit keys);
  put Keys bounded_keys.

Definition on_genesis_session (validators : list (AccountId * AuthorityId)) : MS unit :=
  initialize_keys validators.*2.

(** [force_from] keeps every key, also beyond the bound. *)
Definition on_new_session (validators : list (AccountId * AuthorityId)) : MS unit :=
  put Keys validators.*2.

(** ** Unsigned transactions *)

Inductive Validity :=
| Stale
| BadProof
| Valid (priority : Z) (provides : Z * AuthorityId * AuthoritySignature) (longevity : Z).

Definition check_unsign (key : AuthorityId) (seg_digest : SegDigest) (signature : AuthoritySignature)
    (s : State X) : Validity :=
  let current_session := session_index (ext s) in
  if negb (bool_decide (key ∈ Keys s)) then Stale
  else if negb (verify key seg_digest signature) then BadProof
  else Valid UnsignedPriority (current_session, key, signature) (average_session_length (ext s) / 2).

Definition validate_unsigned (t : Submitted) (s : State X) : Validity :=
  check_unsign t.(sb_key) t.(sb_seg_digest) t.(sb_signature) s.

(** ** The off-chain worker *)

Abbreviation MN := (M (Node X)).

(** Reading the chain: the worker's own changes to storage are dropped. *)
Definition on_chain {A} (m : MS A) : MN A := λ n, (n, (m (nd_chain n)).2).

(** [m.map_err(|_| e)?] *)
Definition map_err {A} (m : MN A) (e : OffchainErr.t) : MN A :=
  r ← catch m;
  match r with Ok a => mret a | Err _ => throw e | Panic => panic end.

Definition trigger_challenge (now : BlockNumber) : MN bool :=
  time_point ← on_chain (random_number 20220509);
  let probability := saturated_into 32 OneDay in
  if probability =? 0 then panic else
  let range := wrapping_mul 64 (LIMIT / probability) 10 in
  if (2190502 <? time_point) && (time_point <? wrapping_add 64 range 2190502) then
    progress ← on_chain (gets (λ s, estimate_current_session_progress now (ext s)));
    match progress with
    | Some p => mret (negb (800000 <=? p))
    | None => mret true
    end
  else mret false.

(** A worker that ran less than [LockTime] blocks ago does not run again. *)
Definition check_working (now : BlockNumber) (authority_id : AuthorityId) : MN bool :=
  status ← gets (λ n, nd_local n !! authority_id);
  match status with
  | Some last_block =>
      if now <? wrapping_add 32 last_block LockTime then mret false
      else insert_at nd_local authority_id now ;; mret true
  | None => insert_at nd_local authority_id now ;; mret true
  end.

Definition unlock_offchain (authority_id : AuthorityId) : MN unit := remove_at nd_local authority_id.

(** The first authority whose key the node has: the sorted local keys are searched
    for each. *)
Definition get_authority : MN (AuthorityId * Z) :=
  validators ← on_chain (gets Keys);
  if bool_decide (local_keys = []) then throw OffchainErr.Ineligible else
  match find (λ key, bool_decide (key ∈ local_keys)) validators with
  | Some authority_id => mret (authority_id, Z.of_nat (length validators))
  | None => throw OffchainErr.Ineligible
  end.

(** One round of [random_select_miner]; the seed is a [u32] and wraps. *)
Definition select_round (need length_ : Z) (valid_index_list : list Z) (st : Z * list Z)
  : MN ((Z * list Z) + list Z) :=
  let '(seed, miner_index_list) := st in
  if negb ((cast 32 (Z.of_nat (length miner_index_list)) <? need) &&
           negb (cast 32 (Z.of_nat (length valid_index_list) + Z.of_nat (length miner_index_list)) =? length_))
  then mret (inr miner_index_list) else
  let seed := wrapping_add 32 seed 1 in
  index ← on_chain (random_number seed);
  if length_ =? 0 then panic else
  let index := cast 32 (index mod length_) in
  if bool_decide (index ∈ valid_index_list) then mret (inl (seed, miner_index_list))
  else if bool_decide (index ∈ miner_index_list) then mret (inl (seed, miner_index_list))
  else mret (inl (seed, miner_index_list ++ [index])).

(** After [2^32] rounds every seed has been tried, and the loop would go on without
    end: there is no result. *)
Definition random_select_miner (need length_ : Z) (valid_index_list : list Z) (seed : Z) : MN (list Z) :=
  r ← loop_pos (2 ^ 32 + 1) (select_round need length_ valid_index_list) (saturating_mul 32 seed 1000, []);
  match r with inr l => mret l | inl _ => panic end.

(** The variables of the loop of [generation_challenge] over the miners. *)
Record Gen := mkGen {
  gn_miner_list : list MinerSnapShot;
  gn_valid_index_list : list Z;
  gn_total_idle_space : Z;
  gn_total_service_space : Z;
  gn_max_space : Z;
  gn_seed : Z
}.

Definition snapshot_miner (allminer : list AccountId) (g : Gen) (index : Z) : MN Gen :=
  let valid_index_list := g.(gn_valid_index_list) ++ [index] in
  let g := mkGen g.(gn_miner_list) valid_index_list g.(gn_total_idle_space) g.(gn_total_service_space)
             g.(gn_max_space) g.(gn_seed) in
  miner ← unwrap (allminer !! Z.to_nat index);
  state ← map_err (on_chain (call (get_miner_state miner))) OffchainErr.GenerateInfoError;
  if bool_decide (state = "lock"%string) then mret g else
  '(idle_space, service_space) ← map_err (on_chain (call (get_power miner))) OffchainErr.GenerateInfoError;
  if (idle_space =? 0) && (service_space =? 0) then mret g else
  let miner_total_space := wrapping_add 128 idle_space service_space in
  let max_space := if g.(gn_max_space) <? miner_total_space then miner_total_space else g.(gn_max_space) in
  total_idle_space ← ok_or (checked_add 128 g.(gn_total_idle_space) idle_space) OffchainErr.Overflow;
  total_service_space ← ok_or (checked_add 128 g.(gn_total_service_space) service_space) OffchainErr.Overflow;
  miner_list ← ok_or (try_push ChallengeMinerMax g.(gn_miner_list) (mkMinerSnapShot miner idle_space service_space))
                 OffchainErr.GenerateInfoError;
  mret (mkGen miner_list valid_index_list total_idle_space total_service_space max_space g.(gn_seed)).

Definition gen_round (need_miner_count miner_count : Z) (g : Gen) : MN (Gen + Gen) :=
  if negb (negb (cast 32 (Z.of_nat (length g.(gn_miner_list))) =? need_miner_count) &&
           negb (cast 32 (Z.of_nat (length g.(gn_valid_index_list))) =? miner_count))
  then mret (inr g) else
  let seed := saturating_add 32 g.(gn_seed) 1 in
  index_list ← random_select_miner need_miner_count miner_count g.(gn_valid_index_list) seed;
  allminer ← map_err (on_chain (call get_all_miner)) OffchainErr.GenerateInfoError;
  let g := mkGen g.(gn_miner_list) g.(gn_valid_index_list) g.(gn_total_idle_space) g.(gn_total_service_space)
             g.(gn_max_space) seed in
  g ← fold_m (snapshot_miner allminer) g index_list;
  mret (inl g).

(** The loops that collect distinct random values: [draw] gives the value of a
    seed. *)
Definition draw_round {A} `{EqDecision A} (need_count : Z) (draw : Z → MN A) (st : Z * list A)
  : MN ((Z * list A) + list A) :=
  let '(seed, l) := st in
  if negb (Z.of_nat (length l) <? need_count) then mret (inr l) else
  let seed := wrapping_add 32 seed 1 in
  x ← draw seed;
  if bool_decide (x ∈ l) then mret (inl (seed, l)) else mret (inl (seed, l ++ [x])).

Definition draw_list {A} `{EqDecision A} (need_count : Z) (draw : Z → MN A) (seed : Z) : MN (list A) :=
  r ← loop_pos (2 ^ 32 + 1) (draw_round need_count draw) (seed, []);
  match r with inr l => mret l | inl _ => panic end.

Definition generation_challenge (now : BlockNumber) : MN ChallengeInfo :=
  miner_count ← on_chain (call get_miner_count);
  if miner_count =? 0 then throw OffchainErr.GenerateInfoError else
  let need_miner_count := wrapping_add 32 (miner_count / 10) 1 in
  r ← loop_pos (2 ^ 32) (gen_round need_miner_count miner_count) (mkGen [] [] 0 0 0 20230601);
  g ← match r with inr g => mret g | inl _ => panic end;
  let need_count := CHUNK_COUNT * 46 / 1000 in
  random_index_list ← draw_list need_count
    (λ seed, n ← on_chain (random_number seed); mret (cast 32 (n mod CHUNK_COUNT))) 0;
  random_list ← draw_list need_count (λ seed, on_chain (generate_challenge_random seed)) (saturated_into 32 now);
  let life := cast 32 (g.(gn_max_space) / 8947849 + 12) in
  total_reward ← on_chain (call get_reward);
  random_index_list ← ok_or (try_into_bounded 1024 random_index_list) OffchainErr.GenerateInfoError;
  random_list ← ok_or (try_into_bounded 1024 random_list) OffchainErr.GenerateInfoError;
  mret (mkChallengeInfo
    (mkNetSnapShot now life total_reward g.(gn_total_idle_space) g.(gn_total_service_space)
       random_index_list random_list)
    g.(gn_miner_list)).

Definition offchain_sign_digest (now : BlockNumber) (authority_id : AuthorityId)
  : MN (AuthoritySignature * SegDigest) :=
  network_state ← ok_or network_state OffchainErr.NetworkState;
  author_len ← on_chain (gets (λ s, Z.of_nat (length (Keys s))));
  let digest := mkSegDigest (cast 32 author_len) now network_state in
  signature ← ok_or (sign authority_id digest) OffchainErr.FailedSigning;
  mret (signature, digest).

Definition offchain_call_extrinsic (now : BlockNumber) (authority_id : AuthorityId)
    (challenge_info : ChallengeInfo) : MN unit :=
  '(signature, digest) ← offchain_sign_digest now authority_id;
  let t := mkSubmitted challenge_info authority_id digest signature in
  ensure (pool_accepts t) OffchainErr.SubmitTransactionFailed ;;
  modify (λ n, n <| nd_pool ::= λ l, l ++ [t] |>).

Definition offchain_work_start (now : BlockNumber) : MN unit :=
  '(authority_id, _) ← get_authority;
  ok ← check_working now authority_id;
  if negb ok then unlock_offchain authority_id ;; throw OffchainErr.Working else
  r ← catch (generation_challenge now);
  challenge_info ←
    match r with
    | Ok c => mret c
    | Err _ => unlock_offchain authority_id ;; throw OffchainErr.GenerateInfoError
    | Panic => panic
    end;
  offchain_call_extrinsic now authority_id challenge_info ;;
  unlock_offchain authority_id.

Definition offchain_worker (now : BlockNumber) : MN unit :=
  deadline ← on_chain (gets VerifyDuration);
  if is_validator && (deadline <? now) then
    t ← trigger_challenge now;
    if t : bool then catch (offchain_work_start now) ;; mret () else mret ()
  else mret ().
End operations.
