(* ===== verification/AuditProofs.v ===== *)
(** * The audit pallet: theorems

    What the reachable states of the pallet look like, the effect of a verification
    result, what the reassignment of missions keeps, and what a challenge generated
    off-chain contains. *)
From S2P Require Import Prelude Errors Frame Common Interfaces AuditPallet.

Section audit.
Context {X : Type} `{!MinerControl X} `{!ScheduleFind X} `{!RandomFileList X}
  `{!RandomHash X} `{!Crypto} `{!Session X} `{!NodeConfig} `{!Config} `{!StorageIter}.
Implicit Types (s : State X).

(** ** Reachable states *)

Inductive audit_call :=
| CallSave (origin : Origin) (info : ChallengeInfo) (key : AuthorityId) (digest : SegDigest)
    (signature : AuthoritySignature)
| CallProof (origin : Origin) (idle_prove service_prove : list Z)
| CallVerify (origin : Origin) (miner : AccountId) (idle_result service_result : bool)
| CallHook (now : BlockNumber)
| CallSession (validators : list (AccountId * AuthorityId)).

Definition run_call (c : audit_call) : M (State X) unit :=
  match c with
  | CallSave origin info key digest signature => save_challenge_info origin info key digest signature
  | CallProof origin i p => submit_proof origin i p
  | CallVerify origin miner i p => submit_verify_result origin miner i p
  | CallHook now => on_initialize now
  | CallSession validators => on_new_session validators
  end.

(** From storage without proposals and without a challenge, by the calls and hooks
    of the pallet, whether they succeed or not, and by anything other pallets and the
    passing of blocks do. *)
Inductive reachable : State X → Prop :=
| reachable_genesis s : ChallengeSnapShot s = None → ChallengeProposal s = ∅ → reachable s
| reachable_call s c : reachable s → reachable (run_call c s).1
| reachable_other s x n : reachable s → reachable (s <| ext := x |> <| block_number := n |>).

(** No challenge is on, and no proposal has more than one vote. *)
Definition quiet s : Prop :=
  ChallengeSnapShot s = None ∧ map_Forall (λ _ p, p.1 = 1) (ChallengeProposal s).

Lemma quiet_call {A} (m : M X A) : preserves quiet (call m).
Proof. by apply preserves_zoom. Qed.

Lemma random_number_reads seed : read_only (random_number (X := X) seed).
Proof. unfold random_number, random_seed. eauto with frame. Qed.

Lemma choose_tee_reads tee_list acc n : read_only (choose_tee (X := X) tee_list acc n).
Proof. unfold choose_tee. eauto 10 with frame. Qed.

Lemma quiet_save origin info key digest signature :
  preserves quiet (save_challenge_info origin info key digest signature).
Proof.
  unfold save_challenge_info. preserves; (apply preserves_modify; intros s [Hs Hp]; split; [done|];
    by (apply map_Forall_empty || apply map_Forall_insert_2 || done)).
Qed.

Lemma quiet_take sender s : quiet s → take_snapshot sender s = (s, Err (InAudit AuditError.NoChallenge)).
Proof. intros [Hs _]. unfold take_snapshot, mbind, M_bind, gets. by rewrite Hs. Qed.

Lemma quiet_submit_proof sender i p s :
  quiet s → submit_proof (Signed sender) i p s = (s, Err (InAudit AuditError.NoChallenge)).
Proof.
  intros Hs. unfold submit_proof, transactional, mbind, M_bind. cbn [ensure_signed]. unfold mret, M_ret.
  by rewrite (quiet_take _ _ Hs).
Qed.

Lemma quiet_verify sender miner i p s :
  quiet s → ∃ e, submit_verify_result (Signed sender) miner i p s = (s, Err e).
Proof.
  intros [Hs _]. unfold submit_verify_result, transactional, mbind, M_bind. cbn [ensure_signed]. unfold mret, M_ret, gets.
  destruct (list_find _ _) as [[]|]; [|by eexists]. rewrite Hs. by eexists.
Qed.

Lemma quiet_clear now : preserves quiet (clear_challenge now).
Proof.
  intros s Hs. unfold clear_challenge, mbind, M_bind, gets. case_match; [|done].
  by rewrite (proj1 Hs).
Qed.

Lemma quiet_reassign now tee_list r l : preserves quiet (reassign_loop now tee_list r l).
Proof.
  revert r. induction l as [|[acc missions] l IH]; intros r; cbn [reassign_loop]; preserves.
  - pose proof random_number_reads. pose proof choose_tee_reads.
    unfold reassign_entry. preserves; [apply quiet_call|].
    destruct (match ra_list r !! _ with Some _ => _ | None => _ end); preserves; by apply preserves_modify.
  - destruct a; [apply IH|preserves].
Qed.

Lemma quiet_enter now l : preserves quiet (enter_missions now l).
Proof.
  induction l as [|[acc missions] l IH]; cbn [enter_missions]; preserves.
  destruct (try_append _ _ _); preserves; done || by apply preserves_modify.
Qed.

Lemma quiet_reachable s : reachable s → quiet s.
Proof.
  induction 1 as [s Hs Hp|s c _ IH|s x n _ IH]; [|revert IH|done].
  - split; [done|]. rewrite Hp. apply map_Forall_empty.
  - destruct c as [origin info key digest signature|[who| |] i p|[who| |] miner i p|now|validators]; cbn [run_call]; intros IH.
    + by apply quiet_save.
    + by rewrite quiet_submit_proof.
    + done.
    + done.
    + by destruct (quiet_verify who miner i p s IH) as [e ->].
    + done.
    + done.
    + revert IH. apply preserves_bind; [apply quiet_clear|]. intros _. unfold clear_verify_mission. preserves.
      * apply quiet_call.
      * apply quiet_reassign.
      * destruct a2 as [r|]; preserves; [by apply preserves_modify; intros ? []|apply quiet_enter|by apply preserves_modify].
    + by revert IH; apply preserves_modify.
Qed.

(** One vote is not enough when more than four validators are needed. *)
Lemma save_needs_votes info key digest signature s :
  quiet s → 5 <= Z.of_nat (length (Keys s)) < 2 ^ 31 →
  let s' := (save_challenge_info Unsigned info key digest signature s).1 in
  ChallengeDuration s' = ChallengeDuration s ∧ VerifyDuration s' = VerifyDuration s.
Proof.
  intros [_ Hp] Hn. cbv zeta. destruct (save_challenge_info _ _ _ _ _ s) as [s' r] eqn:Hrun. cbn [fst].
  unfold save_challenge_info, transactional in Hrun.
  destruct ((ensure_none Unsigned ≫= _) s) as [s1 [[]|e|]] eqn:Hm; simplify_eq; [|done..].
  apply bind_Ok in Hm as (s1 & [] & [-> _]%ensure_none_Ok & Hm).
  apply bind_Ok in Hm as (s1 & count & [-> ->]%gets_Ok & Hm).
  apply bind_Ok in Hm as (s1 & l2 & [-> Hl2]%ok_or_Ok & Hm). apply bind_Ok in Hm as (s1 & limit & [-> Hl]%ok_or_Ok & Hm).
  apply checked_mul_Some in Hl2 as [-> _]. injection Hl as <-.
  assert (cast 32 (Z.of_nat (length (Keys s))) = Z.of_nat (length (Keys s))) as Hc by (apply Z.mod_small; lia).
  rewrite !Hc in Hm.
  apply bind_Ok in Hm as (s1 & ex & [-> ->]%contains_key_Ok & Hm). case_bool_decide as Hex.
  - apply bind_Ok in Hm as (s1 & o & [-> ->]%gets_Ok & Hm). apply bind_Ok in Hm as (s1 & p & [-> Hpr]%unwrap_Ok & Hm).
    specialize (Hp _ _ Hpr). cbn in Hp. rewrite Hp in Hm. change (wrapping_add 32 1 1) with 2 in Hm.
    rewrite (proj2 (Z.leb_gt _ _)) in Hm.
    { by apply ret_Ok in Hm as [-> _]. }
    pose proof (Z.div_le_mono 10 (Z.of_nat (length (Keys s)) * 2) 3). change (10 / 3) with 3 in *. lia.
  - apply bind_Ok in Hm as (s1 & k & [-> ->]%gets_Ok & Hm). case_match.
    + by apply put_Ok in Hm as ->.
    + by apply insert_at_Ok in Hm as ->.
Qed.

(** C36 No challenge ever takes effect.  [save_challenge_info] never stores the challenge and never
    counts a vote, so in every reachable state there is no challenge: every proof is refused with
    [NoChallenge], no verification result is accepted, and with five or more
    validators no proposal is ever confirmed. *)
Theorem no_challenge_takes_effect s :
  reachable s →
  ChallengeSnapShot s = None ∧
  (∀ who i p, submit_proof (Signed who) i p s = (s, Err (InAudit AuditError.NoChallenge))) ∧
  (∀ who miner i p, (submit_verify_result (Signed who) miner i p s).2 ≠ Ok ()) ∧
  (5 <= Z.of_nat (length (Keys s)) < 2 ^ 31 → ∀ info key digest signature,
     let s' := (save_challenge_info Unsigned info key digest signature s).1 in
     ChallengeDuration s' = ChallengeDuration s ∧ VerifyDuration s' = VerifyDuration s).
Proof.
  intros Hq%quiet_reachable. split_and!; [apply Hq| | |].
  - intros who i p. by apply quiet_submit_proof.
  - intros who miner i p. by destruct (quiet_verify who miner i p s Hq) as [e ->].
  - intros Hn info key digest signature. by apply save_needs_votes.
Qed.

(** ** Verification results *)

(** The failures in a row after a result. *)
Definition failures (counts : gmap AccountId Z) (miner : AccountId) (result : bool) : Z :=
  if result then 0 else wrapping_add 32 (default 0 (counts !! miner)) 1.

Definition runs_if (b : bool) (m : M X unit) (x x' : X) : Prop :=
  if b then m x = (x', Ok ()) else x' = x.

Lemma count_failed_Ok (fld : State X → gmap AccountId Z) `{!Setter fld} tolerant punish miner result s s' :
  (∀ s x, fld (s <| ext := x |>) = fld s) →
  count_failed fld tolerant punish miner result s = (s', Ok ()) →
  ∃ x, runs_if (negb result && (tolerant <=? failures (fld s) miner result)) punish (ext s) x ∧
    s' = (s <| ext := x |>) <| fld ::= <[miner := failures (fld s) miner result]> |>.
Proof.
  intros Hext Hrun. unfold count_failed, failures in *. destruct result; cbn [negb andb runs_if].
  - apply insert_at_Ok in Hrun as ->. exists (ext s). split; [done|]. by destruct s.
  - apply bind_Ok in Hrun as (s1 & n & [-> ->]%gets_Ok & Hrun). apply bind_Ok in Hrun as (s1 & [] & Hp & Hrun).
    apply insert_at_Ok in Hrun as ->. destruct (tolerant <=? _); cbn.
    + apply zoom_Ok in Hp as (x & Hx & ->). by exists x.
    + apply ret_Ok in Hp as [-> _]. exists (ext s). split; [done|]. by destruct s.
Qed.

(** C34 An accepted verification result.  The first mission of the miner leaves the tee
    worker's list and nothing else of any list changes; the miner is paid its reward exactly when both
    checks passed, is punished for a check exactly when that check failed for at least the second time in a
    row, and a passed check sets the count of its failures back. *)
Theorem submit_verify_result_spec tee miner i p s s' :
  submit_verify_result (Signed tee) miner i p s = (s', Ok ()) →
  ∃ pre mission post snap_shot x1 x2,
    let net := snap_shot.(ci_net_snap_shot) in
    let idle := mission.(pv_snap_shot).(ms_idle_space) in
    let service := mission.(pv_snap_shot).(ms_service_space) in
    let idle_failures := failures (CountedIdleFailed s) miner i in
    let service_failures := failures (CountedServiceFailed s) miner p in
    ChallengeSnapShot s = Some snap_shot ∧
    UnverifyProof s !! tee = Some (pre ++ mission :: post) ∧
    mission.(pv_snap_shot).(ms_miner) = miner ∧
    Forall (λ m, m.(pv_snap_shot).(ms_miner) ≠ miner) pre ∧
    UnverifyProof s' = <[tee := pre ++ post]> (UnverifyProof s) ∧
    CountedIdleFailed s' = <[miner := idle_failures]> (CountedIdleFailed s) ∧
    CountedServiceFailed s' = <[miner := service_failures]> (CountedServiceFailed s) ∧
    runs_if (i && p)
      (calculate_miner_reward miner net.(ns_total_reward) net.(ns_total_idle_space)
         net.(ns_total_service_space) idle service) (ext s) x1 ∧
    runs_if (negb i && (2 <=? idle_failures)) (idle_punish miner idle service) x1 x2 ∧
    runs_if (negb p && (2 <=? service_failures)) (service_punish miner idle service) x2 (ext s').
Proof.
  unfold submit_verify_result. rewrite transactional_Ok. intros Hrun.
  apply bind_Ok in Hrun as (s1 & who & [-> [= <-]]%ensure_signed_Ok & Hrun).
  apply bind_Ok in Hrun as (s1 & l & [-> ->]%gets_Ok & Hrun).
  apply bind_Ok in Hrun as (s1 & l' & Hmatch & Hrun).
  apply bind_Ok in Hrun as (s2 & [] & ->%insert_at_Ok & ->%modify_Ok).
  destruct (UnverifyProof s !! tee) as [l|] eqn:Hl; [|done]. cbn [default from_option id] in Hmatch.
  destruct (list_find _ l) as [[index mission]|] eqn:Hfind; [|done].
  apply list_find_Some in Hfind as (Hi & Hm & Hfirst).
  apply bind_Ok in Hmatch as (s2 & o & [-> ->]%gets_Ok & Hmatch).
  apply bind_Ok in Hmatch as (s2 & snap & [-> Hsnap]%ok_or_Ok & Hmatch). cbv zeta in Hmatch.
  apply bind_Ok in Hmatch as (s2 & [] & Hreward & Hmatch).
  assert (∃ x1, runs_if (i && p) (calculate_miner_reward miner snap.(ci_net_snap_shot).(ns_total_reward)
      snap.(ci_net_snap_shot).(ns_total_idle_space) snap.(ci_net_snap_shot).(ns_total_service_space)
      mission.(pv_snap_shot).(ms_idle_space) mission.(pv_snap_shot).(ms_service_space)) (ext s) x1 ∧
      s2 = s <| ext := x1 |>) as (x1 & Hx1 & ->).
  { destruct (i && p); cbn [runs_if].
    - by apply zoom_Ok in Hreward as (x & Hx & ->); eauto.
    - apply ret_Ok in Hreward as [-> _]. exists (ext s). split; [done|]. by destruct s. }
  apply bind_Ok in Hmatch as (s2 & [] & Hidle & Hmatch). apply count_failed_Ok in Hidle as (x2 & Hx2 & ->); [|done].
  apply bind_Ok in Hmatch as (s2 & [] & Hserv & Hmatch). apply count_failed_Ok in Hserv as (x3 & Hx3 & ->); [|done].
  apply ret_Ok in Hmatch as [-> ->].
  exists (take index l), mission, (drop (S index) l), snap, x1, x2. cbv zeta.
  split_and!; [done|by rewrite take_drop_middle|done| |by rewrite <- delete_take_drop|done|done|done|done|done].
  apply Forall_forall. intros m (j & Hj)%list_elem_of_lookup. apply lookup_take_Some in Hj as [Hj Hlt]. eauto.
Qed.

(** ** Handing on the missions *)

Definition all_missions (m : gmap AccountId (list ProveInfo)) : list ProveInfo := map_to_list m ≫= snd.

Lemma all_missions_delete m k : all_missions m ≡ₚ default [] (m !! k) ++ all_missions (delete k m).
Proof.
  unfold all_missions. destruct (m !! k) as [l|] eqn:Hk; cbn.
  - by rewrite <- (map_to_list_delete m k l Hk).
  - by rewrite delete_id.
Qed.

Lemma all_missions_insert m k l : all_missions (<[k := l]> m) ≡ₚ l ++ all_missions (delete k m).
Proof. rewrite (all_missions_delete _ k), lookup_insert_eq, delete_insert_eq. done. Qed.

Lemma choose_tee_elem tee_list acc n s s' t :
  choose_tee (X := X) tee_list acc n s = (s', Ok t) → s' = s ∧ t ∈ tee_list.
Proof.
  intros Hrun. split; [by eapply choose_tee_reads|]. unfold choose_tee in Hrun. case_match; [done|].
  apply bind_Ok in Hrun as (s1 & t1 & [-> Ht]%unwrap_Ok & Hrun). case_match.
  - apply unwrap_Ok in Hrun as [_ Ht']. by eapply list_elem_of_lookup_2.
  - apply ret_Ok in Hrun as [_ ->]. by eapply list_elem_of_lookup_2.
Qed.

Lemma catch_call_Ok {A} (m : M X A) s s' r : catch (call m) s = (s', Ok r) → ∃ x, s' = s <| ext := x |>.
Proof.
  unfold catch, call, zoom. destruct (m (ext s)) as [x [a|e|]]; intros [= <- _]; eauto.
Qed.

(** The total of the missions, in storage and in the loop's own lists. *)
Definition missions_at s (r : Reassign) : list ProveInfo :=
  all_missions r.(ra_list) ++ all_missions (UnverifyProof s).

Lemma reassign_entry_Ok now tee_list r acc l s s' o :
  UnverifyProof s !! acc = Some l → Z.of_nat (length (missions_at s r)) <= VerifyMissionMax →
  r.(ra_mission_count) < 2 ^ 32 →
  reassign_entry now tee_list r acc l s = (s', Ok o) →
  ∃ r', o = Some r' ∧ missions_at s' r' ≡ₚ missions_at s r ∧
    UnverifyProof s' = (if bool_decide (l = []) then UnverifyProof s else delete acc (UnverifyProof s)) ∧
    r'.(ra_mission_count) = saturating_add 32 r.(ra_mission_count) (Z.of_nat (length l)) ∧
    (∀ t, t ∈ dom r'.(ra_list) → t ∈ dom r.(ra_list) ∨ t ∈ tee_list).
Proof.
  intros Hacc Hmax Hc Hrun. unfold reassign_entry in Hrun. cbv zeta in Hrun.
  destruct (Z.ltb_spec 0 (Z.of_nat (length l))) as [Hpos|Hnil].
  2: { apply ret_Ok in Hrun as [-> ->]. destruct l; [|cbn in Hnil; lia]. eexists. split; [done|].
       split; [done|]. split; [done|]. split; [|by left]. cbn. unfold saturating_add. lia. }
  apply bind_Ok in Hrun as (s1 & res & (x & ->)%catch_call_Ok & Hrun).
  apply bind_Ok in Hrun as (s1 & n & Hn & Hrun). apply random_number_reads in Hn as ->.
  apply bind_Ok in Hrun as (s1 & t & [-> Ht]%choose_tee_elem & Hrun).
  assert (Z.of_nat (length (default [] (r.(ra_list) !! t))) + Z.of_nat (length l) <= VerifyMissionMax) as Hfit.
  { unfold missions_at in Hmax. rewrite (all_missions_delete r.(ra_list) t), (all_missions_delete (UnverifyProof s) acc), Hacc in Hmax.
    rewrite !length_app in Hmax. cbn in Hmax. lia. }
  replace (match ra_list r !! t with Some value => try_append VerifyMissionMax value l | None => Some l end)
    with (Some (default [] (r.(ra_list) !! t) ++ l)) in Hrun.
  2: { destruct (r.(ra_list) !! t) as [v|]; [|done]. unfold try_append. cbn in Hfit.
       by rewrite (proj2 (Z.ltb_ge _ _)) by lia. }
  apply bind_Ok in Hrun as (s2 & [] & ->%remove_at_Ok & [-> ->]%ret_Ok). eexists. split; [done|].
  rewrite bool_decide_eq_false_2 by (intros ->; cbn in Hpos; lia). cbn. split_and!; [|done|done|].
  - unfold missions_at. cbn. rewrite all_missions_insert, (all_missions_delete r.(ra_list) t),
      (all_missions_delete (UnverifyProof s) acc), Hacc. cbn. solve_Permutation.
  - intros t'. rewrite dom_insert. intros [->%elem_of_singleton|?]%elem_of_union; auto.
Qed.

Lemma reassign_loop_Ok now tee_list r l s s' o :
  NoDup l.*1 → (∀ acc missions, (acc, missions) ∈ l → UnverifyProof s !! acc = Some missions) →
  Z.of_nat (length (missions_at s r)) <= VerifyMissionMax → r.(ra_mission_count) < 2 ^ 32 →
  reassign_loop now tee_list r l s = (s', Ok o) →
  ∃ r', o = Some r' ∧ missions_at s' r' ≡ₚ missions_at s r ∧
    (∀ acc missions, UnverifyProof s' !! acc = Some missions →
       UnverifyProof s !! acc = Some missions ∧ (missions = [] ∨ (acc, missions) ∉ l)) ∧
    r'.(ra_mission_count) = saturating_add 32 r.(ra_mission_count) (Z.of_nat (length (l ≫= snd))) ∧
    (∀ t, t ∈ dom r'.(ra_list) → t ∈ dom r.(ra_list) ∨ t ∈ tee_list).
Proof.
  revert r s. induction l as [|[acc missions] l IH]; intros r s Hnd Hin Hmax Hc Hrun; cbn [reassign_loop] in Hrun.
  { apply ret_Ok in Hrun as [-> ->]. exists r. split_and!; [done|done| | |by left].
    - intros acc m Hm. split; [done|]. right. by intros ?%not_elem_of_nil.
    - cbn. unfold saturating_add. lia. }
  apply bind_Ok in Hrun as (s1 & o1 & Hentry & Hrun). cbn in Hnd. apply NoDup_cons in Hnd as [Hacc Hnd].
  assert (UnverifyProof s !! acc = Some missions) as Hlook by (apply Hin; by left).
  destruct (reassign_entry_Ok _ _ _ _ _ _ _ _ Hlook Hmax Hc Hentry) as (r1 & -> & Hperm & Hmap & Hcount & Hdom).
  apply IH in Hrun as (r' & -> & Hperm' & Hmap' & Hcount' & Hdom').
  - exists r'. split; [done|]. split; [by rewrite Hperm'|]. split; [|split].
    + intros a m Ha. apply Hmap' in Ha as [Ha Hor]. rewrite Hmap in Ha. case_bool_decide as Hnil.
      * split; [done|]. destruct Hor as [?|?]; [by left|]. destruct (decide (a = acc)) as [->|Hne].
        -- left. congruence.
        -- right. rewrite not_elem_of_cons. split; [|done]. by intros [= -> ->].
      * apply lookup_delete_Some in Ha as [Hne Ha]. split; [done|]. destruct Hor as [?|?]; [by left|].
        right. rewrite not_elem_of_cons. split; [|done]. by intros [= -> ->].
    + rewrite Hcount', Hcount, bind_cons, length_app. unfold saturating_add. cbn [snd]. lia.
    + intros t Ht. apply Hdom' in Ht as [Ht|Ht]; [by apply Hdom|by right].
  - done.
  - intros a m Ha. rewrite Hmap. assert (UnverifyProof s !! a = Some m) as Hs by (apply Hin; by right).
    case_bool_decide; [done|]. rewrite lookup_delete_ne; [done|]. intros <-. apply Hacc.
    by apply (list_elem_of_fmap_2 fst) in Ha.
  - by rewrite Hperm.
  - rewrite Hcount. unfold saturating_add. lia.
Qed.

Lemma enter_missions_Ok now l s s' b :
  Z.of_nat (length (all_missions (UnverifyProof s) ++ (l ≫= snd))) <= VerifyMissionMax →
  enter_missions now l s = (s', Ok b) →
  b = true ∧ all_missions (UnverifyProof s') ≡ₚ all_missions (UnverifyProof s) ++ (l ≫= snd) ∧
  (∀ t m, UnverifyProof s' !! t = Some m → UnverifyProof s !! t = Some m ∨ t ∈ l.*1).
Proof.
  revert s. induction l as [|[acc missions] l IH]; intros s Hmax Hrun; cbn [enter_missions] in Hrun.
  { apply ret_Ok in Hrun as [-> ->]. rewrite app_nil_r. auto. }
  apply bind_Ok in Hrun as (s1 & old & [-> ->]%gets_Ok & Hrun).
  rewrite bind_cons in *. cbn [snd] in *.
  pose proof (all_missions_delete (UnverifyProof s) acc) as Hdel.
  assert (all_missions (<[acc := default [] (UnverifyProof s !! acc) ++ missions]> (UnverifyProof s))
    ≡ₚ all_missions (UnverifyProof s) ++ missions) as Hins.
  { rewrite all_missions_insert, Hdel. solve_Permutation. }
  unfold try_append in Hrun. rewrite (proj2 (Z.ltb_ge _ _)) in Hrun.
  - apply bind_Ok in Hrun as (s1 & [] & ->%insert_at_Ok & Hrun). apply IH in Hrun as (-> & Hperm & Hdom).
    + split; [done|]. cbn in Hperm, Hdom. split.
      * rewrite Hperm, Hins. by rewrite <- app_assoc.
      * intros t m Ht. apply Hdom in Ht as [Ht|Ht]; [|cbn; right; by right].
        apply lookup_insert_Some in Ht as [[-> _]|[_ ?]]; [cbn; right; by left|by left].
    + cbn. rewrite Hins. by rewrite <- app_assoc.
  - rewrite !length_app in Hmax. rewrite Hdel, length_app in Hmax. lia.
Qed.

(** C35 Handing on the missions.  At the end of the verification period, as long as the open missions fit
    one list, no mission is lost, duplicated or changed: the missions of all tee workers are the same as
    before, every open mission is with a registered tee worker, and the new period is ten blocks per mission; with no
    mission left the challenge ends. *)
Theorem missions_conserved now tees s s' :
  VerifyDuration s = now → (get_controller_list (ext s)).2 = Ok tees →
  let open_ := Z.of_nat (length (all_missions (UnverifyProof s))) in
  open_ <= VerifyMissionMax → VerifyMissionMax < 2 ^ 32 →
  clear_verify_mission now s = (s', Ok ()) →
  all_missions (UnverifyProof s') ≡ₚ all_missions (UnverifyProof s) ∧
  (∀ t l, UnverifyProof s' !! t = Some l → l = [] ∨ t ∈ tees) ∧
  (if open_ =? 0 then ChallengeSnapShot s' = None
   else VerifyDuration s' = saturating_add 32 now (saturating_mul 32 open_ 10)).
Proof.
  intros Hnow Htees open_ Hmax Hwidth Hrun. unfold clear_verify_mission in Hrun.
  apply bind_Ok in Hrun as (s1 & d & [-> ->]%gets_Ok & Hrun). rewrite Hnow, Z.eqb_refl in Hrun.
  apply bind_Ok in Hrun as (s1 & tee_list & Hget & Hrun).
  apply zoom_Ok in Hget as (x & Hx & ->). rewrite Hx in Htees. injection Htees as ->.
  apply bind_Ok in Hrun as (s1 & l & [-> ->]%gets_Ok & Hrun). cbn [UnverifyProof set_field set_st_ext] in Hrun.
  apply bind_Ok in Hrun as (s1 & o & Hloop & Hrun).
  apply reassign_loop_Ok in Hloop as (r & -> & Hperm & Hmap & Hcount & Hdom);
    [|apply iter_storage_NoDup|by intros acc m ?%iter_storage_elem|done|done].
  unfold missions_at in Hperm. cbn in Hperm. change (all_missions ∅) with (@nil ProveInfo) in Hperm.
  assert (∀ t m, UnverifyProof s1 !! t = Some m → m = []) as Hempty.
  { intros t m Ht. apply Hmap in Ht as [Ht [?|Hn]]; [done|]. destruct Hn. by apply iter_storage_elem. }
  assert (r.(ra_mission_count) = open_) as Hopen.
  { rewrite Hcount. cbn. rewrite (iter_storage_perm (UnverifyProof s)). unfold saturating_add.
    change (length (map_to_list (UnverifyProof s) ≫= snd)) with (length (all_missions (UnverifyProof s))). lia. }
  rewrite Hopen in Hrun. destruct (Z.eqb_spec open_ 0) as [Hz|Hz].
  - apply put_Ok in Hrun as ->. cbn. subst open_.
    destruct (all_missions (UnverifyProof s)) as [|] eqn:Hs; [|cbn in Hz; lia].
    apply Permutation_nil_r, app_nil in Hperm as [_ ->]. split; [done|]. split; [|done]. intros t m Ht. left. eauto.
  - apply bind_Ok in Hrun as (s2 & b & Henter & Hrun).
    assert (all_missions (UnverifyProof s1) ++ (btree_iter (ra_list r) ≫= snd) ≡ₚ all_missions (UnverifyProof s)) as Hall.
    { rewrite (btree_iter_perm (ra_list r)). rewrite <- Hperm. apply Permutation_app_comm. }
    apply enter_missions_Ok in Henter as (-> & Hfin & Hkeys); [|by rewrite Hall].
    apply put_Ok in Hrun as ->. cbn. split; [by rewrite Hfin|]. split; [|done].
    intros t m Ht. apply Hkeys in Ht as [Ht|Ht]; [left; eauto|right].
    rewrite btree_iter_perm in Ht. apply list_elem_of_fmap in Ht as ([t' m'] & -> & Hin%elem_of_map_to_list).
    destruct (Hdom t') as [Hd|Hd]; [by apply elem_of_dom_2 in Hin|set_solver|done].
Qed.

(** ** The challenge generated off-chain *)

Lemma on_chain_Ok {A} (m : M (State X) A) n n' a :
  on_chain m n = (n', Ok a) ↔ n' = n ∧ (m (nd_chain n)).2 = Ok a.
Proof. unfold on_chain. split; [by intros [= -> ->]|by intros [-> ->]]. Qed.

Lemma map_err_Ok {A} (m : M (State X) A) e n n' a :
  map_err (on_chain m) e n = (n', Ok a) ↔ n' = n ∧ (m (nd_chain n)).2 = Ok a.
Proof.
  unfold map_err, mbind, M_bind, catch, on_chain. destruct (m (nd_chain n)) as [s1 [b|e'|]]; cbn.
  - split; [by intros [= -> ->]|by intros [-> [= ->]]].
  - by split; [|intros []].
  - by split; [|intros []].
Qed.

Lemma call_result {A} (m : M X A) s : (call m s).2 = (m (ext s)).2.
Proof. unfold call, zoom. by destruct (m (ext s)). Qed.

(** Distinct new indexes below the number of miners. *)
Definition fresh (length_ : Z) (valid l : list Z) : Prop :=
  NoDup (valid ++ l) ∧ Forall (λ i, 0 <= i < length_) l.

Lemma fresh_app length_ valid l i :
  fresh length_ valid l → i ∉ valid → i ∉ l → 0 <= i < length_ → fresh length_ valid (l ++ [i]).
Proof.
  intros [Hnd Hall] Hv Hl Hi. split; [|apply Forall_app; split; [done|]; by apply Forall_singleton].
  rewrite app_assoc. apply NoDup_app. split_and!; [done| |apply NoDup_singleton].
  intros j Hj ->%list_elem_of_singleton. set_solver.
Qed.

Lemma random_select_miner_Ok need length_ valid seed n n' l :
  0 <= length_ < 2 ^ 32 → NoDup valid →
  random_select_miner (X := X) need length_ valid seed n = (n', Ok l) → n' = n ∧ fresh length_ valid l.
Proof.
  intros Hw Hnd Hrun. unfold random_select_miner in Hrun. apply bind_Ok in Hrun as (n1 & r & Hl & Hrun).
  apply (loop_pos_Ok (λ n1 st, n1 = n ∧ fresh length_ valid st.2) (λ n1 l, n1 = n ∧ fresh length_ valid l)) in Hl.
  - destruct r as [?|l1]; [done|]. by apply ret_Ok in Hrun as [-> ->].
  - clear Hrun Hl. intros [k l'] ? n2 r' [-> Hf] Hr. cbn [snd] in Hf. unfold select_round in Hr.
    case_match; [by apply ret_Ok in Hr as [-> ->]|].
    apply bind_Ok in Hr as (n3 & i & [-> _]%on_chain_Ok & Hr).
    destruct (Z.eqb_spec length_ 0); [done|]. repeat case_bool_decide; try by apply ret_Ok in Hr as [-> ->].
    apply ret_Ok in Hr as [-> ->]. split; [done|]. cbn [snd]. apply fresh_app; try done.
    unfold cast. pose proof (Z.mod_pos_bound i length_). rewrite Z.mod_small; lia.
  - split; [done|]. split; [by rewrite app_nil_r|constructor].
Qed.

Definition total_of (m : MinerSnapShot) : Z := wrapping_add 128 m.(ms_idle_space) m.(ms_service_space).

(** A snapshot taken of the chain state [x]. *)
Definition snapshot_of (x : X) (m : MinerSnapShot) : Prop :=
  (∃ state, (get_miner_state m.(ms_miner) x).2 = Ok state ∧ state ≠ "lock"%string) ∧
  (get_power m.(ms_miner) x).2 = Ok (m.(ms_idle_space), m.(ms_service_space)) ∧
  ¬ (m.(ms_idle_space) = 0 ∧ m.(ms_service_space) = 0).

(** The miners collected so far, and the totals over them. *)
Record gen_ok (all : list AccountId) (x : X) (g : Gen) : Prop := {
  gen_valid : NoDup g.(gn_valid_index_list) ∧ Forall (λ i, 0 <= i) g.(gn_valid_index_list);
  gen_nodup : NoDup (ms_miner <$> g.(gn_miner_list));
  gen_from m : m ∈ ms_miner <$> g.(gn_miner_list) →
    ∃ i, i ∈ g.(gn_valid_index_list) ∧ all !! Z.to_nat i = Some m;
  gen_snap : Forall (snapshot_of x) g.(gn_miner_list);
  gen_idle : g.(gn_total_idle_space) = sum_list_with_Z ms_idle_space g.(gn_miner_list);
  gen_service : g.(gn_total_service_space) = sum_list_with_Z ms_service_space g.(gn_miner_list);
  gen_max : g.(gn_max_space) = foldr (λ m a, Z.max (total_of m) a) 0 g.(gn_miner_list)
}.

Lemma max_space_app l m :
  foldr (λ m a, Z.max (total_of m) a) 0 (l ++ [m]) = Z.max (foldr (λ m a, Z.max (total_of m) a) 0 l) (total_of m) .
Proof.
  assert (0 <= total_of m) by (apply Z.mod_pos_bound; lia).
  induction l as [|k l IH]; cbn -[total_of]; [lia|]. rewrite IH. lia.
Qed.

Lemma snapshot_miner_Ok all g i n n' g' :
  NoDup all → gen_ok all (ext (nd_chain n)) g → 0 <= i → i ∉ g.(gn_valid_index_list) →
  snapshot_miner all g i n = (n', Ok g') →
  n' = n ∧ gen_ok all (ext (nd_chain n)) g' ∧ g'.(gn_valid_index_list) = g.(gn_valid_index_list) ++ [i].
Proof.
  intros Hall [[Hv Hpos] Hnd Hfrom Hsnap Hidle Hserv Hmax] Hi Hfresh Hrun. unfold snapshot_miner in Hrun. cbv zeta in Hrun.
  cbn [gn_miner_list gn_valid_index_list gn_total_idle_space gn_total_service_space gn_max_space gn_seed] in Hrun.
  assert (NoDup (gn_valid_index_list g ++ [i]) ∧ Forall (λ i, 0 <= i) (gn_valid_index_list g ++ [i])) as Hv'.
  { split; [|by apply Forall_app; split; [|apply Forall_singleton]].
    apply NoDup_app. split_and!; [done| |apply NoDup_singleton]. intros j Hj ->%list_elem_of_singleton. done. }
  apply bind_Ok in Hrun as (n1 & miner & [-> Hm]%unwrap_Ok & Hrun).
  apply bind_Ok in Hrun as (n1 & state & [-> Hstate]%map_err_Ok & Hrun). rewrite call_result in Hstate.
  assert (gen_ok all (ext (nd_chain n)) (mkGen (gn_miner_list g) (gn_valid_index_list g ++ [i])
    (gn_total_idle_space g) (gn_total_service_space g) (gn_max_space g) (gn_seed g))) as Hskip.
  { split; cbn; [done|done| |done..]. intros m (j & ? & ?)%Hfrom. exists j. set_solver. }
  case_bool_decide as Hlock; [by apply ret_Ok in Hrun as [-> ->]|].
  apply bind_Ok in Hrun as (n1 & [idle service] & [-> Hpow]%map_err_Ok & Hrun). rewrite call_result in Hpow.
  destruct ((idle =? 0) && (service =? 0)) eqn:Hz; [by apply ret_Ok in Hrun as [-> ->]|].
  apply bind_Ok in Hrun as (n1 & ti & [-> [-> _]%checked_add_Some]%ok_or_Ok & Hrun).
  apply bind_Ok in Hrun as (n1 & ts & [-> [-> _]%checked_add_Some]%ok_or_Ok & Hrun).
  apply bind_Ok in Hrun as (n1 & ml & [-> Hpush]%ok_or_Ok & [-> ->]%ret_Ok).
  unfold try_push in Hpush. case_match; simplify_eq. split; [done|]. split; [|done]. split; cbn -[sum_list_with_Z foldr].
  - done.
  - rewrite fmap_app. apply NoDup_app. split_and!; [done| |apply NoDup_singleton].
    intros m Hin ->%list_elem_of_singleton. cbn in Hin. apply Hfrom in Hin as (j & Hj & Hjm).
    pose proof (NoDup_lookup _ _ _ _ Hall Hm Hjm). rewrite Forall_forall in Hpos. specialize (Hpos j Hj).
    assert (i = j) as -> by lia. done.
  - intros m. rewrite fmap_app, elem_of_app. intros [(j & ? & ?)%Hfrom| ->%list_elem_of_singleton].
    + exists j. set_solver.
    + exists i. set_solver.
  - apply Forall_app. split; [done|]. apply Forall_singleton. split_and!; cbn; [by eexists|done|]. lia.
  - rewrite sum_list_app, Hidle. cbn. lia.
  - rewrite sum_list_app, Hserv. cbn. lia.
  - rewrite max_space_app, <- Hmax. unfold total_of. cbn [ms_idle_space ms_service_space].
    destruct (Z.ltb_spec (gn_max_space g) (wrapping_add 128 idle service)); lia.
Qed.

Lemma snapshot_miners_Ok all l g n n' g' :
  NoDup all → gen_ok all (ext (nd_chain n)) g → NoDup (g.(gn_valid_index_list) ++ l) → Forall (λ i, 0 <= i) l →
  fold_m (snapshot_miner all) g l n = (n', Ok g') →
  n' = n ∧ gen_ok all (ext (nd_chain n)) g' ∧ g'.(gn_valid_index_list) = g.(gn_valid_index_list) ++ l.
Proof.
  intros Hall. revert g. induction l as [|i l IH]; intros g Hg Hnd Hpos Hrun; cbn [fold_m] in Hrun.
  { apply ret_Ok in Hrun as [-> ->]. by rewrite app_nil_r. }
  apply bind_Ok in Hrun as (n1 & g1 & H1' & Hrun). apply Forall_cons in Hpos as [Hi Hpos].
  apply snapshot_miner_Ok in H1' as (-> & Hg1 & Hv); [|done..|].
  - rewrite cons_middle, app_assoc, <- Hv in Hnd |- *. by apply IH.
  - apply NoDup_app in Hnd as (_ & Hd & _). intros ?. by eapply Hd; [|left].
Qed.

Lemma gen_round_Ok all need count g n n' r :
  NoDup all → (get_all_miner (ext (nd_chain n))).2 = Ok all → 0 <= count < 2 ^ 32 →
  gen_ok all (ext (nd_chain n)) g → gen_round need count g n = (n', Ok r) →
  n' = n ∧ match r with inl g' | inr g' => gen_ok all (ext (nd_chain n)) g' end.
Proof.
  intros Hall Hget Hcount Hg Hrun. unfold gen_round in Hrun. case_match; [by apply ret_Ok in Hrun as [-> ->]|].
  cbv zeta in Hrun. apply bind_Ok in Hrun as (n1 & l & Hsel & Hrun).
  apply random_select_miner_Ok in Hsel as [-> [Hnd Hl]]; [|done|apply Hg].
  apply bind_Ok in Hrun as (n1 & all' & [-> Hall']%map_err_Ok & Hrun).
  rewrite call_result, Hget in Hall'. injection Hall' as <-.
  apply bind_Ok in Hrun as (n1 & g1 & Hfold & [-> ->]%ret_Ok).
  apply snapshot_miners_Ok in Hfold as (-> & Hg1 & _); [done|done| |done|].
  - by destruct Hg as [? ? ? ? ? ? ?]; split.
  - eapply Forall_impl; [exact Hl|]. by intros ? [].
Qed.

(** Distinct values, as many as needed. *)
Lemma draw_list_Ok {A} `{EqDecision A} (P : A → Prop) need (draw : Z → M (Node X) A) seed n n' l :
  0 <= need → (∀ k n n' x, draw k n = (n', Ok x) → n' = n ∧ P x) →
  draw_list need draw seed n = (n', Ok l) →
  n' = n ∧ NoDup l ∧ Z.of_nat (length l) = need ∧ Forall P l.
Proof.
  intros Hneed Hdraw Hrun. unfold draw_list in Hrun. apply bind_Ok in Hrun as (n1 & r & Hl & Hrun).
  set (I := λ (l : list A), NoDup l ∧ Forall P l ∧ Z.of_nat (length l) <= need).
  apply (loop_pos_Ok (λ n1 st, n1 = n ∧ I st.2) (λ n1 l, n1 = n ∧ I l ∧ need <= Z.of_nat (length l))) in Hl.
  - destruct r as [?|l1]; [done|]. apply ret_Ok in Hrun as [-> ->]. destruct Hl as (-> & (? & ? & ?) & ?).
    split_and!; [done..|lia|done].
  - clear Hl Hrun. intros [k l'] ? n2 r' [-> (Hnd & HP & Hlen)] Hr. cbn [snd] in *. unfold draw_round in Hr.
    destruct (Z.ltb_spec (Z.of_nat (length l')) need); cbn [negb] in Hr.
    2: { apply ret_Ok in Hr as [-> ->]. by split_and!. }
    apply bind_Ok in Hr as (n3 & x & Hx & Hr). apply Hdraw in Hx as [-> Hx].
    case_bool_decide; apply ret_Ok in Hr as [-> ->]; (split; [done|]); [done|]. split_and!; cbn [snd].
    + apply NoDup_app. split_and!; [done| |apply NoDup_singleton]. by intros y Hy ->%list_elem_of_singleton.
    + apply Forall_app. split; [done|]. by apply Forall_singleton.
    + rewrite length_app. cbn. lia.
  - split; [done|]. split_and!; [constructor|constructor|done].
Qed.

Lemma gen_initial all x : gen_ok all x (mkGen [] [] 0 0 0 20230601).
Proof. split; cbn; [split; constructor|constructor|by intros ? ?%not_elem_of_nil|constructor|done..]. Qed.

(** What a generated challenge contains.  The miners are distinct registered miners that are
    not locked and have space, each with the power it has on chain, and the totals are the sums over them; the
    life is the transfer time of the largest miner; 47 distinct chunk indexes and 47 distinct random values
    are drawn.  Nothing on the node changes. *)
Theorem generation_challenge_spec all count reward now n n' c :
  let x := ext (nd_chain n) in
  (get_all_miner x).2 = Ok all → NoDup all → (get_miner_count x).2 = Ok count → 0 <= count < 2 ^ 32 →
  (get_reward x).2 = Ok reward →
  generation_challenge now n = (n', Ok c) →
  let net := c.(ci_net_snap_shot) in
  let miners := c.(ci_miner_snapshot_list) in
  n' = n ∧ NoDup (ms_miner <$> miners) ∧
  Forall (λ m, m.(ms_miner) ∈ all ∧ snapshot_of x m) miners ∧
  net.(ns_start) = now ∧ net.(ns_total_reward) = reward ∧
  net.(ns_total_idle_space) = sum_list_with_Z ms_idle_space miners ∧
  net.(ns_total_service_space) = sum_list_with_Z ms_service_space miners ∧
  net.(ns_life) = cast 32 (foldr (λ m a, Z.max (total_of m) a) 0 miners / 8947849 + 12) ∧
  (NoDup net.(ns_random_index_list) ∧ length net.(ns_random_index_list) = 47%nat ∧
   Forall (λ i, 0 <= i < CHUNK_COUNT) net.(ns_random_index_list)) ∧
  NoDup net.(ns_random_list) ∧ length net.(ns_random_list) = 47%nat.
Proof.
  intros x Hget Hall Hcount Hrange Hreward Hrun. unfold generation_challenge in Hrun.
  apply bind_Ok in Hrun as (n1 & count' & [-> Hc]%on_chain_Ok & Hrun). rewrite call_result in Hc. fold x in Hc. rewrite Hcount in Hc. injection Hc as <-.
  case_match; [done|]. cbv zeta in Hrun.
  apply bind_Ok in Hrun as (n1 & r & Hloop & Hrun). apply bind_Ok in Hrun as (n2 & g & Hr & Hrun).
  apply (loop_pos_Ok (λ n1 g, n1 = n ∧ gen_ok all x g) (λ n1 g, n1 = n ∧ gen_ok all x g)) in Hloop.
  2: { intros g0 ? n3 r0 [-> Hg] Hround. eapply gen_round_Ok in Hround; [|done..]. by destruct r0. }
  2: { split; [done|apply gen_initial]. }
  destruct r as [?|g']; [done|]. apply ret_Ok in Hr as [-> ->]. destruct Hloop as [-> Hg].
  apply bind_Ok in Hrun as (n1 & il & Hil & Hrun).
  apply (draw_list_Ok (λ i, 0 <= i < CHUNK_COUNT)) in Hil as (-> & Hil1 & Hil2 & Hil3); [|done|].
  2: { intros k n2 n3 i Hd. apply bind_Ok in Hd as (n4 & v & [-> _]%on_chain_Ok & [-> ->]%ret_Ok). split; [done|].
       unfold cast, CHUNK_COUNT. pose proof (Z.mod_pos_bound v 1024). rewrite Z.mod_small; lia. }
  apply bind_Ok in Hrun as (n1 & rl & Hrl & Hrun).
  apply (draw_list_Ok (λ _, True)) in Hrl as (-> & Hrl1 & Hrl2 & _); [|done|by intros k n2 n3 v [-> _]%on_chain_Ok].
  apply bind_Ok in Hrun as (n1 & rew & [-> Hrew]%on_chain_Ok & Hrun). rewrite call_result in Hrew. fold x in Hrew. rewrite Hreward in Hrew. injection Hrew as <-.
  apply bind_Ok in Hrun as (n1 & il' & [-> Hb1]%ok_or_Ok & Hrun). apply bind_Ok in Hrun as (n1 & rl' & [-> Hb2]%ok_or_Ok & Hrun).
  apply ret_Ok in Hrun as [-> ->]. unfold try_into_bounded in Hb1, Hb2. repeat case_match; simplify_eq.
  change (CHUNK_COUNT * 46 / 1000) with 47 in *. destruct Hg as [_ Hnd Hfrom Hsnap Hidle Hserv Hmax].
  cbn -[sum_list_with_Z foldr Z.div]. split_and!; [done|done| |done|done|done|done|by rewrite Hmax|done|lia|done|done|lia].
  apply Forall_forall. intros m Hm. rewrite Forall_forall in Hsnap. split; [|by apply Hsnap].
  destruct (Hfrom (ms_miner m)) as (i & _ & Hi); [by apply list_elem_of_fmap_2|]. by eapply list_elem_of_lookup_2.
Qed.
End audit.
