(* ===== verification/Wp.v ===== *)
(** * Weakest preconditions

    A calculus for the monad of [Frame]: [wp m Q E s] says that [m], started in [s],
    either returns a value [a] in a state with [Q a], or stops with an error or a
    panic in a state with [E].  It is used where the proof has to follow the exact
    state from step to step; [hoare] and [preserves] of [Frame] forget it. *)
From S2P Require Import Prelude Errors Frame.

Section wp.
Context {S : Type}.
Implicit Types (s : S) (E : S → Prop).

Definition wp {A} (m : M S A) (Q : A → S → Prop) E s : Prop :=
  match m s with
  | (s', Ok a) => Q a s'
  | (s', _) => E s'
  end.

Lemma wp_bind {A B} (m : M S A) (k : A → M S B) Q E s :
  wp m (λ a s', wp (k a) Q E s') E s → wp (m ≫= k) Q E s.
Proof. unfold wp, mbind, M_bind. by destruct (m s) as [s' [a|e|]]. Qed.

Lemma wp_mono {A} (m : M S A) Q Q' E E' s :
  wp m Q E s → (∀ a s', Q a s' → Q' a s') → (∀ s', E s' → E' s') → wp m Q' E' s.
Proof. unfold wp. intros Hm HQ HE. destruct (m s) as [s' [a|e|]]; auto. Qed.

Lemma wp_ret {A} (a : A) Q E s : Q a s → wp (mret a) Q E s.
Proof. done. Qed.

Lemma wp_throw {A} (e : DispatchError) (Q : A → S → Prop) E s : E s → wp (throw e) Q E s.
Proof. done. Qed.

Lemma wp_panic {A} (Q : A → S → Prop) E s : E s → wp panic Q E s.
Proof. done. Qed.

Lemma wp_gets {A} (f : S → A) Q E s : Q (f s) s → wp (gets f) Q E s.
Proof. done. Qed.

Lemma wp_modify f Q E s : Q () (f s) → wp (modify f) Q E s.
Proof. done. Qed.

Lemma wp_put {V} (fld : S → V) `{!Setter fld} v Q E s : Q () (s <| fld := v |>) → wp (put fld v) Q E s.
Proof. done. Qed.

Lemma wp_insert_at {K V} `{Countable K} (fld : S → gmap K V) `{!Setter fld} k v Q E s :
  Q () (s <| fld ::= <[k := v]> |>) → wp (insert_at fld k v) Q E s.
Proof. done. Qed.

Lemma wp_remove_at {K V} `{Countable K} (fld : S → gmap K V) `{!Setter fld} k Q E s :
  Q () (s <| fld ::= delete k |>) → wp (remove_at fld k) Q E s.
Proof. done. Qed.

Lemma wp_ensure b (e : DispatchError) Q E s : (b = false → E s) → (b = true → Q () s) → wp (ensure b e) Q E s.
Proof. intros HE HQ. destruct b; unfold wp; cbn; auto. Qed.

Lemma wp_ok_or {A} (o : option A) (e : DispatchError) Q E s :
  (o = None → E s) → (∀ a, o = Some a → Q a s) → wp (ok_or o e) Q E s.
Proof. intros HE HQ. destruct o; unfold wp; cbn; auto. Qed.

Lemma wp_unwrap {A} (o : option A) Q E s :
  (o = None → E s) → (∀ a, o = Some a → Q a s) → wp (unwrap o) Q E s.
Proof. intros HE HQ. destruct o; unfold wp; cbn; auto. Qed.

Lemma wp_try_get {K V} `{Countable K} (fld : S → gmap K V) k (e : DispatchError) Q E s :
  (fld s !! k = None → E s) → (∀ v, fld s !! k = Some v → Q v s) → wp (try_get fld k e) Q E s.
Proof. intros HE HQ. apply wp_bind, wp_gets. by apply wp_ok_or. Qed.

Lemma wp_contains_key {K V} `{Countable K} (fld : S → gmap K V) k Q E s :
  (is_Some (fld s !! k) → Q true s) → (fld s !! k = None → Q false s) → wp (contains_key fld k) Q E s.
Proof.
  intros HT HF. apply wp_gets. destruct (fld s !! k) eqn:Hk.
  - rewrite bool_decide_eq_true_2 by done. by apply HT.
  - rewrite bool_decide_eq_false_2 by (by intros []). by apply HF.
Qed.

Lemma wp_ensure_signed o Q E s : E s → (∀ who, o = Signed who → Q who s) → wp (ensure_signed o) Q E s.
Proof. intros HE HQ. destruct o; unfold wp; cbn; auto. Qed.

Lemma wp_ensure_root o Q E s : E s → Q () s → wp (ensure_root o) Q E s.
Proof. intros HE HQ. by destruct o. Qed.

(** A loop keeps an invariant that may mention what is left of the list. *)
Lemma wp_for_each {A} (I : list A → S → Prop) (l : list A) (body : A → M S unit) E s :
  I l s → (∀ x l s, I (x :: l) s → wp (body x) (λ _ s', I l s') E s) → wp (for_each l body) (λ _ s', I [] s') E s.
Proof.
  intros HI Hbody. revert s HI. induction l as [|x l IH]; intros s HI; [done|].
  apply wp_bind. eapply wp_mono; [by apply Hbody| |done]. cbn. auto.
Qed.

Lemma wp_fold_m {A B} (I : A → list B → S → Prop) (f : A → B → M S A) a l E s :
  I a l s → (∀ a x l s, I a (x :: l) s → wp (f a x) (λ a' s', I a' l s') E s) →
  wp (fold_m f a l) (λ a' s', I a' [] s') E s.
Proof.
  intros HI Hf. revert a s HI. induction l as [|x l IH]; intros a s HI; [done|].
  apply wp_bind. eapply wp_mono; [by apply Hf| |done]. cbn. auto.
Qed.

Lemma wp_if {A} (b : bool) (m1 m2 : M S A) Q E s :
  (b = true → wp m1 Q E s) → (b = false → wp m2 Q E s) → wp (if b then m1 else m2) Q E s.
Proof. destruct b; auto. Qed.

Lemma wp_decide {A} (P : Prop) `{!Decision P} (m1 m2 : M S A) Q E s :
  (P → wp m1 Q E s) → (¬ P → wp m2 Q E s) → wp (if decide P then m1 else m2) Q E s.
Proof. destruct (decide P); auto. Qed.

Lemma wp_run {A} (m : M S A) Q E s : wp m Q E s → (∀ a s', Q a s' → E s') → E (m s).1.
Proof. unfold wp. intros Hm HQ. destruct (m s) as [s' [a|e|]]; cbn; eauto. Qed.

Lemma wp_of_preserves {A} (I : S → Prop) (m : M S A) s : preserves I m → I s → wp m (λ _, I) I s.
Proof. intros Hm Hs. specialize (Hm s Hs). unfold wp. by destruct (m s) as [s' [a|e|]]. Qed.

Lemma wp_preserves {A} (I : S → Prop) (m : M S A) : (∀ s, I s → wp m (λ _, I) I s) → preserves I m.
Proof. intros Hm s HI. eapply wp_run; [by apply Hm|done]. Qed.
End wp.

(** One step through a computation; a state that only differs from the one of a
    hypothesis in fields the goal does not read is left to conversion. *)
Ltac wp_step :=
  lazymatch goal with
  | |- wp (mbind _ _) _ _ _ => apply wp_bind
  | |- wp (mret _) _ _ _ => apply wp_ret
  | |- wp (throw _) _ _ _ => apply wp_throw
  | |- wp panic _ _ _ => apply wp_panic
  | |- wp (gets _) _ _ _ => apply wp_gets
  | |- wp (modify _) _ _ _ => apply wp_modify
  | |- wp (put _ _) _ _ _ => apply wp_put
  | |- wp (insert_at _ _ _) _ _ _ => apply wp_insert_at
  | |- wp (remove_at _ _) _ _ _ => apply wp_remove_at
  | |- wp (ensure _ _) _ _ _ => apply wp_ensure; [try done; intros ?|intros ?]
  | |- wp (ok_or _ _) _ _ _ => apply wp_ok_or; [try done; intros ?|intros ? ?]
  | |- wp (unwrap _) _ _ _ => apply wp_unwrap; [try done; intros ?|intros ? ?]
  | |- wp (try_get _ _ _) _ _ _ => apply wp_try_get; [try done; intros ?|intros ? ?]
  | |- wp (contains_key _ _) _ _ _ => apply wp_contains_key; intros ?
  | |- wp (ensure_signed _) _ _ _ => apply wp_ensure_signed; [try done|intros ? ?]
  | |- wp (ensure_root _) _ _ _ => apply wp_ensure_root; [try done|]
  | |- @wp ?S ?A (if true then ?m else _) ?Q ?E ?s => change (@wp S A m Q E s)
  | |- @wp ?S ?A (if false then _ else ?m) ?Q ?E ?s => change (@wp S A m Q E s)
  | |- wp (if decide _ then _ else _) _ _ _ => apply wp_decide; intros ?
  | |- wp (if ?x then _ else _) _ _ _ => first [apply wp_if; intros ? | destruct x eqn:?]
  | |- wp (let _ := _ in _) _ _ _ => cbv zeta
  | |- wp (match ?x with _ => _ end) _ _ _ => destruct x eqn:?
  | |- (λ _ _, _) _ _ => cbv beta
  end.
Ltac wp_steps := repeat (wp_step; cbv beta).
