(* ===== verification/StakingLedger.v ===== *)
(** * The staking pallet: the ledger of a stash

    [struct StakingLedger] of [src/c-pallets/staking/src/lib.rs]: the bonded balance
    of a stash, the chunks of it that are being unlocked, and what happens to them
    when a chunk is free, is bonded again or is slashed. *)
From S2P Require Import Prelude Errors Frame.

(** ** [Perquintill]

    Fractions with [10^18] parts.  [from_rational_up p q] is
    [Perquintill::from_rational_with_rounding(p, q, Rounding::Up)], [None] its error;
    [mul_ceil] rounds up. *)
Definition QUINTILLION : Z := 10 ^ 18.

Class PerquintillOps := { from_rational_up : Z → Z → option Z; mul_ceil : Z → Z → Z }.

Class PerquintillLaws `{!PerquintillOps} := {
  from_rational_up_range p q r : from_rational_up p q = Some r → 0 <= r <= QUINTILLION;
  mul_ceil_spec r x : 0 <= r <= QUINTILLION → 0 <= x →
    r * x <= QUINTILLION * mul_ceil r x < r * x + QUINTILLION
}.

#[export] Instance Z_perquintill : PerquintillOps := {|
  from_rational_up p q :=
    if (q =? 0) || (q <? p) then None else Some (Z.max 0 (Z.min QUINTILLION (- (- (p * QUINTILLION) / q))));
  mul_ceil r x := - (- (r * x) / QUINTILLION)
|}.

#[export] Instance Z_perquintill_laws : PerquintillLaws.
Proof.
  split; cbn; unfold QUINTILLION.
  - intros p q r. case_match; [done|]. intros [= <-]. lia.
  - intros r x Hr Hx. Z.to_euclidean_division_equations. lia.
Qed.

(** ** Data *)

Abbreviation EraIndex := Z (only parsing).

Record UnlockChunk := mkUnlockChunk {
  uc_value : Z;
  uc_era : Z
}.
#[export] Instance set_uc_uc_value : Setter (uc_value) := λ f r,
  mkUnlockChunk (f (uc_value r)) (uc_era r).
#[export] Instance set_uc_uc_era : Setter (uc_era) := λ f r,
  mkUnlockChunk (uc_value r) (f (uc_era r)).

Record StakingLedger := mkStakingLedger {
  ld_stash : AccountId;
  ld_total : Z;
  ld_active : Z;
  ld_unlocking : list UnlockChunk;
  ld_claimed_rewards : list Z
}.
#[export] Instance set_ld_ld_stash : Setter (ld_stash) := λ f r,
  mkStakingLedger (f (ld_stash r)) (ld_total r) (ld_active r) (ld_unlocking r) (ld_claimed_rewards r).
#[export] Instance set_ld_ld_total : Setter (ld_total) := λ f r,
  mkStakingLedger (ld_stash r) (f (ld_total r)) (ld_active r) (ld_unlocking r) (ld_claimed_rewards r).
#[export] Instance set_ld_ld_active : Setter (ld_active) := λ f r,
  mkStakingLedger (ld_stash r) (ld_total r) (f (ld_active r)) (ld_unlocking r) (ld_claimed_rewards r).
#[export] Instance set_ld_ld_unlocking : Setter (ld_unlocking) := λ f r,
  mkStakingLedger (ld_stash r) (ld_total r) (ld_active r) (f (ld_unlocking r)) (ld_claimed_rewards r).
#[export] Instance set_ld_ld_claimed_rewards : Setter (ld_claimed_rewards) := λ f r,
  mkStakingLedger (ld_stash r) (ld_total r) (ld_active r) (ld_unlocking r) (f (ld_claimed_rewards r)).


Definition default_from (stash : AccountId) : StakingLedger :=
  {| ld_stash := stash; ld_total := 0; ld_active := 0; ld_unlocking := []; ld_claimed_rewards := [] |}.

(** The closure of [consolidate_unlocked] lowers [total] while it filters. *)
Fixpoint consolidate_loop (current_era : EraIndex) (total : Z) (l : list UnlockChunk) : Z * list UnlockChunk :=
  match l with
  | [] => (total, [])
  | chunk :: l =>
      if current_era <? chunk.(uc_era) then
        let '(total, l) := consolidate_loop current_era total l in (total, chunk :: l)
      else consolidate_loop current_era (saturating_sub total chunk.(uc_value)) l
  end.

Definition consolidate_unlocked (self : StakingLedger) (current_era : EraIndex) : StakingLedger :=
  let '(total, unlocking) := consolidate_loop current_era self.(ld_total) self.(ld_unlocking) in
  self <| ld_total := total |> <| ld_unlocking := unlocking |>.

(** The loop looks at the last chunk; the list is given in reverse.  With the
    difference added, [unlocking_balance] is [value], and the loop ends. *)
Fixpoint rebond_loop (value unlocking_balance active : Z) (l : list UnlockChunk) : Z * Z * list UnlockChunk :=
  match l with
  | [] => (unlocking_balance, active, [])
  | last :: rest =>
      if wrapping_add 128 unlocking_balance last.(uc_value) <=? value then
        let unlocking_balance := wrapping_add 128 unlocking_balance last.(uc_value) in
        let active := wrapping_add 128 active last.(uc_value) in
        if value <=? unlocking_balance then (unlocking_balance, active, rest)
        else rebond_loop value unlocking_balance active rest
      else
        let diff := wrapping_sub 128 value unlocking_balance in
        let unlocking_balance := wrapping_add 128 unlocking_balance diff in
        let active := wrapping_add 128 active diff in
        (unlocking_balance, active, last <| uc_value ::= λ v, wrapping_sub 128 v diff |> :: rest)
  end.

Definition rebond (self : StakingLedger) (value : Z) : StakingLedger * Z :=
  let '(unlocking_balance, active, l) := rebond_loop value 0 self.(ld_active) (rev self.(ld_unlocking)) in
  (self <| ld_active := active |> <| ld_unlocking := rev l |>, unlocking_balance).

Section slash.
Context `{!PerquintillOps}.

(** The closure [slash_out_of]: the new target, remaining slash and total. *)
Definition slash_out_of (maybe_proportional : option Z) (minimum_balance target slash_remaining total : Z)
  : Z * Z * Z :=
  let slash_from_target :=
    Z.min (Z.min (match maybe_proportional with
                  | Some ratio => mul_ceil ratio target
                  | None => slash_remaining
                  end) target) slash_remaining in
  let target := wrapping_sub 128 target slash_from_target in
  let '(target, slash_from_target) :=
    if target <? minimum_balance then (0, saturating_add 128 target slash_from_target)
    else (target, slash_from_target) in
  (target, saturating_sub slash_remaining slash_from_target, saturating_sub total slash_from_target).

(** The loop over the chunks; the map holds the new values of the slashed ones. *)
Fixpoint slash_chunks (maybe_proportional : option Z) (minimum_balance : Z) (slash_chunks_priority : list nat)
    (unlocking : list UnlockChunk) (remaining_slash total : Z) (slashed_unlocking : gmap EraIndex Z)
  : list UnlockChunk * Z * gmap EraIndex Z :=
  match slash_chunks_priority with
  | [] => (unlocking, total, slashed_unlocking)
  | i :: slash_chunks_priority =>
      if remaining_slash =? 0 then (unlocking, total, slashed_unlocking) else
      match unlocking !! i with
      | Some chunk =>
          let '(value, remaining_slash, total) :=
            slash_out_of maybe_proportional minimum_balance chunk.(uc_value) remaining_slash total in
          slash_chunks maybe_proportional minimum_balance slash_chunks_priority
            (<[i := chunk <| uc_value := value |>]> unlocking) remaining_slash total
            (<[chunk.(uc_era) := value]> slashed_unlocking)
      | None => (unlocking, total, slashed_unlocking)
      end
  end.

(** The ratio of a proportional slash, and the order in which chunks are slashed. *)
Definition slash_plan (self : StakingLedger) (slash_amount slashable_chunks_start : Z) : option Z * list nat :=
  match list_find (λ c, slashable_chunks_start <= c.(uc_era)) self.(ld_unlocking) with
  | Some (first_slashable_index, _) =>
      let affected := drop first_slashable_index self.(ld_unlocking) in
      let unbonding_affected_balance := foldl (λ sum chunk, saturating_add 128 sum chunk.(uc_value)) 0 affected in
      let affected_balance := saturating_add 128 self.(ld_active) unbonding_affected_balance in
      let ratio := default QUINTILLION (from_rational_up slash_amount affected_balance) in
      (Some ratio, seq first_slashable_index (length affected) ++ rev (seq 0 first_slashable_index))
  | None => (None, rev (seq 0 (length self.(ld_unlocking))))
  end.

(** The new ledger, the amount slashed, and what [OnStakerSlash::on_slash] is called
    with, if it is called. *)
Definition slash (BondingDuration : EraIndex) (self : StakingLedger) (slash_amount minimum_balance slash_era : Z)
  : StakingLedger * Z * option (gmap EraIndex Z) :=
  if slash_amount =? 0 then (self, 0, None) else
  let pre_slash_total := self.(ld_total) in
  let slashable_chunks_start := wrapping_add 32 slash_era BondingDuration in
  let '(maybe_proportional, slash_chunks_priority) := slash_plan self slash_amount slashable_chunks_start in
  let '(active, remaining_slash, total) :=
    slash_out_of maybe_proportional minimum_balance self.(ld_active) slash_amount self.(ld_total) in
  let '(unlocking, total, slashed_unlocking) :=
    slash_chunks maybe_proportional minimum_balance slash_chunks_priority self.(ld_unlocking)
      remaining_slash total ∅ in
  let unlocking := filter (λ c, c.(uc_value) ≠ 0) unlocking in
  (self <| ld_active := active |> <| ld_total := total |> <| ld_unlocking := unlocking |>,
   saturating_sub pre_slash_total total, Some slashed_unlocking).
End slash.

(** ** Well-formed ledgers *)

Definition chunk_sum (l : list UnlockChunk) : Z := sum_list_with_Z uc_value l.
#[global] Arguments chunk_sum : simpl never.

(** "It's just [active] plus all the [unlocking] balances." *)
Record ledger_ok (l : StakingLedger) : Prop := {
  ledger_total : l.(ld_total) = l.(ld_active) + chunk_sum l.(ld_unlocking);
  ledger_width : l.(ld_total) < 2 ^ 128;
  ledger_active : 0 <= l.(ld_active);
  ledger_chunks : Forall (λ c, 0 <= c.(uc_value)) l.(ld_unlocking)
}.

Lemma chunk_sum_nonneg l : Forall (λ c, 0 <= c.(uc_value)) l → 0 <= chunk_sum l.
Proof. intros Hl. unfold chunk_sum. apply sum_list_nonneg. by rewrite <- Forall_forall. Qed.

Lemma chunk_sum_rev l : chunk_sum (rev l) = chunk_sum l.
Proof. unfold chunk_sum. apply sum_list_perm. symmetry. apply Permutation_rev. Qed.

Lemma chunk_sum_nil : chunk_sum [] = 0.
Proof. done. Qed.

Lemma chunk_sum_cons c l : chunk_sum (c :: l) = c.(uc_value) + chunk_sum l.
Proof. done. Qed.

Lemma chunk_sum_app l1 l2 : chunk_sum (l1 ++ l2) = chunk_sum l1 + chunk_sum l2.
Proof. apply sum_list_app. Qed.

Lemma chunk_sum_insert l i c c' :
  l !! i = Some c → chunk_sum (<[i := c']> l) = chunk_sum l - c.(uc_value) + c'.(uc_value).
Proof.
  intros Hi. rewrite insert_take_drop by (by eapply lookup_lt_Some).
  rewrite <- (take_drop_middle l i c Hi) at 3. rewrite !chunk_sum_app, !chunk_sum_cons. lia.
Qed.

Lemma chunk_sum_filter_nonzero l : chunk_sum (filter (λ c, c.(uc_value) ≠ 0) l) = chunk_sum l.
Proof.
  induction l as [|c l IH]; [done|]. rewrite filter_cons.
  case_decide; rewrite ?chunk_sum_cons, IH; lia.
Qed.

Lemma chunks_filter (P : UnlockChunk → Prop) `{!∀ c, Decision (P c)} (l : list UnlockChunk) :
  Forall (λ c, 0 <= c.(uc_value)) l → Forall (λ c, 0 <= c.(uc_value)) (filter P l).
Proof. rewrite !Forall_forall. intros Hl c [_ Hc]%list_elem_of_filter. by apply Hl. Qed.

Lemma ledger_ok_default stash : ledger_ok (default_from stash).
Proof. split; cbn; [done|lia|lia|constructor]. Qed.

(** ** Freeing and bonding again *)

(** The same chunks, none of them larger. *)
Definition chunk_le : relation UnlockChunk := λ c' c,
  c'.(uc_era) = c.(uc_era) ∧ c'.(uc_value) <= c.(uc_value).
Definition chunks_le : relation (list UnlockChunk) := Forall2 chunk_le.

#[export] Instance chunk_le_preorder : PreOrder chunk_le.
Proof. split; [by intros c|]. unfold chunk_le. intros c1 c2 c3. lia. Qed.

#[export] Instance chunks_le_preorder : PreOrder chunks_le.
Proof. unfold chunks_le. apply _. Qed.

Lemma chunks_le_insert l i c c' :
  l !! i = Some c → chunk_le c' c → chunks_le (<[i := c']> l) l.
Proof.
  intros Hi Hle. rewrite <- (list_insert_id l i c Hi) at 2. by apply Forall2_insert.
Qed.

Lemma chunks_le_rev l1 l2 : chunks_le l1 l2 → chunks_le (rev l1) (rev l2).
Proof. unfold chunks_le. rewrite !rev_alt. apply Forall2_reverse. Qed.


Lemma consolidate_loop_eq era total l :
  Forall (λ c, 0 <= c.(uc_value)) l → chunk_sum l <= total →
  let kept := filter (λ c, era < c.(uc_era)) l in
  consolidate_loop era total l = (total - (chunk_sum l - chunk_sum kept), kept).
Proof.
  revert total. induction l as [|c l IH]; intros total Hl Hle; cbv zeta; [cbn; f_equal; lia|].
  inversion_clear Hl as [|?? Hc Hl']. cbn [consolidate_loop]. rewrite filter_cons, chunk_sum_cons in *.
  pose proof (chunk_sum_nonneg l Hl'). destruct (Z.ltb_spec era (uc_era c)).
  - rewrite IH, decide_True by (done || lia). rewrite chunk_sum_cons. f_equal; lia.
  - rewrite decide_False by lia. unfold saturating_sub. rewrite Z.max_l, IH by (done || lia). f_equal; lia.
Qed.

(** The chunks whose era has come are gone from the ledger and from its total. *)
Lemma consolidate_unlocked_spec l era :
  ledger_ok l →
  let l' := consolidate_unlocked l era in
  ledger_ok l' ∧ l'.(ld_unlocking) = filter (λ c, era < c.(uc_era)) l.(ld_unlocking) ∧
  l'.(ld_active) = l.(ld_active) ∧ l'.(ld_stash) = l.(ld_stash) ∧
  l'.(ld_claimed_rewards) = l.(ld_claimed_rewards) ∧
  l'.(ld_total) = l.(ld_total) - chunk_sum (filter (λ c, c.(uc_era) <= era) l.(ld_unlocking)) ∧
  l'.(ld_total) <= l.(ld_total).
Proof.
  intros [Ht Hw Ha Hc]. cbv zeta. unfold consolidate_unlocked. rewrite consolidate_loop_eq by (done || lia). cbn.
  assert (Hsplit : chunk_sum l.(ld_unlocking) = chunk_sum (filter (λ c, era < c.(uc_era)) l.(ld_unlocking)) +
    chunk_sum (filter (λ c, c.(uc_era) <= era) l.(ld_unlocking))).
  { clear. induction (ld_unlocking l) as [|c u IH]; [done|]. rewrite !filter_cons, chunk_sum_cons.
    repeat case_decide; rewrite ?chunk_sum_cons; lia. }
  assert (Hkept : Forall (λ c, 0 <= c.(uc_value)) (filter (λ c, era < c.(uc_era)) l.(ld_unlocking)))
    by (by apply chunks_filter).
  assert (Hfree : Forall (λ c, 0 <= c.(uc_value)) (filter (λ c, c.(uc_era) <= era) l.(ld_unlocking)))
    by (by apply chunks_filter).
  apply chunk_sum_nonneg in Hfree. repeat split; cbn; done || lia.
Qed.

Lemma rebond_loop_spec value balance active l :
  Forall (λ c, 0 <= c.(uc_value)) l → 0 <= balance <= value → 0 <= active →
  active + chunk_sum l < 2 ^ 128 → balance + chunk_sum l < 2 ^ 128 → value < 2 ^ 128 →
  ∃ amount l', rebond_loop value balance active l = (balance + amount, active + amount, l') ∧
    amount = Z.min (value - balance) (chunk_sum l) ∧ chunk_sum l' = chunk_sum l - amount ∧
    Forall (λ c, 0 <= c.(uc_value)) l' ∧
    ∃ k, chunks_le l' (drop k l) ∧ tail l' = tail (drop k l).
Proof.
  revert balance active.
  induction l as [|c l IH]; intros balance active Hl Hb Ha Hsa Hsb Hv.
  { exists 0, []. cbn. rewrite chunk_sum_nil, !Z.add_0_r in *. repeat split; cbn; try done; [lia|]. by exists 0%nat. }
  inversion_clear Hl as [|?? Hc Hl']. rewrite chunk_sum_cons in *. pose proof (chunk_sum_nonneg l Hl').
  cbn [rebond_loop]. rewrite !wrapping_add_small by lia. destruct (Z.leb_spec (balance + uc_value c) value).
  - destruct (Z.leb_spec value (balance + uc_value c)).
    + exists c.(uc_value), l. repeat split; try done; try lia. by exists 1%nat.
    + destruct (IH (balance + uc_value c) (active + uc_value c)) as (amount & l' & -> & Hamt & Hs & Hf & k & Hk);
        [done|lia..|].
      exists (uc_value c + amount), l'. repeat split; [do 2 f_equal; lia|lia|lia|done|].
      exists (S k). exact Hk.
  - rewrite wrapping_sub_small by lia. rewrite !wrapping_add_small by lia.
    exists (value - balance), (c <| uc_value := uc_value c - (value - balance) |> :: l).
    unfold set_field, set_uc_uc_value. rewrite wrapping_sub_small by lia. rewrite chunk_sum_cons. cbn.
    repeat split; [lia|lia|constructor; [cbn; lia|done]|].
    exists 0%nat. split; [|done]. by constructor; [split; cbn; lia|].
Qed.

Lemma rev_tail {A} (l : list A) : rev (tail l) = removelast (rev l).
Proof. destruct l as [|x l]; [done|]. cbn. by rewrite removelast_last. Qed.

(** Bonding again moves [min value (sum of the chunks)] from the youngest chunks to
    [active]; older chunks are untouched and the total stays. *)
Lemma rebond_spec l value :
  ledger_ok l → 0 <= value < 2 ^ 128 →
  let '(l', amount) := rebond l value in
  ledger_ok l' ∧ amount = Z.min value (chunk_sum l.(ld_unlocking)) ∧
  l'.(ld_active) = l.(ld_active) + amount ∧ l'.(ld_total) = l.(ld_total) ∧
  l'.(ld_stash) = l.(ld_stash) ∧ l'.(ld_claimed_rewards) = l.(ld_claimed_rewards) ∧
  (length l'.(ld_unlocking) <= length l.(ld_unlocking))%nat ∧
  ∃ k, chunks_le l'.(ld_unlocking) (take k l.(ld_unlocking)) ∧
       removelast l'.(ld_unlocking) = removelast (take k l.(ld_unlocking)).
Proof.
  intros [Ht Hw Ha Hc] Hv. unfold rebond. pose proof (chunk_sum_nonneg _ Hc) as Hn.
  destruct (rebond_loop_spec value 0 l.(ld_active) (rev l.(ld_unlocking)))
    as (amount & l' & -> & Hamt & Hs & Hf & k & Hle & Htail);
    rewrite ?chunk_sum_rev in *; [by apply Forall_rev|lia..|].
  rewrite Z.sub_0_r in Hamt. rewrite skipn_rev in Hle, Htail. cbn.
  apply chunks_le_rev in Hle. rewrite rev_involutive in Hle. apply (f_equal (@rev _)) in Htail.
  rewrite !rev_tail, rev_involutive in Htail.
  pose proof (Forall2_length _ _ _ Hle) as Hlen. rewrite length_take in Hlen.
  repeat split; cbn; rewrite ?chunk_sum_rev; try done; try lia.
  - by apply Forall_rev.
  - eexists. split; [exact Hle|done].
Qed.

(** ** Slashing *)

Lemma chunk_sum_lookup l i c : Forall (λ c, 0 <= c.(uc_value)) l → l !! i = Some c → c.(uc_value) <= chunk_sum l.
Proof.
  intros Hl Hi. rewrite <- (take_drop_middle l i c Hi) in *. rewrite chunk_sum_app, chunk_sum_cons.
  apply Forall_app in Hl as [H1 H2]. inversion_clear H2 as [|?? _ H3].
  pose proof (chunk_sum_nonneg _ H1). pose proof (chunk_sum_nonneg _ H3). lia.
Qed.

Section slash_proofs.
Context `{!PerquintillOps, !PerquintillLaws}.

Definition ratio_ok (maybe_proportional : option Z) : Prop :=
  match maybe_proportional with Some ratio => 0 <= ratio <= QUINTILLION | None => True end.

(** What a target is asked to pay while enough of the slash remains. *)
Definition share (maybe_proportional : option Z) (target : Z) : Z :=
  match maybe_proportional with Some ratio => mul_ceil ratio target | None => target end.

(** Dust is what a slash can take beyond its amount. *)
Definition dust (minimum_balance : Z) : Z := Z.max 0 (minimum_balance - 1).

Lemma share_range p target : ratio_ok p → 0 <= target → 0 <= share p target <= target.
Proof.
  destruct p as [r|]; cbn; [|lia]. intros Hr Ht. pose proof (mul_ceil_spec r target Hr Ht).
  unfold QUINTILLION in *. nia.
Qed.

Lemma share_one target : 0 <= target → share (Some QUINTILLION) target = target.
Proof.
  intros Ht. pose proof (mul_ceil_spec QUINTILLION target ltac:(unfold QUINTILLION; lia) Ht).
  unfold share, QUINTILLION in *. lia.
Qed.

Lemma slash_out_of_spec p minimum target remaining total :
  ratio_ok p → 0 <= target <= total → total < 2 ^ 128 → 0 <= remaining → 0 <= minimum →
  ∃ d, slash_out_of p minimum target remaining total = (target - d, Z.max 0 (remaining - d), total - d) ∧
    0 <= d <= target ∧ d <= remaining + dust minimum ∧ Z.min (share p target) remaining <= d ∧
    (target - d = 0 ∨ minimum <= target - d).
Proof.
  intros Hp Ht Hw Hr Hm. pose proof (share_range p target Hp ltac:(lia)) as Hs.
  unfold slash_out_of, saturating_sub, saturating_add, dust.
  set (take := Z.min (Z.min _ target) remaining).
  assert (Htake : 0 <= take <= target ∧ take <= remaining ∧ Z.min (share p target) remaining <= take).
  { unfold take. destruct p; cbn in *; lia. }
  clearbody take. rewrite wrapping_sub_small by lia. destruct (Z.ltb_spec (target - take) minimum).
  - exists target. split; [f_equal; [f_equal|]|]; lia.
  - exists take. split; [f_equal; [f_equal|]|]; lia.
Qed.

(** What the chunks at some indices are asked to pay. *)
Definition shares (p : option Z) (l : list UnlockChunk) (ix : list nat) : Z :=
  sum_list_with_Z (λ i, match l !! i with Some c => share p c.(uc_value) | None => 0 end) ix.

Lemma shares_insert p l i c ix : i ∉ ix → shares p (<[i := c]> l) ix = shares p l ix.
Proof.
  intros Hi. apply sum_list_ext. intros j Hj. by rewrite list_lookup_insert_ne by set_solver.
Qed.

Lemma slash_chunks_spec p minimum ix l remaining total m :
  ratio_ok p → 0 <= minimum → 0 <= remaining → NoDup ix →
  Forall (λ c, 0 <= c.(uc_value)) l → chunk_sum l <= total → total < 2 ^ 128 →
  Forall (λ i, (i < length l)%nat) ix →
  let '(l', total', _) := slash_chunks p minimum ix l remaining total m in
  let taken := total - total' in
  chunk_sum l' = chunk_sum l - taken ∧ 0 <= taken <= remaining + dust minimum ∧
  (remaining = 0 → taken = 0) ∧ Z.min (shares p l ix) remaining <= taken ∧
  Forall (λ c, 0 <= c.(uc_value)) l' ∧
  chunks_le l' l.
Proof.
  intros Hp Hm. revert l remaining total m. induction ix as [|i ix IH]; intros l rem total m Hr Hnd Hl Ht Hw His.
  { cbn. rewrite Z.sub_diag. repeat split; try done; unfold dust; lia. }
  inversion_clear Hnd as [|?? Hi Hnd']. inversion_clear His as [|?? Hlt His'].
  cbn [slash_chunks]. destruct (Z.eqb_spec rem 0) as [->|Hne].
  { rewrite Z.sub_diag. repeat split; try done; unfold dust; lia. }
  destruct (lookup_lt_is_Some_2 l i Hlt) as [c Hc]. rewrite Hc.
  pose proof (Forall_lookup_1 _ _ _ _ Hl Hc) as Hcv. cbn in Hcv.
  pose proof (chunk_sum_lookup l i c Hl Hc) as Hcs.
  destruct (slash_out_of_spec p minimum c.(uc_value) rem total) as (d & -> & Hd & Hdust & Hmin & _); [done|lia..|].
  set (c' := c <| uc_value := uc_value c - d |>).
  assert (Hl' : Forall (λ c, 0 <= c.(uc_value)) (<[i := c']> l)) by (apply Forall_insert; [done|cbn; lia]).
  assert (Hs : chunk_sum (<[i := c']> l) = chunk_sum l - d) by (rewrite (chunk_sum_insert _ _ c) by done; cbn; lia).
  specialize (IH (<[i := c']> l) (Z.max 0 (rem - d)) (total - d) (<[uc_era c := uc_value c - d]> m)).
  rewrite length_insert in IH. specialize (IH ltac:(lia) Hnd' Hl' ltac:(lia) ltac:(lia) His').
  destruct (slash_chunks _ _ _ _ _ _ _) as [[l' total'] m']. rewrite shares_insert in IH by done.
  assert (shares p l (i :: ix) = share p c.(uc_value) + shares p l ix) as ->.
  { unfold shares. by rewrite sum_list_cons, Hc. }
  destruct IH as (H1 & H2 & H3 & H4 & H5 & H6). cbv zeta.
  assert (rem - d <= 0 → total - d - total' = 0) by (intros; apply H3; lia).
  split_and!; [lia..|done|].
  etrans; [exact H6|]. by apply (chunks_le_insert _ _ c); [|split; cbn; lia].
Qed.

Lemma tail_drop {A} k (l : list A) : tail (drop k l) = drop (S k) l.
Proof. revert l. induction k; by intros [|x l]; cbn. Qed.

(** The sum over a range of indices is the sum over those chunks. *)
Lemma shares_seq p l k :
  shares p l (seq k (length (drop k l))) = sum_list_with_Z (λ c, share p c.(uc_value)) (drop k l).
Proof.
  assert (Hgen : ∀ l' j, drop j l = l' → shares p l (seq j (length l')) =
    sum_list_with_Z (λ c, share p c.(uc_value)) l'); [|by apply Hgen].
  induction l' as [|c l' IH]; intros j Hj; [done|]. cbn [length seq]. unfold shares in *.
  rewrite !sum_list_cons, IH by (by rewrite <- tail_drop, Hj).
  by rewrite <- (Nat.add_0_r j), <- lookup_drop, Hj.
Qed.

Lemma slash_plan_ok l amount start :
  let '(p, ix) := slash_plan l amount start in
  ratio_ok p ∧ ix ≡ₚ seq 0 (length l.(ld_unlocking)).
Proof.
  unfold slash_plan. destruct (list_find _ _) as [[k c]|] eqn:Hf.
  - apply list_find_Some in Hf as (Hk%lookup_lt_Some & _ & _). split.
    + unfold ratio_ok. destruct (from_rational_up _ _) eqn:Hr; cbn; [by eapply from_rational_up_range|unfold QUINTILLION; lia].
    + rewrite <- Permutation_rev, Permutation_app_comm, <- seq_app, length_drop. f_equiv. lia.
  - split; [done|]. by rewrite <- Permutation_rev.
Qed.

(** The quotients of this slash do not fall short of the exact ones. *)
Definition rounds_up (amount total : Z) : Prop :=
  ∀ q r, q <= total → from_rational_up amount q = Some r → amount * QUINTILLION <= r * q.

Lemma sum_shares_ratio r l :
  0 <= r <= QUINTILLION → Forall (λ c, 0 <= c.(uc_value)) l →
  r * chunk_sum l <= QUINTILLION * sum_list_with_Z (λ c, share (Some r) c.(uc_value)) l.
Proof.
  intros Hr. induction 1 as [|c l Hc _ IH]; [rewrite chunk_sum_nil; cbn; lia|]. rewrite chunk_sum_cons, sum_list_cons.
  pose proof (mul_ceil_spec r c.(uc_value) Hr Hc) as Hm. change (mul_ceil r _) with (share (Some r) c.(uc_value)) in Hm.
  rewrite !Z.mul_add_distr_l. lia.
Qed.

Lemma sum_affected l n :
  Forall (λ c, 0 <= c.(uc_value)) l → 0 <= n → n + chunk_sum l < 2 ^ 128 →
  foldl (λ sum chunk, saturating_add 128 sum chunk.(uc_value)) n l = n + chunk_sum l.
Proof.
  intros Hl. revert n. induction Hl as [|c l Hc Hl IH]; intros n Hn Hlt; cbn [foldl]; [by rewrite chunk_sum_nil, Z.add_0_r|].
  rewrite chunk_sum_cons in *. pose proof (chunk_sum_nonneg l Hl).
  unfold saturating_add at 2. rewrite Z.min_l by lia. rewrite IH by lia. lia.
Qed.

(** Shares that ask for everything, and the shares of a ratio that was rounded up. *)
Lemma shares_all p l ix :
  (∀ x, 0 <= x → share p x = x) → Forall (λ c, 0 <= c.(uc_value)) l → ix ≡ₚ seq 0 (length l) →
  shares p l ix = chunk_sum l.
Proof.
  intros Hp Hl Hix. unfold shares. rewrite (sum_list_perm _ _ _ Hix). fold (shares p l (seq 0 (length l))).
  pose proof (shares_seq p l 0) as Hs. rewrite drop_0 in Hs. rewrite Hs. apply sum_list_ext. rewrite Forall_forall in Hl. auto.
Qed.

Lemma slash_plan_shares l amount start :
  ledger_ok l → 0 <= amount → rounds_up amount l.(ld_total) →
  let '(p, ix) := slash_plan l amount start in
  Z.min amount l.(ld_total) <= share p l.(ld_active) + shares p l.(ld_unlocking) ix.
Proof.
  intros [Ht Hw Ha Hc] Hamt Hup. pose proof (slash_plan_ok l amount start) as Hok. unfold slash_plan in *.
  destruct (list_find _ _) as [[k c]|]; destruct Hok as [Hok Hperm].
  2: { rewrite shares_all by done. cbn. lia. }
  assert (Hk : Forall (λ c, 0 <= c.(uc_value)) (drop k l.(ld_unlocking))) by (by apply Forall_drop).
  assert (Hsum : chunk_sum l.(ld_unlocking) = chunk_sum (take k l.(ld_unlocking)) + chunk_sum (drop k l.(ld_unlocking)))
    by (by rewrite <- chunk_sum_app, take_drop).
  pose proof (chunk_sum_nonneg _ (Forall_take _ k _ Hc)). pose proof (chunk_sum_nonneg _ Hk).
  revert Hok. rewrite sum_affected by (done || lia). unfold saturating_add. rewrite !Z.min_l by lia. intros Hok.
  destruct (from_rational_up _ _) as [r|] eqn:Hr.
  2: { change (default QUINTILLION None) with QUINTILLION in *.
       rewrite share_one, shares_all by (done || apply share_one). lia. }
  change (default QUINTILLION (Some r)) with r in *. apply Hup in Hr; [|lia].
  pose proof (sum_shares_ratio r _ Hok Hk) as Hsr. rewrite <- shares_seq in Hsr.
  pose proof (mul_ceil_spec r l.(ld_active) Hok Ha) as Hact.
  change (mul_ceil r _) with (share (Some r) l.(ld_active)) in Hact.
  assert (Hrest : 0 <= shares (Some r) l.(ld_unlocking) (rev (seq 0 k))).
  { apply sum_list_nonneg. intros i _. case_match eqn:Hi; [|done].
    apply share_range; [done|]. exact (Forall_lookup_1 _ _ _ _ Hc Hi). }
  unfold shares in *. rewrite sum_list_app. unfold QUINTILLION in *. lia.
Qed.

(** Slashing keeps the ledger well-formed, takes no more than the amount and some
    dust, and, when its quotients do not fall short, takes the whole amount or all
    there is. *)
Lemma slash_spec duration l amount minimum era :
  ledger_ok l → 0 <= amount → 0 <= minimum →
  let '(l', taken, _) := slash duration l amount minimum era in
  ledger_ok l' ∧ l'.(ld_total) = l.(ld_total) - taken ∧ 0 <= taken <= amount + dust minimum ∧
  l'.(ld_active) <= l.(ld_active) ∧
  (∃ u, chunks_le u l.(ld_unlocking) ∧ l'.(ld_unlocking) `sublist_of` u) ∧
  l'.(ld_stash) = l.(ld_stash) ∧ l'.(ld_claimed_rewards) = l.(ld_claimed_rewards) ∧
  (rounds_up amount l.(ld_total) → Z.min amount l.(ld_total) <= taken).
Proof.
  intros Hl Ha Hm. unfold slash. destruct (Z.eqb_spec amount 0) as [->|Hne].
  { split_and!; try done; [lia|unfold dust; lia|by eexists|destruct Hl; intros; lia]. }
  set (start := wrapping_add 32 era duration).
  pose proof (slash_plan_ok l amount start) as Hok. pose proof (slash_plan_shares l amount start Hl Ha) as Hshares.
  destruct (slash_plan l amount start) as [p ix]. destruct Hok as [Hp Hix].
  destruct Hl as [Ht Hw Hact Hc]. pose proof (chunk_sum_nonneg _ Hc).
  destruct (slash_out_of_spec p minimum l.(ld_active) amount l.(ld_total)) as (d & -> & Hd & Hdd & Hdm & _); [done|lia..|].
  pose proof (slash_chunks_spec p minimum ix l.(ld_unlocking) (Z.max 0 (amount - d)) (l.(ld_total) - d) ∅) as Hspec.
  destruct (slash_chunks _ _ _ _ _ _ _) as [[u total'] m].
  destruct Hspec as (Hs1 & Hs2 & Hs3 & Hs4 & Hs5 & Hs6); [done|lia|lia| |done|lia..| |].
  { rewrite Hix. apply NoDup_seq. }
  { apply Forall_forall. intros i Hi. rewrite Hix, elem_of_seq in Hi. lia. }
  unfold saturating_sub. cbn.
  assert (amount - d <= 0 → l.(ld_total) - d - total' = 0) by (intros; apply Hs3; lia).
  pose proof (chunk_sum_nonneg _ Hs5).
  split_and!; try done; try lia.
  - split; cbn; rewrite ?chunk_sum_filter_nonzero; [lia|lia|lia|by apply chunks_filter].
  - exists u. split; [done|apply sublist_filter].
  - intros Hup. specialize (Hshares Hup). lia.
Qed.

(** C13 A slash of a ledger takes at most the amount asked for plus less than one
    existential deposit of dust, at most what is there, and at least the amount or
    everything when the quotients are rounded up; what it takes leaves [total], no part
    of the ledger grows, chunks only shrink or go, and the ledger still adds up. *)
Theorem slash_takes duration l amount minimum era :
  ledger_ok l → 0 <= amount → 0 <= minimum →
  let '(l', taken, _) := slash duration l amount minimum era in
  ledger_ok l' ∧ l'.(ld_total) = l.(ld_total) - taken ∧
  0 <= taken <= amount + Z.max 0 (minimum - 1) ∧ taken <= l.(ld_total) ∧
  (rounds_up amount l.(ld_total) → Z.min amount l.(ld_total) <= taken) ∧
  l'.(ld_active) <= l.(ld_active) ∧
  (∃ u, chunks_le u l.(ld_unlocking) ∧ l'.(ld_unlocking) `sublist_of` u) ∧
  l'.(ld_stash) = l.(ld_stash) ∧ l'.(ld_claimed_rewards) = l.(ld_claimed_rewards).
Proof.
  intros Hl Ha Hm. pose proof (slash_spec duration l amount minimum era Hl Ha Hm) as Hs.
  destruct (slash _ _ _ _ _) as [[l' taken] m]. destruct Hs as ([Ht' Hw' Ha' Hc'] & Ht & Hr & Hact & Hu & Hst & Hcl & Hup).
  pose proof (chunk_sum_nonneg _ Hc'). split_and!; try done; try (by split); unfold dust in *; lia.
Qed.
End slash_proofs.

(** A chunk of 60 is halved; 100 active and 60 unlocking. *)
Lemma slash_takes_witness :
  let l := {| ld_stash := 7%N; ld_total := 160; ld_active := 100; ld_unlocking := [{| uc_value := 60; uc_era := 12 |}];
              ld_claimed_rewards := [] |} in
  ledger_ok l ∧ (slash 5 l 80 10 3).1.2 = 80 ∧ (slash 5 l 80 10 3).1.2 <= 80 + 9.
Proof.
  set (l := {| ld_stash := 7%N; ld_total := 160; ld_active := 100; ld_unlocking := [{| uc_value := 60; uc_era := 12 |}];
              ld_claimed_rewards := [] |}).
  assert (Hok : ledger_ok l) by (split; cbn; repeat constructor; unfold chunk_sum; cbn; lia).
  pose proof (slash_takes 5 l 80 10 3 Hok ltac:(lia) ltac:(lia)) as Hs.
  split; [exact Hok|]. split; [vm_compute; reflexivity|].
  destruct (slash 5 l 80 10 3) as [[l' taken] m]. destruct Hs as (_ & _ & Hr & _). cbn in *. lia.
Defined.
