(* ===== verification/StakingSpans.v ===== *)
(** * The staking pallet: slashing spans

    [struct SlashingSpans] of [src/c-pallets/staking/src/slashing.rs].  A slashing
    span of a stash is a range of eras in which only the largest slash counts.  The
    spans are kept as the start of the ongoing one and the lengths of the earlier
    ones, most recent first; [iter] recovers the ranges. *)
From S2P Require Import Prelude Errors Frame.

Record SlashingSpan := mkSlashingSpan {
  sp_index : Z;
  sp_start : Z;
  sp_length : option Z
}.
#[export] Instance set_sp_sp_index : Setter (sp_index) := λ f r,
  mkSlashingSpan (f (sp_index r)) (sp_start r) (sp_length r).
#[export] Instance set_sp_sp_start : Setter (sp_start) := λ f r,
  mkSlashingSpan (sp_index r) (f (sp_start r)) (sp_length r).
#[export] Instance set_sp_sp_length : Setter (sp_length) := λ f r,
  mkSlashingSpan (sp_index r) (sp_start r) (f (sp_length r)).

Record SlashingSpans := mkSlashingSpans {
  ss_span_index : Z;
  ss_last_start : Z;
  ss_last_nonzero_slash : Z;
  ss_prior : list Z
}.
#[export] Instance set_ss_ss_span_index : Setter (ss_span_index) := λ f r,
  mkSlashingSpans (f (ss_span_index r)) (ss_last_start r) (ss_last_nonzero_slash r) (ss_prior r).
#[export] Instance set_ss_ss_last_start : Setter (ss_last_start) := λ f r,
  mkSlashingSpans (ss_span_index r) (f (ss_last_start r)) (ss_last_nonzero_slash r) (ss_prior r).
#[export] Instance set_ss_ss_last_nonzero_slash : Setter (ss_last_nonzero_slash) := λ f r,
  mkSlashingSpans (ss_span_index r) (ss_last_start r) (f (ss_last_nonzero_slash r)) (ss_prior r).
#[export] Instance set_ss_ss_prior : Setter (ss_prior) := λ f r,
  mkSlashingSpans (ss_span_index r) (ss_last_start r) (ss_last_nonzero_slash r) (f (ss_prior r)).

(** ** Operations *)

Definition contains_era (self : SlashingSpan) (era : Z) : bool :=
  (self.(sp_start) <=? era) &&
  match self.(sp_length) with
  | Some l => era <? wrapping_add 32 self.(sp_start) l
  | None => true
  end.

Definition spans_new (window_start : Z) : SlashingSpans :=
  {| ss_span_index := 0; ss_last_start := window_start; ss_last_nonzero_slash := 0; ss_prior := [] |}.

Definition end_span (self : SlashingSpans) (now : Z) : SlashingSpans * bool :=
  let next_start := wrapping_add 32 now 1 in
  if next_start <=? self.(ss_last_start) then (self, false) else
  let last_length := wrapping_sub 32 next_start self.(ss_last_start) in
  (self <| ss_prior ::= cons last_length |> <| ss_last_start := next_start |>
        <| ss_span_index ::= λ i, wrapping_add 32 i 1 |>, true).

(** The closure of [iter] moves [last_start] and [index] back span by span. *)
Fixpoint iter_prior (last_start index : Z) (prior : list Z) : list SlashingSpan :=
  match prior with
  | [] => []
  | length :: prior =>
      let start := wrapping_sub 32 last_start length in
      let index := wrapping_sub 32 index 1 in
      {| sp_index := index; sp_start := start; sp_length := Some length |} :: iter_prior start index prior
  end.

Definition iter (self : SlashingSpans) : list SlashingSpan :=
  {| sp_index := self.(ss_span_index); sp_start := self.(ss_last_start); sp_length := None |}
  :: iter_prior self.(ss_last_start) self.(ss_span_index) self.(ss_prior).

Definition ends_by (window_start : Z) (span : SlashingSpan) : bool :=
  match span.(sp_length) with
  | Some len => wrapping_add 32 span.(sp_start) len <=? window_start
  | None => false
  end.

Definition prune (self : SlashingSpans) (window_start : Z) : SlashingSpans * option (Z * Z) :=
  let old_idx := list_find (λ span, ends_by window_start span = true) (drop 1 (iter self)) in
  let earliest_span_index := wrapping_sub 32 self.(ss_span_index) (cast 32 (Z.of_nat (length self.(ss_prior)))) in
  let '(self, pruned) :=
    match old_idx with
    | Some (o, _) =>
        let self := self <| ss_prior ::= take o |> in
        let new_earliest := wrapping_sub 32 self.(ss_span_index) (cast 32 (Z.of_nat (length self.(ss_prior)))) in
        (self, Some (earliest_span_index, new_earliest))
    | None => (self, None)
    end in
  (self <| ss_last_start ::= λ s, Z.max s window_start |>, pruned).

(** [InspectingSpans::era_span] *)
Definition era_span (self : SlashingSpans) (era : Z) : option SlashingSpan :=
  snd <$> list_find (λ span, contains_era span era = true) (iter self).

(** ** Well-formed spans *)

Definition prior_sum (l : list Z) : Z := sum_list_with_Z id l.
#[global] Arguments prior_sum : simpl never.

(** The first era that belongs to some span. *)
Definition earliest_start (self : SlashingSpans) : Z := self.(ss_last_start) - prior_sum self.(ss_prior).

(** The index of the first span. *)
Definition earliest_index (self : SlashingSpans) : Z :=
  self.(ss_span_index) - Z.of_nat (length self.(ss_prior)).

Record spans_ok (self : SlashingSpans) : Prop := {
  spans_lengths : Forall (λ l, 0 < l) self.(ss_prior);
  spans_start : 0 <= earliest_start self;
  spans_start_width : self.(ss_last_start) < 2 ^ 32;
  spans_first : 0 <= earliest_index self;
  spans_index_width : self.(ss_span_index) < 2 ^ 32
}.

(** ** The span of an era

    The specification: the spans cut the eras from [earliest_start] on into ranges
    numbered consecutively, the ongoing one last. *)
Fixpoint prior_index (start index : Z) (prior : list Z) (era : Z) : option Z :=
  match prior with
  | [] => None
  | l :: prior => if start - l <=? era then Some (index - 1) else prior_index (start - l) (index - 1) prior era
  end.

Definition index_of (self : SlashingSpans) (era : Z) : option Z :=
  if self.(ss_last_start) <=? era then Some self.(ss_span_index)
  else prior_index self.(ss_last_start) self.(ss_span_index) self.(ss_prior) era.

Lemma prior_sum_nil : prior_sum [] = 0.
Proof. done. Qed.

Lemma prior_sum_cons l prior : prior_sum (l :: prior) = l + prior_sum prior.
Proof. done. Qed.

Lemma prior_sum_nonneg prior : Forall (λ l, 0 < l) prior → 0 <= prior_sum prior.
Proof. induction 1; [done|]. rewrite prior_sum_cons. lia. Qed.

Lemma prior_index_range start index prior era i :
  Forall (λ l, 0 < l) prior → prior_index start index prior era = Some i →
  index - Z.of_nat (length prior) <= i < index ∧ start - prior_sum prior <= era.
Proof.
  intros Hp. revert start index. induction Hp as [|l prior Hl Hp IH]; intros start index; cbn; [done|].
  rewrite prior_sum_cons. pose proof (prior_sum_nonneg prior Hp). destruct (Z.leb_spec (start - l) era).
  - intros [= <-]. lia.
  - intros Hi%IH. lia.
Qed.

Lemma prior_index_None start index prior era :
  Forall (λ l, 0 < l) prior → era < start →
  (prior_index start index prior era = None ↔ era < start - prior_sum prior).
Proof.
  intros Hp. revert start index. induction Hp as [|l prior Hl Hp IH]; intros start index He; cbn.
  - rewrite prior_sum_nil. split; [lia|done].
  - rewrite prior_sum_cons. pose proof (prior_sum_nonneg prior Hp). destruct (Z.leb_spec (start - l) era).
    + split; [done|lia].
    + rewrite IH by lia. lia.
Qed.

Lemma iter_prior_range start index prior span :
  Forall (λ l, 0 < l) prior → 0 <= start - prior_sum prior → start < 2 ^ 32 →
  0 <= index - Z.of_nat (length prior) → index < 2 ^ 32 →
  span ∈ iter_prior start index prior →
  index - Z.of_nat (length prior) <= span.(sp_index) < index ∧
  ∃ l, span.(sp_length) = Some l ∧ 0 < l ∧ 0 <= span.(sp_start) ∧ span.(sp_start) + l <= start.
Proof.
  intros Hp. revert start index. induction Hp as [|l prior Hl Hp IH]; intros start index Hs Hw Hi Hiw; cbn; [set_solver|].
  rewrite prior_sum_cons in *. cbn in Hi. pose proof (prior_sum_nonneg prior Hp).
  rewrite !wrapping_sub_small by lia. rewrite elem_of_cons. intros [->|Hspan]; cbn.
  - split; [lia|]. exists l. split; [done|lia].
  - destruct (IH (start - l) (index - 1)) as (Hr & l' & Hl' & ?); [lia..|done|].
    split; [lia|]. exists l'. split; [done|lia].
Qed.

(** A prior span contains an era if and only if the era has its index. *)
Lemma iter_prior_contains start index prior era span :
  Forall (λ l, 0 < l) prior → 0 <= start - prior_sum prior → start < 2 ^ 32 →
  0 <= index - Z.of_nat (length prior) → index < 2 ^ 32 → era < start →
  span ∈ iter_prior start index prior →
  (contains_era span era = true ↔ prior_index start index prior era = Some span.(sp_index)).
Proof.
  intros Hp. revert start index. induction Hp as [|l prior Hl Hp IH]; intros start index Hs Hw Hi Hiw He; cbn; [set_solver|].
  rewrite prior_sum_cons in *. cbn in Hi. pose proof (prior_sum_nonneg prior Hp).
  rewrite !wrapping_sub_small by lia. rewrite elem_of_cons. intros [->|Hspan].
  - unfold contains_era. cbn. rewrite wrapping_add_small by lia. destruct (Z.leb_spec (start - l) era); cbn.
    + rewrite Z.ltb_lt. split; [done|lia].
    + split; [done|]. intros Hc%prior_index_range; [lia|done].
  - destruct (Z.leb_spec (start - l) era); [|apply IH; done || lia].
    destruct (iter_prior_range (start - l) (index - 1) prior span) as (Hr & l' & Hl' & ?); [done|lia..|done|].
    unfold contains_era. rewrite Hl', wrapping_add_small by lia.
    split; [rewrite andb_true_iff, Z.ltb_lt; lia|]. intros [= ?]. lia.
Qed.

Lemma iter_contains s era span :
  spans_ok s → span ∈ iter s → (contains_era span era = true ↔ index_of s era = Some span.(sp_index)).
Proof.
  intros [Hp Hs Hw Hi Hiw] Hspan. unfold earliest_start, earliest_index, index_of in *.
  pose proof (prior_sum_nonneg _ Hp). apply elem_of_cons in Hspan as [->|Hspan].
  - unfold contains_era. cbn. rewrite andb_true_r. destruct (Z.leb_spec (ss_last_start s) era); [done|].
    split; [done|]. intros Hc%prior_index_range; [lia|done].
  - destruct (Z.leb_spec (ss_last_start s) era); [|by apply iter_prior_contains].
    destruct (iter_prior_range (ss_last_start s) (ss_span_index s) (ss_prior s) span)
      as (Hr & l & Hl & ?); [done..|].
    unfold contains_era. rewrite Hl, wrapping_add_small by lia.
    split; [rewrite andb_true_iff, Z.ltb_lt; lia|]. intros [= ?]. lia.
Qed.

(** Every index from the earliest to the current one is the index of a span. *)
Lemma iter_prior_index start index prior i :
  0 <= index - Z.of_nat (length prior) → index < 2 ^ 32 →
  index - Z.of_nat (length prior) <= i < index → ∃ span, span ∈ iter_prior start index prior ∧ span.(sp_index) = i.
Proof.
  revert start index. induction prior as [|l prior IH]; intros start index H0 Hw Hi; cbn in *; [lia|].
  rewrite !(wrapping_sub_small _ index) by lia. destruct (decide (i = index - 1)) as [->|Hne].
  - eexists. split; [by left|done].
  - destruct (IH (wrapping_sub 32 start l) (index - 1)) as (span & Hin & <-); [lia..|]. exists span. set_solver.
Qed.

Lemma index_of_None s era : spans_ok s → (index_of s era = None ↔ era < earliest_start s).
Proof.
  intros [Hp Hs Hw Hi Hiw]. unfold index_of, earliest_start in *. pose proof (prior_sum_nonneg _ Hp).
  destruct (Z.leb_spec (ss_last_start s) era); [split; [done|lia]|]. by apply prior_index_None.
Qed.

Lemma index_of_range s era i :
  spans_ok s → index_of s era = Some i → earliest_index s <= i <= s.(ss_span_index) ∧ earliest_start s <= era.
Proof.
  intros [Hp Hs Hw Hi Hiw]. unfold index_of, earliest_start, earliest_index in *. pose proof (prior_sum_nonneg _ Hp).
  destruct (Z.leb_spec (ss_last_start s) era); [intros [= <-]; lia|].
  intros Hc%prior_index_range; [lia|done].
Qed.

(** [era_span] finds the span of an era. *)
Lemma era_span_index s era : spans_ok s → sp_index <$> era_span s era = index_of s era.
Proof.
  intros Hok. unfold era_span. destruct (list_find _ (iter s)) as [[k span]|] eqn:Hf; cbn.
  - apply list_find_Some in Hf as (Hk & Hc & _). symmetry. apply iter_contains; [done| |done].
    by eapply list_elem_of_lookup_2.
  - symmetry. destruct (index_of s era) as [i|] eqn:Hi; [|done]. exfalso.
    apply list_find_None in Hf. rewrite Forall_forall in Hf.
    assert (∃ span, span ∈ iter s ∧ span.(sp_index) = i) as (span & Hin & Hidx).
    { apply index_of_range in Hi as [Hi _]; [|done]. destruct Hok as [_ _ _ H0 Hw]. unfold earliest_index in *.
      destruct (decide (i = s.(ss_span_index))) as [->|Hne]; [eexists; split; [by left|done]|].
      destruct (iter_prior_index s.(ss_last_start) s.(ss_span_index) s.(ss_prior) i) as (span & Hin & Hi'); [lia..|].
      exists span. split; [by right|done]. }
    apply (Hf span Hin). apply (iter_contains s); [done..|]. by rewrite Hidx.
Qed.

(** ** The operations on spans *)

Lemma spans_new_ok window : 0 <= window < 2 ^ 32 → spans_ok (spans_new window).
Proof.
  intros. split; unfold earliest_start, earliest_index; cbn; rewrite ?prior_sum_nil; try lia. constructor.
Qed.

(** Ending the span keeps the index of the eras up to [now] and gives later ones the
    next index. *)
Lemma end_span_spec s now :
  spans_ok s → 0 <= now < 2 ^ 32 - 1 → s.(ss_span_index) < 2 ^ 32 - 1 →
  let '(s', started) := end_span s now in
  spans_ok s' ∧ started = bool_decide (s.(ss_last_start) <= now) ∧
  earliest_start s' = earliest_start s ∧ earliest_index s' = earliest_index s ∧
  s'.(ss_last_nonzero_slash) = s.(ss_last_nonzero_slash) ∧
  ∀ era, index_of s' era =
    if started && (now <? era) then Some (s.(ss_span_index) + 1) else index_of s era.
Proof.
  intros [Hp Hs Hw Hi Hiw] Hnow Hidx. unfold end_span. rewrite (wrapping_add_small _ now) by lia.
  destruct (Z.leb_spec (now + 1) (ss_last_start s)).
  { rewrite bool_decide_eq_false_2 by lia. by split_and!. }
  unfold earliest_start, earliest_index in *. pose proof (prior_sum_nonneg _ Hp).
  rewrite bool_decide_eq_true_2 by lia. cbn. rewrite wrapping_sub_small, !(wrapping_add_small _ (ss_span_index s)) by lia.
  unfold earliest_start, earliest_index. rewrite ?prior_sum_cons. cbn.
  split; [|split_and!; rewrite ?prior_sum_cons; try lia].
  - split; unfold earliest_start, earliest_index; cbn;
      rewrite ?prior_sum_cons, ?(wrapping_add_small _ (ss_span_index s)) by lia; try lia. constructor; [lia|done].
  - intros era. unfold index_of. cbn. rewrite !(wrapping_add_small _ (ss_span_index s)) by lia. destruct (Z.leb_spec (now + 1) era), (Z.ltb_spec now era); try lia; [done|].
    replace (now + 1 - (now + 1 - ss_last_start s)) with (ss_last_start s) by lia.
    by replace (ss_span_index s + 1 - 1) with (ss_span_index s) by lia.
Qed.

Lemma prior_index_take start index prior o era :
  Forall (λ l, 0 < l) prior → era < start → start - prior_sum (take o prior) <= era →
  prior_index start index (take o prior) era = prior_index start index prior era.
Proof.
  intros Hp. revert start index o. induction Hp as [|l prior Hl Hp IH]; intros start index [|o] Hlt He; cbn in *; try done.
  - rewrite prior_sum_nil in He. lia.
  - rewrite prior_sum_cons in He. destruct (Z.leb_spec (start - l) era); [done|]. apply IH; lia.
Qed.

Lemma iter_prior_take start index prior o : iter_prior start index (take o prior) = take o (iter_prior start index prior).
Proof. revert start index o. induction prior as [|l prior IH]; intros start index [|o]; cbn; try done. by rewrite IH. Qed.

Lemma length_iter_prior start index prior : length (iter_prior start index prior) = length prior.
Proof. revert start index. induction prior as [|l prior IH]; intros start index; cbn; [done|]. by rewrite IH. Qed.

(** Where a prior span ends. *)
Lemma iter_prior_end window start index prior k span :
  Forall (λ l, 0 < l) prior → 0 <= start - prior_sum prior → start < 2 ^ 32 →
  iter_prior start index prior !! k = Some span →
  ends_by window span = (start - prior_sum (take k prior) <=? window).
Proof.
  intros Hp. revert start index k. induction Hp as [|l prior Hl Hp IH]; intros start index k Hs Hw; cbn; [done|].
  rewrite prior_sum_cons in *. pose proof (prior_sum_nonneg prior Hp). rewrite (wrapping_sub_small _ start) by lia.
  destruct k as [|k]; cbn.
  - intros [= <-]. unfold ends_by. cbn. rewrite wrapping_add_small, prior_sum_nil by lia.
    by replace (start - l + l) with (start - 0) by lia.
  - intros Hk%IH; [|lia..]. rewrite Hk. apply f_equal2; [rewrite prior_sum_cons; lia|done].
Qed.

Lemma prior_sum_take_le prior o : Forall (λ l, 0 < l) prior → prior_sum (take o prior) <= prior_sum prior.
Proof.
  intros Hp. rewrite <- (take_drop o prior) at 2. unfold prior_sum. rewrite sum_list_app.
  pose proof (prior_sum_nonneg (drop o prior) (Forall_drop _ _ _ Hp)). unfold prior_sum in *. lia.
Qed.

(** Keeping the [o] most recent prior spans, none of which ended by the window. *)
Lemma prune_kept s window o :
  spans_ok s → 0 <= window < 2 ^ 32 → (o <= length s.(ss_prior))%nat →
  (∀ j, (j < o)%nat → window < s.(ss_last_start) - prior_sum (take j s.(ss_prior))) →
  ((o < length s.(ss_prior))%nat → s.(ss_last_start) - prior_sum (take o s.(ss_prior)) <= window) →
  let s' := s <| ss_prior ::= take o |> <| ss_last_start ::= λ x, Z.max x window |> in
  spans_ok s' ∧ earliest_index s' = s.(ss_span_index) - Z.of_nat o ∧
  Forall (λ span, ends_by window span = false) (iter s') ∧
  ∀ era, window <= era → index_of s' era = index_of s era.
Proof.
  intros [Hp Hs Hw Hi Hiw] Hwin Ho Hkeep Hdrop. unfold earliest_start, earliest_index in *. cbn.
  pose proof (prior_sum_nonneg _ Hp). pose proof (prior_sum_take_le _ o Hp).
  pose proof (Forall_take _ o _ Hp) as Hpo. pose proof (prior_sum_nonneg _ Hpo).
  assert (Hlen : length (take o s.(ss_prior)) = o) by (rewrite length_take; lia).
  assert (Hmax : o = 0%nat ∨ window < s.(ss_last_start)).
  { destruct o as [|o]; [by left|]. right. specialize (Hkeep 0%nat ltac:(lia)). change (take 0 _) with (@nil Z) in Hkeep. rewrite prior_sum_nil in Hkeep. lia. }
  split_and!.
  - split; unfold earliest_start, earliest_index; cbn; rewrite ?Hlen; try done; try lia.
  - by rewrite Hlen.
  - constructor; [done|]. cbn. destruct Hmax as [->|Hm]; [constructor|]. rewrite Z.max_l by lia.
    apply Forall_lookup. intros k span Hk. rewrite (iter_prior_end window) with (1 := Hpo) (4 := Hk) by lia.
    pose proof (lookup_lt_Some _ _ _ Hk) as Hlt. rewrite length_iter_prior, Hlen in Hlt.
    rewrite take_take, Nat.min_l by lia. apply Z.leb_gt. apply Hkeep. lia.
  - intros era He. unfold index_of. cbn. destruct Hmax as [->|Hm].
    + destruct (ss_prior s) as [|l prior].
      * by destruct (Z.leb_spec (ss_last_start s `max` window) era), (Z.leb_spec (ss_last_start s) era); try lia.
      * specialize (Hdrop ltac:(cbn; lia)). change (take 0 _) with (@nil Z) in Hdrop. rewrite prior_sum_nil in Hdrop.
        by destruct (Z.leb_spec (ss_last_start s `max` window) era), (Z.leb_spec (ss_last_start s) era); try lia.
    + rewrite Z.max_l by lia. destruct (Z.leb_spec (ss_last_start s) era); [done|].
      destruct (decide (o = length (ss_prior s))) as [->|]; [by rewrite take_ge by lia|].
      apply prior_index_take; [done|lia|]. specialize (Hdrop ltac:(lia)). lia.
Qed.

(** Pruning forgets exactly the spans that ended by the start of the window, reports
    their indices, and keeps the index of every era of the window. *)
Lemma prune_spec s window :
  spans_ok s → 0 <= window < 2 ^ 32 →
  let '(s', pruned) := prune s window in
  spans_ok s' ∧ s'.(ss_span_index) = s.(ss_span_index) ∧
  s'.(ss_last_nonzero_slash) = s.(ss_last_nonzero_slash) ∧
  match pruned with
  | Some (a, b) => a = earliest_index s ∧ b = earliest_index s' ∧ a < b
  | None => earliest_index s' = earliest_index s
  end ∧
  Forall (λ span, ends_by window span = false) (iter s') ∧
  ∀ era, window <= era → index_of s' era = index_of s era.
Proof.
  intros Hok Hwin. unfold prune. pose proof Hok as [Hp Hs Hw Hi Hiw].
  change (drop 1 (iter s)) with (iter_prior s.(ss_last_start) s.(ss_span_index) s.(ss_prior)).
  assert (Hcast : ∀ o, (o <= length s.(ss_prior))%nat →
    wrapping_sub 32 s.(ss_span_index) (cast 32 (Z.of_nat o)) = s.(ss_span_index) - Z.of_nat o).
  { intros o Ho. unfold earliest_index in *. unfold cast. rewrite Z.mod_small, wrapping_sub_small by lia. done. }
  assert (Hends : ∀ k, (k < length s.(ss_prior))%nat → ∃ span,
    iter_prior s.(ss_last_start) s.(ss_span_index) s.(ss_prior) !! k = Some span ∧
    ends_by window span = (s.(ss_last_start) - prior_sum (take k s.(ss_prior)) <=? window)).
  { intros k Hk. rewrite <- (length_iter_prior s.(ss_last_start) s.(ss_span_index)) in Hk.
    apply lookup_lt_is_Some_2 in Hk as [span Hk]. exists span. split; [done|]. by eapply iter_prior_end. }
  destruct (list_find _ _) as [[o span]|] eqn:Hf.
  - apply list_find_Some in Hf as (Ho & He & Hmin).
    pose proof (lookup_lt_Some _ _ _ Ho) as Hlt. rewrite length_iter_prior in Hlt.
    destruct (prune_kept s window o) as (Hok' & Hidx & Hkept & Hera); [done|done|lia| | |].
    + intros j Hj. destruct (Hends j) as (span' & Hj' & Heq); [lia|].
      specialize (Hmin j span' Hj' Hj). rewrite Heq, Z.leb_le in Hmin. lia.
    + intros _. destruct (Hends o) as (span' & Ho' & Heq); [lia|]. simplify_eq. rewrite He in Heq.
      symmetry in Heq. by apply Z.leb_le in Heq.
    + cbn in *. rewrite length_take, Nat.min_l, !Hcast by lia. unfold earliest_index in *. split_and!; try done; lia.
  - apply list_find_None in Hf. rewrite Forall_lookup in Hf.
    destruct (prune_kept s window (length s.(ss_prior))) as (Hok' & Hidx & Hkept & Hera); [done|done|lia| |lia|].
    + intros j Hj. destruct (Hends j Hj) as (span' & Hj' & Heq).
      specialize (Hf j span' Hj'). rewrite Heq, Z.leb_le in Hf. lia.
    + assert (s <| ss_prior ::= take (length s.(ss_prior)) |> = s) as Hs'
        by (destruct s; unfold set_field, set_ss_ss_prior; cbn; by rewrite firstn_all).
      rewrite Hs' in *. by split_and!.
Qed.

(** C12 The spans partition the eras from the first one on, and ending a span and
    pruning do not renumber: after [end_span] in era [now] and [prune] at a window, an
    era of the window up to [now] is found by [era_span] in the span with the same index
    as before, and a later era in the new span. *)
Theorem span_index_stable s now window :
  spans_ok s → 0 <= now < 2 ^ 32 - 1 → s.(ss_span_index) < 2 ^ 32 - 1 → 0 <= window <= now →
  let '(s1, started) := end_span s now in
  let '(s2, _) := prune s1 window in
  spans_ok s2 ∧ started = bool_decide (s.(ss_last_start) <= now) ∧
  (∀ era, window <= era <= now → sp_index <$> era_span s2 era = sp_index <$> era_span s era) ∧
  (∀ era, now < era → started = true → sp_index <$> era_span s2 era = Some (s.(ss_span_index) + 1)) ∧
  (∀ era span span', span ∈ iter s2 → span' ∈ iter s2 →
     contains_era span era = true → contains_era span' era = true → span.(sp_index) = span'.(sp_index)).
Proof.
  intros Hok Hnow Hidx Hwin. pose proof (end_span_spec s now Hok Hnow Hidx) as He.
  destruct (end_span s now) as [s1 started]. destruct He as (Hok1 & Hst & _ & _ & _ & Hix1).
  pose proof (prune_spec s1 window Hok1 ltac:(lia)) as Hp. destruct (prune s1 window) as [s2 pruned].
  destruct Hp as (Hok2 & _ & _ & _ & _ & Hix2). split_and!; [done|done| | |].
  - intros era Hera. rewrite !era_span_index, Hix2, Hix1 by (done || lia).
    destruct (Z.ltb_spec now era); [lia|]. by rewrite andb_false_r.
  - intros era Hera ->. rewrite era_span_index, Hix2, Hix1 by (done || lia). by destruct (Z.ltb_spec now era); [|lia].
  - intros era span span' Hin Hin' Hc Hc'. rewrite (iter_contains s2) in Hc, Hc' by done. congruence.
Qed.

(** Three spans, the last of which ends in era 9. *)
Lemma span_index_stable_witness :
  let s := mkSlashingSpans 2 7 0 [3; 4] in
  spans_ok s ∧ sp_index <$> era_span (prune (end_span s 9).1 6).1 6 = Some 1.
Proof.
  assert (Hok : spans_ok (mkSlashingSpans 2 7 0 [3; 4])).
  { split; unfold earliest_start, earliest_index, prior_sum; cbn; try lia. repeat constructor; lia. }
  split; [exact Hok|].
  destruct (span_index_stable (mkSlashingSpans 2 7 0 [3; 4]) 9 6 Hok) as (_ & _ & Hix & _); [cbn; lia..|].
  exact (Hix 6 ltac:(lia)).
Defined.
