(* ===== verification/StakingTypes.v ===== *)
(** * The staking pallet: data, storage and configuration

    The types of [src/c-pallets/staking/src/lib.rs], the storage items, events and
    configuration of [src/c-pallets/staking/src/pallet/mod.rs], and the interfaces of
    the Substrate code the pallet is configured with: the lockable currency, the
    reference counts of accounts, the voter list, the session pallet, the election
    provider and the handlers of imbalances.  [P] is the type of [Perbill], [X] the
    state of the rest of the chain.

    The storage values [StorageVersion] and [CanceledSlashPayout] are written at
    genesis only and are not part of the state. *)
From S2P Require Import Prelude Errors Frame StakingLedger StakingSpans.

(** ** Data *)

Inductive RewardDestination :=
| DestStaked | DestStash | DestController | DestAccount (dest_account : AccountId) | DestNone.

Inductive Forcing := NotForcing | ForceNew | ForceNone | ForceAlways.

Inductive DisableStrategy := DisableNever | DisableWhenSlashed | DisableAlways.

Inductive ConfigOp (T : Type) := OpNoop | OpSet (v : T) | OpRemove.
Arguments OpNoop {T}.
Arguments OpSet {T} v.
Arguments OpRemove {T}.

#[export] Instance Forcing_eq_dec : EqDecision Forcing.
Proof. solve_decision. Defined.
#[export] Instance DisableStrategy_eq_dec : EqDecision DisableStrategy.
Proof. solve_decision. Defined.

Record ActiveEraInfo := mkActiveEraInfo {
  ae_index : Z;
  ae_start : option Z
}.
#[export] Instance set_ae_ae_index : Setter (ae_index) := λ f r,
  mkActiveEraInfo (f (ae_index r)) (ae_start r).
#[export] Instance set_ae_ae_start : Setter (ae_start) := λ f r,
  mkActiveEraInfo (ae_index r) (f (ae_start r)).

Record EraRewardPoints := mkEraRewardPoints {
  erp_total : Z;
  erp_individual : gmap AccountId Z
}.
#[export] Instance set_erp_erp_total : Setter (erp_total) := λ f r,
  mkEraRewardPoints (f (erp_total r)) (erp_individual r).
#[export] Instance set_erp_erp_individual : Setter (erp_individual) := λ f r,
  mkEraRewardPoints (erp_total r) (f (erp_individual r)).

Record ValidatorPrefs (P : Type) := mkValidatorPrefs {
  vp_commission : P;
  vp_blocked : bool
}.
Arguments mkValidatorPrefs {P} _ _.
Arguments vp_commission {P} _.
Arguments vp_blocked {P} _.
#[export] Instance set_vp_vp_commission {P : Type} : Setter (@vp_commission P) := λ f r,
  mkValidatorPrefs (f (vp_commission r)) (vp_blocked r).
#[export] Instance set_vp_vp_blocked {P : Type} : Setter (@vp_blocked P) := λ f r,
  mkValidatorPrefs (vp_commission r) (f (vp_blocked r)).

Record Nominations := mkNominations {
  nm_targets : list AccountId;
  nm_submitted_in : Z;
  nm_suppressed : bool
}.
#[export] Instance set_nm_nm_targets : Setter (nm_targets) := λ f r,
  mkNominations (f (nm_targets r)) (nm_submitted_in r) (nm_suppressed r).
#[export] Instance set_nm_nm_submitted_in : Setter (nm_submitted_in) := λ f r,
  mkNominations (nm_targets r) (f (nm_submitted_in r)) (nm_suppressed r).
#[export] Instance set_nm_nm_suppressed : Setter (nm_suppressed) := λ f r,
  mkNominations (nm_targets r) (nm_submitted_in r) (f (nm_suppressed r)).

Record IndividualExposure := mkIndividualExposure {
  ie_who : AccountId;
  ie_value : Z
}.
#[export] Instance set_ie_ie_who : Setter (ie_who) := λ f r,
  mkIndividualExposure (f (ie_who r)) (ie_value r).
#[export] Instance set_ie_ie_value : Setter (ie_value) := λ f r,
  mkIndividualExposure (ie_who r) (f (ie_value r)).

Record Exposure := mkExposure {
  ex_total : Z;
  ex_own : Z;
  ex_others : list IndividualExposure
}.
#[export] Instance set_ex_ex_total : Setter (ex_total) := λ f r,
  mkExposure (f (ex_total r)) (ex_own r) (ex_others r).
#[export] Instance set_ex_ex_own : Setter (ex_own) := λ f r,
  mkExposure (ex_total r) (f (ex_own r)) (ex_others r).
#[export] Instance set_ex_ex_others : Setter (ex_others) := λ f r,
  mkExposure (ex_total r) (ex_own r) (f (ex_others r)).

Record UnappliedSlash := mkUnappliedSlash {
  us_validator : AccountId;
  us_own : Z;
  us_others : list (AccountId * Z);
  us_reporters : list AccountId;
  us_payout : Z
}.
#[export] Instance set_us_us_validator : Setter (us_validator) := λ f r,
  mkUnappliedSlash (f (us_validator r)) (us_own r) (us_others r) (us_reporters r) (us_payout r).
#[export] Instance set_us_us_own : Setter (us_own) := λ f r,
  mkUnappliedSlash (us_validator r) (f (us_own r)) (us_others r) (us_reporters r) (us_payout r).
#[export] Instance set_us_us_others : Setter (us_others) := λ f r,
  mkUnappliedSlash (us_validator r) (us_own r) (f (us_others r)) (us_reporters r) (us_payout r).
#[export] Instance set_us_us_reporters : Setter (us_reporters) := λ f r,
  mkUnappliedSlash (us_validator r) (us_own r) (us_others r) (f (us_reporters r)) (us_payout r).
#[export] Instance set_us_us_payout : Setter (us_payout) := λ f r,
  mkUnappliedSlash (us_validator r) (us_own r) (us_others r) (us_reporters r) (f (us_payout r)).

Record SpanRecord := mkSpanRecord {
  sr_slashed : Z;
  sr_paid_out : Z
}.
#[export] Instance set_sr_sr_slashed : Setter (sr_slashed) := λ f r,
  mkSpanRecord (f (sr_slashed r)) (sr_paid_out r).
#[export] Instance set_sr_sr_paid_out : Setter (sr_paid_out) := λ f r,
  mkSpanRecord (sr_slashed r) (f (sr_paid_out r)).


Definition default_points : EraRewardPoints := {| erp_total := 0; erp_individual := ∅ |}.
Definition default_exposure : Exposure := {| ex_total := 0; ex_own := 0; ex_others := [] |}.
Definition default_record : SpanRecord := {| sr_slashed := 0; sr_paid_out := 0 |}.

Inductive Event (P : Type) :=
| EraPaid (era_index validator_payout remainder : Z)
| Rewarded (stash : AccountId) (amount : Z)
| Slashed (staker : AccountId) (amount : Z)
| SlashReported (validator : AccountId) (fraction : P) (slash_era : Z)
| OldSlashingReportDiscarded (session_index : Z)
| StakersElected
| EBonded (stash : AccountId) (amount : Z)
| EUnbonded (stash : AccountId) (amount : Z)
| EWithdrawn (stash : AccountId) (amount : Z)
| Kicked (nominator stash : AccountId)
| StakingElectionFailed
| Chilled (stash : AccountId)
| PayoutStarted (era_index : Z) (validator_stash : AccountId)
| ValidatorPrefsSet (stash : AccountId) (prefs : ValidatorPrefs P).
Arguments EraPaid {P} _ _ _.
Arguments Rewarded {P} _ _.
Arguments Slashed {P} _ _.
Arguments SlashReported {P} _ _ _.
Arguments OldSlashingReportDiscarded {P} _.
Arguments StakersElected {P}.
Arguments EBonded {P} _ _.
Arguments EUnbonded {P} _ _.
Arguments EWithdrawn {P} _ _.
Arguments Kicked {P} _ _.
Arguments StakingElectionFailed {P}.
Arguments Chilled {P} _.
Arguments PayoutStarted {P} _ _.
Arguments ValidatorPrefsSet {P} _ _.

(** ** Storage *)

Record State (P : Type) (X : Type) := mkState {
  ValidatorCount : Z;
  MinimumValidatorCount : Z;
  Invulnerables : list AccountId;
  Bonded : gmap AccountId AccountId;
  MinNominatorBond : Z;
  MinValidatorBond : Z;
  MinimumActiveStake : Z;
  MinCommission : P;
  Ledger : gmap AccountId StakingLedger;
  Payee : gmap AccountId RewardDestination;
  Validators : gmap AccountId (ValidatorPrefs P);
  MaxValidatorsCount : option Z;
  Nominators : gmap AccountId Nominations;
  MaxNominatorsCount : option Z;
  CurrentEra : option Z;
  ActiveEra : option ActiveEraInfo;
  ErasStartSessionIndex : gmap Z Z;
  ErasStakers : gmap (Z * AccountId) Exposure;
  ErasStakersClipped : gmap (Z * AccountId) Exposure;
  ErasValidatorPrefs : gmap (Z * AccountId) (ValidatorPrefs P);
  ErasValidatorReward : gmap Z Z;
  ErasRewardPoints : gmap Z EraRewardPoints;
  ErasTotalStake : gmap Z Z;
  ForceEra : Forcing;
  SlashRewardFraction : P;
  UnappliedSlashes : gmap Z (list UnappliedSlash);
  BondedEras : list (Z * Z);
  ValidatorSlashInEra : gmap (Z * AccountId) (P * Z);
  NominatorSlashInEra : gmap (Z * AccountId) Z;
  SlashingSpansOf : gmap AccountId SlashingSpans;
  SpanSlash : gmap (AccountId * Z) SpanRecord;
  CurrentPlannedSession : Z;
  OffendingValidators : list (Z * bool);
  ChillThreshold : option Z;
  ext : X;
  events : list (Event P)
}.
Arguments mkState {P} {X} _ _ _ _ _ _ _ _ _ _ _ _ _ _ _ _ _ _ _ _ _ _ _ _ _ _ _ _ _ _ _ _ _ _ _ _.
Arguments ValidatorCount {P} {X} _.
Arguments MinimumValidatorCount {P} {X} _.
Arguments Invulnerables {P} {X} _.
Arguments Bonded {P} {X} _.
Arguments MinNominatorBond {P} {X} _.
Arguments MinValidatorBond {P} {X} _.
Arguments MinimumActiveStake {P} {X} _.
Arguments MinCommission {P} {X} _.
Arguments Ledger {P} {X} _.
Arguments Payee {P} {X} _.
Arguments Validators {P} {X} _.
Arguments MaxValidatorsCount {P} {X} _.
Arguments Nominators {P} {X} _.
Arguments MaxNominatorsCount {P} {X} _.
Arguments CurrentEra {P} {X} _.
Arguments ActiveEra {P} {X} _.
Arguments ErasStartSessionIndex {P} {X} _.
Arguments ErasStakers {P} {X} _.
Arguments ErasStakersClipped {P} {X} _.
Arguments ErasValidatorPrefs {P} {X} _.
Arguments ErasValidatorReward {P} {X} _.
Arguments ErasRewardPoints {P} {X} _.
Arguments ErasTotalStake {P} {X} _.
Arguments ForceEra {P} {X} _.
Arguments SlashRewardFraction {P} {X} _.
Arguments UnappliedSlashes {P} {X} _.
Arguments BondedEras {P} {X} _.
Arguments ValidatorSlashInEra {P} {X} _.
Arguments NominatorSlashInEra {P} {X} _.
Arguments SlashingSpansOf {P} {X} _.
Arguments SpanSlash {P} {X} _.
Arguments CurrentPlannedSession {P} {X} _.
Arguments OffendingValidators {P} {X} _.
Arguments ChillThreshold {P} {X} _.
Arguments ext {P} {X} _.
Arguments events {P} {X} _.
#[export] Instance set_sk_ValidatorCount {P : Type} {X : Type} : Setter (@ValidatorCount P X) := λ f r,
  mkState (f (ValidatorCount r)) (MinimumValidatorCount r) (Invulnerables r) (Bonded r) (MinNominatorBond r) (MinValidatorBond r) (MinimumActiveStake r) (MinCommission r) (Ledger r) (Payee r) (Validators r) (MaxValidatorsCount r) (Nominators r) (MaxNominatorsCount r) (CurrentEra r) (ActiveEra r) (ErasStartSessionIndex r) (ErasStakers r) (ErasStakersClipped r) (ErasValidatorPrefs r) (ErasValidatorReward r) (ErasRewardPoints r) (ErasTotalStake r) (ForceEra r) (SlashRewardFraction r) (UnappliedSlashes r) (BondedEras r) (ValidatorSlashInEra r) (NominatorSlashInEra r) (SlashingSpansOf r) (SpanSlash r) (CurrentPlannedSession r) (OffendingValidators r) (ChillThreshold r) (ext r) (events r).
#[export] Instance set_sk_MinimumValidatorCount {P : Type} {X : Type} : Setter (@MinimumValidatorCount P X) := λ f r,
  mkState (ValidatorCount r) (f (MinimumValidatorCount r)) (Invulnerables r) (Bonded r) (MinNominatorBond r) (MinValidatorBond r) (MinimumActiveStake r) (MinCommission r) (Ledger r) (Payee r) (Validators r) (MaxValidatorsCount r) (Nominators r) (MaxNominatorsCount r) (CurrentEra r) (ActiveEra r) (ErasStartSessionIndex r) (ErasStakers r) (ErasStakersClipped r) (ErasValidatorPrefs r) (ErasValidatorReward r) (ErasRewardPoints r) (ErasTotalStake r) (ForceEra r) (SlashRewardFraction r) (UnappliedSlashes r) (BondedEras r) (ValidatorSlashInEra r) (NominatorSlashInEra r) (SlashingSpansOf r) (SpanSlash r) (CurrentPlannedSession r) (OffendingValidators r) (ChillThreshold r) (ext r) (events r).
#[export] Instance set_sk_Invulnerables {P : Type} {X : Type} : Setter (@Invulnerables P X) := λ f r,
  mkState (ValidatorCount r) (MinimumValidatorCount r) (f (Invulnerables r)) (Bonded r) (MinNominatorBond r) (MinValidatorBond r) (MinimumActiveStake r) (MinCommission r) (Ledger r) (Payee r) (Validators r) (MaxValidatorsCount r) (Nominators r) (MaxNominatorsCount r) (CurrentEra r) (ActiveEra r) (ErasStartSessionIndex r) (ErasStakers r) (ErasStakersClipped r) (ErasValidatorPrefs r) (ErasValidatorReward r) (ErasRewardPoints r) (ErasTotalStake r) (ForceEra r) (SlashRewardFraction r) (UnappliedSlashes r) (BondedEras r) (ValidatorSlashInEra r) (NominatorSlashInEra r) (SlashingSpansOf r) (SpanSlash r) (CurrentPlannedSession r) (OffendingValidators r) (ChillThreshold r) (ext r) (events r).
#[export] Instance set_sk_Bonded {P : Type} {X : Type} : Setter (@Bonded P X) := λ f r,
  mkState (ValidatorCount r) (MinimumValidatorCount r) (Invulnerables r) (f (Bonded r)) (MinNominatorBond r) (MinValidatorBond r) (MinimumActiveStake r) (MinCommission r) (Ledger r) (Payee r) (Validators r) (MaxValidatorsCount r) (Nominators r) (MaxNominatorsCount r) (CurrentEra r) (ActiveEra r) (ErasStartSessionIndex r) (ErasStakers r) (ErasStakersClipped r) (ErasValidatorPrefs r) (ErasValidatorReward r) (ErasRewardPoints r) (ErasTotalStake r) (ForceEra r) (SlashRewardFraction r) (UnappliedSlashes r) (BondedEras r) (ValidatorSlashInEra r) (NominatorSlashInEra r) (SlashingSpansOf r) (SpanSlash r) (CurrentPlannedSession r) (OffendingValidators r) (ChillThreshold r) (ext r) (events r).
#[export] Instance set_sk_MinNominatorBond {P : Type} {X : Type} : Setter (@MinNominatorBond P X) := λ f r,
  mkState (ValidatorCount r) (MinimumValidatorCount r) (Invulnerables r) (Bonded r) (f (MinNominatorBond r)) (MinValidatorBond r) (MinimumActiveStake r) (MinCommission r) (Ledger r) (Payee r) (Validators r) (MaxValidatorsCount r) (Nominators r) (MaxNominatorsCount r) (CurrentEra r) (ActiveEra r) (ErasStartSessionIndex r) (ErasStakers r) (ErasStakersClipped r) (ErasValidatorPrefs r) (ErasValidatorReward r) (ErasRewardPoints r) (ErasTotalStake r) (ForceEra r) (SlashRewardFraction r) (UnappliedSlashes r) (BondedEras r) (ValidatorSlashInEra r) (NominatorSlashInEra r) (SlashingSpansOf r) (SpanSlash r) (CurrentPlannedSession r) (OffendingValidators r) (ChillThreshold r) (ext r) (events r).
#[export] Instance set_sk_MinValidatorBond {P : Type} {X : Type} : Setter (@MinValidatorBond P X) := λ f r,
  mkState (ValidatorCount r) (MinimumValidatorCount r) (Invulnerables r) (Bonded r) (MinNominatorBond r) (f (MinValidatorBond r)) (MinimumActiveStake r) (MinCommission r) (Ledger r) (Payee r) (Validators r) (MaxValidatorsCount r) (Nominators r) (MaxNominatorsCount r) (CurrentEra r) (ActiveEra r) (ErasStartSessionIndex r) (ErasStakers r) (ErasStakersClipped r) (ErasValidatorPrefs r) (ErasValidatorReward r) (ErasRewardPoints r) (ErasTotalStake r) (ForceEra r) (SlashRewardFraction r) (UnappliedSlashes r) (BondedEras r) (ValidatorSlashInEra r) (NominatorSlashInEra r) (SlashingSpansOf r) (SpanSlash r) (CurrentPlannedSession r) (OffendingValidators r) (ChillThreshold r) (ext r) (events r).
#[export] Instance set_sk_MinimumActiveStake {P : Type} {X : Type} : Setter (@MinimumActiveStake P X) := λ f r,
  mkState (ValidatorCount r) (MinimumValidatorCount r) (Invulnerables r) (Bonded r) (MinNominatorBond r) (MinValidatorBond r) (f (MinimumActiveStake r)) (MinCommission r) (Ledger r) (Payee r) (Validators r) (MaxValidatorsCount r) (Nominators r) (MaxNominatorsCount r) (CurrentEra r) (ActiveEra r) (ErasStartSessionIndex r) (ErasStakers r) (ErasStakersClipped r) (ErasValidatorPrefs r) (ErasValidatorReward r) (ErasRewardPoints r) (ErasTotalStake r) (ForceEra r) (SlashRewardFraction r) (UnappliedSlashes r) (BondedEras r) (ValidatorSlashInEra r) (NominatorSlashInEra r) (SlashingSpansOf r) (SpanSlash r) (CurrentPlannedSession r) (OffendingValidators r) (ChillThreshold r) (ext r) (events r).
#[export] Instance set_sk_MinCommission {P : Type} {X : Type} : Setter (@MinCommission P X) := λ f r,
  mkState (ValidatorCount r) (MinimumValidatorCount r) (Invulnerables r) (Bonded r) (MinNominatorBond r) (MinValidatorBond r) (MinimumActiveStake r) (f (MinCommission r)) (Ledger r) (Payee r) (Validators r) (MaxValidatorsCount r) (Nominators r) (MaxNominatorsCount r) (CurrentEra r) (ActiveEra r) (ErasStartSessionIndex r) (ErasStakers r) (ErasStakersClipped r) (ErasValidatorPrefs r) (ErasValidatorReward r) (ErasRewardPoints r) (ErasTotalStake r) (ForceEra r) (SlashRewardFraction r) (UnappliedSlashes r) (BondedEras r) (ValidatorSlashInEra r) (NominatorSlashInEra r) (SlashingSpansOf r) (SpanSlash r) (CurrentPlannedSession r) (OffendingValidators r) (ChillThreshold r) (ext r) (events r).
#[export] Instance set_sk_Ledger {P : Type} {X : Type} : Setter (@Ledger P X) := λ f r,
  mkState (ValidatorCount r) (MinimumValidatorCount r) (Invulnerables r) (Bonded r) (MinNominatorBond r) (MinValidatorBond r) (MinimumActiveStake r) (MinCommission r) (f (Ledger r)) (Payee r) (Validators r) (MaxValidatorsCount r) (Nominators r) (MaxNominatorsCount r) (CurrentEra r) (ActiveEra r) (ErasStartSessionIndex r) (ErasStakers r) (ErasStakersClipped r) (ErasValidatorPrefs r) (ErasValidatorReward r) (ErasRewardPoints r) (ErasTotalStake r) (ForceEra r) (SlashRewardFraction r) (UnappliedSlashes r) (BondedEras r) (ValidatorSlashInEra r) (NominatorSlashInEra r) (SlashingSpansOf r) (SpanSlash r) (CurrentPlannedSession r) (OffendingValidators r) (ChillThreshold r) (ext r) (events r).
#[export] Instance set_sk_Payee {P : Type} {X : Type} : Setter (@Payee P X) := λ f r,
  mkState (ValidatorCount r) (MinimumValidatorCount r) (Invulnerables r) (Bonded r) (MinNominatorBond r) (MinValidatorBond r) (MinimumActiveStake r) (MinCommission r) (Ledger r) (f (Payee r)) (Validators r) (MaxValidatorsCount r) (Nominators r) (MaxNominatorsCount r) (CurrentEra r) (ActiveEra r) (ErasStartSessionIndex r) (ErasStakers r) (ErasStakersClipped r) (ErasValidatorPrefs r) (ErasValidatorReward r) (ErasRewardPoints r) (ErasTotalStake r) (ForceEra r) (SlashRewardFraction r) (UnappliedSlashes r) (BondedEras r) (ValidatorSlashInEra r) (NominatorSlashInEra r) (SlashingSpansOf r) (SpanSlash r) (CurrentPlannedSession r) (OffendingValidators r) (ChillThreshold r) (ext r) (events r).
#[export] Instance set_sk_Validators {P : Type} {X : Type} : Setter (@Validators P X) := λ f r,
  mkState (ValidatorCount r) (MinimumValidatorCount r) (Invulnerables r) (Bonded r) (MinNominatorBond r) (MinValidatorBond r) (MinimumActiveStake r) (MinCommission r) (Ledger r) (Payee r) (f (Validators r)) (MaxValidatorsCount r) (Nominators r) (MaxNominatorsCount r) (CurrentEra r) (ActiveEra r) (ErasStartSessionIndex r) (ErasStakers r) (ErasStakersClipped r) (ErasValidatorPrefs r) (ErasValidatorReward r) (ErasRewardPoints r) (ErasTotalStake r) (ForceEra r) (SlashRewardFraction r) (UnappliedSlashes r) (BondedEras r) (ValidatorSlashInEra r) (NominatorSlashInEra r) (SlashingSpansOf r) (SpanSlash r) (CurrentPlannedSession r) (OffendingValidators r) (ChillThreshold r) (ext r) (events r).
#[export] Instance set_sk_MaxValidatorsCount {P : Type} {X : Type} : Setter (@MaxValidatorsCount P X) := λ f r,
  mkState (ValidatorCount r) (MinimumValidatorCount r) (Invulnerables r) (Bonded r) (MinNominatorBond r) (MinValidatorBond r) (MinimumActiveStake r) (MinCommission r) (Ledger r) (Payee r) (Validators r) (f (MaxValidatorsCount r)) (Nominators r) (MaxNominatorsCount r) (CurrentEra r) (ActiveEra r) (ErasStartSessionIndex r) (ErasStakers r) (ErasStakersClipped r) (ErasValidatorPrefs r) (ErasValidatorReward r) (ErasRewardPoints r) (ErasTotalStake r) (ForceEra r) (SlashRewardFraction r) (UnappliedSlashes r) (BondedEras r) (ValidatorSlashInEra r) (NominatorSlashInEra r) (SlashingSpansOf r) (SpanSlash r) (CurrentPlannedSession r) (OffendingValidators r) (ChillThreshold r) (ext r) (events r).
#[export] Instance set_sk_Nominators {P : Type} {X : Type} : Setter (@Nominators P X) := λ f r,
  mkState (ValidatorCount r) (MinimumValidatorCount r) (Invulnerables r) (Bonded r) (MinNominatorBond r) (MinValidatorBond r) (MinimumActiveStake r) (MinCommission r) (Ledger r) (Payee r) (Validators r) (MaxValidatorsCount r) (f (Nominators r)) (MaxNominatorsCount r) (CurrentEra r) (ActiveEra r) (ErasStartSessionIndex r) (ErasStakers r) (ErasStakersClipped r) (ErasValidatorPrefs r) (ErasValidatorReward r) (ErasRewardPoints r) (ErasTotalStake r) (ForceEra r) (SlashRewardFraction r) (UnappliedSlashes r) (BondedEras r) (ValidatorSlashInEra r) (NominatorSlashInEra r) (SlashingSpansOf r) (SpanSlash r) (CurrentPlannedSession r) (OffendingValidators r) (ChillThreshold r) (ext r) (events r).
#[export] Instance set_sk_MaxNominatorsCount {P : Type} {X : Type} : Setter (@MaxNominatorsCount P X) := λ f r,
  mkState (ValidatorCount r) (MinimumValidatorCount r) (Invulnerables r) (Bonded r) (MinNominatorBond r) (MinValidatorBond r) (MinimumActiveStake r) (MinCommission r) (Ledger r) (Payee r) (Validators r) (MaxValidatorsCount r) (Nominators r) (f (MaxNominatorsCount r)) (CurrentEra r) (ActiveEra r) (ErasStartSessionIndex r) (ErasStakers r) (ErasStakersClipped r) (ErasValidatorPrefs r) (ErasValidatorReward r) (ErasRewardPoints r) (ErasTotalStake r) (ForceEra r) (SlashRewardFraction r) (UnappliedSlashes r) (BondedEras r) (ValidatorSlashInEra r) (NominatorSlashInEra r) (SlashingSpansOf r) (SpanSlash r) (CurrentPlannedSession r) (OffendingValidators r) (ChillThreshold r) (ext r) (events r).
#[export] Instance set_sk_CurrentEra {P : Type} {X : Type} : Setter (@CurrentEra P X) := λ f r,
  mkState (ValidatorCount r) (MinimumValidatorCount r) (Invulnerables r) (Bonded r) (MinNominatorBond r) (MinValidatorBond r) (MinimumActiveStake r) (MinCommission r) (Ledger r) (Payee r) (Validators r) (MaxValidatorsCount r) (Nominators r) (MaxNominatorsCount r) (f (CurrentEra r)) (ActiveEra r) (ErasStartSessionIndex r) (ErasStakers r) (ErasStakersClipped r) (ErasValidatorPrefs r) (ErasValidatorReward r) (ErasRewardPoints r) (ErasTotalStake r) (ForceEra r) (SlashRewardFraction r) (UnappliedSlashes r) (BondedEras r) (ValidatorSlashInEra r) (NominatorSlashInEra r) (SlashingSpansOf r) (SpanSlash r) (CurrentPlannedSession r) (OffendingValidators r) (ChillThreshold r) (ext r) (events r).
#[export] Instance set_sk_ActiveEra {P : Type} {X : Type} : Setter (@ActiveEra P X) := λ f r,
  mkState (ValidatorCount r) (MinimumValidatorCount r) (Invulnerables r) (Bonded r) (MinNominatorBond r) (MinValidatorBond r) (MinimumActiveStake r) (MinCommission r) (Ledger r) (Payee r) (Validators r) (MaxValidatorsCount r) (Nominators r) (MaxNominatorsCount r) (CurrentEra r) (f (ActiveEra r)) (ErasStartSessionIndex r) (ErasStakers r) (ErasStakersClipped r) (ErasValidatorPrefs r) (ErasValidatorReward r) (ErasRewardPoints r) (ErasTotalStake r) (ForceEra r) (SlashRewardFraction r) (UnappliedSlashes r) (BondedEras r) (ValidatorSlashInEra r) (NominatorSlashInEra r) (SlashingSpansOf r) (SpanSlash r) (CurrentPlannedSession r) (OffendingValidators r) (ChillThreshold r) (ext r) (events r).
#[export] Instance set_sk_ErasStartSessionIndex {P : Type} {X : Type} : Setter (@ErasStartSessionIndex P X) := λ f r,
  mkState (ValidatorCount r) (MinimumValidatorCount r) (Invulnerables r) (Bonded r) (MinNominatorBond r) (MinValidatorBond r) (MinimumActiveStake r) (MinCommission r) (Ledger r) (Payee r) (Validators r) (MaxValidatorsCount r) (Nominators r) (MaxNominatorsCount r) (CurrentEra r) (ActiveEra r) (f (ErasStartSessionIndex r)) (ErasStakers r) (ErasStakersClipped r) (ErasValidatorPrefs r) (ErasValidatorReward r) (ErasRewardPoints r) (ErasTotalStake r) (ForceEra r) (SlashRewardFraction r) (UnappliedSlashes r) (BondedEras r) (ValidatorSlashInEra r) (NominatorSlashInEra r) (SlashingSpansOf r) (SpanSlash r) (CurrentPlannedSession r) (OffendingValidators r) (ChillThreshold r) (ext r) (events r).
#[export] Instance set_sk_ErasStakers {P : Type} {X : Type} : Setter (@ErasStakers P X) := λ f r,
  mkState (ValidatorCount r) (MinimumValidatorCount r) (Invulnerables r) (Bonded r) (MinNominatorBond r) (MinValidatorBond r) (MinimumActiveStake r) (MinCommission r) (Ledger r) (Payee r) (Validators r) (MaxValidatorsCount r) (Nominators r) (MaxNominatorsCount r) (CurrentEra r) (ActiveEra r) (ErasStartSessionIndex r) (f (ErasStakers r)) (ErasStakersClipped r) (ErasValidatorPrefs r) (ErasValidatorReward r) (ErasRewardPoints r) (ErasTotalStake r) (ForceEra r) (SlashRewardFraction r) (UnappliedSlashes r) (BondedEras r) (ValidatorSlashInEra r) (NominatorSlashInEra r) (SlashingSpansOf r) (SpanSlash r) (CurrentPlannedSession r) (OffendingValidators r) (ChillThreshold r) (ext r) (events r).
#[export] Instance set_sk_ErasStakersClipped {P : Type} {X : Type} : Setter (@ErasStakersClipped P X) := λ f r,
  mkState (ValidatorCount r) (MinimumValidatorCount r) (Invulnerables r) (Bonded r) (MinNominatorBond r) (MinValidatorBond r) (MinimumActiveStake r) (MinCommission r) (Ledger r) (Payee r) (Validators r) (MaxValidatorsCount r) (Nominators r) (MaxNominatorsCount r) (CurrentEra r) (ActiveEra r) (ErasStartSessionIndex r) (ErasStakers r) (f (ErasStakersClipped r)) (ErasValidatorPrefs r) (ErasValidatorReward r) (ErasRewardPoints r) (ErasTotalStake r) (ForceEra r) (SlashRewardFraction r) (UnappliedSlashes r) (BondedEras r) (ValidatorSlashInEra r) (NominatorSlashInEra r) (SlashingSpansOf r) (SpanSlash r) (CurrentPlannedSession r) (OffendingValidators r) (ChillThreshold r) (ext r) (events r).
#[export] Instance set_sk_ErasValidatorPrefs {P : Type} {X : Type} : Setter (@ErasValidatorPrefs P X) := λ f r,
  mkState (ValidatorCount r) (MinimumValidatorCount r) (Invulnerables r) (Bonded r) (MinNominatorBond r) (MinValidatorBond r) (MinimumActiveStake r) (MinCommission r) (Ledger r) (Payee r) (Validators r) (MaxValidatorsCount r) (Nominators r) (MaxNominatorsCount r) (CurrentEra r) (ActiveEra r) (ErasStartSessionIndex r) (ErasStakers r) (ErasStakersClipped r) (f (ErasValidatorPrefs r)) (ErasValidatorReward r) (ErasRewardPoints r) (ErasTotalStake r) (ForceEra r) (SlashRewardFraction r) (UnappliedSlashes r) (BondedEras r) (ValidatorSlashInEra r) (NominatorSlashInEra r) (SlashingSpansOf r) (SpanSlash r) (CurrentPlannedSession r) (OffendingValidators r) (ChillThreshold r) (ext r) (events r).
#[export] Instance set_sk_ErasValidatorReward {P : Type} {X : Type} : Setter (@ErasValidatorReward P X) := λ f r,
  mkState (ValidatorCount r) (MinimumValidatorCount r) (Invulnerables r) (Bonded r) (MinNominatorBond r) (MinValidatorBond r) (MinimumActiveStake r) (MinCommission r) (Ledger r) (Payee r) (Validators r) (MaxValidatorsCount r) (Nominators r) (MaxNominatorsCount r) (CurrentEra r) (ActiveEra r) (ErasStartSessionIndex r) (ErasStakers r) (ErasStakersClipped r) (ErasValidatorPrefs r) (f (ErasValidatorReward r)) (ErasRewardPoints r) (ErasTotalStake r) (ForceEra r) (SlashRewardFraction r) (UnappliedSlashes r) (BondedEras r) (ValidatorSlashInEra r) (NominatorSlashInEra r) (SlashingSpansOf r) (SpanSlash r) (CurrentPlannedSession r) (OffendingValidators r) (ChillThreshold r) (ext r) (events r).
#[export] Instance set_sk_ErasRewardPoints {P : Type} {X : Type} : Setter (@ErasRewardPoints P X) := λ f r,
  mkState (ValidatorCount r) (MinimumValidatorCount r) (Invulnerables r) (Bonded r) (MinNominatorBond r) (MinValidatorBond r) (MinimumActiveStake r) (MinCommission r) (Ledger r) (Payee r) (Validators r) (MaxValidatorsCount r) (Nominators r) (MaxNominatorsCount r) (CurrentEra r) (ActiveEra r) (ErasStartSessionIndex r) (ErasStakers r) (ErasStakersClipped r) (ErasValidatorPrefs r) (ErasValidatorReward r) (f (ErasRewardPoints r)) (ErasTotalStake r) (ForceEra r) (SlashRewardFraction r) (UnappliedSlashes r) (BondedEras r) (ValidatorSlashInEra r) (NominatorSlashInEra r) (SlashingSpansOf r) (SpanSlash r) (CurrentPlannedSession r) (OffendingValidators r) (ChillThreshold r) (ext r) (events r).
#[export] Instance set_sk_ErasTotalStake {P : Type} {X : Type} : Setter (@ErasTotalStake P X) := λ f r,
  mkState (ValidatorCount r) (MinimumValidatorCount r) (Invulnerables r) (Bonded r) (MinNominatorBond r) (MinValidatorBond r) (MinimumActiveStake r) (MinCommission r) (Ledger r) (Payee r) (Validators r) (MaxValidatorsCount r) (Nominators r) (MaxNominatorsCount r) (CurrentEra r) (ActiveEra r) (ErasStartSessionIndex r) (ErasStakers r) (ErasStakersClipped r) (ErasValidatorPrefs r) (ErasValidatorReward r) (ErasRewardPoints r) (f (ErasTotalStake r)) (ForceEra r) (SlashRewardFraction r) (UnappliedSlashes r) (BondedEras r) (ValidatorSlashInEra r) (NominatorSlashInEra r) (SlashingSpansOf r) (SpanSlash r) (CurrentPlannedSession r) (OffendingValidators r) (ChillThreshold r) (ext r) (events r).
#[export] Instance set_sk_ForceEra {P : Type} {X : Type} : Setter (@ForceEra P X) := λ f r,
  mkState (ValidatorCount r) (MinimumValidatorCount r) (Invulnerables r) (Bonded r) (MinNominatorBond r) (MinValidatorBond r) (MinimumActiveStake r) (MinCommission r) (Ledger r) (Payee r) (Validators r) (MaxValidatorsCount r) (Nominators r) (MaxNominatorsCount r) (CurrentEra r) (ActiveEra r) (ErasStartSessionIndex r) (ErasStakers r) (ErasStakersClipped r) (ErasValidatorPrefs r) (ErasValidatorReward r) (ErasRewardPoints r) (ErasTotalStake r) (f (ForceEra r)) (SlashRewardFraction r) (UnappliedSlashes r) (BondedEras r) (ValidatorSlashInEra r) (NominatorSlashInEra r) (SlashingSpansOf r) (SpanSlash r) (CurrentPlannedSession r) (OffendingValidators r) (ChillThreshold r) (ext r) (events r).
#[export] Instance set_sk_SlashRewardFraction {P : Type} {X : Type} : Setter (@SlashRewardFraction P X) := λ f r,
  mkState (ValidatorCount r) (MinimumValidatorCount r) (Invulnerables r) (Bonded r) (MinNominatorBond r) (MinValidatorBond r) (MinimumActiveStake r) (MinCommission r) (Ledger r) (Payee r) (Validators r) (MaxValidatorsCount r) (Nominators r) (MaxNominatorsCount r) (CurrentEra r) (ActiveEra r) (ErasStartSessionIndex r) (ErasStakers r) (ErasStakersClipped r) (ErasValidatorPrefs r) (ErasValidatorReward r) (ErasRewardPoints r) (ErasTotalStake r) (ForceEra r) (f (SlashRewardFraction r)) (UnappliedSlashes r) (BondedEras r) (ValidatorSlashInEra r) (NominatorSlashInEra r) (SlashingSpansOf r) (SpanSlash r) (CurrentPlannedSession r) (OffendingValidators r) (ChillThreshold r) (ext r) (events r).
#[export] Instance set_sk_UnappliedSlashes {P : Type} {X : Type} : Setter (@UnappliedSlashes P X) := λ f r,
  mkState (ValidatorCount r) (MinimumValidatorCount r) (Invulnerables r) (Bonded r) (MinNominatorBond r) (MinValidatorBond r) (MinimumActiveStake r) (MinCommission r) (Ledger r) (Payee r) (Validators r) (MaxValidatorsCount r) (Nominators r) (MaxNominatorsCount r) (CurrentEra r) (ActiveEra r) (ErasStartSessionIndex r) (ErasStakers r) (ErasStakersClipped r) (ErasValidatorPrefs r) (ErasValidatorReward r) (ErasRewardPoints r) (ErasTotalStake r) (ForceEra r) (SlashRewardFraction r) (f (UnappliedSlashes r)) (BondedEras r) (ValidatorSlashInEra r) (NominatorSlashInEra r) (SlashingSpansOf r) (SpanSlash r) (CurrentPlannedSession r) (OffendingValidators r) (ChillThreshold r) (ext r) (events r).
#[export] Instance set_sk_BondedEras {P : Type} {X : Type} : Setter (@BondedEras P X) := λ f r,
  mkState (ValidatorCount r) (MinimumValidatorCount r) (Invulnerables r) (Bonded r) (MinNominatorBond r) (MinValidatorBond r) (MinimumActiveStake r) (MinCommission r) (Ledger r) (Payee r) (Validators r) (MaxValidatorsCount r) (Nominators r) (MaxNominatorsCount r) (CurrentEra r) (ActiveEra r) (ErasStartSessionIndex r) (ErasStakers r) (ErasStakersClipped r) (ErasValidatorPrefs r) (ErasValidatorReward r) (ErasRewardPoints r) (ErasTotalStake r) (ForceEra r) (SlashRewardFraction r) (UnappliedSlashes r) (f (BondedEras r)) (ValidatorSlashInEra r) (NominatorSlashInEra r) (SlashingSpansOf r) (SpanSlash r) (CurrentPlannedSession r) (OffendingValidators r) (ChillThreshold r) (ext r) (events r).
#[export] Instance set_sk_ValidatorSlashInEra {P : Type} {X : Type} : Setter (@ValidatorSlashInEra P X) := λ f r,
  mkState (ValidatorCount r) (MinimumValidatorCount r) (Invulnerables r) (Bonded r) (MinNominatorBond r) (MinValidatorBond r) (MinimumActiveStake r) (MinCommission r) (Ledger r) (Payee r) (Validators r) (MaxValidatorsCount r) (Nominators r) (MaxNominatorsCount r) (CurrentEra r) (ActiveEra r) (ErasStartSessionIndex r) (ErasStakers r) (ErasStakersClipped r) (ErasValidatorPrefs r) (ErasValidatorReward r) (ErasRewardPoints r) (ErasTotalStake r) (ForceEra r) (SlashRewardFraction r) (UnappliedSlashes r) (BondedEras r) (f (ValidatorSlashInEra r)) (NominatorSlashInEra r) (SlashingSpansOf r) (SpanSlash r) (CurrentPlannedSession r) (OffendingValidators r) (ChillThreshold r) (ext r) (events r).
#[export] Instance set_sk_NominatorSlashInEra {P : Type} {X : Type} : Setter (@NominatorSlashInEra P X) := λ f r,
  mkState (ValidatorCount r) (MinimumValidatorCount r) (Invulnerables r) (Bonded r) (MinNominatorBond r) (MinValidatorBond r) (MinimumActiveStake r) (MinCommission r) (Ledger r) (Payee r) (Validators r) (MaxValidatorsCount r) (Nominators r) (MaxNominatorsCount r) (CurrentEra r) (ActiveEra r) (ErasStartSessionIndex r) (ErasStakers r) (ErasStakersClipped r) (ErasValidatorPrefs r) (ErasValidatorReward r) (ErasRewardPoints r) (ErasTotalStake r) (ForceEra r) (SlashRewardFraction r) (UnappliedSlashes r) (BondedEras r) (ValidatorSlashInEra r) (f (NominatorSlashInEra r)) (SlashingSpansOf r) (SpanSlash r) (CurrentPlannedSession r) (OffendingValidators r) (ChillThreshold r) (ext r) (events r).
#[export] Instance set_sk_SlashingSpansOf {P : Type} {X : Type} : Setter (@SlashingSpansOf P X) := λ f r,
  mkState (ValidatorCount r) (MinimumValidatorCount r) (Invulnerables r) (Bonded r) (MinNominatorBond r) (MinValidatorBond r) (MinimumActiveStake r) (MinCommission r) (Ledger r) (Payee r) (Validators r) (MaxValidatorsCount r) (Nominators r) (MaxNominatorsCount r) (CurrentEra r) (ActiveEra r) (ErasStartSessionIndex r) (ErasStakers r) (ErasStakersClipped r) (ErasValidatorPrefs r) (ErasValidatorReward r) (ErasRewardPoints r) (ErasTotalStake r) (ForceEra r) (SlashRewardFraction r) (UnappliedSlashes r) (BondedEras r) (ValidatorSlashInEra r) (NominatorSlashInEra r) (f (SlashingSpansOf r)) (SpanSlash r) (CurrentPlannedSession r) (OffendingValidators r) (ChillThreshold r) (ext r) (events r).
#[export] Instance set_sk_SpanSlash {P : Type} {X : Type} : Setter (@SpanSlash P X) := λ f r,
  mkState (ValidatorCount r) (MinimumValidatorCount r) (Invulnerables r) (Bonded r) (MinNominatorBond r) (MinValidatorBond r) (MinimumActiveStake r) (MinCommission r) (Ledger r) (Payee r) (Validators r) (MaxValidatorsCount r) (Nominators r) (MaxNominatorsCount r) (CurrentEra r) (ActiveEra r) (ErasStartSessionIndex r) (ErasStakers r) (ErasStakersClipped r) (ErasValidatorPrefs r) (ErasValidatorReward r) (ErasRewardPoints r) (ErasTotalStake r) (ForceEra r) (SlashRewardFraction r) (UnappliedSlashes r) (BondedEras r) (ValidatorSlashInEra r) (NominatorSlashInEra r) (SlashingSpansOf r) (f (SpanSlash r)) (CurrentPlannedSession r) (OffendingValidators r) (ChillThreshold r) (ext r) (events r).
#[export] Instance set_sk_CurrentPlannedSession {P : Type} {X : Type} : Setter (@CurrentPlannedSession P X) := λ f r,
  mkState (ValidatorCount r) (MinimumValidatorCount r) (Invulnerables r) (Bonded r) (MinNominatorBond r) (MinValidatorBond r) (MinimumActiveStake r) (MinCommission r) (Ledger r) (Payee r) (Validators r) (MaxValidatorsCount r) (Nominators r) (MaxNominatorsCount r) (CurrentEra r) (ActiveEra r) (ErasStartSessionIndex r) (ErasStakers r) (ErasStakersClipped r) (ErasValidatorPrefs r) (ErasValidatorReward r) (ErasRewardPoints r) (ErasTotalStake r) (ForceEra r) (SlashRewardFraction r) (UnappliedSlashes r) (BondedEras r) (ValidatorSlashInEra r) (NominatorSlashInEra r) (SlashingSpansOf r) (SpanSlash r) (f (CurrentPlannedSession r)) (OffendingValidators r) (ChillThreshold r) (ext r) (events r).
#[export] Instance set_sk_OffendingValidators {P : Type} {X : Type} : Setter (@OffendingValidators P X) := λ f r,
  mkState (ValidatorCount r) (MinimumValidatorCount r) (Invulnerables r) (Bonded r) (MinNominatorBond r) (MinValidatorBond r) (MinimumActiveStake r) (MinCommission r) (Ledger r) (Payee r) (Validators r) (MaxValidatorsCount r) (Nominators r) (MaxNominatorsCount r) (CurrentEra r) (ActiveEra r) (ErasStartSessionIndex r) (ErasStakers r) (ErasStakersClipped r) (ErasValidatorPrefs r) (ErasValidatorReward r) (ErasRewardPoints r) (ErasTotalStake r) (ForceEra r) (SlashRewardFraction r) (UnappliedSlashes r) (BondedEras r) (ValidatorSlashInEra r) (NominatorSlashInEra r) (SlashingSpansOf r) (SpanSlash r) (CurrentPlannedSession r) (f (OffendingValidators r)) (ChillThreshold r) (ext r) (events r).
#[export] Instance set_sk_ChillThreshold {P : Type} {X : Type} : Setter (@ChillThreshold P X) := λ f r,
  mkState (ValidatorCount r) (MinimumValidatorCount r) (Invulnerables r) (Bonded r) (MinNominatorBond r) (MinValidatorBond r) (MinimumActiveStake r) (MinCommission r) (Ledger r) (Payee r) (Validators r) (MaxValidatorsCount r) (Nominators r) (MaxNominatorsCount r) (CurrentEra r) (ActiveEra r) (ErasStartSessionIndex r) (ErasStakers r) (ErasStakersClipped r) (ErasValidatorPrefs r) (ErasValidatorReward r) (ErasRewardPoints r) (ErasTotalStake r) (ForceEra r) (SlashRewardFraction r) (UnappliedSlashes r) (BondedEras r) (ValidatorSlashInEra r) (NominatorSlashInEra r) (SlashingSpansOf r) (SpanSlash r) (CurrentPlannedSession r) (OffendingValidators r) (f (ChillThreshold r)) (ext r) (events r).
#[export] Instance set_sk_ext {P : Type} {X : Type} : Setter (@ext P X) := λ f r,
  mkState (ValidatorCount r) (MinimumValidatorCount r) (Invulnerables r) (Bonded r) (MinNominatorBond r) (MinValidatorBond r) (MinimumActiveStake r) (MinCommission r) (Ledger r) (Payee r) (Validators r) (MaxValidatorsCount r) (Nominators r) (MaxNominatorsCount r) (CurrentEra r) (ActiveEra r) (ErasStartSessionIndex r) (ErasStakers r) (ErasStakersClipped r) (ErasValidatorPrefs r) (ErasValidatorReward r) (ErasRewardPoints r) (ErasTotalStake r) (ForceEra r) (SlashRewardFraction r) (UnappliedSlashes r) (BondedEras r) (ValidatorSlashInEra r) (NominatorSlashInEra r) (SlashingSpansOf r) (SpanSlash r) (CurrentPlannedSession r) (OffendingValidators r) (ChillThreshold r) (f (ext r)) (events r).
#[export] Instance set_sk_events {P : Type} {X : Type} : Setter (@events P X) := λ f r,
  mkState (ValidatorCount r) (MinimumValidatorCount r) (Invulnerables r) (Bonded r) (MinNominatorBond r) (MinValidatorBond r) (MinimumActiveStake r) (MinCommission r) (Ledger r) (Payee r) (Validators r) (MaxValidatorsCount r) (Nominators r) (MaxNominatorsCount r) (CurrentEra r) (ActiveEra r) (ErasStartSessionIndex r) (ErasStakers r) (ErasStakersClipped r) (ErasValidatorPrefs r) (ErasValidatorReward r) (ErasRewardPoints r) (ErasTotalStake r) (ForceEra r) (SlashRewardFraction r) (UnappliedSlashes r) (BondedEras r) (ValidatorSlashInEra r) (NominatorSlashInEra r) (SlashingSpansOf r) (SpanSlash r) (CurrentPlannedSession r) (OffendingValidators r) (ChillThreshold r) (ext r) (f (events r)).


(** ** Configuration *)

(** [lookup] is [T::Lookup::lookup]; [to_vote] and [to_currency] are those of
    [T::CurrencyToVote]; [slash_cancel_origin] is [T::SlashCancelOrigin]. *)
Class Config `{!PerbillOps} := {
  ERAS_PER_YEAR : Z;
  FIRST_YEAR_VALIDATOR_REWARDS : Z;
  FIRST_YEAR_SMINER_REWARDS : Z;
  REWARD_DECREASE_RATIO : Perbill;
  REWARD_DECREASE_YEARS : Z;
  MaxNominations : Z;
  HistoryDepth : Z;
  SessionsPerEra : Z;
  BondingDuration : Z;
  SlashDeferDuration : Z;
  MaxNominatorRewardedPerValidator : Z;
  OffendingValidatorsThreshold : Perbill;
  MaxUnlockingChunks : Z;
  MaxWinners : Z;
  lookup : AccountId → option AccountId;
  to_vote : Z → Z → Z;
  to_currency : Z → Z → Z;
  slash_cancel_origin : Origin → bool
}.

(** The constants are unsigned integers. *)
Class UnsignedConfig `{!PerbillOps} `{!Config} := {
  MaxUnlockingChunks_u32 : 0 <= MaxUnlockingChunks < 2 ^ 32;
  BondingDuration_u32 : 0 <= BondingDuration < 2 ^ 32;
  SlashDeferDuration_u32 : 0 <= SlashDeferDuration < 2 ^ 32;
  HistoryDepth_u32 : 0 <= HistoryDepth < 2 ^ 32 - 1;
  SessionsPerEra_u32 : 0 <= SessionsPerEra < 2 ^ 32
}.

(** ** Interfaces *)

(** The part of [LockableCurrency] that [Currency] does not have.  Locks are those
    with the identifier [STAKING_ID] and all withdraw reasons.  [slash_free who v]
    returns the imbalance and what was missing; [deposit_into_existing] fails when
    the account does not exist. *)
Class LockableCurrency (X : Type) := {
  minimum_balance : Z;
  total_balance : X → AccountId → Z;
  total_issuance : X → Z;
  set_lock : AccountId → Z → X → X;
  remove_lock : AccountId → X → X;
  slash_free : AccountId → Z → X → X * (Z * Z);
  deposit_creating : AccountId → Z → X → X * Z;
  deposit_into_existing : AccountId → Z → X → X * option Z
}.

Class LockableCurrencyLaws (X : Type) `{!Currency X} `{!LockableCurrency X} := {
  minimum_balance_nonneg : 0 <= minimum_balance (X := X);
  free_balance_range (x : X) who : 0 <= free_balance x who < 2 ^ 128;
  slash_free_spec who v (x x' : X) taken missing :
    0 <= v → slash_free who v x = (x', (taken, missing)) → 0 <= taken ∧ 0 <= missing ∧ taken + missing = v
}.

(** [frame_system::Pallet::inc_consumers] and [dec_consumers]. *)
Class Consumers (X : Type) := {
  inc_consumers : AccountId → X → option X;
  dec_consumers : AccountId → X → X
}.

(** [T::VoterList]; the pallet ignores the errors of the updates. *)
Class VoterList (X : Type) := {
  voter_iter : X → list AccountId;
  voter_count : X → Z;
  voter_contains : X → AccountId → bool;
  voter_on_insert : AccountId → Z → X → X;
  voter_on_update : AccountId → Z → X → X;
  voter_on_remove : AccountId → X → X
}.

(** [pub trait SessionInterface] *)
Class SessionInterface (X : Type) := {
  session_validators : X → list AccountId;
  disable_validator : Z → X → X;
  prune_historical_up_to : Z → X → X
}.

(** [T::ElectionProvider] and [T::GenesisElectionProvider]: the supports of the
    winners, or [None] for an error. *)
Class ElectionProvider (X : Type) := {
  elect : bool → X → X * option (list (AccountId * list (AccountId * Z)))
}.

(** [T::Slash], [T::Reward] and [T::SminerRewardPool] get nonzero imbalances;
    [unix_now] is [T::UnixTime::now] in milliseconds. *)
Class StakingHooks (X : Type) := {
  on_slash_imbalance : Z → X → X;
  on_reward_imbalance : Z → X → X;
  sminer_reward_pool : Z → X → X;
  unix_now : X → Z
}.
