(* ===== verification/StakingPallet.v ===== *)
(** * The staking pallet: operations

    The dispatchables of [src/c-pallets/staking/src/pallet/mod.rs], the functions
    of [pallet/impls.rs] and the slashing logic of [slashing.rs].  Weights and logs
    are left out; [defensive] operations behave as in a release build, where a
    failed one is only logged.  A [NegativeImbalance] is its amount. *)
From S2P Require Import Prelude Errors Frame StakingLedger StakingSpans StakingTypes.

(** ** Library functions the pallet uses *)

(** [slice::binary_search] on a sorted slice without duplicates: the index of the key
    ([inl]) or where to insert it ([inr]). *)
Fixpoint binary_search (l : list Z) (k : Z) : nat + nat :=
  match l with
  | [] => inr 0%nat
  | x :: l =>
      if x =? k then inl 0%nat else if k <? x then inr 0%nat else
      match binary_search l k with inl i => inl (S i) | inr i => inr (S i) end
  end.

(** [Vec::insert] *)
Definition vec_insert {A} (i : nat) (x : A) (l : list A) : list A := take i l ++ x :: drop i l.

(** [Vec::swap_remove] *)
Definition swap_remove {A} (i : nat) (l : list A) : list A :=
  match last l with Some x => removelast (<[i := x]> l) | None => l end.

(** [others.sort_by(|a, b| a.value.cmp(&b.value).reverse())], a stable sort. *)
Fixpoint insert_desc (x : IndividualExposure) (l : list IndividualExposure) : list IndividualExposure :=
  match l with
  | [] => [x]
  | y :: l => if x.(ie_value) <? y.(ie_value) then y :: insert_desc x l else x :: y :: l
  end.
Definition sort_desc : list IndividualExposure → list IndividualExposure := foldr insert_desc [].

(** ** The parameters of a slash, and the spans under inspection *)

Record SlashParams (P : Type) := mkSlashParams {
  pr_stash : AccountId;
  pr_slash : P;
  pr_exposure : Exposure;
  pr_slash_era : Z;
  pr_window_start : Z;
  pr_now : Z;
  pr_reward_proportion : P;
  pr_disable_strategy : DisableStrategy
}.
Arguments mkSlashParams {P} _ _ _ _ _ _ _ _.
Arguments pr_stash {P} _.
Arguments pr_slash {P} _.
Arguments pr_exposure {P} _.
Arguments pr_slash_era {P} _.
Arguments pr_window_start {P} _.
Arguments pr_now {P} _.
Arguments pr_reward_proportion {P} _.
Arguments pr_disable_strategy {P} _.
#[export] Instance set_pr_pr_stash {P : Type} : Setter (@pr_stash P) := λ f r,
  mkSlashParams (f (pr_stash r)) (pr_slash r) (pr_exposure r) (pr_slash_era r) (pr_window_start r) (pr_now r) (pr_reward_proportion r) (pr_disable_strategy r).
#[export] Instance set_pr_pr_slash {P : Type} : Setter (@pr_slash P) := λ f r,
  mkSlashParams (pr_stash r) (f (pr_slash r)) (pr_exposure r) (pr_slash_era r) (pr_window_start r) (pr_now r) (pr_reward_proportion r) (pr_disable_strategy r).
#[export] Instance set_pr_pr_exposure {P : Type} : Setter (@pr_exposure P) := λ f r,
  mkSlashParams (pr_stash r) (pr_slash r) (f (pr_exposure r)) (pr_slash_era r) (pr_window_start r) (pr_now r) (pr_reward_proportion r) (pr_disable_strategy r).
#[export] Instance set_pr_pr_slash_era {P : Type} : Setter (@pr_slash_era P) := λ f r,
  mkSlashParams (pr_stash r) (pr_slash r) (pr_exposure r) (f (pr_slash_era r)) (pr_window_start r) (pr_now r) (pr_reward_proportion r) (pr_disable_strategy r).
#[export] Instance set_pr_pr_window_start {P : Type} : Setter (@pr_window_start P) := λ f r,
  mkSlashParams (pr_stash r) (pr_slash r) (pr_exposure r) (pr_slash_era r) (f (pr_window_start r)) (pr_now r) (pr_reward_proportion r) (pr_disable_strategy r).
#[export] Instance set_pr_pr_now {P : Type} : Setter (@pr_now P) := λ f r,
  mkSlashParams (pr_stash r) (pr_slash r) (pr_exposure r) (pr_slash_era r) (pr_window_start r) (f (pr_now r)) (pr_reward_proportion r) (pr_disable_strategy r).
#[export] Instance set_pr_pr_reward_proportion {P : Type} : Setter (@pr_reward_proportion P) := λ f r,
  mkSlashParams (pr_stash r) (pr_slash r) (pr_exposure r) (pr_slash_era r) (pr_window_start r) (pr_now r) (f (pr_reward_proportion r)) (pr_disable_strategy r).
#[export] Instance set_pr_pr_disable_strategy {P : Type} : Setter (@pr_disable_strategy P) := λ f r,
  mkSlashParams (pr_stash r) (pr_slash r) (pr_exposure r) (pr_slash_era r) (pr_window_start r) (pr_now r) (pr_reward_proportion r) (f (pr_disable_strategy r)).

Record InspectingSpans (P : Type) := mkInspectingSpans {
  in_dirty : bool;
  in_window_start : Z;
  in_stash : AccountId;
  in_spans : SlashingSpans;
  in_paid_out : Z;
  in_slash_of : Z;
  in_reward_proportion : P
}.
Arguments mkInspectingSpans {P} _ _ _ _ _ _ _.
Arguments in_dirty {P} _.
Arguments in_window_start {P} _.
Arguments in_stash {P} _.
Arguments in_spans {P} _.
Arguments in_paid_out {P} _.
Arguments in_slash_of {P} _.
Arguments in_reward_proportion {P} _.
#[export] Instance set_in_in_dirty {P : Type} : Setter (@in_dirty P) := λ f r,
  mkInspectingSpans (f (in_dirty r)) (in_window_start r) (in_stash r) (in_spans r) (in_paid_out r) (in_slash_of r) (in_reward_proportion r).
#[export] Instance set_in_in_window_start {P : Type} : Setter (@in_window_start P) := λ f r,
  mkInspectingSpans (in_dirty r) (f (in_window_start r)) (in_stash r) (in_spans r) (in_paid_out r) (in_slash_of r) (in_reward_proportion r).
#[export] Instance set_in_in_stash {P : Type} : Setter (@in_stash P) := λ f r,
  mkInspectingSpans (in_dirty r) (in_window_start r) (f (in_stash r)) (in_spans r) (in_paid_out r) (in_slash_of r) (in_reward_proportion r).
#[export] Instance set_in_in_spans {P : Type} : Setter (@in_spans P) := λ f r,
  mkInspectingSpans (in_dirty r) (in_window_start r) (in_stash r) (f (in_spans r)) (in_paid_out r) (in_slash_of r) (in_reward_proportion r).
#[export] Instance set_in_in_paid_out {P : Type} : Setter (@in_paid_out P) := λ f r,
  mkInspectingSpans (in_dirty r) (in_window_start r) (in_stash r) (in_spans r) (f (in_paid_out r)) (in_slash_of r) (in_reward_proportion r).
#[export] Instance set_in_in_slash_of {P : Type} : Setter (@in_slash_of P) := λ f r,
  mkInspectingSpans (in_dirty r) (in_window_start r) (in_stash r) (in_spans r) (in_paid_out r) (f (in_slash_of r)) (in_reward_proportion r).
#[export] Instance set_in_in_reward_proportion {P : Type} : Setter (@in_reward_proportion P) := λ f r,
  mkInspectingSpans (in_dirty r) (in_window_start r) (in_stash r) (in_spans r) (in_paid_out r) (in_slash_of r) (f (in_reward_proportion r)).

Section operations.
Context {X : Type} `{!PerbillOps} `{!PerquintillOps} `{!StorageIter} `{!Config}
  `{!Currency X} `{!LockableCurrency X} `{!Consumers X} `{!VoterList X}
  `{!SessionInterface X} `{!ElectionProvider X} `{!StakingHooks X}.
Abbreviation State := (StakingTypes.State Perbill X).
Abbreviation MS := (M State).

Definition deposit_event (e : Event Perbill) : MS unit :=
  modify (λ s, s <| events ::= λ l, l ++ [e] |>).

Definition perbill_zero : Perbill := from_percent 0.
Definition default_prefs : ValidatorPrefs Perbill := {| vp_commission := perbill_zero; vp_blocked := false |}.

(** [Imbalance]s that are not zero reach their handler. *)
Definition on_unbalanced (handler : Z → X → X) (amount : Z) : MS unit :=
  if amount =? 0 then mret () else modify (λ s, s <| ext ::= handler amount |>).

Definition Lookup (who : AccountId) : MS AccountId := ok_or (lookup who) CannotLookup.

(** ** Stakers *)

Definition ledger_of (stash : AccountId) (s : State) : option StakingLedger :=
  c ← Bonded s !! stash; Ledger s !! c.

Definition slashable_balance_of (stash : AccountId) (s : State) : Z :=
  from_option ld_active 0 (ledger_of stash s).

Definition weight_of (who : AccountId) (s : State) : Z :=
  to_vote (slashable_balance_of who s) (total_issuance (ext s)).

Definition update_ledger (controller : AccountId) (ledger : StakingLedger) : MS unit :=
  modify (λ s, s <| ext ::= set_lock ledger.(ld_stash) ledger.(ld_total) |>) ;;
  insert_at Ledger controller ledger.

Definition validators_count : MS Z := gets (λ s, Z.of_nat (size (Validators s))).
Definition nominators_count : MS Z := gets (λ s, Z.of_nat (size (Nominators s))).

Definition do_add_nominator (who : AccountId) (nominations : Nominations) : MS unit :=
  b ← contains_key Nominators who;
  (if b : bool then mret () else modify (λ s, s <| ext ::= voter_on_insert who (weight_of who s) |>)) ;;
  insert_at Nominators who nominations.

Definition do_remove_nominator (who : AccountId) : MS bool :=
  b ← contains_key Nominators who;
  if b : bool then
    remove_at Nominators who ;;
    modify (λ s, s <| ext ::= voter_on_remove who |>) ;;
    mret true
  else mret false.

Definition do_add_validator (who : AccountId) (prefs : ValidatorPrefs Perbill) : MS unit :=
  b ← contains_key Validators who;
  (if b : bool then mret () else modify (λ s, s <| ext ::= voter_on_insert who (weight_of who s) |>)) ;;
  insert_at Validators who prefs.

Definition do_remove_validator (who : AccountId) : MS bool :=
  b ← contains_key Validators who;
  if b : bool then
    remove_at Validators who ;;
    modify (λ s, s <| ext ::= voter_on_remove who |>) ;;
    mret true
  else mret false.

Definition chill_stash (stash : AccountId) : MS unit :=
  chilled_as_validator ← do_remove_validator stash;
  chilled_as_nominator ← do_remove_nominator stash;
  if chilled_as_validator || chilled_as_nominator then deposit_event (Chilled stash) else mret ().

(** The update of the voter list after a change of the ledger. *)
Definition update_voter (stash : AccountId) : MS unit :=
  x ← gets ext;
  if voter_contains x stash then modify (λ s, s <| ext ::= voter_on_update stash (weight_of stash s) |>)
  else mret ().

Definition ensure_new_era : MS unit :=
  f ← gets ForceEra;
  match f with ForceAlways | ForceNew => mret () | _ => put ForceEra ForceNew end.
(** ** Slashing: computing a slash *)

Definition REWARD_F1 : Perbill := from_percent 50.

Definition fetch_spans (stash : AccountId) (window_start paid_out slash_of : Z)
    (reward_proportion : Perbill) : MS (InspectingSpans Perbill) :=
  o ← gets (λ s, SlashingSpansOf s !! stash);
  spans ←
    match o with
    | Some spans => mret spans
    | None =>
        let spans := spans_new window_start in
        insert_at SlashingSpansOf stash spans ;; mret spans
    end;
  mret {| in_dirty := false; in_window_start := window_start; in_stash := stash; in_spans := spans;
          in_paid_out := paid_out; in_slash_of := slash_of; in_reward_proportion := reward_proportion |}.

(** [InspectingSpans::end_span] *)
Definition in_end_span (self : InspectingSpans Perbill) (now : Z) : InspectingSpans Perbill :=
  let '(spans, started) := end_span self.(in_spans) now in
  self <| in_spans := spans |> <| in_dirty ::= orb started |>.

Definition add_slash (self : InspectingSpans Perbill) (amount slash_era : Z) : InspectingSpans Perbill :=
  self <| in_slash_of ::= λ v, wrapping_add 128 v amount |>
       <| in_spans ::= λ sp, sp <| ss_last_nonzero_slash ::= λ e, Z.max e slash_era |> |>.

(** The part of [compare_and_update_span_slash] between reading and writing the record
    of the span: the new spans and record, and whether they changed. *)
Definition update_span_record (self : InspectingSpans Perbill) (span_record : SpanRecord) (slash_era slash : Z)
  : InspectingSpans Perbill * SpanRecord * bool :=
  let full_reward :=
    perbill_mul REWARD_F1
      (saturating_sub (perbill_mul self.(in_reward_proportion) slash) span_record.(sr_paid_out)) in
  let '(self, span_record, reward, changed) :=
    if span_record.(sr_slashed) <? slash then
      let difference := wrapping_sub 128 slash span_record.(sr_slashed) in
      (add_slash self difference slash_era, span_record <| sr_slashed := slash |>, full_reward, true)
    else if span_record.(sr_slashed) =? slash then (self, span_record, full_reward, false)
    else (self, span_record, 0, false) in
  if reward =? 0 then (self, span_record, changed)
  else (self <| in_paid_out ::= λ v, wrapping_add 128 v reward |>,
        span_record <| sr_paid_out ::= λ v, wrapping_add 128 v reward |>, true).

Definition compare_and_update_span_slash (self : InspectingSpans Perbill) (slash_era slash : Z)
  : MS (InspectingSpans Perbill * option Z) :=
  match era_span self.(in_spans) slash_era with
  | None => mret (self, None)
  | Some target_span =>
      let span_slash_key := (self.(in_stash), target_span.(sp_index)) in
      span_record ← gets (λ s, default default_record (SpanSlash s !! span_slash_key));
      let '(self, span_record, changed) := update_span_record self span_record slash_era slash in
      if changed then
        insert_at SpanSlash span_slash_key span_record ;;
        mret (self <| in_dirty := true |>, Some target_span.(sp_index))
      else mret (self, Some target_span.(sp_index))
  end.

(** The [Drop] of an [InspectingSpans]. *)
Definition drop_spans (self : InspectingSpans Perbill) : MS unit :=
  if negb self.(in_dirty) then mret () else
  let '(spans, pruned) := prune self.(in_spans) self.(in_window_start) in
  match pruned with
  | Some (start, end_) =>
      for_each (seqZ start (end_ - start)) (λ span_index,
        remove_at SpanSlash (self.(in_stash), span_index))
  | None => mret ()
  end ;;
  insert_at SlashingSpansOf self.(in_stash) spans.

(** [OffendingValidators] is a list sorted by the index of the validator. *)
Definition add_offending_validator (stash : AccountId) (disable : bool) : MS unit :=
  validators ← gets (λ s, session_validators (ext s));
  match list_find (λ i, i = stash) validators with
  | None => mret ()
  | Some (validator_index, _) =>
      let validator_index_u32 := cast 32 (Z.of_nat validator_index) in
      offending ← gets OffendingValidators;
      match binary_search offending.*1 validator_index_u32 with
      | inr index =>
          let offending := vec_insert index (validator_index_u32, disable) offending in
          let offending_threshold :=
            perbill_mul OffendingValidatorsThreshold (cast 32 (Z.of_nat (length validators))) in
          (if offending_threshold <=? Z.of_nat (length offending) then ensure_new_era else mret ()) ;;
          (if disable then modify (λ s, s <| ext ::= disable_validator validator_index_u32 |>) else mret ()) ;;
          put OffendingValidators offending
      | inl index =>
          match offending !! index with
          | Some (i, false) =>
              if disable then
                modify (λ s, s <| ext ::= disable_validator validator_index_u32 |>) ;;
                put OffendingValidators (<[index := (i, true)]> offending)
              else mret ()
          | _ => mret ()
          end
      end
  end.

Definition kick_out_if_recent (params : SlashParams Perbill) : MS unit :=
  spans ← fetch_spans params.(pr_stash) params.(pr_window_start) 0 0 params.(pr_reward_proportion);
  spans ← (if bool_decide (sp_index <$> era_span spans.(in_spans) params.(pr_slash_era)
                           = Some spans.(in_spans).(ss_span_index)) then
             let spans := in_end_span spans params.(pr_now) in
             chill_stash params.(pr_stash) ;; mret spans
           else mret spans);
  add_offending_validator params.(pr_stash) (bool_decide (params.(pr_disable_strategy) = DisableAlways)) ;;
  drop_spans spans.

(** One round of the loop of [slash_nominators]. *)
Definition slash_nominator (params : SlashParams Perbill) (prior_slash_p : Perbill)
    (acc : Z * list (AccountId * Z)) (nominator : IndividualExposure) : MS (Z * list (AccountId * Z)) :=
  let '(reward_payout, nominators_slashed) := acc in
  let stash := nominator.(ie_who) in
  let own_slash_prior := perbill_mul prior_slash_p nominator.(ie_value) in
  let own_slash_by_validator := perbill_mul params.(pr_slash) nominator.(ie_value) in
  let own_slash_difference := saturating_sub own_slash_by_validator own_slash_prior in
  o ← gets (λ s, NominatorSlashInEra s !! (params.(pr_slash_era), stash));
  let era_slash := wrapping_add 128 (default 0 o) own_slash_difference in
  insert_at NominatorSlashInEra (params.(pr_slash_era), stash) era_slash ;;
  spans ← fetch_spans stash params.(pr_window_start) reward_payout 0 params.(pr_reward_proportion);
  '(spans, target_span) ← compare_and_update_span_slash spans params.(pr_slash_era) era_slash;
  let spans :=
    if bool_decide (target_span = Some spans.(in_spans).(ss_span_index))
    then in_end_span spans params.(pr_now) else spans in
  drop_spans spans ;;
  mret (spans.(in_paid_out), nominators_slashed ++ [(stash, spans.(in_slash_of))]).

Definition slash_nominators (params : SlashParams Perbill) (prior_slash_p : Perbill)
  : MS (Z * list (AccountId * Z)) :=
  fold_m (slash_nominator params prior_slash_p) (0, []) params.(pr_exposure).(ex_others).

(** The block of [compute_slash] that applies the slash to the validator: the reward
    and the validator's slash. *)
Definition slash_validator (params : SlashParams Perbill) (own_slash : Z) : MS (Z * Z) :=
  spans ← fetch_spans params.(pr_stash) params.(pr_window_start) 0 0 params.(pr_reward_proportion);
  '(spans, target_span) ← compare_and_update_span_slash spans params.(pr_slash_era) own_slash;
  spans ← (if bool_decide (target_span = Some spans.(in_spans).(ss_span_index)) then
             let spans := in_end_span spans params.(pr_now) in
             chill_stash params.(pr_stash) ;; mret spans
           else mret spans);
  drop_spans spans ;;
  mret (spans.(in_paid_out), spans.(in_slash_of)).

Definition compute_slash (params : SlashParams Perbill) : MS (option UnappliedSlash) :=
  let own_slash := perbill_mul params.(pr_slash) params.(pr_exposure).(ex_own) in
  if perbill_mul params.(pr_slash) params.(pr_exposure).(ex_total) =? 0 then
    kick_out_if_recent params ;; mret None
  else
    o ← gets (λ s, ValidatorSlashInEra s !! (params.(pr_slash_era), params.(pr_stash)));
    let prior_slash_p := from_option fst perbill_zero o in
    if parts prior_slash_p <? parts params.(pr_slash) then
      insert_at ValidatorSlashInEra (params.(pr_slash_era), params.(pr_stash)) (params.(pr_slash), own_slash) ;;
      '(reward_payout, val_slashed) ← slash_validator params own_slash;
      add_offending_validator params.(pr_stash)
        (bool_decide (params.(pr_disable_strategy) ≠ DisableNever)) ;;
      '(nominators_payout, nominators_slashed) ← slash_nominators params prior_slash_p;
      mret (Some {| us_validator := params.(pr_stash); us_own := val_slashed; us_others := nominators_slashed;
                    us_reporters := []; us_payout := wrapping_add 128 reward_payout nominators_payout |})
    else mret None.

(** ** Slashing: applying a slash *)

(** [do_slash] returns the new reward payout and slashed imbalance.
    [OnStakerSlash] is [()] in the runtime. *)
Definition do_slash (stash : AccountId) (value reward_payout slashed_imbalance slash_era : Z) : MS (Z * Z) :=
  o ← gets (λ s, Bonded s !! stash);
  match o with
  | None => mret (reward_payout, slashed_imbalance)
  | Some controller =>
      o ← gets (λ s, Ledger s !! controller);
      match o with
      | None => mret (reward_payout, slashed_imbalance)
      | Some ledger =>
          let '(ledger, value, _) := slash BondingDuration ledger value (minimum_balance (X := X)) slash_era in
          if value =? 0 then mret (reward_payout, slashed_imbalance) else
          x ← gets ext;
          let '(x, (imbalance, missing)) := slash_free stash value x in
          put ext x ;;
          update_ledger controller ledger ;;
          deposit_event (Slashed stash value) ;;
          mret (saturating_sub reward_payout missing, saturating_add 128 slashed_imbalance imbalance)
      end
  end.

(** The loop of [pay_reporters]: what is left of the rewards. *)
Definition pay_reporter (per_reporter : Z) (reward_payout : Z) (reporter : AccountId) : MS Z :=
  let reporter_reward := Z.min reward_payout per_reporter in
  modify (λ s, s <| ext ::= resolve_creating reporter reporter_reward |>) ;;
  mret (reward_payout - reporter_reward).

Definition pay_reporters (reward_payout slashed_imbalance : Z) (reporters : list AccountId) : MS unit :=
  if (reward_payout =? 0) || bool_decide (reporters = []) then on_unbalanced on_slash_imbalance slashed_imbalance
  else
    let reward_payout := Z.min reward_payout slashed_imbalance in
    let value_slashed := slashed_imbalance - reward_payout in
    let per_reporter := reward_payout / cast 32 (Z.of_nat (length reporters)) in
    reward_payout ← fold_m (pay_reporter per_reporter) reward_payout reporters;
    on_unbalanced on_slash_imbalance (saturating_add 128 value_slashed reward_payout).

Definition apply_slash (unapplied_slash : UnappliedSlash) (slash_era : Z) : MS unit :=
  '(reward_payout, slashed_imbalance) ←
    do_slash unapplied_slash.(us_validator) unapplied_slash.(us_own) unapplied_slash.(us_payout) 0 slash_era;
  '(reward_payout, slashed_imbalance) ←
    fold_m (λ '(reward_payout, slashed_imbalance) '(nominator, nominator_slash),
        do_slash nominator nominator_slash reward_payout slashed_imbalance slash_era)
      (reward_payout, slashed_imbalance) unapplied_slash.(us_others);
  pay_reporters reward_payout slashed_imbalance unapplied_slash.(us_reporters).

Definition slash_scheduler (stash : AccountId) : MS unit :=
  min_bond ← gets MinValidatorBond;
  o ← gets CurrentEra;
  slash_era ← unwrap o;
  apply_slash {| us_validator := stash; us_own := perbill_mul (from_percent 5) min_bond; us_others := [];
                 us_reporters := []; us_payout := 0 |} slash_era.

(** ** Slashing: metadata *)

Definition clear_era_metadata (obsolete_era : Z) : MS unit :=
  modify (λ s, s <| ValidatorSlashInEra ::= filter (λ p, p.1.1 ≠ obsolete_era) |>) ;;
  modify (λ s, s <| NominatorSlashInEra ::= filter (λ p, p.1.1 ≠ obsolete_era) |>).

Definition clear_stash_metadata (stash : AccountId) (num_slashing_spans : Z) : MS unit :=
  o ← gets (λ s, SlashingSpansOf s !! stash);
  match o with
  | None => mret ()
  | Some spans =>
      ensure (Z.of_nat (length (iter spans)) <=? num_slashing_spans) StakingError.IncorrectSlashingSpans ;;
      remove_at SlashingSpansOf stash ;;
      for_each (iter spans) (λ span, remove_at SpanSlash (stash, span.(sp_index)))
  end.
(** ** The end of a stash *)

Definition kill_stash (stash : AccountId) (num_slashing_spans : Z) : MS unit :=
  controller ← try_get Bonded stash StakingError.NotStash;
  clear_stash_metadata stash num_slashing_spans ;;
  remove_at Bonded stash ;;
  remove_at Ledger controller ;;
  remove_at Payee stash ;;
  do_remove_validator stash ;;
  do_remove_nominator stash ;;
  modify (λ s, s <| ext ::= dec_consumers stash |>).

Definition do_withdraw_unbonded (controller : AccountId) (num_slashing_spans : Z) : MS unit :=
  ledger ← try_get Ledger controller StakingError.NotController;
  let stash := ledger.(ld_stash) in
  let old_total := ledger.(ld_total) in
  o ← gets CurrentEra;
  let ledger := match o with Some current_era => consolidate_unlocked ledger current_era | None => ledger end in
  (if bool_decide (ledger.(ld_unlocking) = []) && (ledger.(ld_active) <? minimum_balance (X := X)) then
     kill_stash stash num_slashing_spans ;;
     modify (λ s, s <| ext ::= remove_lock stash |>)
   else update_ledger controller ledger) ;;
  (if ledger.(ld_total) <? old_total then deposit_event (EWithdrawn stash (old_total - ledger.(ld_total)))
   else mret ()).

(** ** Payouts *)

Definition make_payout (stash : AccountId) (amount : Z) : MS (option Z) :=
  o ← gets (λ s, Payee s !! stash);
  match default DestStaked o with
  | DestController =>
      o ← gets (λ s, Bonded s !! stash);
      match o with
      | Some controller =>
          x ← gets ext;
          let '(x, imbalance) := deposit_creating controller amount x in
          put ext x ;; mret (Some imbalance)
      | None => mret None
      end
  | DestStash =>
      x ← gets ext;
      let '(x, r) := deposit_into_existing stash amount x in
      put ext x ;; mret r
  | DestStaked =>
      o ← gets (λ s, c ← Bonded s !! stash; l ← Ledger s !! c; Some (c, l));
      match o with
      | Some (controller, l) =>
          let l := l <| ld_active ::= λ v, wrapping_add 128 v amount |>
                     <| ld_total ::= λ v, wrapping_add 128 v amount |> in
          x ← gets ext;
          let '(x, r) := deposit_into_existing stash amount x in
          put ext x ;;
          update_ledger controller l ;;
          mret r
      | None => mret None
      end
  | DestAccount dest_account =>
      x ← gets ext;
      let '(x, imbalance) := deposit_creating dest_account amount x in
      put ext x ;; mret (Some imbalance)
  | DestNone => mret None
  end.

(** A payout, its event, and the sum of the imbalances so far. *)
Definition pay (total_imbalance : Z) (stash : AccountId) (amount : Z) : MS Z :=
  o ← make_payout stash amount;
  match o with
  | Some imbalance =>
      deposit_event (Rewarded stash imbalance) ;;
      mret (saturating_add 128 total_imbalance imbalance)
  | None => mret total_imbalance
  end.

(** The first half of [do_payout_stakers] checks the input and notes that the era is
    claimed: the ledger and the payout of the era. *)
Definition claim_era (validator_stash : AccountId) (era : Z) : MS (StakingLedger * Z) :=
  o ← gets CurrentEra;
  current_era ← ok_or o StakingError.InvalidEraToReward;
  ensure ((era <=? current_era) && (saturating_sub current_era HistoryDepth <=? era))
    StakingError.InvalidEraToReward ;;
  era_payout ← try_get ErasValidatorReward era StakingError.InvalidEraToReward;
  controller ← try_get Bonded validator_stash StakingError.NotStash;
  ledger ← try_get Ledger controller StakingError.NotController;
  let claimed := filter (λ x, saturating_sub current_era HistoryDepth <= x) ledger.(ld_claimed_rewards) in
  claimed ←
    match binary_search claimed era with
    | inl _ => throw StakingError.AlreadyClaimed
    | inr pos =>
        if Z.of_nat (length claimed) <? HistoryDepth then mret (vec_insert pos era claimed)
        else throw StakingError.BoundNotMet
    end;
  let ledger := ledger <| ld_claimed_rewards := claimed |> in
  insert_at Ledger controller ledger ;;
  mret (ledger, era_payout).

(** What the nominators share, and what the validator gets. *)
Definition payout_shares (validator_total_payout : Z) (validator_commission : Perbill) (exposure : Exposure) : Z * Z :=
  let validator_commission_payout := perbill_mul validator_commission validator_total_payout in
  let validator_leftover_payout := wrapping_sub 128 validator_total_payout validator_commission_payout in
  let validator_exposure_part := from_rational exposure.(ex_own) exposure.(ex_total) in
  let validator_staking_payout := perbill_mul validator_exposure_part validator_leftover_payout in
  (validator_leftover_payout, wrapping_add 128 validator_staking_payout validator_commission_payout).

(** The payout of a nominator *)
Definition nominator_payout (exposure : Exposure) (validator_leftover_payout : Z) (nominator : IndividualExposure) : Z :=
  perbill_mul (from_rational nominator.(ie_value) exposure.(ex_total)) validator_leftover_payout.

(** The second half. *)
Definition pay_era (validator_stash : AccountId) (era : Z) (ledger : StakingLedger) (era_payout : Z) : MS unit :=
  exposure ← gets (λ s, default default_exposure (ErasStakersClipped s !! (era, ledger.(ld_stash))));
  era_reward_points ← gets (λ s, default default_points (ErasRewardPoints s !! era));
  let total_reward_points := era_reward_points.(erp_total) in
  let validator_reward_points := default 0 (era_reward_points.(erp_individual) !! ledger.(ld_stash)) in
  if validator_reward_points =? 0 then mret () else
  let validator_total_reward_part := from_rational validator_reward_points total_reward_points in
  let validator_total_payout := perbill_mul validator_total_reward_part era_payout in
  validator_prefs ← gets (λ s, default default_prefs (ErasValidatorPrefs s !! (era, validator_stash)));
  let '(leftover, own) := payout_shares validator_total_payout validator_prefs.(vp_commission) exposure in
  deposit_event (PayoutStarted era ledger.(ld_stash)) ;;
  total_imbalance ← pay 0 ledger.(ld_stash) own;
  total_imbalance ← fold_m (λ total_imbalance nominator,
      pay total_imbalance nominator.(ie_who) (nominator_payout exposure leftover nominator))
    total_imbalance exposure.(ex_others);
  on_unbalanced on_reward_imbalance total_imbalance.

Definition do_payout_stakers (validator_stash : AccountId) (era : Z) : MS unit :=
  '(ledger, era_payout) ← claim_era validator_stash era;
  pay_era validator_stash era ledger era_payout.

(** ** Eras *)

(** Compounding [REWARD_DECREASE_RATIO] over the years. *)
Fixpoint decrease (years : nat) (rewards : Z) : Z :=
  match years with
  | O => rewards
  | S years => decrease years (perbill_mul REWARD_DECREASE_RATIO rewards)
  end.

Definition rewards_in_era (active_era_index : Z) : Z * Z :=
  let year_num := active_era_index / ERAS_PER_YEAR in
  let year_num := if REWARD_DECREASE_YEARS <? year_num then REWARD_DECREASE_YEARS else year_num in
  (decrease (Z.to_nat year_num) FIRST_YEAR_VALIDATOR_REWARDS / ERAS_PER_YEAR,
   decrease (Z.to_nat year_num) FIRST_YEAR_SMINER_REWARDS / ERAS_PER_YEAR).

Definition clear_era_information (era_index : Z) : MS unit :=
  modify (λ s, s <| ErasStakers ::= filter (λ p, p.1.1 ≠ era_index) |>) ;;
  modify (λ s, s <| ErasStakersClipped ::= filter (λ p, p.1.1 ≠ era_index) |>) ;;
  modify (λ s, s <| ErasValidatorPrefs ::= filter (λ p, p.1.1 ≠ era_index) |>) ;;
  remove_at ErasValidatorReward era_index ;;
  remove_at ErasRewardPoints era_index ;;
  remove_at ErasTotalStake era_index ;;
  remove_at ErasStartSessionIndex era_index.

Definition clip (exposure : Exposure) : Exposure :=
  let clipped_max_len := MaxNominatorRewardedPerValidator in
  if clipped_max_len <? Z.of_nat (length exposure.(ex_others))
  then exposure <| ex_others ::= λ l, take (Z.to_nat clipped_max_len) (sort_desc l) |>
  else exposure.

Definition store_stakers_info (exposures : list (AccountId * Exposure)) (new_planned_era : Z)
  : MS (list AccountId) :=
  let elected_stashes := exposures.*1 in
  total_stake ← fold_m (λ total_stake '(stash, exposure),
      insert_at ErasStakers (new_planned_era, stash) exposure ;;
      insert_at ErasStakersClipped (new_planned_era, stash) (clip exposure) ;;
      mret (saturating_add 128 total_stake exposure.(ex_total)))
    0 exposures;
  insert_at ErasTotalStake new_planned_era total_stake ;;
  for_each elected_stashes (λ stash,
    o ← gets (λ s, Validators s !! stash);
    insert_at ErasValidatorPrefs (new_planned_era, stash) (default default_prefs o)) ;;
  mret elected_stashes.

(** The fold of [collect_exposures] over the voters of one winner. *)
Definition expose (issuance : Z) (validator : AccountId) (e : Exposure) (voter : AccountId * Z) : Exposure :=
  let stake := to_currency voter.2 issuance in
  let e :=
    if decide (voter.1 = validator) then e <| ex_own ::= λ v, saturating_add 128 v stake |>
    else e <| ex_others ::= λ l, l ++ [{| ie_who := voter.1; ie_value := stake |}] |> in
  e <| ex_total ::= λ v, saturating_add 128 v stake |>.

Definition collect_exposures (supports : list (AccountId * list (AccountId * Z))) : MS (list (AccountId * Exposure)) :=
  issuance ← gets (λ s, total_issuance (ext s));
  mret ((λ '(validator, voters), (validator, foldl (expose issuance validator) default_exposure voters)) <$> supports).

Definition trigger_new_era (start_session_index : Z) (exposures : list (AccountId * Exposure)) : MS (list AccountId) :=
  o ← gets CurrentEra;
  let new_planned_era := match o with Some e => wrapping_add 32 e 1 | None => 0 end in
  put CurrentEra (Some new_planned_era) ;;
  insert_at ErasStartSessionIndex new_planned_era start_session_index ;;
  (if wrapping_add 32 HistoryDepth 1 <=? new_planned_era
   then clear_era_information (new_planned_era - wrapping_add 32 HistoryDepth 1) else mret ()) ;;
  store_stakers_info exposures new_planned_era.

Definition try_trigger_new_era (start_session_index : Z) (is_genesis : bool) : MS (option (list AccountId)) :=
  x ← gets ext;
  let '(x, election_result) := elect is_genesis x in
  put ext x ;;
  match election_result with
  | None => deposit_event StakingElectionFailed ;; mret None
  | Some supports =>
      exposures ← collect_exposures supports;
      minimum_validator_count ← gets MinimumValidatorCount;
      if cast 32 (Z.of_nat (length exposures)) <? Z.max minimum_validator_count 1 then
        o ← gets CurrentEra;
        match o with
        | None => put CurrentEra (Some 0) ;; insert_at ErasStartSessionIndex 0 start_session_index
        | Some _ => mret ()
        end ;;
        deposit_event StakingElectionFailed ;;
        mret None
      else
        deposit_event StakersElected ;;
        elected ← trigger_new_era start_session_index exposures;
        mret (Some elected)
  end.

Definition new_session (session_index : Z) (is_genesis : bool) : MS (option (list AccountId)) :=
  o ← gets CurrentEra;
  match o with
  | Some current_era =>
      o ← gets (λ s, ErasStartSessionIndex s !! current_era);
      let era_length := saturating_sub session_index (default 0 o) in
      f ← gets ForceEra;
      let go :=
        match f with
        | ForceNew | ForceAlways => true
        | NotForcing => SessionsPerEra <=? era_length
        | ForceNone => false
        end in
      if go then
        maybe_new_era_validators ← try_trigger_new_era session_index is_genesis;
        f ← gets ForceEra;
        (if bool_decide (is_Some maybe_new_era_validators) && bool_decide (f = ForceNew)
         then put ForceEra NotForcing else mret ()) ;;
        mret maybe_new_era_validators
      else mret None
  | None => try_trigger_new_era session_index is_genesis
  end.

Definition apply_unapplied_slashes (active_era : Z) : MS unit :=
  o ← gets (λ s, UnappliedSlashes s !! active_era);
  remove_at UnappliedSlashes active_era ;;
  for_each (default [] o) (λ slash, apply_slash slash (saturating_sub active_era SlashDeferDuration)).

(** The closure of [BondedEras::mutate] in [start_era]. *)
Definition push_bonded_era (active_era start_session : Z) : MS unit :=
  bonded ← gets BondedEras;
  let bonded := bonded ++ [(active_era, start_session)] in
  if BondingDuration <? active_era then
    let first_kept := active_era - BondingDuration in
    let pruned := fst <$> list_find (λ p, ¬ p.1 < first_kept) bonded in
    let n_to_prune := default (length bonded) pruned in
    for_each (take n_to_prune bonded) (λ p, clear_era_metadata p.1) ;;
    let bonded := drop n_to_prune bonded in
    match bonded with
    | (_, first_session) :: _ => modify (λ s, s <| ext ::= prune_historical_up_to first_session |>)
    | [] => mret ()
    end ;;
    put BondedEras bonded
  else put BondedEras bonded.

Definition start_era (start_session : Z) : MS unit :=
  o ← gets ActiveEra;
  let active_era := match o with Some info => wrapping_add 32 info.(ae_index) 1 | None => 0 end in
  put ActiveEra (Some {| ae_index := active_era; ae_start := None |}) ;;
  push_bonded_era active_era start_session ;;
  apply_unapplied_slashes active_era.

Definition start_session (start_session : Z) : MS unit :=
  o ← gets ActiveEra;
  let next_active_era := match o with Some e => wrapping_add 32 e.(ae_index) 1 | None => 0 end in
  o ← gets (λ s, ErasStartSessionIndex s !! next_active_era);
  match o with
  | Some next_active_era_start_session_index =>
      if next_active_era_start_session_index =? start_session then start_era start_session
      else if next_active_era_start_session_index <? start_session then start_era start_session
      else mret ()
  | None => mret ()
  end ;;
  offending ← gets OffendingValidators;
  for_each offending (λ '(index, disabled),
    if disabled : bool then modify (λ s, s <| ext ::= disable_validator index |>) else mret ()).

Definition end_era (active_era : ActiveEraInfo) : MS unit :=
  match active_era.(ae_start) with
  | Some _ =>
      let '(validator_payout, sminer_payout) := rewards_in_era active_era.(ae_index) in
      deposit_event (EraPaid active_era.(ae_index) validator_payout sminer_payout) ;;
      insert_at ErasValidatorReward active_era.(ae_index) validator_payout ;;
      on_unbalanced sminer_reward_pool sminer_payout ;;
      put OffendingValidators []
  | None => mret ()
  end.

Definition end_session (session_index : Z) : MS unit :=
  o ← gets ActiveEra;
  match o with
  | Some active_era =>
      o ← gets (λ s, ErasStartSessionIndex s !! wrapping_add 32 active_era.(ae_index) 1);
      match o with
      | Some next_active_era_start_session_index =>
          if next_active_era_start_session_index =? wrapping_add 32 session_index 1
          then end_era active_era else mret ()
      | None => mret ()
      end
  | None => mret ()
  end.

(** [SessionManager::new_session] and [new_session_genesis]. *)
Definition session_manager_new_session (new_index : Z) (is_genesis : bool) : MS (option (list AccountId)) :=
  put CurrentPlannedSession new_index ;;
  new_session new_index is_genesis.

(** Those of [historical::SessionManager], with the exposures. *)
Definition historical_new_session (new_index : Z) (is_genesis : bool) : MS (option (list (AccountId * Exposure))) :=
  o ← session_manager_new_session new_index is_genesis;
  match o with
  | Some validators =>
      current_era ← gets (λ s, default 0 (CurrentEra s));
      m ← gets ErasStakers;
      mret (Some ((λ v, (v, default default_exposure (m !! (current_era, v)))) <$> validators))
  | None => mret None
  end.

Definition on_finalize : MS unit :=
  o ← gets ActiveEra;
  match o with
  | Some active_era =>
      match active_era.(ae_start) with
      | None =>
          now ← gets (λ s, unix_now (ext s));
          put ActiveEra (Some (active_era <| ae_start := Some (saturated_into 64 now) |>))
      | Some _ => mret ()
      end
  | None => mret ()
  end.

Definition reward_by_ids (validators_points : list (AccountId * Z)) : MS unit :=
  o ← gets ActiveEra;
  match o with
  | Some active_era =>
      modify (λ s, s <| ErasRewardPoints ::= partial_alter (λ o,
        Some (foldl (λ era_rewards '(validator, points),
            era_rewards <| erp_individual ::= λ m, <[validator := wrapping_add 32 (default 0 (m !! validator)) points]> m |>
                        <| erp_total ::= λ v, wrapping_add 32 v points |>)
          (default default_points o) validators_points)) active_era.(ae_index) |>)
  | None => mret ()
  end.

(** [EventHandler::note_author] and [note_uncle]; the second is given the author of
    the block. *)
Definition note_author (author : AccountId) : MS unit := reward_by_ids [(author, 20)].
Definition note_uncle (block_author : option AccountId) (uncle_author : AccountId) : MS unit :=
  match block_author with
  | Some block_author => reward_by_ids [(block_author, 2); (uncle_author, 1)]
  | None => mret ()
  end.

(** ** Offences *)

Record OffenceDetails := {
  od_stash : AccountId;
  od_exposure : Exposure;
  od_reporters : list AccountId
}.

(** One round of the loop of [on_offence]. *)
Definition slash_offender (reward_proportion : Perbill) (slash_era window_start active_era : Z)
    (disable_strategy : DisableStrategy) (invulnerables : list AccountId) (details : OffenceDetails)
    (slash_fraction : Perbill) : MS unit :=
  let stash := details.(od_stash) in
  if decide (stash ∈ invulnerables) then mret () else
  unapplied ← compute_slash {|
    pr_stash := stash; pr_slash := slash_fraction; pr_exposure := details.(od_exposure);
    pr_slash_era := slash_era; pr_window_start := window_start; pr_now := active_era;
    pr_reward_proportion := reward_proportion; pr_disable_strategy := disable_strategy |};
  deposit_event (SlashReported stash slash_fraction slash_era) ;;
  match unapplied with
  | Some unapplied =>
      let unapplied := unapplied <| us_reporters := details.(od_reporters) |> in
      if SlashDeferDuration =? 0 then apply_slash unapplied slash_era
      else
        modify (λ s, s <| UnappliedSlashes ::= partial_alter (λ o, Some (default [] o ++ [unapplied]))
          (saturating_add 32 (saturating_add 32 slash_era SlashDeferDuration) 1) |>)
  | None => mret ()
  end.

Definition on_offence (offenders : list OffenceDetails) (slash_fraction : list Perbill) (slash_session : Z)
    (disable_strategy : DisableStrategy) : MS unit :=
  reward_proportion ← gets SlashRewardFraction;
  o ← gets ActiveEra;
  match o with
  | None => mret ()
  | Some active_era =>
      let active_era := active_era.(ae_index) in
      o ← gets (λ s, ErasStartSessionIndex s !! active_era);
      let active_era_start_session_index := default 0 o in
      let window_start := saturating_sub active_era BondingDuration in
      eras ← gets BondedEras;
      let slash_era :=
        if active_era_start_session_index <=? slash_session then Some active_era
        else fst ∘ snd <$> list_find (λ p, p.2 <= slash_session) (rev eras) in
      match slash_era with
      | None => mret ()
      | Some slash_era =>
          invulnerables ← gets Invulnerables;
          for_each (zip offenders slash_fraction) (λ '(details, slash_fraction),
            slash_offender reward_proportion slash_era window_start active_era disable_strategy invulnerables
              details slash_fraction)
      end
  end.

(** [FilterHistoricalOffences::report_offence]: whether the report is passed on. *)
Definition report_offence (offence_session : Z) : MS bool :=
  bonded_eras ← gets BondedEras;
  match bonded_eras with
  | (_, start) :: _ =>
      if start <=? offence_session then mret true
      else deposit_event (OldSlashingReportDiscarded offence_session) ;; mret false
  | [] => deposit_event (OldSlashingReportDiscarded offence_session) ;; mret false
  end.
(** ** Dispatchables *)

(** [(a..b).collect()] *)
Definition era_range (a b : Z) : list Z := seqZ a (b - a).

Definition bond (origin : Origin) (controller : AccountId) (value : Z) (payee : RewardDestination) : MS unit :=
  stash ← ensure_signed origin;
  b ← contains_key Bonded stash;
  ensure (negb b) StakingError.AlreadyBonded ;;
  controller ← Lookup controller;
  b ← contains_key Ledger controller;
  ensure (negb b) StakingError.AlreadyPaired ;;
  ensure (minimum_balance (X := X) <=? value) StakingError.InsufficientBond ;;
  x ← gets (λ s, inc_consumers stash (ext s));
  x ← ok_or x StakingError.BadState;
  put ext x ;;
  insert_at Bonded stash controller ;;
  insert_at Payee stash payee ;;
  current_era ← gets (λ s, default 0 (CurrentEra s));
  let last_reward_era := saturating_sub current_era HistoryDepth in
  stash_balance ← gets (λ s, free_balance (ext s) stash);
  let value := Z.min value stash_balance in
  deposit_event (EBonded stash value) ;;
  claimed_rewards ← ok_or (try_into_bounded HistoryDepth (era_range last_reward_era current_era))
    StakingError.BoundNotMet;
  update_ledger controller
    {| ld_stash := stash; ld_total := value; ld_active := value; ld_unlocking := [];
       ld_claimed_rewards := claimed_rewards |}.

Definition bond_extra (origin : Origin) (max_additional : Z) : MS unit :=
  stash ← ensure_signed origin;
  controller ← try_get Bonded stash StakingError.NotStash;
  ledger ← try_get Ledger controller StakingError.NotController;
  stash_balance ← gets (λ s, free_balance (ext s) stash);
  if ledger.(ld_total) <=? stash_balance then
    let extra := Z.min (stash_balance - ledger.(ld_total)) max_additional in
    let ledger := ledger <| ld_total ::= λ v, wrapping_add 128 v extra |>
                         <| ld_active ::= λ v, wrapping_add 128 v extra |> in
    ensure (minimum_balance (X := X) <=? ledger.(ld_active)) StakingError.InsufficientBond ;;
    update_ledger controller ledger ;;
    update_voter stash ;;
    deposit_event (EBonded stash extra)
  else mret ().

(** [ledger.unlocking] with a chunk of [value] for [era] at its end. *)
Definition push_chunk (unlocking : list UnlockChunk) (value era : Z) : option (list UnlockChunk) :=
  match last unlocking with
  | Some chunk =>
      if chunk.(uc_era) =? era then
        Some (removelast unlocking ++ [chunk <| uc_value ::= λ v, saturating_add 128 v value |>])
      else try_push MaxUnlockingChunks unlocking {| uc_value := value; uc_era := era |}
  | None => try_push MaxUnlockingChunks unlocking {| uc_value := value; uc_era := era |}
  end.

Definition min_active_bond (stash : AccountId) (s : State) : Z :=
  if decide (is_Some (Nominators s !! stash)) then MinNominatorBond s
  else if decide (is_Some (Validators s !! stash)) then MinValidatorBond s
  else 0.

(** [Self::slashing_spans(&controller).iter().count()] counts the [Option], not the
    spans, and looks them up under the controller. *)
Definition unbond (origin : Origin) (value : Z) : MS unit :=
  controller ← ensure_signed origin;
  l ← try_get Ledger controller StakingError.NotController;
  (if Z.of_nat (length l.(ld_unlocking)) =? MaxUnlockingChunks then
     o ← gets (λ s, SlashingSpansOf s !! controller);
     let real_num_slashing_spans := match o with Some _ => 1 | None => 0 end in
     do_withdraw_unbonded controller real_num_slashing_spans
   else mret ()) ;;
  ledger ← try_get Ledger controller StakingError.NotController;
  let value := Z.min value ledger.(ld_active) in
  ensure (Z.of_nat (length ledger.(ld_unlocking)) <? MaxUnlockingChunks) StakingError.NoMoreChunks ;;
  if value =? 0 then mret () else
  let ledger := ledger <| ld_active ::= λ v, wrapping_sub 128 v value |> in
  let '(ledger, value) :=
    if ledger.(ld_active) <? minimum_balance (X := X)
    then (ledger <| ld_active := 0 |>, wrapping_add 128 value ledger.(ld_active))
    else (ledger, value) in
  min_active_bond ← gets (min_active_bond ledger.(ld_stash));
  ensure (min_active_bond <=? ledger.(ld_active)) StakingError.InsufficientBond ;;
  current_era ← gets (λ s, default 0 (CurrentEra s));
  let era := wrapping_add 32 current_era BondingDuration in
  unlocking ← ok_or (push_chunk ledger.(ld_unlocking) value era) StakingError.NoMoreChunks;
  update_ledger controller (ledger <| ld_unlocking := unlocking |>) ;;
  update_voter ledger.(ld_stash) ;;
  deposit_event (EUnbonded ledger.(ld_stash) value).

Definition withdraw_unbonded (origin : Origin) (num_slashing_spans : Z) : MS unit :=
  controller ← ensure_signed origin;
  do_withdraw_unbonded controller num_slashing_spans.

Definition validate (origin : Origin) (prefs : ValidatorPrefs Perbill) : MS unit :=
  controller ← ensure_signed origin;
  ledger ← try_get Ledger controller StakingError.NotController;
  min_validator_bond ← gets MinValidatorBond;
  ensure (min_validator_bond <=? ledger.(ld_active)) StakingError.InsufficientBond ;;
  let stash := ledger.(ld_stash) in
  min_commission ← gets MinCommission;
  ensure (parts min_commission <=? parts prefs.(vp_commission)) StakingError.CommissionTooLow ;;
  b ← contains_key Validators stash;
  (if b : bool then mret () else
     o ← gets MaxValidatorsCount;
     match o with
     | Some max_validators =>
         count ← validators_count;
         ensure (count <? max_validators) StakingError.TooManyValidators
     | None => mret ()
     end) ;;
  do_remove_nominator stash ;;
  do_add_validator stash prefs ;;
  deposit_event (ValidatorPrefsSet stash prefs).

(** The check of one nomination target. *)
Definition check_target (old : list AccountId) (acc : list AccountId) (t : AccountId) : MS (list AccountId) :=
  n ← Lookup t;
  o ← gets (λ s, Validators s !! n);
  if bool_decide (n ∈ old) || negb (default default_prefs o).(vp_blocked) then mret (acc ++ [n])
  else throw StakingError.BadTarget.

Definition nominate (origin : Origin) (targets : list AccountId) : MS unit :=
  controller ← ensure_signed origin;
  ledger ← try_get Ledger controller StakingError.NotController;
  min_nominator_bond ← gets MinNominatorBond;
  ensure (min_nominator_bond <=? ledger.(ld_active)) StakingError.InsufficientBond ;;
  let stash := ledger.(ld_stash) in
  b ← contains_key Nominators stash;
  (if b : bool then mret () else
     o ← gets MaxNominatorsCount;
     match o with
     | Some max_nominators =>
         count ← nominators_count;
         ensure (count <? max_nominators) StakingError.TooManyNominators
     | None => mret ()
     end) ;;
  ensure (negb (bool_decide (targets = []))) StakingError.EmptyTargets ;;
  ensure (Z.of_nat (length targets) <=? MaxNominations) StakingError.TooManyTargets ;;
  old ← gets (λ s, from_option nm_targets [] (Nominators s !! stash));
  targets ← fold_m (check_target old) [] targets;
  targets ← ok_or (try_into_bounded MaxNominations targets) StakingError.TooManyNominators;
  current_era ← gets (λ s, default 0 (CurrentEra s));
  do_remove_validator stash ;;
  do_add_nominator stash {| nm_targets := targets; nm_submitted_in := current_era; nm_suppressed := false |}.

Definition chill (origin : Origin) : MS unit :=
  controller ← ensure_signed origin;
  ledger ← try_get Ledger controller StakingError.NotController;
  chill_stash ledger.(ld_stash).

Definition set_payee (origin : Origin) (payee : RewardDestination) : MS unit :=
  controller ← ensure_signed origin;
  ledger ← try_get Ledger controller StakingError.NotController;
  insert_at Payee ledger.(ld_stash) payee.

Definition set_controller (origin : Origin) (controller : AccountId) : MS unit :=
  stash ← ensure_signed origin;
  old_controller ← try_get Bonded stash StakingError.NotStash;
  controller ← Lookup controller;
  b ← contains_key Ledger controller;
  ensure (negb b) StakingError.AlreadyPaired ;;
  if decide (controller = old_controller) then mret () else
  insert_at Bonded stash controller ;;
  o ← gets (λ s, Ledger s !! old_controller);
  remove_at Ledger old_controller ;;
  match o with Some l => insert_at Ledger controller l | None => mret () end.

Definition set_validator_count (origin : Origin) (new : Z) : MS unit :=
  ensure_root origin ;;
  ensure (new <=? MaxWinners) StakingError.TooManyValidators ;;
  put ValidatorCount new.

Definition increase_validator_count (origin : Origin) (additional : Z) : MS unit :=
  ensure_root origin ;;
  old ← gets ValidatorCount;
  new ← ok_or (checked_add 32 old additional) ArithmeticOverflow;
  ensure (new <=? MaxWinners) StakingError.TooManyValidators ;;
  put ValidatorCount new.

(** [factor.mul_floor(old)] of a [Percent] *)
Definition scale_validator_count (origin : Origin) (factor : Z) : MS unit :=
  ensure_root origin ;;
  old ← gets ValidatorCount;
  new ← ok_or (checked_add 32 old (factor * old / 100)) ArithmeticOverflow;
  ensure (new <=? MaxWinners) StakingError.TooManyValidators ;;
  put ValidatorCount new.

Definition force_no_eras (origin : Origin) : MS unit := ensure_root origin ;; put ForceEra ForceNone.
Definition force_new_era (origin : Origin) : MS unit := ensure_root origin ;; put ForceEra ForceNew.
Definition force_new_era_always (origin : Origin) : MS unit := ensure_root origin ;; put ForceEra ForceAlways.

Definition set_invulnerables (origin : Origin) (invulnerables : list AccountId) : MS unit :=
  ensure_root origin ;; put Invulnerables invulnerables.

Definition force_unstake (origin : Origin) (stash : AccountId) (num_slashing_spans : Z) : MS unit :=
  ensure_root origin ;;
  kill_stash stash num_slashing_spans ;;
  modify (λ s, s <| ext ::= remove_lock stash |>).

Fixpoint is_sorted_and_unique (list : list Z) : bool :=
  match list with
  | a :: ((b :: _) as rest) => (a <? b) && is_sorted_and_unique rest
  | _ => true
  end.

(** The loop of [cancel_deferred_slash]: [Vec::remove] panics out of range. *)
Definition remove_slash (acc : list UnappliedSlash * Z) (index : Z) : MS (list UnappliedSlash * Z) :=
  let '(unapplied, removed) := acc in
  let i := Z.to_nat (index - removed) in
  if decide (i < length unapplied)%nat then mret (take i unapplied ++ drop (S i) unapplied, removed + 1)
  else panic.

Definition cancel_deferred_slash (origin : Origin) (era : Z) (slash_indices : list Z) : MS unit :=
  ensure (slash_cancel_origin origin) BadOrigin ;;
  ensure (negb (bool_decide (slash_indices = []))) StakingError.EmptyTargets ;;
  ensure (is_sorted_and_unique slash_indices) StakingError.NotSortedAndUnique ;;
  unapplied ← gets (λ s, default [] (UnappliedSlashes s !! era));
  last_item ← unwrap (last slash_indices);
  ensure (last_item <? Z.of_nat (length unapplied)) StakingError.InvalidSlashIndex ;;
  '(unapplied, _) ← fold_m remove_slash (unapplied, 0) slash_indices;
  insert_at UnappliedSlashes era unapplied.

Definition payout_stakers (origin : Origin) (validator_stash : AccountId) (era : Z) : MS unit :=
  ensure_signed origin ;;
  do_payout_stakers validator_stash era.

Definition rebond (origin : Origin) (value : Z) : MS unit :=
  controller ← ensure_signed origin;
  ledger ← try_get Ledger controller StakingError.NotController;
  ensure (negb (bool_decide (ledger.(ld_unlocking) = []))) StakingError.NoUnlockChunk ;;
  let '(ledger, rebonded_value) := StakingLedger.rebond ledger value in
  ensure (minimum_balance (X := X) <=? ledger.(ld_active)) StakingError.InsufficientBond ;;
  deposit_event (EBonded ledger.(ld_stash) rebonded_value) ;;
  update_ledger controller ledger ;;
  update_voter ledger.(ld_stash).

Definition reap_stash (origin : Origin) (stash : AccountId) (num_slashing_spans : Z) : MS unit :=
  ensure_signed origin ;;
  let ed := minimum_balance (X := X) in
  total ← gets (λ s, total_balance (ext s) stash);
  reapable ← (if total <? ed then mret true else
                controller ← try_get Bonded stash StakingError.NotStash;
                o ← gets (λ s, Ledger s !! controller);
                mret (from_option ld_total 0 o <? ed));
  ensure reapable StakingError.FundedTarget ;;
  kill_stash stash num_slashing_spans ;;
  modify (λ s, s <| ext ::= remove_lock stash |>).

Definition kick (origin : Origin) (who : list AccountId) : MS unit :=
  controller ← ensure_signed origin;
  ledger ← try_get Ledger controller StakingError.NotController;
  let stash := ledger.(ld_stash) in
  who ← fold_m (λ acc t, n ← Lookup t; mret (acc ++ [n])) [] who;
  for_each who (λ nom_stash,
    o ← gets (λ s, Nominators s !! nom_stash);
    match o with
    | Some nom =>
        match list_find (λ v, v = stash) nom.(nm_targets) with
        | Some (pos, _) =>
            deposit_event (Kicked nom_stash stash) ;;
            insert_at Nominators nom_stash (nom <| nm_targets ::= swap_remove pos |>)
        | None => mret ()
        end
    | None => mret ()
    end).

(** [config_op_exp!] on a storage value with its default. *)
Definition config_op_exp {V} (fld : State → V) `{!Setter fld} (op : ConfigOp V) (default_ : V) : MS unit :=
  match op with OpNoop => mret () | OpSet v => put fld v | OpRemove => put fld default_ end.

Definition config_op_exp_option {V} (fld : State → option V) `{!Setter fld} (op : ConfigOp V) : MS unit :=
  match op with OpNoop => mret () | OpSet v => put fld (Some v) | OpRemove => put fld None end.

Definition set_staking_configs (origin : Origin) (min_nominator_bond min_validator_bond : ConfigOp Z)
    (max_nominator_count max_validator_count chill_threshold : ConfigOp Z) (min_commission : ConfigOp Perbill)
  : MS unit :=
  ensure_root origin ;;
  config_op_exp MinNominatorBond min_nominator_bond 0 ;;
  config_op_exp MinValidatorBond min_validator_bond 0 ;;
  config_op_exp_option MaxNominatorsCount max_nominator_count ;;
  config_op_exp_option MaxValidatorsCount max_validator_count ;;
  config_op_exp_option ChillThreshold chill_threshold ;;
  config_op_exp MinCommission min_commission perbill_zero.

(** Stored nominations always decode here, so the case of one that does not is left
    out. *)
Definition chill_other (origin : Origin) (controller : AccountId) : MS unit :=
  caller ← ensure_signed origin;
  ledger ← try_get Ledger controller StakingError.NotController;
  let stash := ledger.(ld_stash) in
  (if decide (caller = controller) then mret () else
     o ← gets ChillThreshold;
     threshold ← ok_or o StakingError.CannotChillOther;
     is_nominator ← contains_key Nominators stash;
     is_validator ← contains_key Validators stash;
     min_active_bond ←
       (if is_nominator : bool then
          o ← gets MaxNominatorsCount;
          max_nominator_count ← ok_or o StakingError.CannotChillOther;
          current_nominator_count ← nominators_count;
          ensure (percent_mul threshold max_nominator_count <? current_nominator_count)
            StakingError.CannotChillOther ;;
          gets MinNominatorBond
        else if is_validator : bool then
          o ← gets MaxValidatorsCount;
          max_validator_count ← ok_or o StakingError.CannotChillOther;
          current_validator_count ← validators_count;
          ensure (percent_mul threshold max_validator_count <? current_validator_count)
            StakingError.CannotChillOther ;;
          gets MinValidatorBond
        else mret 0);
     ensure (ledger.(ld_active) <? min_active_bond) StakingError.CannotChillOther) ;;
  chill_stash stash.

Definition force_apply_min_commission (origin : Origin) (validator_stash : AccountId) : MS unit :=
  ensure_signed origin ;;
  min_commission ← gets MinCommission;
  try_mutate_existing Validators validator_stash StakingError.NotStash (λ prefs,
    mret (if parts prefs.(vp_commission) <? parts min_commission
          then prefs <| vp_commission := min_commission |> else prefs)).

(** ** Genesis *)

Inductive StakerStatus := StakerIdle | StakerValidator | StakerNominator (targets : list AccountId).

Record GenesisConfig := {
  gc_validator_count : Z;
  gc_minimum_validator_count : Z;
  gc_invulnerables : list AccountId;
  gc_force_era : Forcing;
  gc_slash_reward_fraction : Perbill;
  gc_stakers : list (AccountId * AccountId * Z * StakerStatus);
  gc_min_nominator_bond : Z;
  gc_min_validator_bond : Z;
  gc_max_validator_count : option Z;
  gc_max_nominator_count : option Z
}.

(** [assert_ok!] and [assert!] *)
Definition assert_ok (m : MS unit) : MS unit := λ s,
  match m s with (s', Ok u) => (s', Ok u) | (s', _) => (s', Panic) end.
Definition assert (b : bool) : MS unit := if b then mret () else panic.

(** One round of the loop over the stakers; [unlookup] is [T::Lookup::unlookup]. *)
Definition genesis_staker (unlookup : AccountId → AccountId)
    (staker : AccountId * AccountId * Z * StakerStatus) : MS unit :=
  let '(stash, controller, balance, status) := staker in
  x ← gets ext;
  assert (balance <=? free_balance x stash) ;;
  assert_ok (bond (Signed stash) (unlookup controller) balance DestStaked) ;;
  assert_ok (match status with
             | StakerValidator => validate (Signed controller) default_prefs
             | StakerNominator votes => nominate (Signed controller) (unlookup <$> votes)
             | StakerIdle => mret ()
             end) ;;
  count ← gets ValidatorCount;
  assert (count <=? MaxWinners).

(** [GenesisBuild::build]; [CanceledSlashPayout] and [StorageVersion], which the
    operations never read, are left out. *)
Definition genesis_build (unlookup : AccountId → AccountId) (self : GenesisConfig) : MS unit :=
  put ValidatorCount self.(gc_validator_count) ;;
  put MinimumValidatorCount self.(gc_minimum_validator_count) ;;
  put Invulnerables self.(gc_invulnerables) ;;
  put ForceEra self.(gc_force_era) ;;
  put SlashRewardFraction self.(gc_slash_reward_fraction) ;;
  put MinNominatorBond self.(gc_min_nominator_bond) ;;
  put MinValidatorBond self.(gc_min_validator_bond) ;;
  match self.(gc_max_validator_count) with Some x => put MaxValidatorsCount (Some x) | None => mret () end ;;
  match self.(gc_max_nominator_count) with Some x => put MaxNominatorsCount (Some x) | None => mret () end ;;
  for_each self.(gc_stakers) (genesis_staker unlookup) ;;
  voters ← gets (λ s, voter_count (ext s));
  nominators ← nominators_count;
  validators ← validators_count;
  assert (voters =? nominators + validators).

(** ** The data of an election *)

(** The state of the loop of [get_npos_voters]: the voters taken and the least stake
    seen.  [sorted_voters] is what the iterator has left. *)
Fixpoint npos_voters_loop (s : State) (max_allowed_len voters_left : nat) (sorted_voters : list AccountId)
    (all_voters : list (AccountId * Z * list AccountId)) (min_active_stake : Z)
  : list (AccountId * Z * list AccountId) * Z :=
  match sorted_voters, voters_left with
  | voter :: sorted_voters, S voters_left =>
      if (length all_voters <? max_allowed_len)%nat then
        match Nominators s !! voter with
        | Some nominations =>
            let voter_weight := weight_of voter s in
            npos_voters_loop s max_allowed_len voters_left sorted_voters
              (if bool_decide (nominations.(nm_targets) = []) then all_voters
               else all_voters ++ [(voter, voter_weight, nominations.(nm_targets))])
              (if voter_weight <? min_active_stake then voter_weight else min_active_stake)
        | None =>
            npos_voters_loop s max_allowed_len voters_left sorted_voters
              (if decide (is_Some (Validators s !! voter)) then all_voters ++ [(voter, weight_of voter s, [voter])]
               else all_voters) min_active_stake
        end
      else (all_voters, min_active_stake)
  | _, _ => (all_voters, min_active_stake)
  end.

Definition NPOS_MAX_ITERATIONS_COEFFICIENT : Z := 2.

Definition get_npos_voters (maybe_max_len : option Z) : MS (list (AccountId * Z * list AccountId)) :=
  all_voter_count ← gets (λ s, voter_count (ext s));
  let max_allowed_len := Z.min (default all_voter_count maybe_max_len) all_voter_count in
  r ← gets (λ s, npos_voters_loop s (Z.to_nat max_allowed_len)
    (Z.to_nat (wrapping_mul 32 NPOS_MAX_ITERATIONS_COEFFICIENT (cast 32 max_allowed_len))) (voter_iter (ext s)) [] (2 ^ 64 - 1));
  let '(all_voters, min_active_stake) := r in
  put MinimumActiveStake (if bool_decide (all_voters = []) then 0 else min_active_stake) ;;
  mret all_voters.

(** [T::TargetList] is [UseValidatorsMap]: the keys of [Validators]. *)
Definition target_iter (s : State) : list AccountId := (iter_storage (Validators s)).*1.

Fixpoint npos_targets_loop (s : State) (max_allowed_len targets_left : nat) (targets : list AccountId)
    (all_targets : list AccountId) : list AccountId :=
  match targets, targets_left with
  | target :: targets, S targets_left =>
      if (length all_targets <? max_allowed_len)%nat then
        npos_targets_loop s max_allowed_len targets_left targets
          (if decide (is_Some (Validators s !! target)) then all_targets ++ [target] else all_targets)
      else all_targets
  | _, _ => all_targets
  end.

Definition get_npos_targets (maybe_max_len : option Z) : MS (list AccountId) :=
  gets (λ s,
    let max_allowed_len := default (Z.of_nat (size (Validators s))) maybe_max_len in
    npos_targets_loop s (Z.to_nat max_allowed_len)
      (Z.to_nat (wrapping_mul 32 NPOS_MAX_ITERATIONS_COEFFICIENT (cast 32 max_allowed_len))) (target_iter s) []).

(** [None] is the error "Target snapshot too big". *)
Definition electable_targets (maybe_max_len : option Z) : MS (option (list AccountId)) :=
  target_count ← gets (λ s, Z.of_nat (size (Validators s)));
  if match maybe_max_len with Some max_len => cast 32 max_len <? target_count | None => false end
  then mret None
  else l ← get_npos_targets None; mret (Some l).

(** ** [StakingInterface]: a stash acts through its controller *)

Definition si_stake (who : AccountId) : MS (AccountId * Z * Z) :=
  o ← gets (ledger_of who);
  l ← ok_or o StakingError.NotStash;
  mret (l.(ld_stash), l.(ld_total), l.(ld_active)).

Definition si_unbond (who : AccountId) (value : Z) : MS unit :=
  ctrl ← try_get Bonded who StakingError.NotStash;
  unbond (Signed ctrl) value.

Definition si_chill (who : AccountId) : MS unit :=
  ctrl ← try_get Bonded who StakingError.NotStash;
  chill (Signed ctrl).

Definition si_withdraw_unbonded (who : AccountId) (num_slashing_spans : Z) : MS bool :=
  ctrl ← try_get Bonded who StakingError.NotStash;
  withdraw_unbonded (Signed ctrl) num_slashing_spans ;;
  b ← contains_key Ledger ctrl;
  mret (negb b).

Definition si_force_unstake (who : AccountId) : MS unit :=
  o ← gets (λ s, SlashingSpansOf s !! who);
  force_unstake Root who (match o with Some _ => 1 | None => 0 end).

(** [T::Lookup::unlookup] is an argument of the two calls below. *)
Definition si_bond (unlookup : AccountId → AccountId) (who : AccountId) (value : Z) (payee : AccountId) : MS unit :=
  bond (Signed who) (unlookup who) value (DestAccount payee).

Definition si_bond_extra (who : AccountId) (extra : Z) : MS unit := bond_extra (Signed who) extra.

Definition si_nominate (unlookup : AccountId → AccountId) (who : AccountId) (targets : list AccountId) : MS unit :=
  ctrl ← try_get Bonded who StakingError.NotStash;
  nominate (Signed ctrl) (unlookup <$> targets).

Definition si_stash_by_ctrl (controller : AccountId) : MS AccountId :=
  l ← try_get Ledger controller StakingError.NotController;
  mret l.(ld_stash).

Definition is_exposed_in_era (who : AccountId) (era : Z) (s : State) : bool :=
  existsb (λ '((e, validator), exposures),
      (e =? era) && (bool_decide (validator = who) || existsb (λ i, bool_decide (i.(ie_who) = who)) exposures.(ex_others)))
    (iter_storage (ErasStakers s)).

(** ** Conversions and predictions *)

(** [StashOf::convert] and [ExposureOf::convert] *)
Definition stash_of (controller : AccountId) (s : State) : option AccountId := ld_stash <$> Ledger s !! controller.
Definition exposure_of (validator : AccountId) (s : State) : option Exposure :=
  (λ active_era, default default_exposure (ErasStakers s !! (active_era.(ae_index), validator))) <$> ActiveEra s.

(** [next_new_session] and [session_length] are those of [T::NextNewSession]; block
    numbers have 32 bits. *)
Definition next_election_prediction (next_new_session : option Z) (session_length now : Z) (s : State) : Z :=
  let current_era := default 0 (CurrentEra s) in
  let current_session := CurrentPlannedSession s in
  let current_era_start_session_index := default 0 (ErasStartSessionIndex s !! current_era) in
  let era_progress := Z.min (saturating_sub current_session current_era_start_session_index) SessionsPerEra in
  let until_this_session_end := saturating_sub (default 0 next_new_session) now in
  let sessions_left :=
    match ForceEra s with
    | ForceNone => 2 ^ 32 - 1
    | ForceNew | ForceAlways => 0
    | NotForcing =>
        if SessionsPerEra <=? era_progress then 0
        else saturating_sub (saturating_sub SessionsPerEra era_progress) 1
    end in
  saturating_add 32 now
    (saturating_add 32 until_this_session_end (Z.min (2 ^ 32 - 1) (sessions_left * session_length))).

(** ** The pallet's own checks of its state

    [do_try_state] and what it calls, as computations that return whether the check
    passes; an active era is expected by two of them. *)

Definition ensure_is_stash (s : State) (who : AccountId) : bool := bool_decide (is_Some (Bonded s !! who)).

Definition ensure_ledger_consistent (s : State) (ctrl : AccountId) : bool :=
  match Ledger s !! ctrl with
  | None => false
  | Some ledger =>
      let real_total := foldl (λ a c, wrapping_add 128 a c.(uc_value)) ledger.(ld_active) ledger.(ld_unlocking) in
      real_total =? ledger.(ld_total)
  end.

Definition check_ledgers (s : State) : bool :=
  forallb (λ p, ensure_ledger_consistent s p.2) (iter_storage (Bonded s)).

Definition exposure_sane (expo : Exposure) : bool :=
  expo.(ex_total) =? wrapping_add 128 expo.(ex_own)
    (foldl (λ acc e, wrapping_add 128 acc e.(ie_value)) 0 expo.(ex_others)).

Definition check_exposures (s : State) (active : ActiveEraInfo) : bool :=
  forallb (λ p, if p.1.1 =? active.(ae_index) then exposure_sane p.2 else true) (iter_storage (ErasStakers s)).

Definition check_nominators (s : State) (active : ActiveEraInfo) : bool :=
  forallb (λ '(nominator, nomination),
      if nomination.(nm_submitted_in) <? active.(ae_index) then
        ensure_is_stash s nominator &&
        forallb (λ v,
            let e := default default_exposure (ErasStakers s !! (active.(ae_index), v)) in
            (length (filter (λ i, i.(ie_who) = nominator) e.(ex_others)) <=? 1)%nat)
          (session_validators (ext s))
      else true)
    (iter_storage (Nominators s)).

Definition check_count (s : State) : bool :=
  (voter_count (ext s) =? Z.of_nat (size (Nominators s)) + Z.of_nat (size (Validators s))) &&
  (Z.of_nat (length (target_iter s)) =? Z.of_nat (size (Validators s))) &&
  (ValidatorCount s <=? MaxWinners).

(** [None] is the panic of [unwrap]. *)
Definition do_try_state (s : State) : option bool :=
  if forallb (λ x, bool_decide (is_Some (Nominators s !! x) ∨ is_Some (Validators s !! x))) (voter_iter (ext s)) then
    active ← ActiveEra s;
    Some (check_nominators s active && check_exposures s active && check_ledgers s && check_count s)
  else Some false.
End operations.
