(* ===== verification/StakingBonds.v ===== *)
(** * The staking pallet: the automaton of bonds

    The part of the storage that says who is bonded with what: the controllers, the
    ledgers, the roles, the payees and the current era.  [move] is the specification
    of how it may change, by kind of change; the operations of [StakingPallet] are
    proved to be sequences of moves in [StakingRefine].  Here the moves are proved to
    keep bonds well-formed ([bonds_ok]) and, unless they slash or reap, to keep bonded
    funds locked ([locked_from]). *)
From S2P Require Import Prelude Errors Frame Wp StakingLedger StakingSpans StakingTypes StakingPallet.

Record Bonds := mkBonds {
  b_bonded : gmap AccountId AccountId;
  b_ledger : gmap AccountId StakingLedger;
  b_validators : gset AccountId;
  b_nominators : gset AccountId;
  b_payee : gset AccountId;
  b_era : option Z;
  b_active : option Z;
  b_starts : gset Z;
  b_rewards : gset Z;
  b_queue : gmap Z (list UnappliedSlash)
}.
#[export] Instance set_bd_b_bonded : Setter (b_bonded) := λ f r,
  mkBonds (f (b_bonded r)) (b_ledger r) (b_validators r) (b_nominators r) (b_payee r) (b_era r) (b_active r) (b_starts r) (b_rewards r) (b_queue r).
#[export] Instance set_bd_b_ledger : Setter (b_ledger) := λ f r,
  mkBonds (b_bonded r) (f (b_ledger r)) (b_validators r) (b_nominators r) (b_payee r) (b_era r) (b_active r) (b_starts r) (b_rewards r) (b_queue r).
#[export] Instance set_bd_b_validators : Setter (b_validators) := λ f r,
  mkBonds (b_bonded r) (b_ledger r) (f (b_validators r)) (b_nominators r) (b_payee r) (b_era r) (b_active r) (b_starts r) (b_rewards r) (b_queue r).
#[export] Instance set_bd_b_nominators : Setter (b_nominators) := λ f r,
  mkBonds (b_bonded r) (b_ledger r) (b_validators r) (f (b_nominators r)) (b_payee r) (b_era r) (b_active r) (b_starts r) (b_rewards r) (b_queue r).
#[export] Instance set_bd_b_payee : Setter (b_payee) := λ f r,
  mkBonds (b_bonded r) (b_ledger r) (b_validators r) (b_nominators r) (f (b_payee r)) (b_era r) (b_active r) (b_starts r) (b_rewards r) (b_queue r).
#[export] Instance set_bd_b_era : Setter (b_era) := λ f r,
  mkBonds (b_bonded r) (b_ledger r) (b_validators r) (b_nominators r) (b_payee r) (f (b_era r)) (b_active r) (b_starts r) (b_rewards r) (b_queue r).
#[export] Instance set_bd_b_active : Setter (b_active) := λ f r,
  mkBonds (b_bonded r) (b_ledger r) (b_validators r) (b_nominators r) (b_payee r) (b_era r) (f (b_active r)) (b_starts r) (b_rewards r) (b_queue r).
#[export] Instance set_bd_b_starts : Setter (b_starts) := λ f r,
  mkBonds (b_bonded r) (b_ledger r) (b_validators r) (b_nominators r) (b_payee r) (b_era r) (b_active r) (f (b_starts r)) (b_rewards r) (b_queue r).
#[export] Instance set_bd_b_rewards : Setter (b_rewards) := λ f r,
  mkBonds (b_bonded r) (b_ledger r) (b_validators r) (b_nominators r) (b_payee r) (b_era r) (b_active r) (b_starts r) (f (b_rewards r)) (b_queue r).
#[export] Instance set_bd_b_queue : Setter (b_queue) := λ f r,
  mkBonds (b_bonded r) (b_ledger r) (b_validators r) (b_nominators r) (b_payee r) (b_era r) (b_active r) (b_starts r) (b_rewards r) (f (b_queue r)).

(** A change is normal, or takes from the stash it names. *)
Inductive Kind :=
| Normal
| Slashing (stash : AccountId)
| Reaping (stash : AccountId)
| Forced (stash : AccountId).

Definition spares (who : AccountId) (k : Kind) : Prop :=
  match k with
  | Normal => True
  | Slashing stash | Reaping stash | Forced stash => stash ≠ who
  end.

(** What a queued slash takes is not negative. *)
Definition slash_ok (u : UnappliedSlash) : Prop :=
  0 <= u.(us_own) ∧ Forall (λ p, 0 <= p.2) u.(us_others).

Section bonds.
Context {X : Type} `{!PerbillOps} `{!PerquintillOps} `{!PerquintillLaws} `{!Config} `{!UnsignedConfig}
  `{!Currency X} `{!LockableCurrency X} `{!LockableCurrencyLaws X}.
Abbreviation minimum := (minimum_balance (X := X)).

(** ** Moves of a ledger *)

(** [unbond] and everything else counts eras from 0 before the first one. *)
Definition era_of (o : option Z) : Z := default 0 o.

Inductive ledger_move (era : option Z) : Kind → StakingLedger → StakingLedger → Prop :=
| lm_deposit l x :
    0 <= x → l.(ld_total) + x < 2 ^ 128 →
    ledger_move era Normal l (l <| ld_total ::= λ v, wrapping_add 128 v x |> <| ld_active ::= λ v, wrapping_add 128 v x |>)
| lm_unbond l v u :
    0 < v <= l.(ld_active) → l.(ld_active) - v = 0 ∨ minimum <= l.(ld_active) - v →
    push_chunk l.(ld_unlocking) v (era_of era + BondingDuration) = Some u →
    ledger_move era Normal l (l <| ld_active := l.(ld_active) - v |> <| ld_unlocking := u |>)
| lm_consolidate l e : era = Some e → ledger_move era Normal l (consolidate_unlocked l e)
| lm_rebond l v : 0 <= v < 2 ^ 128 → ledger_move era Normal l (StakingLedger.rebond l v).1
| lm_claim l claimed :
    StronglySorted Z.lt claimed → Forall (λ e, e <= era_of era) claimed →
    Z.of_nat (length claimed) <= HistoryDepth →
    (∀ e, e ∈ l.(ld_claimed_rewards) → saturating_sub (era_of era) HistoryDepth <= e → e ∈ claimed) →
    ledger_move era Normal l (l <| ld_claimed_rewards := claimed |>)
| lm_slash l amount slash_era :
    0 <= amount →
    ledger_move era (Slashing l.(ld_stash)) l (slash BondingDuration l amount minimum slash_era).1.1.

(** ** Moves of the bonds *)

(** The eras a new ledger counts as claimed. *)
Definition past_eras (cur : Z) : list Z := era_range (saturating_sub cur HistoryDepth) cur.

(** Why the ledger of a stash may go. *)
Definition kill_reason (k : Kind) (era : option Z) (l : StakingLedger) : Prop :=
  match k with
  | Normal =>
      let l' := match era with Some e => consolidate_unlocked l e | None => l end in
      l'.(ld_unlocking) = [] ∧ l'.(ld_active) < minimum
  | Slashing _ => False
  | Reaping stash | Forced stash => stash = l.(ld_stash)
  end.

Inductive move : Kind → Bonds → Bonds → Prop :=
| mv_ledger k b c l l' :
    b.(b_ledger) !! c = Some l → ledger_move b.(b_era) k l l' → move k b (b <| b_ledger ::= <[c := l']> |>)
| mv_bond b stash c value :
    b.(b_bonded) !! stash = None → b.(b_ledger) !! c = None → 0 <= value < 2 ^ 128 →
    move Normal b (b <| b_bonded ::= <[stash := c]> |>
      <| b_ledger ::= <[c := {| ld_stash := stash; ld_total := value; ld_active := value; ld_unlocking := [];
                                ld_claimed_rewards := past_eras (era_of b.(b_era)) |}]> |>
      <| b_payee ::= λ P, {[stash]} ∪ P |>)
| mv_validate b stash :
    is_Some (b.(b_bonded) !! stash) →
    move Normal b (b <| b_nominators ::= λ N, N ∖ {[stash]} |> <| b_validators ::= λ V, {[stash]} ∪ V |>)
| mv_nominate b stash :
    is_Some (b.(b_bonded) !! stash) →
    move Normal b (b <| b_validators ::= λ V, V ∖ {[stash]} |> <| b_nominators ::= λ N, {[stash]} ∪ N |>)
| mv_chill b stash :
    move Normal b (b <| b_validators ::= λ V, V ∖ {[stash]} |> <| b_nominators ::= λ N, N ∖ {[stash]} |>)
| mv_payee b stash :
    is_Some (b.(b_bonded) !! stash) → move Normal b (b <| b_payee ::= λ P, {[stash]} ∪ P |>)
| mv_controller b stash c c' l :
    b.(b_bonded) !! stash = Some c → b.(b_ledger) !! c = Some l → b.(b_ledger) !! c' = None →
    move Normal b (b <| b_bonded ::= <[stash := c']> |> <| b_ledger ::= λ m, <[c' := l]> (delete c m) |>)
| mv_kill k b stash c l :
    b.(b_bonded) !! stash = Some c → b.(b_ledger) !! c = Some l → kill_reason k b.(b_era) l →
    move k b (b <| b_bonded ::= delete stash |> <| b_ledger ::= delete c |> <| b_payee ::= λ P, P ∖ {[stash]} |>
      <| b_validators ::= λ V, V ∖ {[stash]} |> <| b_nominators ::= λ N, N ∖ {[stash]} |>)
| mv_era b starts rewards :
    let era := match b.(b_era) with Some e => e + 1 | None => 0 end in
    starts ⊆ {[era]} ∪ b.(b_starts) → rewards ⊆ b.(b_rewards) →
    move Normal b (b <| b_era := Some era |> <| b_starts := starts |> <| b_rewards := rewards |>)
| mv_start b :
    let active := match b.(b_active) with Some e => e + 1 | None => 0 end in
    active ∈ b.(b_starts) → move Normal b (b <| b_active := Some active |>)
| mv_reward b e :
    b.(b_active) = Some e → e + 1 ∈ b.(b_starts) → move Normal b (b <| b_rewards ::= λ R, {[e]} ∪ R |>)
| mv_queue b q :
    map_Forall (λ _, Forall slash_ok) q → move Normal b (b <| b_queue := q |>).

Lemma seqZ_sorted a n : StronglySorted Z.lt (seqZ a n).
Proof.
  remember (Z.to_nat n) as m eqn:Hm. revert a n Hm. induction m as [|m IH]; intros a n Hm.
  - rewrite seqZ_nil by lia. constructor.
  - rewrite seqZ_cons by lia. constructor; [apply IH; lia|]. apply Forall_forall. intros x Hx%elem_of_seqZ. lia.
Qed.

(** They fit into the bounded vector. *)
Lemma past_eras_spec cur :
  0 <= cur → try_into_bounded HistoryDepth (past_eras cur) = Some (past_eras cur) ∧
  StronglySorted Z.lt (past_eras cur) ∧ Forall (λ e, e <= cur) (past_eras cur) ∧
  Z.of_nat (length (past_eras cur)) <= HistoryDepth.
Proof.
  intros Hcur. pose proof HistoryDepth_u32.
  assert (Hlen : Z.of_nat (length (past_eras cur)) <= HistoryDepth)
    by (unfold past_eras, era_range, saturating_sub; rewrite length_seqZ; lia).
  split_and!; [|apply seqZ_sorted| |done].
  - unfold try_into_bounded. case_match; [done|lia].
  - apply Forall_forall. intros x Hx%elem_of_seqZ. unfold saturating_sub in Hx. lia.
Qed.

(** ** Well-formed bonds *)

Record ledger_wf (era : Z) (l : StakingLedger) : Prop := {
  lw_ok : ledger_ok l;
  lw_len : Z.of_nat (length l.(ld_unlocking)) <= MaxUnlockingChunks;
  lw_sorted : StronglySorted Z.lt (uc_era <$> l.(ld_unlocking));
  lw_eras : Forall (λ c, c.(uc_era) <= era + BondingDuration) l.(ld_unlocking);
  lw_claimed_sorted : StronglySorted Z.lt l.(ld_claimed_rewards);
  lw_claimed : Forall (λ e, e <= era) l.(ld_claimed_rewards);
  lw_claimed_len : Z.of_nat (length l.(ld_claimed_rewards)) <= HistoryDepth
}.

(** A stash and its controller determine each other, nobody validates and nominates
    at once, and only a bonded stash has a role. *)
Record bonds_ok (b : Bonds) : Prop := {
  bo_ledger stash c : b.(b_bonded) !! stash = Some c → ∃ l, b.(b_ledger) !! c = Some l ∧ l.(ld_stash) = stash;
  bo_bonded c l : b.(b_ledger) !! c = Some l → b.(b_bonded) !! l.(ld_stash) = Some c;
  bo_wf c l : b.(b_ledger) !! c = Some l → ledger_wf (era_of b.(b_era)) l;
  bo_roles stash : stash ∈ b.(b_validators) → stash ∉ b.(b_nominators);
  bo_staker stash : stash ∈ b.(b_validators) ∪ b.(b_nominators) → is_Some (b.(b_bonded) !! stash);
  bo_payee stash : stash ∈ b.(b_payee) ↔ is_Some (b.(b_bonded) !! stash);
  bo_era : 0 <= era_of b.(b_era);
  bo_starts e : e ∈ b.(b_starts) → e <= era_of b.(b_era);
  bo_active e : b.(b_active) = Some e → 0 <= e <= era_of b.(b_era);
  bo_rewards e : e ∈ b.(b_rewards) → e < era_of b.(b_era);
  bo_queue : map_Forall (λ _, Forall slash_ok) b.(b_queue)
}.

(** What cannot be withdrawn before era [e]. *)
Definition locked_from (e : Z) (l : StakingLedger) : Z :=
  l.(ld_active) + chunk_sum (filter (λ c, e <= c.(uc_era)) l.(ld_unlocking)).

Definition ledger_at (b : Bonds) (stash : AccountId) : option StakingLedger :=
  c ← b.(b_bonded) !! stash; b.(b_ledger) !! c.

Definition locked (e : Z) (b : Bonds) (stash : AccountId) : Z :=
  from_option (locked_from e) 0 (ledger_at b stash).

(** ** Chunks *)

Lemma sorted_snoc (l : list Z) a :
  StronglySorted Z.lt (l ++ [a]) ↔ StronglySorted Z.lt l ∧ Forall (λ x, x < a) l.
Proof.
  induction l as [|x l IH]; cbn.
  - split; [by split; constructor|]. intros _. by repeat constructor.
  - split.
    + intros Hs. inversion_clear Hs as [|?? Hs' Hf]. apply IH in Hs' as [Hl Hla].
      apply Forall_app in Hf as [Hf1 Hf2]. inversion_clear Hf2. split; constructor; done.
    + intros [Hs Hf]. inversion_clear Hs as [|?? Hs' Hfx]. inversion_clear Hf as [|?? Hxa Hla].
      constructor; [by apply IH|]. apply Forall_app. split; [done|]. by repeat constructor.
Qed.

Lemma chunk_sum_filter_le (P : UnlockChunk → Prop) `{!∀ c, Decision (P c)} u :
  Forall (λ c, 0 <= c.(uc_value)) u → chunk_sum (filter P u) <= chunk_sum u.
Proof.
  induction 1 as [|c u Hc Hu IH]; [done|]. rewrite filter_cons, chunk_sum_cons.
  case_decide; rewrite ?chunk_sum_cons; lia.
Qed.

Lemma try_push_chunk_spec u v era u' :
  try_push MaxUnlockingChunks u {| uc_value := v; uc_era := era |} = Some u' → 0 <= v →
  Forall (λ c, 0 <= c.(uc_value)) u → Forall (λ c, c.(uc_era) < era) u → StronglySorted Z.lt (uc_era <$> u) →
  chunk_sum u' = chunk_sum u + v ∧ Forall (λ c, 0 <= c.(uc_value)) u' ∧
  Forall (λ c, c.(uc_era) <= era) u' ∧ StronglySorted Z.lt (uc_era <$> u') ∧
  Z.of_nat (length u') <= MaxUnlockingChunks ∧
  ∀ e, e <= era → chunk_sum (filter (λ c, e <= c.(uc_era)) u') = chunk_sum (filter (λ c, e <= c.(uc_era)) u) + v.
Proof.
  unfold try_push. case_match eqn:Hlt; [|done]. intros [= <-] Hv Hu He Hs.
  rewrite chunk_sum_app, fmap_app, length_app. cbn. rewrite chunk_sum_cons, chunk_sum_nil. cbn. split_and!.
  - lia.
  - apply Forall_app. split; [done|]. by repeat constructor.
  - apply Forall_app. split; [|by repeat constructor]. eapply Forall_impl; [exact He|]. cbn. lia.
  - apply sorted_snoc. split; [done|]. by apply Forall_fmap.
  - lia.
  - intros e Hle. rewrite filter_app, chunk_sum_app, filter_cons. cbn. rewrite decide_True by done.
    rewrite chunk_sum_cons, chunk_sum_nil. cbn. lia.
Qed.

Lemma push_chunk_spec u v era u' :
  push_chunk u v era = Some u' → 0 <= v → chunk_sum u + v < 2 ^ 128 → Forall (λ c, 0 <= c.(uc_value)) u →
  Forall (λ c, c.(uc_era) <= era) u → StronglySorted Z.lt (uc_era <$> u) →
  Z.of_nat (length u) <= MaxUnlockingChunks →
  chunk_sum u' = chunk_sum u + v ∧ Forall (λ c, 0 <= c.(uc_value)) u' ∧
  Forall (λ c, c.(uc_era) <= era) u' ∧ StronglySorted Z.lt (uc_era <$> u') ∧
  Z.of_nat (length u') <= MaxUnlockingChunks ∧
  ∀ e, e <= era → chunk_sum (filter (λ c, e <= c.(uc_era)) u') = chunk_sum (filter (λ c, e <= c.(uc_era)) u) + v.
Proof.
  unfold push_chunk. destruct u as [|c u _] using rev_ind; cbn [last].
  { intros Hp ? _ Hu _ Hs _. by apply try_push_chunk_spec. }
  rewrite last_snoc. intros Hp Hv Hlt Hu He Hs Hlen. rewrite fmap_app in Hs. cbn in Hs.
  rewrite chunk_sum_app, chunk_sum_cons, chunk_sum_nil in *. apply Forall_app in Hu as [Hu Hc].
  apply Forall_app in He as [He Hce]. apply sorted_snoc in Hs as [Hs Hsc]. inversion_clear Hc as [|?? Hcv _].
  inversion_clear Hce as [|?? Hcera _]. pose proof (chunk_sum_nonneg u Hu). destruct (Z.eqb_spec (uc_era c) era) as [<-|Hne].
  - assert (Hsat : saturating_add 128 (uc_value c) v = uc_value c + v) by (unfold saturating_add; lia).
    injection Hp as <-. rewrite removelast_last. unfold set_field, set_uc_uc_value. rewrite Hsat.
    rewrite chunk_sum_app, chunk_sum_cons, chunk_sum_nil, fmap_app, !length_app in *. cbn. split_and!; [lia| | | |done|].
    + apply Forall_app. split; [done|]. constructor; [cbn; lia|done].
    + apply Forall_app. split; [done|]. constructor; [cbn; lia|done].
    + apply sorted_snoc. by split.
    + intros e Hle. rewrite !filter_app, !chunk_sum_app, !filter_cons. cbn. rewrite !decide_True by done.
      rewrite !chunk_sum_cons. cbn. lia.
  - destruct (try_push_chunk_spec (u ++ [c]) v era u') as (Hsum & Hrest); try done.
    + apply Forall_app. split; [done|]. by repeat constructor.
    + apply Forall_app. split; [|constructor; [cbn; lia|done]]. rewrite Forall_fmap in Hsc.
      eapply Forall_impl; [exact Hsc|]. cbn. lia.
    + rewrite fmap_app. apply sorted_snoc. by split.
    + rewrite Hsum, chunk_sum_app, chunk_sum_cons, chunk_sum_nil. split; [lia|done].
Qed.

(** ** Moves keep ledgers well-formed *)

Lemma Forall_sublist {A} (P : A → Prop) (l l' : list A) : l' `sublist_of` l → Forall P l → Forall P l'.
Proof. rewrite !Forall_forall. intros Hsub Hl x Hx. eapply Hl, elem_of_sublist; done. Qed.

Lemma sorted_sublist (l l' : list Z) : l' `sublist_of` l → StronglySorted Z.lt l → StronglySorted Z.lt l'.
Proof.
  induction 1 as [|x l1 l2 Hl IH|x l1 l2 Hl IH]; intros Hs; [done| |].
  - inversion_clear Hs as [|?? Hs' Hf]. constructor; [auto|]. eapply Forall_sublist; [exact Hl|done].
  - inversion_clear Hs. auto.
Qed.

Lemma chunks_le_eras u u' : chunks_le u' u → uc_era <$> u' = uc_era <$> u.
Proof. induction 1 as [|c' c u' u [He _] Hu IH]; cbn; [done|]. by rewrite He, IH. Qed.

Lemma forall_eras (P : Z → Prop) u : Forall P (uc_era <$> u) ↔ Forall (λ c, P c.(uc_era)) u.
Proof. by rewrite Forall_fmap. Qed.

(** Fewer chunks for some of the eras: what slashing, bonding again and freeing leave. *)
Lemma eras_sublist era u u' :
  uc_era <$> u' `sublist_of` uc_era <$> u → StronglySorted Z.lt (uc_era <$> u) →
  Forall (λ c, c.(uc_era) <= era) u → Z.of_nat (length u) <= MaxUnlockingChunks →
  StronglySorted Z.lt (uc_era <$> u') ∧ Forall (λ c, c.(uc_era) <= era) u' ∧
  Z.of_nat (length u') <= MaxUnlockingChunks.
Proof.
  intros Hsub Hs He Hlen. split_and!.
  - by eapply sorted_sublist.
  - apply (forall_eras (λ e, e <= era)). eapply Forall_sublist; [exact Hsub|]. by apply (forall_eras (λ e, e <= era)).
  - apply sublist_length in Hsub. rewrite !length_fmap in Hsub. lia.
Qed.

Lemma ledger_wf_eras era l l' :
  ledger_wf era l → ledger_ok l' → l'.(ld_claimed_rewards) = l.(ld_claimed_rewards) →
  uc_era <$> l'.(ld_unlocking) `sublist_of` uc_era <$> l.(ld_unlocking) → ledger_wf era l'.
Proof.
  intros [Hok Hlen Hs He Hcs Hc Hcl] Hok' Hcl' Hsub.
  destruct (eras_sublist _ _ _ Hsub Hs He Hlen) as (? & ? & ?). split; rewrite ?Hcl'; done.
Qed.

Lemma ledger_move_wf era k l l' :
  ledger_wf (era_of era) l → ledger_move era k l l' →
  ledger_wf (era_of era) l' ∧ l'.(ld_stash) = l.(ld_stash).
Proof.
  intros Hwf Hmove. pose proof Hwf as [Hok Hlen Hs He Hcs Hc Hcl]. pose proof Hok as [Ht Hw Ha Hu].
  pose proof (chunk_sum_nonneg _ Hu). destruct Hmove as [l x Hx Hlt|l v u Hv Hd Hp|l e _|l v Hv|l claimed Hc1 Hc2 Hc3 _|l amount slash_era Hamt].
  - split; [|done]. apply (ledger_wf_eras _ l); [done| |done|done].
    split; cbn; rewrite ?wrapping_add_small by lia; done || lia.
  - destruct (push_chunk_spec _ _ _ _ Hp) as (Hsum & Hu' & He' & Hs' & Hlen' & _); try done; try lia.
    split; [|done]. split; cbn; try done. split; cbn; done || lia.
  - destruct (consolidate_unlocked_spec l e Hok) as (Hok' & Hun & _ & Hst & Hcl' & _). split; [|done].
    apply (ledger_wf_eras _ l); [done..|]. rewrite Hun. apply fmap_sublist, sublist_filter.
  - pose proof (rebond_spec l v Hok Hv) as Hre. destruct (StakingLedger.rebond l v) as [l' amount].
    destruct Hre as (Hok' & _ & _ & _ & Hst & Hcl' & _ & k & Hle & _). split; [|done]. cbn.
    apply (ledger_wf_eras _ l); [done..|]. rewrite (chunks_le_eras _ _ Hle). apply fmap_sublist, sublist_take.
  - split; [|done]. by split.
  - pose proof (slash_spec BondingDuration l amount minimum slash_era Hok Hamt minimum_balance_nonneg) as Hsl.
    destruct (slash _ _ _ _ _) as [[l' taken] m].
    destruct Hsl as (Hok' & _ & _ & _ & (u & Hle & Hsub) & Hst & Hcl' & _). split; [|done]. cbn.
    apply (ledger_wf_eras _ l); [done..|]. rewrite <- (chunks_le_eras _ _ Hle). by apply fmap_sublist.
Qed.

(** ** Moves keep bonds well-formed *)

Lemma ledger_wf_era era era' l : ledger_wf era l → era <= era' → ledger_wf era' l.
Proof.
  intros [Hok Hlen Hs He Hcs Hc Hcl] Hle. split; try done.
  - eapply Forall_impl; [exact He|]. cbn. lia.
  - eapply Forall_impl; [exact Hc|]. cbn. lia.
Qed.

Lemma bonds_ok_ledger b c l l' :
  bonds_ok b → b.(b_ledger) !! c = Some l → ledger_wf (era_of b.(b_era)) l' → l'.(ld_stash) = l.(ld_stash) →
  bonds_ok (b <| b_ledger ::= <[c := l']> |>).
Proof.
  intros [B1 B2 B3 B4 B5 B6 B7 B8 B9 B10 B11] Hc Hwf Hst. split; cbn; try done.
  - intros stash c0 Hq. destruct (B1 _ _ Hq) as (l0 & Hl0 & Hs0). destruct (decide (c = c0)) as [<-|Hne].
    + exists l'. rewrite lookup_insert_eq. split; [done|]. congruence.
    + exists l0. by rewrite lookup_insert_ne.
  - intros c0 l0. rewrite lookup_insert_Some. intros [[<- <-]|[Hne Hl0]]; [|by apply B2].
    rewrite Hst. by apply B2.
  - intros c0 l0. rewrite lookup_insert_Some. intros [[<- <-]|[Hne Hl0]]; [done|by eapply B3].
Qed.

Lemma bonds_ok_bond b stash c l :
  bonds_ok b → b.(b_bonded) !! stash = None → b.(b_ledger) !! c = None →
  ledger_wf (era_of b.(b_era)) l → l.(ld_stash) = stash →
  bonds_ok (b <| b_bonded ::= <[stash := c]> |> <| b_ledger ::= <[c := l]> |> <| b_payee ::= λ P, {[stash]} ∪ P |>).
Proof.
  intros [B1 B2 B3 B4 B5 B6 B7 B8 B9 B10 B11] Hb Hc Hwf Hst. split; cbn; try done.
  - intros stash0 c0. rewrite lookup_insert_Some. intros [[<- <-]|[Hne Hq]].
    + exists l. by rewrite lookup_insert_eq.
    + destruct (B1 _ _ Hq) as (l0 & Hl0 & Hs0). exists l0. rewrite lookup_insert_ne by congruence. done.
  - intros c0 l0. rewrite !lookup_insert_Some. intros [[<- <-]|[Hne Hl0]]; [by left|]. right.
    pose proof (B2 _ _ Hl0). split; [congruence|done].
  - intros c0 l0. rewrite lookup_insert_Some. intros [[<- <-]|[Hne Hl0]]; [done|by eapply B3].
  - intros stash0 Hs0%B5. destruct (decide (stash = stash0)) as [->|]; [by rewrite lookup_insert_eq|].
    by rewrite lookup_insert_ne.
  - intros stash0. destruct (decide (stash = stash0)) as [->|]; [rewrite lookup_insert_eq; set_solver|].
    rewrite lookup_insert_ne by done. rewrite <- B6. set_solver.
Qed.

Lemma bonds_ok_controller b stash c c' l :
  bonds_ok b → b.(b_bonded) !! stash = Some c → b.(b_ledger) !! c = Some l → b.(b_ledger) !! c' = None →
  bonds_ok (b <| b_bonded ::= <[stash := c']> |> <| b_ledger ::= λ m, <[c' := l]> (delete c m) |>).
Proof.
  intros [B1 B2 B3 B4 B5 B6 B7 B8 B9 B10 B11] Hb Hc Hc'.
  assert (Hst : l.(ld_stash) = stash) by (destruct (B1 _ _ Hb) as (l0 & ? & ?); congruence).
  assert (Hsome : ∀ a, is_Some (<[stash := c']> b.(b_bonded) !! a) ↔ is_Some (b.(b_bonded) !! a)).
  { intros a. destruct (decide (stash = a)) as [<-|]; [rewrite lookup_insert_eq, Hb|rewrite lookup_insert_ne by done];
      split; by eauto. }
  split; cbn; try done.
  - intros stash0 c0. rewrite lookup_insert_Some. intros [[<- <-]|[Hne Hq]].
    + exists l. by rewrite lookup_insert_eq.
    + destruct (B1 _ _ Hq) as (l0 & Hl0 & Hs0). exists l0.
      assert (c0 ≠ c) by (intros ->; congruence). assert (c0 ≠ c') by congruence.
      by rewrite lookup_insert_ne, lookup_delete_ne by done.
  - intros c0 l0. rewrite lookup_insert_Some, lookup_delete_Some.
    intros [[<- <-]|[Hne [Hne' Hl0]]]; [by rewrite Hst, lookup_insert_eq|].
    pose proof (B2 _ _ Hl0). rewrite lookup_insert_ne; [done|]. intros ->. congruence.
  - intros c0 l0. rewrite lookup_insert_Some, lookup_delete_Some.
    intros [[<- <-]|[Hne [Hne' Hl0]]]; by eapply B3.
  - intros a Ha. apply Hsome. by apply B5.
  - intros a. rewrite Hsome. apply B6.
Qed.

Lemma bonds_ok_kill b stash c :
  bonds_ok b → b.(b_bonded) !! stash = Some c →
  bonds_ok (b <| b_bonded ::= delete stash |> <| b_ledger ::= delete c |> <| b_payee ::= λ P, P ∖ {[stash]} |>
    <| b_validators ::= λ V, V ∖ {[stash]} |> <| b_nominators ::= λ N, N ∖ {[stash]} |>).
Proof.
  intros [B1 B2 B3 B4 B5 B6 B7 B8 B9 B10 B11] Hb. split; cbn; try done.
  - intros stash0 c0. rewrite lookup_delete_Some. intros [Hne Hq].
    destruct (B1 _ _ Hq) as (l0 & Hl0 & Hs0). exists l0. rewrite lookup_delete_ne; [done|].
    intros <-. destruct (B1 _ _ Hb) as (l1 & ? & ?). congruence.
  - intros c0 l0. rewrite !lookup_delete_Some. intros [Hne Hl0]. pose proof (B2 _ _ Hl0).
    split; [congruence|done].
  - intros c0 l0. rewrite lookup_delete_Some. intros [_ Hl0]. by eapply B3.
  - intros a. specialize (B4 a). set_solver.
  - intros a Ha. rewrite lookup_delete_ne by set_solver. apply B5. set_solver.
  - intros a. destruct (decide (stash = a)) as [->|]; [rewrite lookup_delete_eq|rewrite lookup_delete_ne, <- B6 by done].
    + split; [set_solver|by intros []].
    + set_solver.
Qed.

Lemma move_ok k b b' : bonds_ok b → move k b b' → bonds_ok b'.
Proof.
  intros Hok Hmove. pose proof Hok as [B1 B2 B3 B4 B5 B6 B7 B8 B9 B10 B11].
  destruct Hmove as [k b c l l' Hl Hm|b stash c value Hb Hl Hv|b stash Hb|b stash Hb|b stash|b stash Hb
    |b stash c c' l Hb Hl Hl'|k b stash c l Hb Hl Hk|b starts rewards era Hst Hr|b active Hact|b e0 Hact Hst|b q Hq].
  - destruct (ledger_move_wf _ _ _ _ (B3 _ _ Hl) Hm) as [Hwf Hst]. by eapply bonds_ok_ledger.
  - apply bonds_ok_bond; try done. pose proof MaxUnlockingChunks_u32.
    destruct (past_eras_spec _ B7) as (_ & Hs & Hle & Hlen).
    split; cbn; try done; [|lia|constructor]. split; cbn; rewrite ?chunk_sum_nil; done || lia.
  - split; cbn; try done; [set_solver|]. intros a Ha. destruct (decide (a = stash)) as [->|]; [done|].
    apply B5. set_solver.
  - split; cbn; try done; [set_solver|]. intros a Ha. destruct (decide (a = stash)) as [->|]; [done|].
    apply B5. set_solver.
  - split; cbn; try done; set_solver.
  - split; cbn; try done. intros a. rewrite elem_of_union, elem_of_singleton, B6. split; [|by right].
    by intros [->|].
  - by eapply bonds_ok_controller.
  - by apply bonds_ok_kill.
  - assert (Hle : era_of b.(b_era) <= era) by (unfold era; destruct (b_era b); cbn; lia).
    split; cbn -[era]; try done.
    + intros c l Hl. eapply ledger_wf_era; [by eapply B3|done].
    + lia.
    + intros e He%Hst. apply elem_of_union in He as [->%elem_of_singleton|He%B8]; lia.
    + intros e He%B9. lia.
    + intros e He%Hr%B10. lia.
  - split; cbn -[active]; try done. intros e [= <-]. split; [|by apply B8].
    unfold active. destruct (b_active b) as [a|]; [|lia]. destruct (B9 a eq_refl). lia.
  - split; cbn -[era_of]; try done. intros e. rewrite elem_of_union, elem_of_singleton. intros [->|He]; [|by apply B10].
    apply B8 in Hst. lia.
  - by split.
Qed.

(** ** Locked funds *)

Lemma chunks_le_filter_sum e u u' k :
  Forall (λ c, 0 <= c.(uc_value)) u → chunks_le u' (take k u) →
  chunk_sum (filter (λ c, e <= c.(uc_era)) u) - chunk_sum (filter (λ c, e <= c.(uc_era)) u') <= chunk_sum u - chunk_sum u'.
Proof.
  intros Hu. revert k u'. induction Hu as [|c u Hc Hu IH]; intros k u' Hle.
  - rewrite take_nil in Hle. inversion_clear Hle. done.
  - destruct k as [|k]; cbn in Hle.
    + inversion_clear Hle. rewrite filter_nil, chunk_sum_nil.
      pose proof (chunk_sum_filter_le (λ c, e <= c.(uc_era)) (c :: u)) as Hf.
      specialize (Hf ltac:(by constructor)). lia.
    + inversion_clear Hle as [|c' ? u0 ? [He Hv] Hle']. specialize (IH _ _ Hle').
      rewrite !filter_cons, He, !chunk_sum_cons. case_decide; rewrite ?chunk_sum_cons; lia.
Qed.

Lemma ledger_move_locked era l l' e :
  ledger_wf (era_of era) l → ledger_move era Normal l l' → era_of era < e <= era_of era + BondingDuration →
  locked_from e l <= locked_from e l'.
Proof.
  intros Hwf Hmove He. pose proof Hwf as [Hok Hlen Hs Her _ _ _]. pose proof Hok as [Ht Hw Ha Hu].
  pose proof (chunk_sum_nonneg _ Hu). unfold locked_from. remember Normal as k.
  destruct Hmove as [l x Hx Hlt|l v u Hv Hd Hp|l e0 Hera|l v Hv|l claimed Hc1 Hc2 Hc3 _|l amount slash_era Hamt]; cbn; try done.
  - rewrite wrapping_add_small by lia. lia.
  - destruct (push_chunk_spec _ _ _ _ Hp) as (_ & _ & _ & _ & _ & Hf); try done; try lia.
    rewrite Hf by lia. lia.
  - destruct (consolidate_unlocked_spec l e0 Hok) as (_ & Hun & Hact & _). rewrite Hun, Hact.
    rewrite list_filter_filter_l by (cbn; intros; subst; cbn in *; lia). done.
  - pose proof (rebond_spec l v Hok Hv) as Hre. destruct (StakingLedger.rebond l v) as [l' amount].
    destruct Hre as ([Ht' _ _ _] & _ & Hact & Htot & _ & _ & _ & k' & Hle & _). cbn.
    pose proof (chunks_le_filter_sum e _ _ _ Hu Hle). lia.
Qed.

(** Bonds whose ledger of a stash is unchanged. *)
Lemma locked_same e b b' stash : ledger_at b' stash = ledger_at b stash → locked e b' stash = locked e b stash.
Proof. unfold locked. by intros ->. Qed.

Lemma ledger_at_Some b stash l :
  ledger_at b stash = Some l ↔ ∃ c, b.(b_bonded) !! stash = Some c ∧ b.(b_ledger) !! c = Some l.
Proof. unfold ledger_at. by rewrite bind_Some. Qed.

Lemma ledger_at_stash b stash l : bonds_ok b → ledger_at b stash = Some l → l.(ld_stash) = stash.
Proof.
  intros [B1 _ _ _ _ _ _ _ _ _ _]. rewrite ledger_at_Some. intros (c & Hc & Hl).
  destruct (B1 _ _ Hc) as (l' & ? & ?). congruence.
Qed.

Lemma kill_locked era l e :
  ledger_wf (era_of era) l → kill_reason Normal era l → era_of era < e → locked_from e l < minimum.
Proof.
  intros [[Ht Hw Ha Hu] _ _ _ _ _ _] [Hnil Hlt] He. unfold locked_from. destruct era as [e0|].
  - destruct (consolidate_unlocked_spec l e0) as (_ & Hun & Hact & _); [done|]. rewrite Hun in Hnil. rewrite Hact in Hlt.
    assert (filter (λ c, e <= c.(uc_era)) l.(ld_unlocking) = []) as ->; [|rewrite chunk_sum_nil; lia].
    cbn in He. clear -Hnil He. induction l.(ld_unlocking) as [|c u IH]; [done|].
    rewrite filter_cons in *. repeat case_decide; done || lia || auto.
  - rewrite Hnil, filter_nil, chunk_sum_nil. lia.
Qed.

Lemma ledger_move_kind era k l l' : ledger_move era k l l' → k = Normal ∨ k = Slashing l.(ld_stash).
Proof. destruct 1; auto. Qed.

Definition fresh_ledger (era : option Z) (stash : AccountId) (value : Z) : StakingLedger :=
  {| ld_stash := stash; ld_total := value; ld_active := value; ld_unlocking := [];
     ld_claimed_rewards := past_eras (era_of era) |}.

(** What a move does to the ledger of one stash. *)
Inductive ledger_change (era : option Z) (k : Kind) (stash : AccountId) : option StakingLedger → option StakingLedger → Prop :=
| lc_same o : ledger_change era k stash o o
| lc_move l l' : l.(ld_stash) = stash → ledger_wf (era_of era) l → ledger_move era k l l' →
    ledger_change era k stash (Some l) (Some l')
| lc_bond value : 0 <= value → ledger_change era k stash None (Some (fresh_ledger era stash value))
| lc_kill l : l.(ld_stash) = stash → ledger_wf (era_of era) l → kill_reason k era l →
    ledger_change era k stash (Some l) None.

Lemma lc_eq era k stash o o' : o' = o → ledger_change era k stash o o'.
Proof. intros ->. apply lc_same. Qed.

(** Distinct stashes have distinct controllers. *)
Lemma controller_ne b stash stash' c c' :
  bonds_ok b → b.(b_bonded) !! stash = Some c → b.(b_bonded) !! stash' = Some c' → stash ≠ stash' → c ≠ c'.
Proof.
  intros Hok Hc Hc' Hne ->. destruct (bo_ledger _ Hok _ _ Hc) as (l & ? & ?), (bo_ledger _ Hok _ _ Hc') as (l' & ? & ?).
  congruence.
Qed.

Lemma ledger_at_of b c l : bonds_ok b → b.(b_ledger) !! c = Some l → ledger_at b l.(ld_stash) = Some l.
Proof. intros Hok Hl. unfold ledger_at. rewrite (bo_bonded _ Hok _ _ Hl). done. Qed.

Lemma move_ledger_at k b b' stash :
  bonds_ok b → move k b b' → ledger_change b.(b_era) k stash (ledger_at b stash) (ledger_at b' stash).
Proof.
  intros Hok Hmove. pose proof Hok as [B1 B2 B3 _ _ _ _ _ _ _ _].
  destruct Hmove as [k b c l l' Hl Hm|b stash0 c value Hb Hl Hv|b stash0 Hb|b stash0 Hb|b stash0|b stash0 Hb
    |b stash0 c c' l Hb Hl Hl'|k b stash0 c l Hb Hl Hk|b starts rewards era Hst Hr|b active Hact|b e0 Hact Hst|b q Hq];
    try apply lc_same.
  - destruct (decide (stash = l.(ld_stash))) as [->|Hne].
    + rewrite (ledger_at_of _ _ _ Hok Hl). unfold ledger_at. cbn. rewrite (B2 _ _ Hl). cbn. rewrite lookup_insert_eq.
      by apply lc_move; [|eapply B3|].
    + apply lc_eq. unfold ledger_at. cbn.
      destruct (b_bonded b !! stash) as [c0|] eqn:Hc0; [|done]. cbn. rewrite lookup_insert_ne; [done|].
      intros <-. by eapply (controller_ne b stash l.(ld_stash)); [| |apply B2| |].
  - destruct (decide (stash = stash0)) as [->|Hne].
    + unfold ledger_at. cbn. rewrite Hb, lookup_insert_eq. cbn. rewrite lookup_insert_eq. apply (lc_bond _ _ _ value); lia.
    + apply lc_eq. unfold ledger_at. cbn.
      rewrite lookup_insert_ne by done. destruct (b_bonded b !! stash) as [c0|] eqn:Hc0; [|done]. cbn.
      rewrite lookup_insert_ne; [done|]. intros <-. destruct (B1 _ _ Hc0) as (l0 & ? & ?). congruence.
  - apply lc_eq. unfold ledger_at. cbn.
    destruct (decide (stash = stash0)) as [->|Hne].
    + rewrite lookup_insert_eq, Hb. cbn. by rewrite lookup_insert_eq.
    + rewrite lookup_insert_ne by done. destruct (b_bonded b !! stash) as [c0|] eqn:Hc0; [|done]. cbn.
      destruct (B1 _ _ Hc0) as (l0 & Hl0 & _). pose proof (controller_ne _ _ _ _ _ Hok Hc0 Hb Hne).
      by rewrite lookup_insert_ne, lookup_delete_ne by congruence.
  - destruct (B1 _ _ Hb) as (l1 & Hl1 & Hst). rewrite Hl in Hl1. injection Hl1 as <-.
    destruct (decide (stash = stash0)) as [->|Hne].
    + unfold ledger_at. cbn. rewrite Hb, lookup_delete_eq. cbn. rewrite Hl. by apply lc_kill; [|eapply B3|].
    + apply lc_eq. unfold ledger_at. cbn.
      rewrite lookup_delete_ne by done. destruct (b_bonded b !! stash) as [c0|] eqn:Hc0; [|done]. cbn.
      pose proof (controller_ne _ _ _ _ _ Hok Hc0 Hb Hne). by rewrite lookup_delete_ne by done.
Qed.

(** A move that does not slash, reap or force out a stash keeps what is locked of it
    beyond the current era, unless that is less than the existential deposit. *)
Lemma move_locked k b b' stash e :
  bonds_ok b → move k b b' → spares stash k → era_of b.(b_era) < e <= era_of b.(b_era) + BondingDuration →
  locked e b stash <= locked e b' stash ∨ locked e b stash < minimum.
Proof.
  intros Hok Hmove Hk He. pose proof (move_ledger_at _ _ _ stash Hok Hmove) as Hch. unfold locked.
  destruct Hch as [o|l l' Hst Hwf Hm|value Hv|l Hst Hwf Hkill]; cbn.
  - by left.
  - left. destruct (ledger_move_kind _ _ _ _ Hm) as [-> | ->]; [by eapply ledger_move_locked|by rewrite Hst in Hk].
  - left. unfold locked_from. cbn. rewrite chunk_sum_nil. lia.
  - right. destruct k; [|done|cbn in *; congruence..]. eapply kill_locked; [done|done|lia].
Qed.

Lemma locked_ge e b stash c l :
  bonds_ok b → b.(b_bonded) !! stash = Some c → b.(b_ledger) !! c = Some l → l.(ld_active) <= locked e b stash.
Proof.
  intros Hok Hc Hl. unfold locked, ledger_at. rewrite Hc. cbn. rewrite Hl. cbn. unfold locked_from.
  pose proof (ledger_chunks _ (lw_ok _ _ (bo_wf _ Hok _ _ Hl))) as Hu.
  pose proof (chunk_sum_nonneg (filter (λ c, e <= c.(uc_era)) l.(ld_unlocking)) (Forall_sublist _ _ _ (sublist_filter _ _) Hu)). lia.
Qed.

Lemma locked_le e b stash :
  bonds_ok b → 0 < locked e b stash →
  ∃ c l, b.(b_bonded) !! stash = Some c ∧ b.(b_ledger) !! c = Some l ∧ locked e b stash <= l.(ld_total).
Proof.
  intros Hok. unfold locked. destruct (ledger_at b stash) as [l|] eqn:Hl; cbn; [|lia]. intros _.
  apply ledger_at_Some in Hl as (c & Hc & Hl). exists c, l. split_and!; [done|done|].
  destruct (lw_ok _ _ (bo_wf _ Hok _ _ Hl)) as [Ht _ _ Hu]. unfold locked_from.
  pose proof (chunk_sum_filter_le (λ c, e <= c.(uc_era)) _ Hu). lia.
Qed.

(** ** Claimed rewards *)

Lemma ledger_move_claimed era k l l' e :
  ledger_wf (era_of era) l → ledger_move era k l l' → e ∈ l.(ld_claimed_rewards) →
  saturating_sub (era_of era) HistoryDepth <= e → e ∈ l'.(ld_claimed_rewards).
Proof.
  intros Hwf Hmove. pose proof (lw_ok _ _ Hwf) as Hok.
  destruct Hmove as [l x Hx Hlt|l v u Hv Hd Hp|l e0 _|l v Hv|l claimed Hc1 Hc2 Hc3 Hc4|l amount slash_era Hamt]; auto.
  - by destruct (consolidate_unlocked_spec l e0 Hok) as (_ & _ & _ & _ & -> & _).
  - pose proof (rebond_spec l v Hok Hv) as Hre. destruct (StakingLedger.rebond l v) as [l' amount]. cbn.
    by destruct Hre as (_ & _ & _ & _ & _ & -> & _).
  - pose proof (slash_spec BondingDuration l amount minimum slash_era Hok Hamt minimum_balance_nonneg) as Hsl.
    destruct (slash _ _ _ _ _) as [[l' taken] m]. cbn. by destruct Hsl as (_ & _ & _ & _ & _ & _ & -> & _).
Qed.

(** The rewards of a stash for an era are claimed or out of reach, now and for
    whatever ledger it may have later. *)
Definition claimed (b : Bonds) (stash : AccountId) (e : Z) : Prop :=
  0 <= e < era_of b.(b_era) ∧
  ∀ l, ledger_at b stash = Some l →
    e ∈ l.(ld_claimed_rewards) ∨ e < saturating_sub (era_of b.(b_era)) HistoryDepth.

Lemma move_era k b b' : move k b b' → era_of b.(b_era) <= era_of b'.(b_era).
Proof. destruct 1 as [| | | | | | | |b ? ? era| | |]; try reflexivity. cbn. unfold era. destruct (b_era b); cbn; lia. Qed.

Lemma move_claimed k b b' stash e : bonds_ok b → move k b b' → claimed b stash e → claimed b' stash e.
Proof.
  intros Hok Hmove [He Hc]. pose proof (move_era _ _ _ Hmove) as Hera. split; [lia|]. intros l' Hl'.
  assert (Hmono : e < saturating_sub (era_of (b_era b)) HistoryDepth → e < saturating_sub (era_of (b_era b')) HistoryDepth)
    by (unfold saturating_sub; lia).
  pose proof (move_ledger_at _ _ _ stash Hok Hmove) as Hch. rewrite Hl' in Hch.
  inversion Hch as [o Ho Ho'|l l0 Hst Hwf Hm Ho Ho'|value Hv Ho Ho'|]; subst.
  - destruct (Hc l') as [?|?]; [congruence|by left|right; auto].
  - destruct (Hc l) as [Hin|Hlt]; [done| |right; auto].
    destruct (Z.lt_ge_cases e (saturating_sub (era_of (b_era b)) HistoryDepth)) as [Hlt|Hge]; [right; auto|left].
    by eapply ledger_move_claimed.
  - destruct (Z.lt_ge_cases e (saturating_sub (era_of (b_era b)) HistoryDepth)) as [Hlt|Hge]; [right; auto|left].
    cbn. apply elem_of_seqZ. unfold saturating_sub in *. lia.
Qed.

(** ** Sequences of moves *)

Definition moves (K : Kind → Prop) : relation Bonds := rtc (λ b b', ∃ k, K k ∧ move k b b').

Lemma moves_ok K b b' : bonds_ok b → moves K b b' → bonds_ok b'.
Proof. intros Hok. induction 1 as [|b1 b2 b3 (k & _ & Hm) _ IH]; [done|]. eauto using move_ok. Qed.

Lemma moves_weaken (K K' : Kind → Prop) b b' : (∀ k, K k → K' k) → moves K b b' → moves K' b b'.
Proof. intros HK. apply rtc_subrel. intros b1 b2 (k & Hk & Hm). eauto. Qed.

Lemma moves_once (K : Kind → Prop) k b b' : K k → move k b b' → moves K b b'.
Proof. intros. apply rtc_once. eauto. Qed.

Lemma moves_era K b b' : moves K b b' → era_of b.(b_era) <= era_of b'.(b_era).
Proof. induction 1 as [|b1 b2 b3 (k & _ & Hm) _ IH]; [lia|]. apply move_era in Hm. lia. Qed.

Lemma moves_claimed K b b' stash e : bonds_ok b → moves K b b' → claimed b stash e → claimed b' stash e.
Proof.
  intros Hok Hm. revert Hok. induction Hm as [|b1 b2 b3 (k & _ & Hm) _ IH]; intros Hok Hc; [done|].
  eapply IH; [by eapply move_ok|by eapply move_claimed].
Qed.

Lemma moves_locked b b' stash e :
  bonds_ok b → moves (spares stash) b b' → era_of b'.(b_era) < e <= era_of b.(b_era) + BondingDuration →
  locked e b stash <= locked e b' stash ∨ locked e b stash < minimum.
Proof.
  intros Hok Hm. revert Hok. induction Hm as [b|b1 b2 b3 (k & Hk & Hm) Hms IH]; intros Hok He; [by left|].
  pose proof (move_era _ _ _ Hm). pose proof (moves_era _ _ _ Hms).
  destruct (move_locked _ _ _ stash e Hok Hm Hk) as [Hle|Hlt]; [lia| |by right].
  destruct (IH (move_ok _ _ _ Hok Hm)) as [Hle'|Hlt']; [lia|left; lia|right; lia].
Qed.
End bonds.
