(* ===== verification/StakingRefine.v ===== *)
(** * The staking pallet refines the automaton of bonds

    Every operation of [StakingPallet], from well-formed bonds, changes the bonds by
    a sequence of [move]s of [StakingBonds], whatever its outcome. *)
From S2P Require Import Prelude Errors Frame Wp StakingLedger StakingSpans StakingTypes StakingPallet StakingBonds.

Section primitives.
Context {X : Type} `{!PerbillOps} `{!PerbillLaws} `{!PerquintillOps} `{!PerquintillLaws} `{!StorageIter}
  `{!Config} `{!UnsignedConfig} `{!Currency X} `{!LockableCurrency X} `{!LockableCurrencyLaws X}
  `{!Consumers X} `{!VoterList X} `{!SessionInterface X} `{!ElectionProvider X} `{!StakingHooks X}.
Abbreviation State := (StakingTypes.State Perbill X).
Abbreviation MS := (M State).
Abbreviation moves := (moves (X := X)).
Abbreviation move := (move (X := X)).
Implicit Types (s : State) (K : Kind → Prop).

Definition bonds s : Bonds := {|
  b_bonded := Bonded s; b_ledger := Ledger s; b_validators := dom (Validators s);
  b_nominators := dom (Nominators s); b_payee := dom (Payee s); b_era := CurrentEra s;
  b_active := ae_index <$> ActiveEra s; b_starts := dom (ErasStartSessionIndex s);
  b_rewards := dom (ErasValidatorReward s);
  b_queue := UnappliedSlashes s |}.

Definition refines {A} K (m : MS A) s : Prop :=
  wp m (λ _ s', moves K (bonds s) (bonds s')) (λ s', moves K (bonds s) (bonds s')) s.

(** ** Operations that do not touch the bonds *)

Definition quiet {A} (m : MS A) : Prop := ∀ b, preserves (λ s, bonds s = b) m.

Lemma wp_quiet {A} (m : MS A) (Q : A → State → Prop) (E : State → Prop) s :
  quiet m → (∀ a s', bonds s' = bonds s → Q a s') → (∀ s', bonds s' = bonds s → E s') → wp m Q E s.
Proof.
  intros Hm HQ HE. specialize (Hm (bonds s) s eq_refl). unfold wp. destruct (m s) as [s' [a|e|]]; cbn in Hm; auto.
Qed.

Lemma refines_quiet {A} K (m : MS A) s : quiet m → refines K m s.
Proof. intros Hm. by apply wp_quiet; [done|intros ? s' ->|intros s' ->]. Qed.

Lemma quiet_modify f : (∀ s, bonds (f s) = bonds s) → quiet (modify f).
Proof. intros Hf b s <-. apply Hf. Qed.

Lemma quiet_bind {A B} (m : MS A) (k : A → MS B) : quiet m → (∀ a, quiet (k a)) → quiet (m ≫= k).
Proof. intros Hm Hk b. apply preserves_bind; [apply Hm|]. intros a. apply Hk. Qed.

(** ** The bonds after the primitive changes *)

Lemma bonds_eq b1 b2 :
  b_bonded b1 = b_bonded b2 → b_ledger b1 = b_ledger b2 → b_validators b1 = b_validators b2 →
  b_nominators b1 = b_nominators b2 → b_payee b1 = b_payee b2 → b_era b1 = b_era b2 →
  b_active b1 = b_active b2 → b_starts b1 = b_starts b2 → b_rewards b1 = b_rewards b2 → b_queue b1 = b_queue b2 → b1 = b2.
Proof. destruct b1, b2; cbn. congruence. Qed.

Lemma bonds_remove_nominator s who :
  Nominators s !! who = None → bonds s = (bonds s) <| b_nominators ::= λ N, N ∖ {[who]} |>.
Proof.
  intros Hn. unfold bonds, set_field. apply bonds_eq; try done.
  symmetry. apply difference_disjoint_L, disjoint_singleton_r. by apply not_elem_of_dom.
Qed.

Lemma bonds_remove_validator s who :
  Validators s !! who = None → bonds s = (bonds s) <| b_validators ::= λ V, V ∖ {[who]} |>.
Proof.
  intros Hn. unfold bonds, set_field. apply bonds_eq; try done.
  symmetry. apply difference_disjoint_L, disjoint_singleton_r. by apply not_elem_of_dom.
Qed.

Lemma wp_do_remove_nominator who (Q : bool → State → Prop) E s :
  (∀ r s', bonds s' = (bonds s) <| b_nominators ::= λ N, N ∖ {[who]} |> → Q r s') → wp (do_remove_nominator who) Q E s.
Proof.
  intros HQ. unfold do_remove_nominator. wp_steps; apply HQ; [|by apply bonds_remove_nominator].
  apply bonds_eq; try done. apply dom_delete_L.
Qed.

Lemma wp_do_remove_validator who (Q : bool → State → Prop) E s :
  (∀ r s', bonds s' = (bonds s) <| b_validators ::= λ V, V ∖ {[who]} |> → Q r s') → wp (do_remove_validator who) Q E s.
Proof.
  intros HQ. unfold do_remove_validator. wp_steps; apply HQ; [|by apply bonds_remove_validator].
  apply bonds_eq; try done. apply dom_delete_L.
Qed.

Lemma wp_do_add_nominator who n (Q : unit → State → Prop) E s :
  (∀ r s', bonds s' = (bonds s) <| b_nominators ::= λ N, {[who]} ∪ N |> → Q r s') → wp (do_add_nominator who n) Q E s.
Proof. intros HQ. unfold do_add_nominator. wp_steps; apply HQ; (apply bonds_eq; try done); apply dom_insert_L. Qed.

Lemma wp_do_add_validator who p (Q : unit → State → Prop) E s :
  (∀ r s', bonds s' = (bonds s) <| b_validators ::= λ V, {[who]} ∪ V |> → Q r s') → wp (do_add_validator who p) Q E s.
Proof. intros HQ. unfold do_add_validator. wp_steps; apply HQ; (apply bonds_eq; try done); apply dom_insert_L. Qed.

Lemma wp_chill_stash stash (Q : unit → State → Prop) E s :
  (∀ r s', bonds s' = (bonds s) <| b_validators ::= λ V, V ∖ {[stash]} |> <| b_nominators ::= λ N, N ∖ {[stash]} |> → Q r s') →
  wp (chill_stash stash) Q E s.
Proof.
  intros HQ. unfold chill_stash. wp_steps. apply wp_do_remove_validator. intros r1 s1 Hs1. wp_steps.
  apply wp_do_remove_nominator. intros r2 s2 Hs2. rewrite Hs1 in Hs2. wp_steps; by apply HQ.
Qed.

Lemma wp_update_ledger c l (Q : unit → State → Prop) E s :
  (∀ r s', bonds s' = (bonds s) <| b_ledger ::= <[c := l]> |> → Q r s') → wp (update_ledger c l) Q E s.
Proof. intros HQ. unfold update_ledger. wp_steps. by apply HQ. Qed.

(** ** Roles and payees *)

(** A controller's ledger names a bonded stash. *)
Lemma bonded_stash s c l : bonds_ok (bonds s) → Ledger s !! c = Some l → Bonded s !! l.(ld_stash) = Some c.
Proof. intros Hok. apply (bo_bonded _ Hok). Qed.

Lemma quiet_update_voter stash : quiet (update_voter stash).
Proof. intros b. unfold update_voter. preserves. by apply preserves_modify. Qed.

Lemma quiet_on_unbalanced h amount : quiet (on_unbalanced h amount).
Proof. intros b. unfold on_unbalanced. preserves. by apply preserves_modify. Qed.

End primitives.

(** The steps of the pallet's own operations. *)
Ltac sk_step :=
  first
  [ wp_step
  | lazymatch goal with
    | |- wp (deposit_event _) _ _ _ => apply wp_modify
    | |- wp validators_count _ _ _ => apply wp_gets
    | |- wp nominators_count _ _ _ => apply wp_gets
    | |- wp (Lookup _) _ _ _ => apply wp_ok_or; [try done; intros ?|intros ? ?]
    | |- wp (do_remove_nominator _) _ _ _ => apply wp_do_remove_nominator; intros ? ? ?
    | |- wp (do_remove_validator _) _ _ _ => apply wp_do_remove_validator; intros ? ? ?
    | |- wp (do_add_nominator _ _) _ _ _ => apply wp_do_add_nominator; intros ? ? ?
    | |- wp (do_add_validator _ _) _ _ _ => apply wp_do_add_validator; intros ? ? ?
    | |- wp (chill_stash _) _ _ _ => apply wp_chill_stash; intros ? ? ?
    | |- wp (update_ledger _ _) _ _ _ => apply wp_update_ledger; intros ? ? ?
    | |- wp (update_voter _) _ _ _ => apply wp_quiet; [apply quiet_update_voter|intros ? ? ?|intros ? ?]
    | |- wp (on_unbalanced _ _) _ _ _ => apply wp_quiet; [apply quiet_on_unbalanced|intros ? ? ?|intros ? ?]
    end ].
Ltac sk_steps := repeat (sk_step; cbv beta).

(** The bonds of a state reached through the primitive changes. *)
Ltac to_bonds :=
  repeat match goal with
  | H : bonds ?s = _ |- context [bonds ?s'] =>
      lazymatch s' with context [s] => first [change (bonds s') with (bonds s); rewrite H | fail] end
  end.

Section dispatchables.
Context {X : Type} `{!PerbillOps} `{!PerbillLaws} `{!PerquintillOps} `{!PerquintillLaws} `{!StorageIter}
  `{!Config} `{!UnsignedConfig} `{!Currency X} `{!LockableCurrency X} `{!LockableCurrencyLaws X}
  `{!Consumers X} `{!VoterList X} `{!SessionInterface X} `{!ElectionProvider X} `{!StakingHooks X}.
Abbreviation State := (StakingTypes.State Perbill X).
Abbreviation MS := (M State).
Abbreviation moves := (moves (X := X)).
Abbreviation move := (move (X := X)).
Abbreviation quiet := (quiet (X := X)).
Abbreviation refines := (refines (X := X)).
Implicit Types (s : State) (K : Kind → Prop).

Lemma validate_refines origin prefs s :
  bonds_ok (bonds s) → refines (λ k, k = Normal) (validate origin prefs) s.
Proof.
  intros Hok. unfold refines, validate. sk_steps; to_bonds; (eapply moves_once; [done|]);
    apply mv_validate; by eexists; apply bonded_stash.
Qed.

Lemma wp_check_targets old targets acc (Q : list AccountId → State → Prop) (E : State → Prop) s :
  E s → (∀ l, Q l s) → wp (fold_m (check_target old) acc targets) Q E s.
Proof.
  intros HE HQ. revert acc. induction targets as [|t targets IH]; intros acc; cbn [fold_m]; wp_steps; [auto|].
  unfold check_target. sk_steps; [apply IH|done].
Qed.

Lemma nominate_refines origin targets s :
  bonds_ok (bonds s) → refines (λ k, k = Normal) (nominate origin targets) s.
Proof.
  intros Hok. unfold refines, nominate. sk_steps; (apply wp_check_targets; [done|]); intros targets'; sk_steps; to_bonds;
    (eapply moves_once; [done|]); apply mv_nominate; by eexists; apply bonded_stash.
Qed.

Lemma chill_refines origin s : bonds_ok (bonds s) → refines (λ k, k = Normal) (chill origin) s.
Proof. intros Hok. unfold refines, chill. sk_steps. to_bonds. eapply moves_once; [done|]. apply mv_chill. Qed.

Lemma chill_other_refines origin c s : bonds_ok (bonds s) → refines (λ k, k = Normal) (chill_other origin c) s.
Proof.
  intros Hok. unfold refines, chill_other. sk_steps; to_bonds; (eapply moves_once; [done|]); apply mv_chill.
Qed.

Lemma bonds_insert_payee s stash p :
  bonds (s <| Payee ::= <[stash := p]> |>) = (bonds s) <| b_payee ::= λ P, {[stash]} ∪ P |>.
Proof. apply bonds_eq; try done. apply dom_insert_L. Qed.

Lemma set_payee_refines origin payee s : bonds_ok (bonds s) → refines (λ k, k = Normal) (set_payee origin payee) s.
Proof.
  intros Hok. unfold refines, set_payee. sk_steps. rewrite bonds_insert_payee. eapply moves_once; [done|].
  apply mv_payee. by eexists; apply bonded_stash.
Qed.

(** ** Bonding *)

Lemma moves_eq K k b b1 b' : K k → move k b b1 → b' = b1 → moves K b b'.
Proof. intros HK Hm ->. by eapply moves_once. Qed.

Lemma bond_refines origin controller value payee s :
  bonds_ok (bonds s) → 0 <= value < 2 ^ 128 → refines (λ k, k = Normal) (bond origin controller value payee) s.
Proof.
  intros Hok Hv. unfold refines, bond. destruct (past_eras_spec (era_of (CurrentEra s)) (bo_era _ Hok)) as (Hfit & Hs & Hle & Hlen).
  sk_steps; try done;
    match goal with H : try_into_bounded _ _ = ?r |- _ => change (try_into_bounded HistoryDepth (past_eras (era_of (CurrentEra s))) = r) in H end;
    [congruence|].
  assert (a1 = past_eras (era_of (CurrentEra s))) as -> by congruence.
  pose proof (free_balance_range a0 who).
  eapply (moves_eq _ Normal); [done|apply (mv_bond (bonds s) who a (Z.min value (free_balance a0 who))); done || lia|].
  to_bonds. apply bonds_eq; try done. apply dom_insert_L.
Qed.

Lemma ledger_wf_of s c l : bonds_ok (bonds s) → Ledger s !! c = Some l → ledger_wf (era_of (CurrentEra s)) l.
Proof. intros Hok. apply (bo_wf _ Hok). Qed.

Lemma moves_ledger K k s c l l' b' :
  K k → Ledger s !! c = Some l → ledger_move (X := X) (CurrentEra s) k l l' →
  b' = (bonds s) <| b_ledger ::= <[c := l']> |> → moves K (bonds s) b'.
Proof. intros HK Hl Hm. apply (moves_eq _ k); [done|]. by apply (mv_ledger k (bonds s) c l). Qed.

Lemma bond_extra_refines origin max_additional s :
  bonds_ok (bonds s) → 0 <= max_additional → refines (λ k, k = Normal) (bond_extra origin max_additional) s.
Proof.
  intros Hok Hmax. unfold refines, bond_extra. sk_steps; try done; to_bonds.
  all: eapply (moves_ledger _ Normal); [done|eassumption| |reflexivity]; apply lm_deposit.
  all: pose proof (free_balance_range (ext s) who); lia.
Qed.

Lemma rebond_refines origin value s :
  bonds_ok (bonds s) → 0 <= value < 2 ^ 128 → refines (λ k, k = Normal) (rebond origin value) s.
Proof.
  intros Hok Hv. unfold refines, rebond. sk_steps; to_bonds.
  all: eapply (moves_ledger _ Normal); [done|eassumption|by apply (lm_rebond _ _ value)|].
  all: match goal with H : StakingLedger.rebond _ _ = _ |- _ => by rewrite H end.
Qed.

(** ** The end of a stash *)

Lemma quiet_clear_stash_metadata stash n : quiet (clear_stash_metadata stash n).
Proof.
  intros b. unfold clear_stash_metadata. preserves. case_match; preserves; by apply preserves_modify.
Qed.

Definition killed (b : Bonds) (stash c : AccountId) : Bonds :=
  b <| b_bonded ::= delete stash |> <| b_ledger ::= delete c |> <| b_payee ::= λ P, P ∖ {[stash]} |>
    <| b_validators ::= λ V, V ∖ {[stash]} |> <| b_nominators ::= λ N, N ∖ {[stash]} |>.

Lemma wp_kill_stash stash n (Q : unit → State → Prop) (E : State → Prop) s :
  (∀ s', bonds s' = bonds s → E s') →
  (∀ r s' c, Bonded s !! stash = Some c → bonds s' = killed (bonds s) stash c → Q r s') →
  wp (kill_stash stash n) Q E s.
Proof.
  intros HE HQ. unfold kill_stash. wp_steps; [by apply HE|].
  apply wp_quiet; [apply quiet_clear_stash_metadata|intros _ s1 Hs1|done]. sk_steps. eapply HQ; [done|].
  to_bonds. rewrite <- Hs1. apply bonds_eq; try done. apply (f_equal (λ P, P)). cbn. apply dom_delete_L.
Qed.

Lemma moves_killed K k s b' stash c l :
  K k → bonds_ok (bonds s) → Bonded s !! stash = Some c → Ledger s !! c = Some l →
  kill_reason (X := X) k (CurrentEra s) l → b' = killed (bonds s) stash c → moves K (bonds s) b'.
Proof. intros HK Hok Hb Hl Hk. apply (moves_eq _ k); [done|]. by apply (mv_kill k (bonds s) stash c l). Qed.

(** The ledger [do_withdraw_unbonded] goes on with. *)
Definition freed (era : option Z) (l : StakingLedger) : StakingLedger :=
  match era with Some current_era => consolidate_unlocked l current_era | None => l end.

Lemma moves_freed K s c l b' :
  K Normal → Ledger s !! c = Some l → b' = (bonds s) <| b_ledger ::= <[c := freed (CurrentEra s) l]> |> →
  moves K (bonds s) b'.
Proof.
  intros HK Hl ->. unfold freed. destruct (CurrentEra s) as [e|] eqn:He.
  - eapply (moves_ledger K Normal); [done|exact Hl| |reflexivity]. rewrite He. by apply lm_consolidate.
  - assert ((bonds s) <| b_ledger ::= <[c := l]> |> = bonds s) as ->; [|done].
    apply bonds_eq; try done. by apply insert_id.
Qed.

Lemma wp_do_withdraw_unbonded c n (Q : unit → State → Prop) (E : State → Prop) s :
  bonds_ok (bonds s) →
  (∀ s', bonds s' = bonds s → E s') →
  (∀ r s', b_era (bonds s') = b_era (bonds s) → moves (λ k, k = Normal) (bonds s) (bonds s') → Q r s') →
  wp (do_withdraw_unbonded c n) Q E s.
Proof.
  intros Hok HE HQ. unfold do_withdraw_unbonded. wp_steps; try by apply HE.
  - apply wp_kill_stash; [done|]. intros r s1 c1 Hc1 Hs1.
    assert (c1 = c) as -> by (rewrite (bonded_stash s c v) in Hc1; congruence).
    match goal with H : _ && _ = true |- _ => apply andb_true_iff in H as [Hnil%bool_decide_eq_true Hlt%Z.ltb_lt] end.
    sk_steps; (apply HQ; to_bonds; [done|]); by eapply (moves_killed _ Normal).
  - sk_steps; (apply HQ; to_bonds; [done|]); by eapply moves_freed.
Qed.

Lemma withdraw_unbonded_refines origin n s :
  bonds_ok (bonds s) → refines (λ k, k = Normal) (withdraw_unbonded origin n) s.
Proof.
  intros Hok. unfold refines, withdraw_unbonded. sk_steps. by apply wp_do_withdraw_unbonded; [|intros s' ->|].
Qed.

(** There are eras left to count. *)
Definition eras_left s : Prop := era_of (CurrentEra s) + BondingDuration + 1 < 2 ^ 32.

(** What is unbonded: the rest of [active] too when it would be dust. *)
Lemma unbond_amount l v l' z :
  ledger_ok l → 0 < v <= l.(ld_active) →
  (let l1 := l <| ld_active ::= λ a, wrapping_sub 128 a v |> in
   if l1.(ld_active) <? minimum_balance (X := X)
   then (l1 <| ld_active := 0 |>, wrapping_add 128 v l1.(ld_active)) else (l1, v)) = (l', z) →
  l' = l <| ld_active := l.(ld_active) - z |> ∧ 0 < z <= l.(ld_active) ∧
  (l.(ld_active) - z = 0 ∨ minimum_balance (X := X) <= l.(ld_active) - z).
Proof.
  intros [Ht Hw Ha Hc] Hv. pose proof (chunk_sum_nonneg _ Hc). cbv zeta. unfold set_field, set_ld_ld_active. cbn.
  rewrite wrapping_sub_small by lia. rewrite wrapping_add_small by lia.
  destruct (Z.ltb_spec (ld_active l - v) (minimum_balance (X := X))); intros [= <- <-]; (split; [f_equal; lia|lia]).
Qed.

Lemma unbond_refines origin value s :
  bonds_ok (bonds s) → eras_left s → 0 <= value → refines (λ k, k = Normal) (unbond origin value) s.
Proof.
  intros Hok Hera Hv. unfold refines, unbond. sk_step. sk_step; cbv beta. sk_step. sk_step; cbv beta. apply wp_bind.
  apply (wp_mono _ (λ _ s1, b_era (bonds s1) = b_era (bonds s) ∧ moves (λ k, k = Normal) (bonds s) (bonds s1))
    _ (λ s1, bonds s1 = bonds s)); [| |intros s' ->; done].
  { sk_steps; [|done]. by apply wp_do_withdraw_unbonded. }
  intros _ s1 [He Hm]. pose proof (moves_ok _ _ _ Hok Hm) as Hok1. cbn in He. unfold eras_left in Hera. rewrite <- He in Hera.
  pose proof (bo_era _ Hok1) as Hpos. cbn in Hpos. pose proof BondingDuration_u32 as Hbd.
  sk_steps; try done; (etrans; [exact Hm|]);
    match goal with Hl : Ledger s1 !! _ = Some _, Hp : _ = (_, _), Hc : push_chunk _ _ _ = Some _ |- _ =>
      pose proof (lw_ok _ _ (ledger_wf_of _ _ _ Hok1 Hl)) as Hlok;
      apply (unbond_amount _ _ _ _ Hlok) in Hp as (-> & Hz & Hd); [|pose proof (ledger_active _ Hlok); lia];
      rewrite wrapping_add_small in Hc by (unfold era_of in *; lia) end;
    to_bonds; (eapply (moves_ledger _ Normal); [done|eassumption| |reflexivity]); by apply lm_unbond.
Qed.

Lemma wp_kill_and_unlock k stash n s :
  bonds_ok (bonds s) → k = Reaping stash ∨ k = Forced stash →
  refines (λ k', k' = k) (kill_stash stash n ;; modify (λ s, s <| ext ::= remove_lock stash |>)) s.
Proof.
  intros Hok Hk. unfold refines. sk_steps. apply wp_kill_stash; [intros s' ->; done|]. intros r s1 c Hc Hs1. sk_steps.
  destruct (bo_ledger _ Hok _ _ Hc) as (l & Hl & Hst).
  eapply (moves_killed _ k); [done|done|exact Hc|exact Hl|by destruct Hk as [-> | ->]|done].
Qed.

Lemma force_unstake_refines origin stash n s :
  bonds_ok (bonds s) → refines (λ k, k = Forced stash) (force_unstake origin stash n) s.
Proof. intros Hok. unfold refines, force_unstake. sk_step. sk_step. apply wp_kill_and_unlock; auto. Qed.

Lemma reap_stash_refines origin stash n s :
  bonds_ok (bonds s) → refines (λ k, k = Reaping stash) (reap_stash origin stash n) s.
Proof.
  intros Hok. unfold refines, reap_stash. sk_steps; try done.
  all: (apply wp_kill_stash; [intros s' ->; done|]); intros r s1 c Hc Hs1; sk_steps;
    destruct (bo_ledger _ Hok _ _ Hc) as (l & Hl & Hst); by eapply (moves_killed _ (Reaping stash)).
Qed.

Lemma set_controller_refines origin controller s :
  bonds_ok (bonds s) → refines (λ k, k = Normal) (set_controller origin controller) s.
Proof.
  intros Hok. unfold refines, set_controller. sk_steps; try done.
  - eapply (moves_eq _ Normal); [done|by eapply (mv_controller (bonds s))|]. by apply bonds_eq.
  - destruct (bo_ledger _ Hok _ _ H7) as (l & Hl & Hst). cbn in *. congruence.
Qed.

Lemma kick_refines origin who s : refines (λ k, k = Normal) (kick origin who) s.
Proof.
  apply refines_quiet. intros b. unfold kick. do 3 (apply preserves_bind; [preserves|intros ?]).
  apply preserves_for_each. intros nom_stash. apply wp_preserves. intros s' <-. sk_steps; try done.
  apply bonds_eq; try done. apply dom_insert_lookup_L. by eexists.
Qed.

Lemma force_apply_min_commission_refines origin stash s :
  refines (λ k, k = Normal) (force_apply_min_commission origin stash) s.
Proof.
  apply refines_quiet. intros b. unfold force_apply_min_commission, try_mutate_existing, try_mutate.
  apply wp_preserves. intros s' <-. sk_steps; try done. apply bonds_eq; try done.
  apply dom_insert_lookup_L. by eexists.
Qed.

(** ** Root and the remaining calls leave the bonds alone *)

Lemma set_validator_count_quiet origin n : quiet (set_validator_count origin n).
Proof. intros b. unfold set_validator_count. preserves. by apply preserves_modify. Qed.

Lemma increase_validator_count_quiet origin n : quiet (increase_validator_count origin n).
Proof. intros b. unfold increase_validator_count. preserves. by apply preserves_modify. Qed.

Lemma scale_validator_count_quiet origin n : quiet (scale_validator_count origin n).
Proof. intros b. unfold scale_validator_count. preserves. by apply preserves_modify. Qed.

Lemma force_eras_quiet origin f : quiet (ensure_root origin ;; put ForceEra f).
Proof. intros b. preserves. by apply preserves_modify. Qed.

Lemma set_invulnerables_quiet origin l : quiet (set_invulnerables origin l).
Proof. intros b. unfold set_invulnerables. preserves. by apply preserves_modify. Qed.

Lemma remove_slash_subset l i : take i l ++ drop (S i) l ⊆ (l : list UnappliedSlash).
Proof.
  intros u. rewrite elem_of_app. intros [Hu|Hu]; [by eapply elem_of_take in Hu as (j & Hj%list_elem_of_lookup_2 & _)|].
  by eapply subseteq_drop.
Qed.

Lemma wp_remove_slashes ix l n (E : State → Prop) s :
  E s → wp (fold_m remove_slash (l, n) ix) (λ acc s', acc.1 ⊆ l ∧ s' = s) E s.
Proof.
  intros HE. eapply (wp_mono _ _ _ (λ s', s' = s)); [|intros acc s' Hacc; exact Hacc|by intros s' ->].
  apply (wp_fold_m (λ acc _ s', acc.1 ⊆ l ∧ s' = s)); [done|]. intros [l' m] i ix' s' [Hsub ->].
  unfold remove_slash. sk_steps; [|done]. split; [|done]. cbn in *. pose proof (remove_slash_subset l' (Z.to_nat (i - m))). set_solver.
Qed.

Lemma bonds_queue s q :
  bonds_ok (bonds s) → map_Forall (λ _, Forall slash_ok) q →
  moves (λ k, k = Normal) (bonds s) (bonds (s <| UnappliedSlashes := q |>)).
Proof. intros Hok Hq. eapply (moves_eq _ Normal); [done|by apply (mv_queue (bonds s) q)|done]. Qed.

Lemma queued_ok s era : bonds_ok (bonds s) → Forall slash_ok (default [] (UnappliedSlashes s !! era)).
Proof.
  intros Hok. destruct (UnappliedSlashes s !! era) as [l|] eqn:Hl; [|constructor]. by apply (bo_queue _ Hok era).
Qed.

Lemma cancel_deferred_slash_refines origin era ix s :
  bonds_ok (bonds s) → refines (λ k, k = Normal) (cancel_deferred_slash origin era ix) s.
Proof.
  intros Hok. unfold refines, cancel_deferred_slash. sk_steps; try done.
  eapply wp_mono; [by apply (wp_remove_slashes _ _ _ (λ s', s' = s))| |by intros s' ->].
  intros [l n] s' [Hsub ->]. cbn in Hsub. sk_steps. apply bonds_queue; [done|].
  apply map_Forall_insert_2; [|apply (bo_queue _ Hok)].
  pose proof (queued_ok s era Hok) as Hq. rewrite Forall_forall in Hq |- *. auto.
Qed.

Lemma set_staking_configs_quiet origin a1 a2 a3 a4 a5 a6 : quiet (set_staking_configs origin a1 a2 a3 a4 a5 a6).
Proof.
  intros b. unfold set_staking_configs, config_op_exp, config_op_exp_option.
  preserves; case_match; preserves; by apply preserves_modify.
Qed.

(** ** Payouts *)

Lemma perbill_mul_range r x : 0 <= x → 0 <= perbill_mul r x <= x.
Proof.
  intros Hx. destruct (perbill_mul_spec r x Hx) as [Hu Hl]. pose proof (parts_bounds r). unfold BILLION in *.
  change (1000000000 / 2) with 500000000 in *. nia.
Qed.

(** [binary_search] on a sorted list finds the key or its place. *)
Lemma binary_search_inl l k i : binary_search l k = inl i → k ∈ l.
Proof.
  revert i. induction l as [|x l IH]; intros i; cbn; [done|]. destruct (Z.eqb_spec x k) as [->|]; [by left|].
  destruct (Z.ltb_spec k x); [done|]. destruct (binary_search l k) as [j|j]; [|done]. intros _. right. by eapply IH.
Qed.

Lemma binary_search_inr l k i :
  StronglySorted Z.lt l → binary_search l k = inr i →
  (k ∉ l) ∧ StronglySorted Z.lt (vec_insert i k l).
Proof.
  intros Hs. revert i. induction Hs as [|x l Hs IH Hx]; intros i; cbn.
  - intros [= <-]. split; [set_solver|]. by repeat constructor.
  - destruct (Z.eqb_spec x k) as [->|Hne]; [done|]. destruct (Z.ltb_spec k x) as [Hlt|Hle].
    + intros [= <-]. assert (Hk : Forall (Z.lt k) (x :: l)).
      { constructor; [done|]. eapply Forall_impl; [exact Hx|]. cbn. lia. }
      split; [|constructor; [by constructor|done]]. rewrite Forall_forall in Hk. intros Hin%Hk. lia.
    + destruct (binary_search l k) as [j|j]; [done|]. intros [= <-]. destruct (IH j eq_refl) as [Hin Hsort].
      split; [rewrite elem_of_cons; naive_solver|]. unfold vec_insert in *. cbn. constructor; [done|].
      apply Forall_app. split; [by apply Forall_take|]. constructor; [lia|by apply Forall_drop].
Qed.

Definition room (n : Z) s : Prop := ∀ c l, Ledger s !! c = Some l → l.(ld_total) + n < 2 ^ 128.

Lemma room_ledger n s s' c l :
  room n s → bonds s' = (bonds s) <| b_ledger ::= <[c := l]> |> → l.(ld_total) + n < 2 ^ 128 → room n s'.
Proof.
  intros Hr Hs Hl c' l'. apply (f_equal b_ledger) in Hs. cbn in Hs. rewrite Hs, lookup_insert_Some. intros [[<- <-]|[_ ?]]; [done|by eapply Hr].
Qed.

Lemma room_weaken n n' s : room n s → n' <= n → room n' s.
Proof. intros Hr Hn c l Hl. apply Hr in Hl. lia. Qed.

(** A payout adds at most [amount] to a ledger. *)
Lemma wp_make_payout stash amount n s :
  bonds_ok (bonds s) → 0 <= amount → 0 <= n → room (amount + n) s →
  wp (make_payout stash amount) (λ _ s', moves (λ k, k = Normal) (bonds s) (bonds s') ∧ room n s') (λ _, False) s.
Proof.
  intros Hok Hamt Hn Hroom. assert (Hr : room n s) by (eapply room_weaken; [done|lia]).
  unfold make_payout. sk_steps; try done.
  match goal with H : _ ≫= _ = Some _ |- _ =>
    apply bind_Some in H as (c & Hc & H); apply bind_Some in H as (l & Hl & [= <- <-]) end.
  pose proof (Hroom _ _ Hl) as Hlr. pose proof (lw_ok _ _ (ledger_wf_of _ _ _ Hok Hl)) as Hlok.
  pose proof (chunk_sum_nonneg _ (ledger_chunks _ Hlok)). destruct Hlok as [Ht Hw Ha _]. to_bonds. split.
  - eapply (moves_ledger _ Normal); [done|exact Hl| |reflexivity]. apply (lm_deposit _ l amount); lia.
  - eapply (room_ledger n s _ c); [done|eassumption|]. cbn. rewrite wrapping_add_small by lia. lia.
Qed.

Lemma wp_pay total stash amount n s :
  bonds_ok (bonds s) → 0 <= amount → 0 <= n → room (amount + n) s →
  wp (pay total stash amount) (λ _ s', moves (λ k, k = Normal) (bonds s) (bonds s') ∧ room n s') (λ _, False) s.
Proof.
  intros Hok Hamt Hn Hroom. unfold pay. wp_step. eapply wp_mono; [by apply (wp_make_payout _ _ n)| |done].
  cbn. intros o s1 [Hm Hr]. sk_steps; done.
Qed.

(** The rewards of an era fit into the ledgers. *)
Definition payout_room (stash : AccountId) (era : Z) s : Prop :=
  ∀ reward, ErasValidatorReward s !! era = Some reward →
    let exposure := default default_exposure (ErasStakersClipped s !! (era, stash)) in
    0 <= reward < 2 ^ 128 ∧ room ((1 + Z.of_nat (length exposure.(ex_others))) * reward) s.

Lemma wp_pay_nominators (others : list IndividualExposure) (f : IndividualExposure → Z) total leftover b0 s :
  bonds_ok b0 → moves (λ k, k = Normal) b0 (bonds s) → (∀ n, 0 <= f n <= leftover) →
  room (Z.of_nat (length others) * leftover) s →
  wp (fold_m (λ total nominator, pay total nominator.(ie_who) (f nominator)) total others)
    (λ _ s', moves (λ k, k = Normal) b0 (bonds s')) (λ _, False) s.
Proof.
  intros Hok Hm Hf Hroom.
  apply (wp_mono _ (λ _ s', moves (λ k, k = Normal) b0 (bonds s') ∧ room (Z.of_nat (@length IndividualExposure []) * leftover) s') _ (λ _, False));
    [|by intros ?? []|done].
  apply (wp_fold_m (λ _ l s', moves (λ k, k = Normal) b0 (bonds s') ∧ room (Z.of_nat (length l) * leftover) s')); [done|].
  clear s Hm Hroom. intros a n l s [Hm Hroom]. pose proof (Hf n). cbn [length] in Hroom.
  eapply wp_mono; [apply (wp_pay _ _ _ (Z.of_nat (length l) * leftover))| |done].
  - by eapply moves_ok.
  - lia.
  - nia.
  - eapply room_weaken; [done|]. lia.
  - intros _ s' [Hm' Hr']. split; [|done]. by etrans.
Qed.

(** The shares of a payout do not exceed it. *)
Lemma payout_shares_range total commission exposure leftover own :
  0 <= total < 2 ^ 128 → payout_shares total commission exposure = (leftover, own) →
  0 <= leftover <= total ∧ 0 <= own <= total.
Proof.
  intros Ht. unfold payout_shares. pose proof (perbill_mul_range commission total ltac:(lia)).
  rewrite wrapping_sub_small by lia.
  pose proof (perbill_mul_range (from_rational (ex_own exposure) (ex_total exposure)) (total - perbill_mul commission total) ltac:(lia)).
  rewrite wrapping_add_small by lia. intros [= <- <-]. lia.
Qed.

Lemma wp_pay_era stash era l reward s :
  bonds_ok (bonds s) → 0 <= reward < 2 ^ 128 →
  let exposure := default default_exposure (ErasStakersClipped s !! (era, l.(ld_stash))) in
  room ((1 + Z.of_nat (length exposure.(ex_others))) * reward) s →
  refines (λ k, k = Normal) (pay_era stash era l reward) s.
Proof.
  intros Hok Hreward exposure Hroom. unfold refines, pay_era. do 2 (sk_step; cbv beta). fold exposure. clearbody exposure.
  sk_steps; try done.
  match goal with H : payout_shares (perbill_mul ?p reward) _ _ = _ |- _ =>
    pose proof (perbill_mul_range p reward ltac:(lia)); apply payout_shares_range in H as [Hleft Hown]; [|lia] end.
  match goal with |- wp (pay _ _ ?o) _ _ _ =>
    eapply wp_mono; [apply (wp_pay _ _ o (Z.of_nat (length exposure.(ex_others)) * reward))| |done] end; [done|lia|nia| |].
  { eapply (room_weaken _ _ s); [done|]. nia. }
  intros t s1 [Hm Hr]. cbn. sk_step.
  match goal with |- wp (fold_m (λ t n, pay t _ (?f exposure ?lf n)) _ _) _ _ _ =>
    eapply wp_mono; [apply (wp_pay_nominators _ (f exposure lf) _ lf (bonds s)); [done|done| |]| |done] end.
  - intros n. unfold nominator_payout. apply perbill_mul_range. lia.
  - eapply room_weaken; [done|]. nia.
  - cbn. intros t' s2 Hm2. sk_steps; by to_bonds.
Qed.

Lemma sorted_filter (P : Z → Prop) `{!∀ x, Decision (P x)} l :
  StronglySorted Z.lt l → StronglySorted Z.lt (filter P l).
Proof. apply sorted_sublist, sublist_filter. Qed.

Lemma vec_insert_perm {A} i (k : A) l : vec_insert i k l ≡ₚ k :: l.
Proof. unfold vec_insert. rewrite <- Permutation_middle, take_drop. done. Qed.

Lemma wp_claim_era stash era (Q : StakingLedger * Z → State → Prop) (E : State → Prop) s :
  bonds_ok (bonds s) → E s →
  (∀ c l l' reward s', Bonded s !! stash = Some c → Ledger s !! c = Some l →
    l' = l <| ld_claimed_rewards := l'.(ld_claimed_rewards) |> → ledger_move (X := X) (CurrentEra s) Normal l l' →
    (era ∉ l.(ld_claimed_rewards)) → era ∈ l'.(ld_claimed_rewards) →
    saturating_sub (era_of (CurrentEra s)) HistoryDepth <= era → ErasValidatorReward s !! era = Some reward →
    s' = s <| Ledger ::= <[c := l']> |> → Q (l', reward) s') →
  wp (claim_era stash era) Q E s.
Proof.
  intros Hok HE HQ. unfold claim_era. wp_steps; try done.
  match goal with Hl : Ledger s !! _ = Some ?l |- _ => pose proof (ledger_wf_of _ _ _ Hok Hl) as [_ _ _ _ Hs Hc Hlen] end.
  match goal with Hb : binary_search _ _ = inr _ |- _ =>
    apply binary_search_inr in Hb as [Hin Hsort]; [|by apply sorted_filter] end.
  match goal with H : _ && _ = true |- _ => apply andb_true_iff in H as [Hle%Z.leb_le Hge%Z.leb_le] end.
  match goal with H : CurrentEra s = Some _ |- _ => rewrite H in Hc; cbn in Hc end.
  eapply HQ; try done.
  - match goal with H : CurrentEra s = Some _ |- _ => rewrite H end.
    apply lm_claim; [done| |rewrite vec_insert_perm; cbn; lia|]; cbn; [|intros x Hx Hxd]; rewrite vec_insert_perm.
    + constructor; [done|]. eapply Forall_sublist; [apply sublist_filter|done].
    + right. by apply list_elem_of_filter.
  - intros Hx. apply Hin. by apply list_elem_of_filter.
  - cbn. rewrite vec_insert_perm. by left.
  - match goal with H : CurrentEra s = Some _ |- _ => by rewrite H end.
Qed.

(** A payout leaves the rewards of the era claimed. *)
Lemma wp_payout_stakers origin stash era s :
  bonds_ok (bonds s) → payout_room stash era s →
  wp (payout_stakers origin stash era)
    (λ _ s', moves (λ k, k = Normal) (bonds s) (bonds s') ∧ claimed (bonds s') stash era)
    (λ s', moves (λ k, k = Normal) (bonds s) (bonds s')) s.
Proof.
  intros Hok Hroom. unfold payout_stakers, do_payout_stakers. sk_step. sk_step. cbv beta. sk_step.
  apply wp_claim_era; [done|done|]. intros c l l' reward s1 Hc Hl Hl' Hmove _ Hin Hge Hrew ->. cbv beta iota.
  destruct (Hroom _ Hrew) as [Hrange Hr].
  assert (Hst : l.(ld_stash) = stash)
    by (destruct (bo_ledger _ Hok _ _ Hc) as (l0 & Hl0 & ?); cbn in Hl0; congruence).
  set (s1 := s <| Ledger ::= <[c := l']> |>).
  assert (Hm1 : moves (λ k, k = Normal) (bonds s) (bonds s1)) by (by eapply (moves_ledger _ Normal)).
  pose proof (moves_ok _ _ _ Hok Hm1) as Hok1.
  assert (Hcl : claimed (bonds s1) stash era).
  { split.
    - pose proof (bo_rewards _ Hok era). cbn in *. unfold saturating_sub in Hge.
      assert (era ∈ dom (ErasValidatorReward s)) by (apply elem_of_dom; eauto). unfold era_of in *. naive_solver lia.
    - intros l0 Hl0. left. unfold ledger_at in Hl0. cbn in Hl0. rewrite Hc in Hl0. cbn in Hl0.
      rewrite lookup_insert_eq in Hl0. by injection Hl0 as <-. }
  eapply wp_mono; [apply wp_pay_era; [done|done|]|intros u s2 Hm2|intros s2 Hm2; by etrans].
  - pose proof (f_equal ld_stash Hl') as Hls. pose proof (f_equal ld_total Hl') as Hlt. cbn in Hls, Hlt |- *. rewrite Hls, Hst.
    eapply (room_ledger _ s); [exact Hr|reflexivity|]. rewrite Hlt. by apply (Hr c).
  - split; [by etrans|]. exact (moves_claimed _ _ _ _ _ Hok1 Hm2 Hcl).
Qed.

Lemma payout_stakers_refines origin stash era s :
  bonds_ok (bonds s) → payout_room stash era s → refines (λ k, k = Normal) (payout_stakers origin stash era) s.
Proof. intros Hok Hroom. eapply wp_mono; [by apply wp_payout_stakers|by intros ? ? []|done]. Qed.

(** What is claimed is not paid again. *)
Lemma payout_claimed origin stash era s u :
  bonds_ok (bonds s) → claimed (bonds s) stash era → (payout_stakers origin stash era s).2 ≠ Ok u.
Proof.
  intros Hok [Hlt Hcl].
  assert (Hwp : wp (payout_stakers origin stash era) (λ _ _, False) (λ _, True) s).
  { unfold payout_stakers, do_payout_stakers. sk_step. sk_step. cbv beta. sk_step.
    apply wp_claim_era; [done|done|]. intros c l l' reward s1 Hc Hl _ _ Hnin _ Hge _ _. cbn in *.
    destruct (Hcl l) as [?|?]; [|done|unfold era_of in *; lia]. apply ledger_at_Some. eauto. }
  unfold wp in Hwp. by destruct (payout_stakers _ _ _ _) as [s' [v|e|]].
Qed.

(** ** Slashes *)

(** Whom a slash takes from. *)
Definition slashed (u : UnappliedSlash) (k : Kind) : Prop :=
  ∃ stash, k = Slashing stash ∧ stash ∈ u.(us_validator) :: u.(us_others).*1.

(** What [do_slash] does to the bonds. *)
Definition one_slash (stash : AccountId) (value era : Z) (b b' : Bonds) : Prop :=
  b' = b ∨ ∃ c l, b_bonded b !! stash = Some c ∧ b_ledger b !! c = Some l ∧
    b' = b <| b_ledger ::= <[c := (slash BondingDuration l value (minimum_balance (X := X)) era).1.1]> |>.

Lemma wp_do_slash_exact stash value payout imbalance era s :
  wp (do_slash stash value payout imbalance era) (λ _ s', one_slash stash value era (bonds s) (bonds s')) (λ _, False) s.
Proof.
  unfold do_slash. sk_steps; try (by left). to_bonds. right.
  match goal with H : slash _ ?l _ _ _ = _, Hb : Bonded _ !! stash = Some ?c |- _ => exists c, l; by rewrite H end.
Qed.

Lemma wp_do_slash K stash value payout imbalance era s :
  K (Slashing stash) → bonds_ok (bonds s) → 0 <= value →
  wp (do_slash stash value payout imbalance era) (λ _ s', moves K (bonds s) (bonds s')) (λ _, False) s.
Proof.
  intros HK Hok Hv. eapply wp_mono; [apply wp_do_slash_exact| |done]. intros ? s' [->|(c & l & Hc & Hl & ->)]; [done|].
  assert (Hst : l.(ld_stash) = stash) by (destruct (bo_ledger _ Hok _ _ Hc) as (l1 & Hl1 & ?); congruence).
  eapply (moves_ledger _ (Slashing stash)); [done|exact Hl|rewrite <- Hst; apply (lm_slash _ _ value era); done|done].
Qed.

Lemma quiet_pay_reporters payout imbalance reporters : quiet (pay_reporters payout imbalance reporters).
Proof.
  intros b. unfold pay_reporters, pay_reporter. preserves; try apply quiet_on_unbalanced. by apply preserves_modify.
Qed.

Lemma apply_slash_refines u era s :
  bonds_ok (bonds s) → slash_ok u → refines (slashed u) (apply_slash u era) s.
Proof.
  intros Hok [Hown Hothers]. unfold refines, apply_slash. sk_step.
  eapply wp_mono; [apply (wp_do_slash (slashed u)); [by eexists; split; [|left]|done..]| |done].
  intros [p i] s1 Hm1. cbv beta iota. sk_step.
  eapply (wp_mono _ _ _ (λ _, False)); [apply (wp_fold_m (λ _ l s', l ⊆ u.(us_others) ∧ Forall (λ p, 0 <= p.2) l ∧ moves (slashed u) (bonds s) (bonds s')))| |done].
  - done.
  - intros [p' i'] [n v] l s2 (Hsub & Hl & Hm2). inversion_clear Hl as [|?? Hv Hl']. cbn in Hv.
    eapply wp_mono; [apply (wp_do_slash (slashed u)); [|by eapply moves_ok|done]| |done].
    { exists n. split; [done|]. right. apply list_elem_of_fmap. exists (n, v). set_solver. }
    intros u' s3 Hm3. split_and!; [set_solver|exact Hl'|]. etrans; [exact Hm2|exact Hm3].
  - intros [p' i'] s2 (_ & _ & Hm2). by apply wp_quiet; [apply quiet_pay_reporters|intros ? s3 ->|intros s3 ->].
Qed.

Lemma wp_slash_scheduler stash s :
  wp (slash_scheduler stash)
    (λ _ s', ∃ era, one_slash stash (perbill_mul (from_percent 5) (MinValidatorBond s)) era (bonds s) (bonds s'))
    (λ s', bonds s' = bonds s ∨
       ∃ era, one_slash stash (perbill_mul (from_percent 5) (MinValidatorBond s)) era (bonds s) (bonds s')) s.
Proof.
  unfold slash_scheduler, apply_slash. sk_steps; [by left|]. eapply wp_mono; [apply wp_do_slash_exact| |done].
  intros [p i] s1 Hs1. cbn. sk_steps. apply wp_quiet; [apply quiet_pay_reporters|intros ? s2 ->; eauto|intros s2 ->; eauto].
Qed.

Lemma slash_scheduler_refines stash s :
  bonds_ok (bonds s) → 0 <= MinValidatorBond s → refines (λ k, k = Slashing stash) (slash_scheduler stash) s.
Proof.
  intros Hok Hmin. unfold refines, slash_scheduler. sk_steps.
  eapply wp_mono; [apply apply_slash_refines; [done|]|intros ? s'|intros s'].
  - split; cbn; [by apply perbill_mul_range|constructor].
  - apply moves_weaken. intros k (b & -> & Hb). f_equal. set_solver.
  - apply moves_weaken. intros k (b & -> & Hb). f_equal. set_solver.
Qed.
End dispatchables.
