(* ===== verification/StakingSteps.v ===== *)
(** * The staking pallet: offences, sessions and runs

    The part of the refinement of [StakingRefine] that is not a call of a user: the
    offences reported to the pallet, the changes of session and era, and the hooks.
    [Step] collects every operation that changes the state, and the theorems about
    runs of steps follow. *)
From S2P Require Import Prelude Errors Frame Wp StakingLedger StakingSpans StakingTypes StakingPallet StakingBonds StakingRefine.

Section steps.
Context {X : Type} `{!PerbillOps} `{!PerbillLaws} `{!PerquintillOps} `{!PerquintillLaws} `{!StorageIter}
  `{!Config} `{!UnsignedConfig} `{!Currency X} `{!LockableCurrency X} `{!LockableCurrencyLaws X}
  `{!Consumers X} `{!VoterList X} `{!SessionInterface X} `{!ElectionProvider X} `{!StakingHooks X}.
Abbreviation State := (StakingTypes.State Perbill X).
Abbreviation MS := (M State).
Abbreviation moves := (moves (X := X)).
Abbreviation move := (move (X := X)).
Abbreviation quiet := (quiet (X := X)).
Abbreviation refines := (refines (X := X)).
Implicit Types (s : State) (K : Kind → Prop).

(** Computing a slash chills the validator and nothing else of the bonds; what it
    finds is not negative. *)
Lemma quiet_fetch_spans stash window paid slashed r : quiet (fetch_spans stash window paid slashed r).
Proof. intros b. unfold fetch_spans. preserves. case_match; preserves; by apply preserves_modify. Qed.

Lemma quiet_drop_spans i : quiet (drop_spans i).
Proof.
  intros b. unfold drop_spans. preserves. destruct (prune _ _) as [spans [[a e]|]]; preserves; by apply preserves_modify.
Qed.

Lemma update_span_record_nonneg i r era v :
  0 <= i.(in_slash_of) → 0 <= (update_span_record i r era v).1.1.(in_slash_of).
Proof.
  intros Hi. unfold update_span_record, add_slash.
  repeat case_match; simplify_eq/=; try done; unfold wrapping_add; apply Z.mod_pos_bound; lia.
Qed.

(** The inspected spans of a slash: the bonds are untouched and the slash counted so
    far is not negative. *)
Lemma wp_compare i era v s :
  0 <= i.(in_slash_of) →
  wp (compare_and_update_span_slash i era v)
    (λ p s', bonds s' = bonds s ∧ 0 <= p.1.(in_slash_of)) (λ _, False) s.
Proof.
  intros Hi. unfold compare_and_update_span_slash. wp_steps; try done.
  all: match goal with H : update_span_record ?i ?r ?e ?v = _ |- _ =>
    pose proof (update_span_record_nonneg i r e v Hi) as Hn; rewrite H in Hn end; done.
Qed.

Lemma wp_fetch_spans stash window paid slashed r s :
  wp (fetch_spans stash window paid slashed r)
    (λ i s', bonds s' = bonds s ∧ i.(in_slash_of) = slashed) (λ _, False) s.
Proof. unfold fetch_spans. wp_steps; done. Qed.

Lemma in_end_span_slash i now : (in_end_span i now).(in_slash_of) = i.(in_slash_of).
Proof. unfold in_end_span. by destruct (end_span _ _). Qed.

Lemma quiet_ensure_new_era : quiet ensure_new_era.
Proof. intros b. unfold ensure_new_era. preserves. case_match; preserves; by apply preserves_modify. Qed.

Lemma quiet_add_offending_validator stash d : quiet (add_offending_validator stash d).
Proof.
  intros b. unfold add_offending_validator. preserves.
  repeat (case_match; preserves); try apply quiet_ensure_new_era; by apply preserves_modify.
Qed.

Lemma moves_chill s stash b' :
  b' = (bonds s) <| b_validators ::= λ V, V ∖ {[stash]} |> <| b_nominators ::= λ N, N ∖ {[stash]} |> →
  moves (λ k, k = Normal) (bonds s) b'.
Proof. apply (moves_eq _ Normal); [done|]. apply mv_chill. Qed.

(** The shared end of [slash_validator] and [kick_out_if_recent]. *)
Lemma wp_chill_if b stash i now (Q : InspectingSpans Perbill → State → Prop) E s :
  (∀ i' s', i'.(in_slash_of) = i.(in_slash_of) → moves (λ k, k = Normal) (bonds s) (bonds s') → Q i' s') →
  wp (if b : bool then let i' := in_end_span i now in chill_stash stash ;; mret i' else mret i) Q E s.
Proof.
  intros HQ. sk_steps; apply HQ; try done; [apply in_end_span_slash|]. by eapply moves_chill.
Qed.

Lemma kick_out_refines params s : refines (λ k, k = Normal) (kick_out_if_recent params) s.
Proof.
  unfold refines, kick_out_if_recent. sk_step. eapply wp_mono; [apply wp_fetch_spans| |done].
  intros i s1 [Hs1 _]. cbn. sk_step. apply wp_chill_if. intros i' s2 _ Hm. rewrite Hs1 in Hm. sk_step.
  apply wp_quiet; [apply quiet_add_offending_validator| |intros s3 ->; done]. intros _ s3 Hs3.
  apply wp_quiet; [apply quiet_drop_spans|intros _ s4 ->|intros s4 ->]; by rewrite Hs3.
Qed.

Lemma wp_slash_validator params own s :
  wp (slash_validator params own)
    (λ p s', 0 <= p.2 ∧ moves (λ k, k = Normal) (bonds s) (bonds s')) (λ s', moves (λ k, k = Normal) (bonds s) (bonds s')) s.
Proof.
  unfold slash_validator. sk_step. eapply wp_mono; [apply wp_fetch_spans| |done]. intros i s1 [Hs1 Hi]. cbn. sk_step.
  eapply wp_mono; [apply wp_compare; lia| |done]. intros [i2 t] s2 [Hs2 Hi2]. cbn in Hi2 |- *. sk_step.
  apply wp_chill_if. intros i3 s3 Hi3 Hm. rewrite Hs2, Hs1 in Hm. sk_step.
  apply wp_quiet; [apply quiet_drop_spans| |intros s4 ->; done]. intros _ s4 Hs4. sk_step. rewrite Hs4. split; [cbn; lia|done].
Qed.

Lemma wp_slash_nominator params prior acc n s :
  Forall (λ p, 0 <= p.2) acc.2 →
  wp (slash_nominator params prior acc n)
    (λ acc' s', Forall (λ p, 0 <= p.2) acc'.2 ∧ acc'.2.*1 = acc.2.*1 ++ [n.(ie_who)] ∧ bonds s' = bonds s)
    (λ s', bonds s' = bonds s) s.
Proof.
  destruct acc as [payout l]. cbn. intros Hl. unfold slash_nominator. sk_steps.
  eapply wp_mono; [apply wp_fetch_spans| |done]. intros i s1 [Hs1 Hi]. cbn. sk_step.
  eapply wp_mono; [apply wp_compare; lia| |done]. intros [i2 t] s2 [Hs2 Hi2]. cbn in Hi2 |- *. sk_step.
  apply wp_quiet; [apply quiet_drop_spans| |]; [intros _ s4 Hs4|intros s4 Hs4]; [|by rewrite Hs4, Hs2, Hs1].
  sk_step. split_and!; [|cbn; by rewrite fmap_app|by rewrite Hs4, Hs2, Hs1]. cbn. apply Forall_app. split; [done|].
  constructor; [|done]. cbn. case_match; [by rewrite in_end_span_slash|done].
Qed.

Lemma wp_slash_nominators params prior s :
  wp (slash_nominators params prior)
    (λ acc' s', Forall (λ p, 0 <= p.2) acc'.2 ∧ acc'.2.*1 = ie_who <$> params.(pr_exposure).(ex_others) ∧ bonds s' = bonds s)
    (λ s', bonds s' = bonds s) s.
Proof.
  unfold slash_nominators. eapply (wp_mono _ _ _ (λ s', bonds s' = bonds s)); [| |done].
  - apply (wp_fold_m (λ acc l s', Forall (λ p, 0 <= p.2) acc.2 ∧
      acc.2.*1 ++ (ie_who <$> l) = ie_who <$> params.(pr_exposure).(ex_others) ∧ bonds s' = bonds s)); [by split_and!|].
    intros acc n l s' (Hacc & Hl & <-). eapply wp_mono; [by apply wp_slash_nominator| |done].
    intros acc' s2 (Hacc' & Hl' & Hs2). split_and!; [done| |done]. by rewrite Hl', <- app_assoc.
  - intros acc s' (? & Hl & ?). rewrite app_nil_r in Hl. done.
Qed.

(** A slash that is found is well-formed and about the offender and those who back it. *)
Definition computed (params : SlashParams Perbill) (u : UnappliedSlash) : Prop :=
  slash_ok u ∧ u.(us_validator) = params.(pr_stash) ∧ u.(us_others).*1 = ie_who <$> params.(pr_exposure).(ex_others).

Lemma wp_compute_slash params s :
  wp (compute_slash params)
    (λ o s', from_option (computed params) True o ∧ moves (λ k, k = Normal) (bonds s) (bonds s'))
    (λ s', moves (λ k, k = Normal) (bonds s) (bonds s')) s.
Proof.
  unfold compute_slash. sk_steps; try done.
  - eapply wp_mono; [apply kick_out_refines| |intros ? Hm; exact Hm]. intros ? s1 Hm. by sk_steps.
  - eapply wp_mono; [apply wp_slash_validator| |done]. intros [r own] s1 [Hown Hm]. sk_step.
    apply wp_quiet; [apply quiet_add_offending_validator| |intros s2 ->; done]. intros _ s2 Hs2. sk_step.
    eapply wp_mono; [apply wp_slash_nominators| |intros s3 ->; by rewrite Hs2].
    intros [p l] s3 (Hl & Hwho & Hs3). sk_steps. rewrite Hs3, Hs2. by split.
Qed.

(** Without a deferral the slash is applied at once. *)
Definition offence_kinds (offenders : list OffenceDetails) (k : Kind) : Prop :=
  k = Normal ∨
  SlashDeferDuration = 0 ∧ ∃ d stash, d ∈ offenders ∧ k = Slashing stash ∧
    stash ∈ d.(od_stash) :: (ie_who <$> d.(od_exposure).(ex_others)).

Lemma bonds_push_slash s era u :
  bonds_ok (bonds s) → slash_ok u →
  moves (λ k, k = Normal) (bonds s)
    (bonds (s <| UnappliedSlashes ::= partial_alter (λ o, Some (default [] o ++ [u])) era |>)).
Proof.
  intros Hok Hu. apply bonds_queue; [done|]. intros e l. destruct (decide (e = era)) as [->|Hne].
  - rewrite lookup_partial_alter_eq. intros [= <-]. apply Forall_app. split; [by apply queued_ok|by constructor].
  - rewrite lookup_partial_alter_ne by done. apply (bo_queue _ Hok).
Qed.

Lemma normal_offence offenders b b' : moves (λ k, k = Normal) b b' → moves (offence_kinds offenders) b b'.
Proof. apply moves_weaken. by left. Qed.

Lemma slash_offender_refines offenders f era w now strategy inv details fraction s :
  bonds_ok (bonds s) → details ∈ offenders →
  refines (offence_kinds offenders) (slash_offender f era w now strategy inv details fraction) s.
Proof.
  intros Hok Hin. unfold refines, slash_offender. sk_steps; try done.
  eapply wp_mono; [apply wp_compute_slash| |intros s1; apply normal_offence].
  intros [u|] s1 [Hu Hm]; [|sk_steps; by apply normal_offence]. pose proof (moves_ok _ _ _ Hok Hm) as Hok1.
  destruct Hu as (Hu & Hv & Ho). cbn in Hv, Ho. sk_steps.
  - eapply wp_mono; [apply apply_slash_refines; [exact Hok1|exact Hu]|intros ? s2 Hm2|intros s2 Hm2].
    all: (etrans; [apply normal_offence, Hm|]); eapply moves_weaken; [|exact Hm2].
    all: intros k (b & -> & Hb); right; split; [by apply Z.eqb_eq|]; exists details, b; cbn in Hb; rewrite Hv, Ho in Hb; done.
  - apply normal_offence. etrans; [exact Hm|]. 
    apply (bonds_push_slash s1 (saturating_add 32 (saturating_add 32 era SlashDeferDuration) 1)
      (u <| us_reporters := details.(od_reporters) |>)); [exact Hok1|exact Hu].
Qed.

Lemma on_offence_refines offenders fractions session strategy s :
  bonds_ok (bonds s) → refines (offence_kinds offenders) (on_offence offenders fractions session strategy) s.
Proof.
  intros Hok. unfold refines, on_offence. sk_steps; try done.
  eapply (wp_mono _ _ _ (λ s', moves (offence_kinds offenders) (bonds s) (bonds s'))); [| |done].
  - apply (wp_for_each (λ l s', l.*1 ⊆ offenders ∧ moves (offence_kinds offenders) (bonds s) (bonds s'))).
    + split; [|done]. intros d (p & -> & Hp)%list_elem_of_fmap. destruct p as [d f]. by eapply elem_of_zip_l.
    + intros [d f] l s1 [Hl Hm]. eapply wp_mono; [apply (slash_offender_refines offenders); [by eapply moves_ok|set_solver]| |].
      * intros ? s2 Hm2. split; [set_solver|]. by etrans.
      * intros s2 Hm2. by etrans.
  - by intros ? s' [_ ?].
Qed.

(** ** Sessions and eras *)

(** Whom the slashes queued for an era take from. *)
Definition queue_kinds s (era : Z) (k : Kind) : Prop :=
  k = Normal ∨ ∃ u, u ∈ default [] (UnappliedSlashes s !! era) ∧ slashed u k.

Lemma apply_unapplied_slashes_refines era s :
  bonds_ok (bonds s) → refines (queue_kinds s era) (apply_unapplied_slashes era) s.
Proof.
  intros Hok. unfold refines, apply_unapplied_slashes. sk_steps. pose proof (queued_ok s era Hok) as Hq.
  rewrite Forall_forall in Hq.
  eapply (wp_mono _ _ _ (λ s', moves (queue_kinds s era) (bonds s) (bonds s'))); [| |done].
  - apply (wp_for_each (λ l s', l ⊆ default [] (UnappliedSlashes s !! era) ∧ moves (queue_kinds s era) (bonds s) (bonds s'))).
    + split; [done|]. eapply moves_weaken; [|apply bonds_queue; [done|]]; [by left|].
      apply map_Forall_delete, (bo_queue _ Hok).
    + intros u l s1 [Hl Hm]. assert (Hu : u ∈ default [] (UnappliedSlashes s !! era)) by set_solver.
      eapply wp_mono; [apply apply_slash_refines; [by eapply moves_ok|by apply Hq]|intros ? s2 Hm2|intros s2 Hm2].
      * split; [set_solver|]. etrans; [exact Hm|]. eapply moves_weaken; [|exact Hm2]. right. eauto.
      * etrans; [exact Hm|]. eapply moves_weaken; [|exact Hm2]. right. eauto.
  - by intros ? s' [_ ?].
Qed.

(** The era a session may start. *)
Definition next_active_era s : Z :=
  match ActiveEra s with Some info => wrapping_add 32 info.(ae_index) 1 | None => 0 end.

Lemma quiet_clear_era_metadata era : quiet (clear_era_metadata era).
Proof. intros b. unfold clear_era_metadata. preserves; by apply preserves_modify. Qed.

Lemma quiet_push_bonded_era era session : quiet (push_bonded_era era session).
Proof.
  intros b. unfold push_bonded_era. preserves; try apply quiet_clear_era_metadata;
    repeat case_match; preserves; by apply preserves_modify.
Qed.

(** No era counter wraps. *)
Lemma next_active_era_spec s :
  bonds_ok (bonds s) → eras_left s →
  next_active_era s = match ae_index <$> ActiveEra s with Some e => e + 1 | None => 0 end.
Proof.
  intros Hok Hera. unfold next_active_era. pose proof (bo_active _ Hok) as Ha. cbn in Ha |- *. pose proof BondingDuration_u32.
  unfold eras_left in Hera. destruct (ActiveEra s) as [info|]; [|done]. cbn in *. specialize (Ha _ eq_refl).
  by rewrite wrapping_add_small by (unfold era_of in *; lia).
Qed.

Lemma start_era_refines session s :
  bonds_ok (bonds s) → eras_left s → is_Some (ErasStartSessionIndex s !! next_active_era s) →
  refines (queue_kinds s (next_active_era s)) (start_era session) s.
Proof.
  intros Hok Hera Hst. unfold refines, start_era. do 4 (sk_step; cbv beta). fold (next_active_era s). sk_step.
  set (s0 := s <| ActiveEra := _ |>).
  assert (Hm0 : moves (queue_kinds s (next_active_era s)) (bonds s) (bonds s0)).
  { eapply (moves_eq _ Normal); [by left|apply (mv_start (bonds s))|].
    - cbn. apply elem_of_dom. by rewrite <- next_active_era_spec.
    - apply bonds_eq; try done. cbn. by rewrite next_active_era_spec. }
  pose proof (moves_ok _ _ _ Hok Hm0) as Hok0.
  apply wp_quiet; [apply quiet_push_bonded_era| |intros s1 ->; done]. intros _ s1 Hs1.
  assert (Hq : queue_kinds s1 (next_active_era s) = queue_kinds s (next_active_era s)).
  { unfold queue_kinds. by rewrite (f_equal b_queue Hs1 : UnappliedSlashes s1 = UnappliedSlashes s). }
  eapply wp_mono; [apply apply_unapplied_slashes_refines; by rewrite Hs1|intros ? s2|intros s2]; rewrite Hq, Hs1;
    intros Hm2; by etrans.
Qed.

Lemma start_session_refines session s :
  bonds_ok (bonds s) → eras_left s → refines (queue_kinds s (next_active_era s)) (start_session session) s.
Proof.
  intros Hok Hera. unfold refines, start_session. do 4 (sk_step; cbv beta). fold (next_active_era s). sk_step.
  eapply (wp_mono _ (λ _ s1, moves (queue_kinds s (next_active_era s)) (bonds s) (bonds s1)) _
    (λ s1, moves (queue_kinds s (next_active_era s)) (bonds s) (bonds s1))); [| |done].
  - sk_steps; done || (apply start_era_refines; by eauto).
  - intros _ s1 Hm. sk_steps. apply wp_quiet; [|intros ? s2 ->; done|intros s2 ->; done].
    intros b. apply preserves_for_each. intros [i []]; preserves. by apply preserves_modify.
Qed.

Lemma end_session_refines session s :
  bonds_ok (bonds s) → eras_left s → refines (λ k, k = Normal) (end_session session) s.
Proof.
  intros Hok Hera. pose proof (next_active_era_spec s Hok Hera) as Hnext. unfold next_active_era in Hnext. cbn in Hnext.
  unfold refines, end_session, end_era. sk_steps; try done;
    match goal with H : ActiveEra s = Some ?i |- _ => cbn in Hnext; rewrite Hnext in *;
      to_bonds; eapply (moves_eq _ Normal); [done|apply (mv_reward (bonds s) i.(ae_index)); [cbn; by rewrite H|]|] end.
  all: try (apply elem_of_dom; by eexists).
  all: apply bonds_eq; try done; apply dom_insert_L.
Qed.

Lemma on_finalize_quiet : quiet on_finalize.
Proof.
  intros b. apply wp_preserves. intros s <-. unfold on_finalize. sk_steps; try done.
  apply bonds_eq; try done. cbn. match goal with H : ActiveEra s = Some _ |- _ => by rewrite H end.
Qed.

Lemma reward_by_ids_quiet l : quiet (reward_by_ids l).
Proof. intros b. unfold reward_by_ids. preserves. case_match; preserves; by apply preserves_modify. Qed.

Lemma note_uncle_quiet author uncle : quiet (note_uncle author uncle).
Proof. intros b. unfold note_uncle. case_match; [apply reward_by_ids_quiet|preserves]. Qed.

Lemma report_offence_quiet session : quiet (report_offence session).
Proof. intros b. unfold report_offence. preserves. repeat (case_match; preserves); by apply preserves_modify. Qed.

Lemma quiet_store_stakers_info exposures era : quiet (store_stakers_info exposures era).
Proof. intros b. unfold store_stakers_info. preserves; repeat (case_match; preserves); by apply preserves_modify. Qed.

Lemma quiet_collect_exposures supports : quiet (collect_exposures supports).
Proof. intros b. unfold collect_exposures. preserves. Qed.

Lemma moves_new_era s b' :
  bonds_ok (bonds s) → eras_left s →
  let era := match CurrentEra s with Some e => wrapping_add 32 e 1 | None => 0 end in
  b_starts b' ⊆ {[era]} ∪ b_starts (bonds s) → b_rewards b' ⊆ b_rewards (bonds s) →
  b' = (bonds s) <| b_era := Some era |> <| b_starts := b_starts b' |> <| b_rewards := b_rewards b' |> →
  moves (λ k, k = Normal) (bonds s) b'.
Proof.
  intros Hok Hera era Hs Hr ->. pose proof (bo_era _ Hok) as Hpos. pose proof BondingDuration_u32. unfold eras_left in Hera. cbn in Hpos.
  assert (Heq : era = match CurrentEra s with Some e => e + 1 | None => 0 end).
  { unfold era. destruct (CurrentEra s) as [e|]; [|done]. cbn in *. by rewrite wrapping_add_small by lia. }
  eapply (moves_eq _ Normal); [done|apply (mv_era (bonds s) (b_starts b') (b_rewards b'))|]; cbn; rewrite <- ?Heq; done.
Qed.

Lemma bonds_cleared s s' :
  Bonded s' = Bonded s → Ledger s' = Ledger s → Validators s' = Validators s → Nominators s' = Nominators s →
  Payee s' = Payee s → CurrentEra s' = CurrentEra s → ActiveEra s' = ActiveEra s →
  UnappliedSlashes s' = UnappliedSlashes s →
  bonds s' = (bonds s) <| b_starts := dom (ErasStartSessionIndex s') |> <| b_rewards := dom (ErasValidatorReward s') |>.
Proof. intros H1' H2' H3' H4' H5' H6' H7' H8'. unfold bonds. by rewrite H1', H2', H3', H4', H5', H6', H7', H8'. Qed.

(** What is kept of an era that leaves the history. *)
Lemma wp_clear_era_information era (Q : unit → State → Prop) E s :
  (∀ s', dom (ErasStartSessionIndex s') ⊆ dom (ErasStartSessionIndex s) →
    dom (ErasValidatorReward s') ⊆ dom (ErasValidatorReward s) →
    bonds s' = (bonds s) <| b_starts := dom (ErasStartSessionIndex s') |> <| b_rewards := dom (ErasValidatorReward s') |> →
    Q () s') → wp (clear_era_information era) Q E s.
Proof.
  intros HQ. unfold clear_era_information. sk_steps. apply HQ.
  - change (dom (delete era (ErasStartSessionIndex s)) ⊆ dom (ErasStartSessionIndex s)).
    rewrite dom_delete_L. by apply subseteq_difference_l.
  - change (dom (delete era (ErasValidatorReward s)) ⊆ dom (ErasValidatorReward s)).
    rewrite dom_delete_L. by apply subseteq_difference_l.
  - apply bonds_cleared; reflexivity.
Qed.

Lemma trigger_new_era_refines session exposures s :
  bonds_ok (bonds s) → eras_left s → refines (λ k, k = Normal) (trigger_new_era session exposures) s.
Proof.
  intros Hok Hera. unfold refines, trigger_new_era. do 6 (sk_step; cbv beta). set (era := match _ with Some e => _ | None => _ end).
  sk_step. eapply (wp_mono _ (λ _ s1, moves (λ k, k = Normal) (bonds s) (bonds s1)) _ (λ _, False)); [| |done].
  - sk_steps.
    + apply wp_clear_era_information. cbn. intros s1 Hst Hr Hs1. rewrite dom_insert_L in Hst. by apply moves_new_era.
    + apply moves_new_era; try done. cbn. by rewrite dom_insert_L.
  - intros _ s2 Hm. apply wp_quiet; [apply quiet_store_stakers_info|intros ? s3 ->; done|intros s3 ->; done].
Qed.

Lemma try_trigger_new_era_refines session genesis s :
  bonds_ok (bonds s) → eras_left s → refines (λ k, k = Normal) (try_trigger_new_era session genesis) s.
Proof.
  intros Hok Hera. unfold refines, try_trigger_new_era. sk_steps; try done.
  unfold collect_exposures. sk_steps; try done.
  - match goal with H : CurrentEra _ = None |- _ => change (CurrentEra s = None) in H; rename H into Hnone end.
    apply moves_new_era; rewrite ?Hnone; try done. cbn. by rewrite dom_insert_L.
  - eapply wp_mono; [apply trigger_new_era_refines; done|intros ? s1 Hm; by sk_steps|by intros s1 Hm].
Qed.

Lemma new_session_refines session genesis s :
  bonds_ok (bonds s) → eras_left s → refines (λ k, k = Normal) (session_manager_new_session session genesis) s.
Proof.
  intros Hok Hera. unfold refines, session_manager_new_session, new_session. sk_steps; try done.
  all: eapply wp_mono; [apply try_trigger_new_era_refines; done|intros ? s1 Hm; by sk_steps|by intros s1 Hm].
Qed.

(** ** Every operation that changes the state *)

Inductive Op :=
| CallBond (origin : Origin) (controller : AccountId) (value : Z) (payee : RewardDestination)
| CallBondExtra (origin : Origin) (max_additional : Z)
| CallUnbond (origin : Origin) (value : Z)
| CallWithdrawUnbonded (origin : Origin) (num_slashing_spans : Z)
| CallValidate (origin : Origin) (prefs : ValidatorPrefs Perbill)
| CallNominate (origin : Origin) (targets : list AccountId)
| CallChill (origin : Origin)
| CallSetPayee (origin : Origin) (payee : RewardDestination)
| CallSetController (origin : Origin) (controller : AccountId)
| CallSetValidatorCount (origin : Origin) (new : Z)
| CallIncreaseValidatorCount (origin : Origin) (additional : Z)
| CallScaleValidatorCount (origin : Origin) (factor : Z)
| CallForceNoEras (origin : Origin)
| CallForceNewEra (origin : Origin)
| CallForceNewEraAlways (origin : Origin)
| CallSetInvulnerables (origin : Origin) (invulnerables : list AccountId)
| CallForceUnstake (origin : Origin) (stash : AccountId) (num_slashing_spans : Z)
| CallCancelDeferredSlash (origin : Origin) (era : Z) (slash_indices : list Z)
| CallPayoutStakers (origin : Origin) (validator_stash : AccountId) (era : Z)
| CallRebond (origin : Origin) (value : Z)
| CallReapStash (origin : Origin) (stash : AccountId) (num_slashing_spans : Z)
| CallKick (origin : Origin) (who : list AccountId)
| CallSetStakingConfigs (origin : Origin) (min_nominator_bond min_validator_bond : ConfigOp Z)
    (max_nominator_count max_validator_count chill_threshold : ConfigOp Z) (min_commission : ConfigOp Perbill)
| CallChillOther (origin : Origin) (controller : AccountId)
| CallForceApplyMinCommission (origin : Origin) (validator_stash : AccountId)
| HookNewSession (index : Z) (is_genesis : bool)
| HookStartSession (index : Z)
| HookEndSession (index : Z)
| HookFinalize
| HookNoteAuthor (author : AccountId)
| HookNoteUncle (block_author : option AccountId) (uncle_author : AccountId)
| HookOnOffence (offenders : list OffenceDetails) (slash_fraction : list Perbill) (slash_session : Z)
    (disable_strategy : DisableStrategy)
| HookReportOffence (offence_session : Z)
| HookSlashScheduler (stash : AccountId).

Definition forget {A} (m : MS A) : MS unit := m ;; mret ().

Definition run (op : Op) : MS unit :=
  match op with
  | CallBond o c v p => bond o c v p
  | CallBondExtra o v => bond_extra o v
  | CallUnbond o v => unbond o v
  | CallWithdrawUnbonded o n => withdraw_unbonded o n
  | CallValidate o p => validate o p
  | CallNominate o l => nominate o l
  | CallChill o => chill o
  | CallSetPayee o p => set_payee o p
  | CallSetController o c => set_controller o c
  | CallSetValidatorCount o n => set_validator_count o n
  | CallIncreaseValidatorCount o n => increase_validator_count o n
  | CallScaleValidatorCount o f => scale_validator_count o f
  | CallForceNoEras o => force_no_eras o
  | CallForceNewEra o => force_new_era o
  | CallForceNewEraAlways o => force_new_era_always o
  | CallSetInvulnerables o l => set_invulnerables o l
  | CallForceUnstake o a n => force_unstake o a n
  | CallCancelDeferredSlash o e ix => cancel_deferred_slash o e ix
  | CallPayoutStakers o a e => payout_stakers o a e
  | CallRebond o v => rebond o v
  | CallReapStash o a n => reap_stash o a n
  | CallKick o l => kick o l
  | CallSetStakingConfigs o a b c d e f => set_staking_configs o a b c d e f
  | CallChillOther o c => chill_other o c
  | CallForceApplyMinCommission o a => force_apply_min_commission o a
  | HookNewSession i g => forget (session_manager_new_session i g)
  | HookStartSession i => start_session i
  | HookEndSession i => end_session i
  | HookFinalize => on_finalize
  | HookNoteAuthor a => note_author a
  | HookNoteUncle a u => note_uncle a u
  | HookOnOffence l f i d => on_offence l f i d
  | HookReportOffence i => forget (report_offence i)
  | HookSlashScheduler a => slash_scheduler a
  end.

(** Whom an operation may take from. *)
Definition kinds s (op : Op) : Kind → Prop :=
  match op with
  | CallForceUnstake _ stash _ => λ k, k = Forced stash
  | CallReapStash _ stash _ => λ k, k = Reaping stash
  | HookStartSession _ => queue_kinds s (next_active_era s)
  | HookOnOffence offenders _ _ _ => offence_kinds offenders
  | HookSlashScheduler stash => λ k, k = Slashing stash
  | _ => λ k, k = Normal
  end.

(** The arguments are of their type, and what the code adds up fits: there are eras
    left to count, and ledgers have room for a payout. *)
Definition admissible s (op : Op) : Prop :=
  eras_left s ∧
  match op with
  | CallBond _ _ v _ | CallRebond _ v => 0 <= v < 2 ^ 128
  | CallBondExtra _ v => 0 <= v
  | CallUnbond _ v => 0 <= v
  | CallPayoutStakers _ stash era => payout_room stash era s
  | HookSlashScheduler _ => 0 <= MinValidatorBond s
  | _ => True
  end.

Lemma refines_forget {A} K (m : MS A) s : refines K m s → refines K (forget m) s.
Proof. intros Hm. unfold refines, forget. apply wp_bind. eapply wp_mono; [exact Hm|done|done]. Qed.

Lemma run_refines op s : bonds_ok (bonds s) → admissible s op → refines (kinds s op) (run op) s.
Proof.
  intros Hok [Hera Hadm]. destruct op; cbn [run kinds] in *.
  - by apply bond_refines.
  - by apply bond_extra_refines.
  - by apply unbond_refines.
  - by apply withdraw_unbonded_refines.
  - by apply validate_refines.
  - by apply nominate_refines.
  - by apply chill_refines.
  - by apply set_payee_refines.
  - by apply set_controller_refines.
  - apply refines_quiet, set_validator_count_quiet.
  - apply refines_quiet, increase_validator_count_quiet.
  - apply refines_quiet, scale_validator_count_quiet.
  - apply refines_quiet, force_eras_quiet.
  - apply refines_quiet, force_eras_quiet.
  - apply refines_quiet, force_eras_quiet.
  - apply refines_quiet, set_invulnerables_quiet.
  - by apply force_unstake_refines.
  - by apply cancel_deferred_slash_refines.
  - by apply payout_stakers_refines.
  - by apply rebond_refines.
  - by apply reap_stash_refines.
  - apply kick_refines.
  - apply refines_quiet, set_staking_configs_quiet.
  - by apply chill_other_refines.
  - apply force_apply_min_commission_refines.
  - by apply refines_forget, new_session_refines.
  - by apply start_session_refines.
  - by apply end_session_refines.
  - apply refines_quiet, on_finalize_quiet.
  - apply refines_quiet, reward_by_ids_quiet.
  - apply refines_quiet, note_uncle_quiet.
  - by apply on_offence_refines.
  - apply refines_forget, refines_quiet, report_offence_quiet.
  - by apply slash_scheduler_refines.
Qed.

(** ** Runs *)

(** A step of the pallet; a call that fails may or may not be rolled back. *)
Inductive step (K : Kind → Prop) : State → State → Prop :=
| step_run s op : admissible s op → (∀ k, kinds s op k → K k) → step K s (run op s).1
| step_rollback s op e : (run op s).2 = Err e → step K s s.

Lemma step_moves K s s' : bonds_ok (bonds s) → step K s s' → moves K (bonds s) (bonds s').
Proof.
  intros Hok Hs. revert Hok. destruct Hs as [s0 op Hadm HK|s0 op e _]; intros Hok; [|done]. eapply moves_weaken; [exact HK|].
  eapply (wp_run _ _ (λ s', moves (kinds s0 op) (bonds s0) (bonds s'))); [by apply run_refines|done].
Qed.

Lemma run_moves K s s' : bonds_ok (bonds s) → rtc (step K) s s' → moves K (bonds s) (bonds s').
Proof.
  intros Hok Hrun. induction Hrun as [s|s1 s2 s3 Hs Hrun IH]; [done|].
  pose proof (step_moves _ _ _ Hok Hs) as Hm. etrans; [exact Hm|]. apply IH. by eapply moves_ok.
Qed.

Lemma run_bonds_ok K s s' : bonds_ok (bonds s) → rtc (step K) s s' → bonds_ok (bonds s').
Proof. intros Hok Hrun. eapply moves_ok; [exact Hok|]. by apply (run_moves K). Qed.

(** Nobody has bonded and no era has started. *)
Definition genesis s : Prop :=
  bonds s = {| b_bonded := ∅; b_ledger := ∅; b_validators := ∅; b_nominators := ∅; b_payee := ∅; b_era := None;
               b_active := None; b_starts := ∅; b_rewards := ∅; b_queue := ∅ |}.

Lemma genesis_ok s : genesis s → bonds_ok (bonds s).
Proof.
  intros ->. split; cbn; try done; try set_solver.
  intros stash. rewrite lookup_empty. split; [set_solver|by intros []].
Qed.

Lemma wp_assert (b : bool) (Q : unit → State → Prop) E s : E s → (b = true → Q () s) → wp (assert b) Q E s.
Proof. intros HE HQ. destruct b; unfold assert; cbn; [by apply wp_ret, HQ|done]. Qed.

Lemma wp_assert_ok (m : MS unit) Q E s : wp m Q E s → wp (assert_ok m) Q E s.
Proof. unfold wp, assert_ok. by destruct (m s) as [s' [u|e|]]. Qed.

Lemma genesis_staker_refines unlookup stash controller balance status s :
  bonds_ok (bonds s) → 0 <= balance < 2 ^ 128 →
  refines (λ k, k = Normal) (genesis_staker unlookup (stash, controller, balance, status)) s.
Proof.
  intros Hok Hb. unfold refines, genesis_staker. sk_steps. apply wp_assert; [done|intros _]. sk_step.
  apply wp_assert_ok. eapply wp_mono; [by apply bond_refines| |done]. intros ? s1 Hm1. sk_step.
  pose proof (moves_ok _ _ _ Hok Hm1) as Hok1.
  apply wp_assert_ok. eapply (wp_mono _ (λ _ s2, moves (λ k, k = Normal) (bonds s1) (bonds s2)) _
    (λ s2, moves (λ k, k = Normal) (bonds s1) (bonds s2))).
  - destruct status; [by sk_steps|by apply validate_refines|by apply nominate_refines].
  - intros ? s2 Hm2. assert (Hm : moves (λ k, k = Normal) (bonds s) (bonds s2)) by (etrans; [exact Hm1|exact Hm2]).
    sk_steps. by apply wp_assert.
  - intros s2 Hm2. etrans; [exact Hm1|exact Hm2].
Qed.

Lemma genesis_build_refines unlookup config s :
  bonds_ok (bonds s) → Forall (λ st, 0 <= st.1.2 < 2 ^ 128) config.(gc_stakers) →
  refines (λ k, k = Normal) (genesis_build unlookup config) s.
Proof.
  intros Hok Hst. unfold refines, genesis_build.
  assert (Hloop : ∀ s1, bonds s1 = bonds s → wp (for_each config.(gc_stakers) (genesis_staker unlookup))
    (λ _ s', moves (λ k, k = Normal) (bonds s) (bonds s')) (λ s', moves (λ k, k = Normal) (bonds s) (bonds s')) s1).
  { intros s1 Hs1. eapply (wp_mono _ _ _ (λ s', moves (λ k, k = Normal) (bonds s) (bonds s'))); [| |done].
    - apply (wp_for_each (λ l s', Forall (λ st, 0 <= st.1.2 < 2 ^ 128) l ∧ moves (λ k, k = Normal) (bonds s) (bonds s'))).
      + by rewrite Hs1.
      + intros [[[stash c] balance] status] l s2 [Hl Hm]. inversion_clear Hl as [|?? Hb Hl']. cbn in Hb.
        eapply wp_mono; [apply genesis_staker_refines; [by eapply moves_ok|done]|intros ? s3 Hm3|intros s3 Hm3].
        * split; [done|]. by etrans.
        * by etrans.
    - by intros ? ? []. }
  sk_steps; (eapply wp_mono; [by apply Hloop| |done]); intros ? s2 Hm2; sk_steps; by apply wp_assert.
Qed.

(** C2 The staking pallet refines the automaton of bonds: from well-formed bonds, a
    run of any calls and hooks of the pallet, failed calls rolled back or not, changes
    the bonds by a sequence of moves of [StakingBonds], of the kinds the calls allow. *)
Theorem staking_refines_bonds K s s' :
  bonds_ok (bonds s) → rtc (step K) s s' → moves K (bonds s) (bonds s').
Proof. apply run_moves. Qed.

(** C4 In every state reachable from a chain specification the storage of the staking
    pallet is consistent: controllers and stashes determine each other, a ledger adds up
    and keeps its bounds, nobody validates and nominates at once, and only bonded stashes
    have a role or a payee. *)
Theorem reachable_consistent unlookup config s s1 s' u stash c l :
  genesis s → Forall (λ st, 0 <= st.1.2 < 2 ^ 128) config.(gc_stakers) →
  genesis_build unlookup config s = (s1, Ok u) → rtc (step (λ _, True)) s1 s' →
  (Bonded s' !! stash = Some c → ∃ l, Ledger s' !! c = Some l ∧ l.(ld_stash) = stash) ∧
  (Ledger s' !! c = Some l → Bonded s' !! l.(ld_stash) = Some c ∧
     l.(ld_total) = l.(ld_active) + chunk_sum l.(ld_unlocking) ∧ 0 <= l.(ld_active) ∧ l.(ld_total) < 2 ^ 128 ∧
     Z.of_nat (length l.(ld_unlocking)) <= MaxUnlockingChunks ∧
     StronglySorted Z.lt (uc_era <$> l.(ld_unlocking)) ∧ StronglySorted Z.lt l.(ld_claimed_rewards)) ∧
  (is_Some (Validators s' !! stash) → Nominators s' !! stash = None ∧ is_Some (Bonded s' !! stash)) ∧
  (is_Some (Nominators s' !! stash) → is_Some (Bonded s' !! stash)) ∧
  (is_Some (Payee s' !! stash) ↔ is_Some (Bonded s' !! stash)).
Proof.
  intros Hgen Hst Hbuild Hrun. pose proof (genesis_build_refines unlookup config s (genesis_ok _ Hgen) Hst) as Hm.
  unfold refines, StakingRefine.refines, wp in Hm. rewrite Hbuild in Hm. pose proof (moves_ok _ _ _ (genesis_ok _ Hgen) Hm) as Hok1.
  pose proof (run_bonds_ok _ _ _ Hok1 Hrun) as [B1 B2 B3 B4 B5 B6 B7 B8 B9 B10 B11]. cbn in *.
  split_and!.
  - apply B1.
  - intros Hl. pose proof (B3 _ _ Hl) as [[Ht Hw Ha _] ? ? ? ? ? ?]. split; [by apply B2|]. done.
  - rewrite <- elem_of_dom. intros Hv. split; [apply not_elem_of_dom; auto|]. apply B5. set_solver.
  - rewrite <- elem_of_dom. intros Hv. apply B5. set_solver.
  - rewrite <- elem_of_dom. apply B6.
Qed.

Lemma real_total (u : list UnlockChunk) a :
  0 <= a → Forall (λ c, 0 <= c.(uc_value)) u → a + chunk_sum u < 2 ^ 128 →
  foldl (λ a c, wrapping_add 128 a c.(uc_value)) a u = a + chunk_sum u.
Proof.
  intros Ha Hu. revert a Ha. induction Hu as [|c u Hc Hu IH]; intros a Ha Hlt; cbn; [rewrite chunk_sum_nil; lia|].
  rewrite chunk_sum_cons in *. pose proof (chunk_sum_nonneg _ Hu). rewrite wrapping_add_small by lia. rewrite IH by lia. lia.
Qed.

(** C26 The pallet's own check of its ledgers passes in every state reachable from a
    chain specification: [check_ledgers] of [do_try_state] finds for every bonded
    controller a ledger whose total is its active balance and its unlocking chunks. *)
Theorem try_state_ledgers unlookup config s s1 s' u :
  genesis s → Forall (λ st, 0 <= st.1.2 < 2 ^ 128) config.(gc_stakers) →
  genesis_build unlookup config s = (s1, Ok u) → rtc (step (λ _, True)) s1 s' → check_ledgers s' = true.
Proof.
  intros Hgen Hst Hbuild Hrun. pose proof (genesis_build_refines unlookup config s (genesis_ok _ Hgen) Hst) as Hm.
  unfold refines, StakingRefine.refines, wp in Hm. rewrite Hbuild in Hm. pose proof (moves_ok _ _ _ (genesis_ok _ Hgen) Hm) as Hok1.
  pose proof (run_bonds_ok _ _ _ Hok1 Hrun) as Hok. unfold check_ledgers. apply forallb_forall.
  intros [stash c] Hin%list_elem_of_In. rewrite iter_storage_perm, elem_of_map_to_list in Hin.
  destruct (bo_ledger _ Hok _ _ Hin) as (l & Hl & _). cbn in Hl. pose proof (ledger_wf_of _ _ _ Hok Hl) as Hwf.
  destruct (lw_ok _ _ Hwf) as [Ht Hw Ha Hu]. unfold ensure_ledger_consistent. cbn. rewrite Hl.
  apply Z.eqb_eq. rewrite real_total by (done || lia). lia.
Qed.

(** C3 Bonded funds stay locked: what a stash has bonded in an era is still in its
    ledger as long as less than [BondingDuration] eras have passed, whatever calls are
    made meanwhile by whomever, unless the stash itself is slashed, reaped or forced
    out; only dust below the existential deposit is exempt. *)
Theorem bonded_funds_locked s s' stash c l :
  bonds_ok (bonds s) → rtc (step (spares stash)) s s' →
  Bonded s !! stash = Some c → Ledger s !! c = Some l →
  0 < l.(ld_active) → minimum_balance (X := X) <= l.(ld_active) →
  default 0 (CurrentEra s') < default 0 (CurrentEra s) + BondingDuration →
  ∃ c' l', Bonded s' !! stash = Some c' ∧ Ledger s' !! c' = Some l' ∧ l.(ld_active) <= l'.(ld_total).
Proof.
  intros Hok Hrun Hc Hl Hpos Hmin Hera. pose proof (run_moves _ _ _ Hok Hrun) as Hm.
  pose proof (moves_ok _ _ _ Hok Hm) as Hok'. set (e := era_of (CurrentEra s) + BondingDuration).
  pose proof (locked_ge e _ _ _ _ Hok Hc Hl) as Hge.
  destruct (moves_locked _ _ stash e Hok Hm) as [Hle|Hlt]; [cbn; unfold e, era_of; lia| |lia].
  destruct (locked_le e _ stash Hok') as (c' & l' & Hc' & Hl' & Htot); [lia|].
  exists c', l'. split_and!; [done|done|lia].
Qed.

(** C5 Nobody is paid twice: once [payout_stakers] has succeeded for a validator and an
    era, it fails for the same validator and era in every later state, even if the
    stash is killed and bonded again meanwhile. *)
Theorem no_double_payout origin origin' stash era s u s' u' :
  bonds_ok (bonds s) → payout_room stash era s → (payout_stakers origin stash era s).2 = Ok u →
  rtc (step (λ _, True)) (payout_stakers origin stash era s).1 s' →
  (payout_stakers origin' stash era s').2 ≠ Ok u'.
Proof.
  intros Hok Hroom Hpaid Hrun. pose proof (wp_payout_stakers origin stash era s Hok Hroom) as Hwp. unfold wp in Hwp.
  destruct (payout_stakers origin stash era s) as [s1 r]. cbn in Hpaid, Hrun. subst r. destruct Hwp as [Hm Hcl].
  pose proof (moves_ok _ _ _ Hok Hm) as Hok1. pose proof (run_moves _ _ _ Hok1 Hrun) as Hm2.
  apply payout_claimed; [by eapply moves_ok|by eapply moves_claimed].
Qed.
End steps.
