(* ===== verification/StakingSlashes.v ===== *)
(** * The staking pallet: slashing spans in the store

    The records of slashing spans through the operations of [StakingPallet]: what a
    slash adds to the record of its span, and that every record of the store belongs
    to a live span of its stash, in every reachable state. *)
From S2P Require Import Prelude Errors Frame Wp StakingLedger StakingSpans StakingTypes StakingPallet StakingBonds StakingRefine.
From S2P Require Import StakingSteps.

Section slashes.
Context {X : Type} `{!PerbillOps} `{!PerbillLaws} `{!PerquintillOps} `{!PerquintillLaws} `{!StorageIter}
  `{!Config} `{!UnsignedConfig} `{!Currency X} `{!LockableCurrency X} `{!LockableCurrencyLaws X}
  `{!Consumers X} `{!VoterList X} `{!SessionInterface X} `{!ElectionProvider X} `{!StakingHooks X}.
Abbreviation State := (StakingTypes.State Perbill X).
Abbreviation MS := (M State).
Implicit Types (s : State) (i : InspectingSpans Perbill).

(** ** The slash of a span *)

Definition slashed_in s (key : AccountId * Z) : Z := (default default_record (SpanSlash s !! key)).(sr_slashed).

Lemma same_spans (sp : SlashingSpans) : ∃ e, sp = sp <| ss_last_nonzero_slash := e |>.
Proof. destruct sp as [a b e l]. by exists e. Qed.

Lemma update_span_record_spec i r era v :
  0 <= r.(sr_slashed) → 0 <= v < 2 ^ 128 → 0 <= i.(in_slash_of) →
  i.(in_slash_of) + (Z.max r.(sr_slashed) v - r.(sr_slashed)) < 2 ^ 128 →
  let '(i', r', changed) := update_span_record i r era v in
  r'.(sr_slashed) = Z.max r.(sr_slashed) v ∧
  i'.(in_slash_of) = i.(in_slash_of) + (Z.max r.(sr_slashed) v - r.(sr_slashed)) ∧
  i'.(in_stash) = i.(in_stash) ∧ i'.(in_window_start) = i.(in_window_start) ∧ i'.(in_dirty) = i.(in_dirty) ∧
  (∃ e, i'.(in_spans) = i.(in_spans) <| ss_last_nonzero_slash := e |>) ∧
  (changed = false → i' = i ∧ r' = r).
Proof.
  intros Hr Hv Hi Hw. unfold update_span_record. set (reward := perbill_mul REWARD_F1 _). clearbody reward.
  destruct (Z.ltb_spec r.(sr_slashed) v) as [Hlt|Hge]; [|destruct (Z.eqb_spec r.(sr_slashed) v) as [Heq|Hne]];
    cbn; destruct (reward =? 0); cbn; rewrite ?wrapping_sub_small, ?wrapping_add_small by lia;
    split_and!; try done; try lia; try apply same_spans; by eexists.
Qed.

(** C23 Within a span only the maximum counts: a slash that falls into a span adds to
    what is taken exactly the amount by which it exceeds the largest slash recorded for
    the span so far, and the record becomes that maximum; a slash of an era outside the
    spans takes nothing; no other record changes. *)
Theorem span_slash_increase i era v s :
  spans_ok i.(in_spans) → (∀ key, 0 <= slashed_in s key < 2 ^ 128) → 0 <= v < 2 ^ 128 →
  0 <= i.(in_slash_of) → i.(in_slash_of) + v < 2 ^ 128 →
  ∃ s' i', compare_and_update_span_slash i era v s = (s', Ok (i', index_of i.(in_spans) era)) ∧
    match index_of i.(in_spans) era with
    | None => s' = s ∧ i' = i
    | Some ix =>
        let key := (i.(in_stash), ix) in
        slashed_in s' key = Z.max (slashed_in s key) v ∧
        i'.(in_slash_of) = i.(in_slash_of) + (slashed_in s' key - slashed_in s key) ∧
        ∀ key', key' ≠ key → SpanSlash s' !! key' = SpanSlash s !! key'
    end.
Proof.
  intros Hok Hrec Hv Hi Hw. unfold compare_and_update_span_slash. rewrite <- (era_span_index _ _ Hok).
  destruct (era_span i.(in_spans) era) as [span|]; cbn; [|by eexists _, _].
  unfold mbind, M_bind, gets. cbn. pose proof (Hrec (i.(in_stash), span.(sp_index))) as Hr. unfold slashed_in in *.
  set (r := default default_record _) in *.
  pose proof (update_span_record_spec i r era v ltac:(lia) Hv Hi ltac:(lia)) as Hup.
  destruct (update_span_record i r era v) as [[i' r'] []]; cbn.
  - destruct Hup as (Hr' & Hi' & _). eexists _, _. split; [done|]. cbn. rewrite lookup_insert_eq. cbn.
    split_and!; [done|lia|]. intros key' Hne. by rewrite lookup_insert_ne.
  - destruct Hup as (Hr' & Hi' & _ & _ & _ & _ & Hsame). destruct (Hsame eq_refl) as [-> ->].
    eexists _, _. split; [done|]. cbn. fold r. split_and!; [done|lia|done].
Qed.

(** ** Live records *)

(** A span index never exceeds the first era of its span. *)
Definition spans_wf (sp : SlashingSpans) : Prop := spans_ok sp ∧ sp.(ss_span_index) <= sp.(ss_last_start).

Record spans_inv s : Prop := {
  si_ok stash sp : SlashingSpansOf s !! stash = Some sp → spans_wf sp;
  si_live stash ix r : SpanSlash s !! (stash, ix) = Some r →
    ∃ sp, SlashingSpansOf s !! stash = Some sp ∧ earliest_index sp <= ix <= sp.(ss_span_index)
}.

(** The spans in memory while a slash is computed: those of the store, with a later
    last span perhaps. *)
Record inspecting i s : Prop := {
  ip_inv : spans_inv s;
  ip_ok : spans_wf i.(in_spans);
  ip_window : 0 <= i.(in_window_start) < 2 ^ 32;
  ip_store : ∃ sp, SlashingSpansOf s !! i.(in_stash) = Some sp ∧
    earliest_index i.(in_spans) = earliest_index sp ∧ sp.(ss_span_index) <= i.(in_spans).(ss_span_index)
}.

Lemma spans_inv_insert s stash sp :
  spans_inv s → spans_wf sp →
  (∀ ix r, SpanSlash s !! (stash, ix) = Some r → earliest_index sp <= ix <= sp.(ss_span_index)) →
  spans_inv (s <| SlashingSpansOf ::= <[stash := sp]> |>).
Proof.
  intros [Hok Hlive] Hwf Hsp. split; cbn.
  - intros stash0 sp0. rewrite lookup_insert_Some. intros [[<- <-]|[_ ?]]; eauto.
  - intros stash0 ix r Hr. destruct (decide (stash = stash0)) as [<-|Hne].
    + exists sp. rewrite lookup_insert_eq. eauto.
    + rewrite lookup_insert_ne by done. eauto.
Qed.

Lemma wp_fetch_inspecting stash window paid slashed r s :
  spans_inv s → 0 <= window < 2 ^ 32 →
  wp (fetch_spans stash window paid slashed r) (λ i s', inspecting i s' ∧ i.(in_stash) = stash ∧
    SlashingSpansOf s' !! stash = Some i.(in_spans)) (λ _, False) s.
Proof.
  intros Hinv Hw. unfold fetch_spans. wp_step. wp_step. cbv beta. destruct (SlashingSpansOf s !! stash) as [sp|] eqn:Hsp.
  - wp_steps. split_and!; [|done|done]. split; cbn; [done|by eapply si_ok|done|by exists sp].
  - wp_steps. assert (Hwf : spans_wf (spans_new window)) by (split; [by apply spans_new_ok|cbn; lia]).
    split_and!; [|done|cbn; apply lookup_insert_eq].
    split; cbn; [|done|done|exists (spans_new window); by rewrite lookup_insert_eq].
    apply spans_inv_insert; [done|done|]. intros ix r0 Hr0. destruct (si_live _ Hinv _ _ _ Hr0) as (sp & Hsp' & _). congruence.
Qed.

Lemma earliest_index_nonzero sp e : earliest_index (sp <| ss_last_nonzero_slash := e |>) = earliest_index sp.
Proof. done. Qed.

Lemma spans_wf_nonzero sp e : spans_wf sp → spans_wf (sp <| ss_last_nonzero_slash := e |>).
Proof. intros [[]]. split; [by split|done]. Qed.

Lemma spans_inv_record s stash ix r sp :
  spans_inv s → SlashingSpansOf s !! stash = Some sp → earliest_index sp <= ix <= sp.(ss_span_index) →
  spans_inv (s <| SpanSlash ::= <[(stash, ix) := r]> |>).
Proof.
  intros [Hok Hlive] Hsp Hix. split; cbn; [done|]. intros stash0 ix0 r0. rewrite lookup_insert_Some.
  intros [[[= <- <-] _]|[_ Hr0]]; eauto.
Qed.

(** [update_span_record] only changes the spans in the era of the last slash. *)
Lemma update_span_record_spans i r era v :
  let i' := (update_span_record i r era v).1.1 in
  i'.(in_stash) = i.(in_stash) ∧ i'.(in_window_start) = i.(in_window_start) ∧
  ∃ e, i'.(in_spans) = i.(in_spans) <| ss_last_nonzero_slash := e |>.
Proof.
  unfold update_span_record. set (reward := perbill_mul REWARD_F1 _). clearbody reward.
  destruct (_ <? _); [|destruct (_ =? v)]; cbn; destruct (reward =? 0); cbn; split_and!; try done;
    try apply same_spans; by eexists.
Qed.

Lemma wp_compare_inspecting i era v s :
  inspecting i s → SlashingSpansOf s !! i.(in_stash) = Some i.(in_spans) →
  wp (compare_and_update_span_slash i era v) (λ p s', inspecting p.1 s') (λ _, False) s.
Proof.
  intros [Hinv Hwf Hw Hst] Hsp. unfold compare_and_update_span_slash.
  pose proof (era_span_index _ era (proj1 Hwf)) as Hix.
  destruct (era_span i.(in_spans) era) as [span|]; cbn in Hix; [|by wp_steps].
  symmetry in Hix. apply index_of_range in Hix as [Hix _]; [|apply Hwf].
  wp_step. wp_step. cbv beta. set (r := default _ _). pose proof (update_span_record_spans i r era v) as Hup.
  destruct (update_span_record i r era v) as [[i' r'] changed]. cbn in Hup. destruct Hup as (Hs' & Hw' & e & He).
  wp_steps.
  - split; cbn; rewrite ?Hs', ?Hw', ?He; [by eapply spans_inv_record|by apply spans_wf_nonzero|done|].
    exists i.(in_spans). done.
  - split; cbn; rewrite ?Hs', ?Hw', ?He; [done|by apply spans_wf_nonzero|done|]. exists i.(in_spans). done.
Qed.

Lemma inspecting_end_span i now s : 0 <= now < 2 ^ 32 - 1 → inspecting i s → inspecting (in_end_span i now) s.
Proof.
  intros Hnow [Hinv [Hok Hle] Hw (sp & Hsp & He & Hix)]. unfold in_end_span.
  destruct (Z.le_gt_cases (now + 1) i.(in_spans).(ss_last_start)) as [Hge|Hlt].
  - unfold end_span. rewrite wrapping_add_small by lia. destruct (Z.leb_spec (now + 1) (ss_last_start (in_spans i))); [|lia].
    split; cbn; eauto. by split.
  - pose proof (end_span_spec i.(in_spans) now Hok Hnow ltac:(lia)) as Hend.
    assert (Hi : (end_span i.(in_spans) now).1.(ss_span_index) = i.(in_spans).(ss_span_index) + 1 ∧
                 (end_span i.(in_spans) now).1.(ss_last_start) = now + 1).
    { unfold end_span. rewrite wrapping_add_small by lia. destruct (Z.leb_spec (now + 1) (ss_last_start (in_spans i))); [lia|].
      cbn. pose proof (spans_first _ Hok). unfold earliest_index in *. by rewrite wrapping_add_small by lia. }
    destruct (end_span _ _) as [sp' started]. cbn in Hi. destruct Hend as (Hok' & _ & _ & Hear & _).
    split; cbn; [done|split; [done|lia]|done|]. exists sp. split_and!; [done|congruence|lia].
Qed.

(** Writing the spans back keeps the records live: pruning removes the records of the
    spans it drops. *)
Lemma wp_remove_records stash a b s :
  wp (for_each (seqZ a (b - a)) (λ ix, remove_at SpanSlash (stash, ix)))
    (λ _ s', SlashingSpansOf s' = SlashingSpansOf s ∧
       ∀ stash' ix r, SpanSlash s' !! (stash', ix) = Some r →
         SpanSlash s !! (stash', ix) = Some r ∧ (stash' = stash → ¬ (a <= ix < b))) (λ _, False) s.
Proof.
  remember (seqZ a (b - a)) as l eqn:Hl.
  assert (Hin : ∀ ix, a <= ix < b → ix ∈ l) by (intros ix ?; subst l; apply elem_of_seqZ; lia). clear Hl.
  eapply (wp_mono _ _ _ (λ _, False)); [apply (wp_for_each (λ left s', SlashingSpansOf s' = SlashingSpansOf s ∧
    ∀ stash' ix r, SpanSlash s' !! (stash', ix) = Some r →
      SpanSlash s !! (stash', ix) = Some r ∧ (stash' = stash → a <= ix < b → ix ∈ left)))| |done].
  - split; [done|]. eauto.
  - intros x left s1 [Hsp Hr]. wp_steps. cbn. split; [done|]. intros stash' ix r. rewrite lookup_delete_Some.
    intros [Hne (Hs & Hleft)%Hr]. split; [done|]. intros -> Hix. specialize (Hleft eq_refl Hix).
    apply elem_of_cons in Hleft as [->|]; [congruence|done].
  - intros _ s' [Hsp Hr]. split; [done|]. intros stash' ix r (Hs & Hno)%Hr. split; [done|].
    intros -> Hix. specialize (Hno eq_refl Hix). set_solver.
Qed.

Lemma spans_inv_fewer s s' :
  spans_inv s → SlashingSpansOf s' = SlashingSpansOf s →
  (∀ stash ix r, SpanSlash s' !! (stash, ix) = Some r → SpanSlash s !! (stash, ix) = Some r) → spans_inv s'.
Proof. intros [Hok Hlive] Hs Hr. split; rewrite Hs; eauto. Qed.

Lemma prune_last_start sp window : sp.(ss_last_start) <= (prune sp window).1.(ss_last_start).
Proof. unfold prune. destruct (list_find _ _) as [[o span]|]; cbn; lia. Qed.

Lemma wp_drop_inspecting i s : inspecting i s → wp (drop_spans i) (λ _ s', spans_inv s') (λ _, False) s.
Proof.
  intros [Hinv [Hok Hle] Hw (sp & Hsp & He & Hix)]. unfold drop_spans. apply wp_if; intros Hd; [by wp_steps|].
  pose proof (prune_spec i.(in_spans) i.(in_window_start) Hok Hw) as Hpr.
  pose proof (prune_last_start i.(in_spans) i.(in_window_start)) as Hstart.
  destruct (prune i.(in_spans) i.(in_window_start)) as [sp' pruned]. destruct Hpr as (Hok' & Hidx & _ & Hpr & _).
  cbn in Hstart. assert (Hwf : spans_wf sp') by (split; [done|lia]). cbv zeta.
  assert (Hlive : ∀ ix r, SpanSlash s !! (i.(in_stash), ix) = Some r →
    earliest_index i.(in_spans) <= ix <= sp'.(ss_span_index)).
  { intros ix r Hr. destruct (si_live _ Hinv _ _ _ Hr) as (sp0 & Hsp0 & ?).
    assert (sp0 = sp) as -> by congruence. lia. }
  wp_step. destruct pruned as [[a b]|].
  - destruct Hpr as (-> & -> & Hlt). eapply wp_mono; [apply wp_remove_records| |done]. intros ? s1 [Hs1 Hr1]. wp_steps.
    apply spans_inv_insert; [|done|].
    + eapply spans_inv_fewer; [done|done|]. intros ??? []%Hr1. done.
    + intros ix r [Hr Hno]%Hr1. specialize (Hno eq_refl). apply Hlive in Hr. lia.
  - wp_steps. apply spans_inv_insert; [done|done|]. intros ix r Hr%Hlive. lia.
Qed.

(** Operations that leave the spans alone. *)
Definition span_quiet {A} (m : MS A) : Prop :=
  ∀ p, preserves (λ s, (SlashingSpansOf s, SpanSlash s) = p) m.

Lemma spans_inv_same s s' :
  (SlashingSpansOf s', SpanSlash s') = (SlashingSpansOf s, SpanSlash s) → spans_inv s → spans_inv s'.
Proof. intros [= H1' H2'] [Hok Hlive]. split; rewrite ?H1', ?H2'; done. Qed.

Lemma inspecting_same i s s' :
  (SlashingSpansOf s', SpanSlash s') = (SlashingSpansOf s, SpanSlash s) → inspecting i s → inspecting i s'.
Proof.
  intros Heq [Hinv Hwf Hw Hst]. pose proof (spans_inv_same _ _ Heq Hinv). injection Heq as H1' H2'.
  split; rewrite ?H1'; done.
Qed.

Lemma wp_span_quiet {A} (m : MS A) (Q : A → State → Prop) (E : State → Prop) s :
  span_quiet m → (∀ a s', (SlashingSpansOf s', SpanSlash s') = (SlashingSpansOf s, SpanSlash s) → Q a s') →
  (∀ s', (SlashingSpansOf s', SpanSlash s') = (SlashingSpansOf s, SpanSlash s) → E s') → wp m Q E s.
Proof.
  intros Hm HQ HE. specialize (Hm _ s eq_refl). unfold wp. destruct (m s) as [s' [a|e|]]; cbn in Hm; auto.
Qed.

Lemma span_quiet_preserves {A} (m : MS A) : span_quiet m → preserves spans_inv m.
Proof. intros Hm s Hs. eapply spans_inv_same; [by apply (Hm _ s eq_refl)|done]. Qed.

Ltac span_quiet :=
  intros ?; repeat first [progress preserves | case_match | by apply preserves_modify].

Lemma chill_stash_span_quiet stash : span_quiet (chill_stash stash).
Proof. unfold chill_stash, do_remove_validator, do_remove_nominator, deposit_event. span_quiet. Qed.

Lemma add_offending_validator_span_quiet stash d : span_quiet (add_offending_validator stash d).
Proof. unfold add_offending_validator, ensure_new_era. span_quiet. Qed.

Definition params_ok (p : SlashParams Perbill) : Prop :=
  0 <= p.(pr_window_start) < 2 ^ 32 ∧ 0 <= p.(pr_now) < 2 ^ 32 - 1.

Lemma wp_chill_if_inspecting b stash i now (Q : InspectingSpans Perbill → State → Prop) E s :
  0 <= now < 2 ^ 32 - 1 → inspecting i s → (∀ i' s', inspecting i' s' → Q i' s') →
  (∀ s', spans_inv s' → E s') →
  wp (if b : bool then let i' := in_end_span i now in chill_stash stash ;; mret i' else mret i) Q E s.
Proof.
  intros Hnow Hi HQ HE. apply wp_if; intros _; [|by wp_steps; apply HQ]. cbv zeta. wp_step.
  apply wp_span_quiet; [apply chill_stash_span_quiet| |].
  - intros _ s' Hs'. wp_steps. apply HQ. eapply inspecting_same; [done|]. by apply inspecting_end_span.
  - intros s' Hs'. apply HE. eapply spans_inv_same; [done|]. by apply (ip_inv i).
Qed.

Lemma kick_out_spans params s :
  params_ok params → spans_inv s → wp (kick_out_if_recent params) (λ _ s', spans_inv s') spans_inv s.
Proof.
  intros [Hw Hnow] Hinv. unfold kick_out_if_recent. wp_step.
  eapply wp_mono; [by apply wp_fetch_inspecting| |done]. intros i s1 (Hi & _ & _). wp_step.
  apply wp_chill_if_inspecting; [done|done| |done]. intros i2 s2 Hi2. wp_step.
  apply wp_span_quiet; [apply add_offending_validator_span_quiet| |].
  - intros _ s3 Hs3. eapply wp_mono; [apply wp_drop_inspecting; by eapply inspecting_same|done|done].
  - intros s3 Hs3. eapply spans_inv_same; [done|by apply (ip_inv i2)].
Qed.

Lemma slash_validator_spans params own s :
  params_ok params → spans_inv s → wp (slash_validator params own) (λ _ s', spans_inv s') spans_inv s.
Proof.
  intros [Hw Hnow] Hinv. unfold slash_validator. wp_step.
  eapply wp_mono; [by apply wp_fetch_inspecting| |done]. intros i s1 (Hi & <- & Hsp). wp_step.
  eapply wp_mono; [by apply wp_compare_inspecting| |done]. intros [i2 t] s2 Hi2. cbn in Hi2. wp_step.
  apply wp_chill_if_inspecting; [done|done| |done]. intros i3 s3 Hi3. wp_step.
  eapply wp_mono; [by apply wp_drop_inspecting|by intros ? s4 Hs4; wp_steps|done].
Qed.

Lemma slash_nominator_spans params prior acc n s :
  params_ok params → spans_inv s → wp (slash_nominator params prior acc n) (λ _ s', spans_inv s') spans_inv s.
Proof.
  intros [Hw Hnow] Hinv. destruct acc as [payout l]. unfold slash_nominator. wp_steps.
  eapply wp_mono; [apply wp_fetch_inspecting; [|done]; by apply (spans_inv_same s)| |done]. intros i s1 (Hi & Hst & Hsp). wp_step.
  eapply wp_mono; [apply wp_compare_inspecting; [done|by rewrite Hst]| |done]. intros [i2 t] s2 Hi2. cbn in Hi2. cbv zeta. wp_step.
  eapply wp_mono; [apply wp_drop_inspecting|by intros ? s4 Hs4; wp_steps|done].
  case_bool_decide; [by apply inspecting_end_span|done].
Qed.

Lemma compute_slash_spans params s :
  params_ok params → spans_inv s → wp (compute_slash params) (λ _ s', spans_inv s') spans_inv s.
Proof.
  intros Hp Hinv. unfold compute_slash. wp_steps; try done.
  - eapply wp_mono; [by apply kick_out_spans|by intros ? ? ?; wp_steps|done].
  - eapply wp_mono; [apply slash_validator_spans; [done|by apply (spans_inv_same s)]| |done]. intros [r own] s1 Hs1. wp_step.
    apply wp_span_quiet; [apply add_offending_validator_span_quiet| |intros s2 Hs2; by eapply spans_inv_same].
    intros _ s2 Hs2. wp_step. unfold slash_nominators.
    eapply (wp_mono _ _ _ spans_inv); [apply (wp_fold_m (λ _ _ s', spans_inv s'))| |done].
    + by eapply spans_inv_same.
    + intros acc n l s3 Hs3. by apply slash_nominator_spans.
    + intros [p l] s3 Hs3. by wp_steps.
Qed.

(** The end of a stash removes all its records. *)
Lemma iter_index sp ix :
  spans_ok sp → earliest_index sp <= ix <= sp.(ss_span_index) → ∃ span, span ∈ iter sp ∧ span.(sp_index) = ix.
Proof.
  intros [_ _ _ Hi Hw] Hix. unfold earliest_index in *.
  destruct (decide (ix = sp.(ss_span_index))) as [->|Hne]; [eexists; split; [by left|done]|].
  destruct (iter_prior_index sp.(ss_last_start) sp.(ss_span_index) sp.(ss_prior) ix) as (span & Hin & <-); [lia..|].
  exists span. split; [by right|done].
Qed.

Definition no_spans s (stash : AccountId) : Prop :=
  SlashingSpansOf s !! stash = None ∧ ∀ ix, SpanSlash s !! (stash, ix) = None.

(** The number of spans the caller has to allow for. *)
Definition span_count s (stash : AccountId) : Z :=
  from_option (λ sp, Z.of_nat (length (iter sp))) 0 (SlashingSpansOf s !! stash).

Lemma wp_clear_stash_metadata stash n s :
  spans_inv s → 0 <= n →
  wp (clear_stash_metadata stash n) (λ _ s', (spans_inv s' ∧ no_spans s' stash) ∧ span_count s stash <= n)
    (λ s', spans_inv s' ∧ n < span_count s stash) s.
Proof.
  intros Hinv Hn. unfold clear_stash_metadata, span_count. wp_step. wp_step. cbv beta.
  destruct (SlashingSpansOf s !! stash) as [sp|] eqn:Hsp; cbn [from_option].
  - wp_step. apply wp_ensure; [intros Hlt%Z.leb_gt; done|intros Hle%Z.leb_le]. wp_step. wp_step. cbv beta.
    eapply (wp_mono _ _ _ (λ _, False)); [apply (wp_for_each (λ left s', SlashingSpansOf s' = delete stash (SlashingSpansOf s) ∧
      ∀ stash' ix r, SpanSlash s' !! (stash', ix) = Some r → SpanSlash s !! (stash', ix) = Some r ∧
        (stash' = stash → ∃ span, span ∈ left ∧ span.(sp_index) = ix)))| |done].
    + split; [done|]. intros stash' ix r Hr. split; [done|]. intros ->.
      destruct (si_live _ Hinv _ _ _ Hr) as (sp' & Hsp' & Hix). assert (sp' = sp) as -> by congruence.
      apply iter_index; [by apply (si_ok _ Hinv stash)|done].
    + intros x left s1 [Hs1 Hr1]. wp_steps. cbn. split; [done|]. intros stash' ix r. rewrite lookup_delete_Some.
      intros [Hne (Hr & Hl)%Hr1]. split; [done|]. intros ->. destruct (Hl eq_refl) as (span & Hin & <-).
      exists span. split; [|done]. apply elem_of_cons in Hin as [->|]; [congruence|done].
    + intros ? s' [Hs' Hr']. assert (Hno : ∀ ix, SpanSlash s' !! (stash, ix) = None).
      { intros ix. apply eq_None_not_Some. intros [r (_ & Hl)%Hr']. destruct (Hl eq_refl) as (? & ?%elem_of_nil & _). done. }
      split; [|done]. split; [|split; [rewrite Hs'; apply lookup_delete_eq|done]]. split; rewrite Hs'.
      * intros stash' sp'. rewrite lookup_delete_Some. intros [_ ?]. by eapply si_ok.
      * intros stash' ix r Hr. destruct (decide (stash = stash')) as [<-|Hne]; [by rewrite Hno in Hr|].
        rewrite lookup_delete_ne by done. eapply si_live; [done|]. by apply Hr'.
  - wp_steps. split; [|done]. split; [done|]. split; [done|]. intros ix. apply eq_None_not_Some. intros [r Hr].
    destruct (si_live _ Hinv _ _ _ Hr) as (sp & Hsp' & _). congruence.
Qed.

(** ** The invariant over runs *)

Lemma clear_stash_metadata_spans stash n : preserves spans_inv (clear_stash_metadata stash n).
Proof.
  apply wp_preserves. intros s Hs. destruct (Z.le_gt_cases 0 n) as [Hn|Hn].
  - eapply wp_mono; [by apply wp_clear_stash_metadata|by intros ? ? [[] _]|by intros ? []].
  - unfold clear_stash_metadata. wp_steps; try done. match goal with H : _ = true |- _ => apply Z.leb_le in H end. lia.
Qed.

Lemma update_ledger_span_quiet c l : span_quiet (update_ledger c l).
Proof. unfold update_ledger. span_quiet. Qed.

Lemma update_voter_span_quiet stash : span_quiet (update_voter stash).
Proof. unfold update_voter. span_quiet. Qed.

Lemma kill_stash_spans stash n : preserves spans_inv (kill_stash stash n).
Proof.
  unfold kill_stash. apply preserves_bind; [preserves|]. intros c. apply preserves_bind; [apply clear_stash_metadata_spans|].
  intros _. apply span_quiet_preserves. unfold do_remove_validator, do_remove_nominator. span_quiet.
Qed.

Ltac spans_leaf :=
  first [apply kill_stash_spans | apply span_quiet_preserves, update_ledger_span_quiet
    | apply span_quiet_preserves, update_voter_span_quiet
    | intros s0 Hs0; by apply (spans_inv_same s0)].
Ltac spans :=
  lazymatch goal with
  | |- preserves _ _ => repeat first [progress preserves | spans_leaf | case_match]
  end.

Lemma do_withdraw_unbonded_spans c n : preserves spans_inv (do_withdraw_unbonded c n).
Proof. unfold do_withdraw_unbonded, deposit_event. spans. Qed.

Lemma withdrawal_spans origin n : preserves spans_inv (withdraw_unbonded origin n).
Proof. unfold withdraw_unbonded. preserves. apply do_withdraw_unbonded_spans. Qed.

Lemma unbond_spans origin v : preserves spans_inv (unbond origin v).
Proof.
  unfold unbond, deposit_event. preserves; try apply do_withdraw_unbonded_spans; spans.
Qed.

Lemma force_unstake_spans origin stash n : preserves spans_inv (force_unstake origin stash n).
Proof. unfold force_unstake. spans. Qed.

Lemma reap_stash_spans origin stash n : preserves spans_inv (reap_stash origin stash n).
Proof. unfold reap_stash. spans. Qed.

Lemma apply_slash_span_quiet u era : span_quiet (apply_slash u era).
Proof. unfold apply_slash, do_slash, pay_reporters, pay_reporter, on_unbalanced, update_ledger, deposit_event. span_quiet. Qed.

Lemma slash_scheduler_span_quiet stash : span_quiet (slash_scheduler stash).
Proof. unfold slash_scheduler. span_quiet. apply apply_slash_span_quiet. Qed.

Lemma payout_stakers_span_quiet origin stash era : span_quiet (payout_stakers origin stash era).
Proof.
  unfold payout_stakers, do_payout_stakers, claim_era, pay_era, pay, make_payout, on_unbalanced, update_ledger, deposit_event.
  span_quiet.
Qed.

Lemma calls_span_quiet op :
  match op with
  | CallBond _ _ _ _ | CallBondExtra _ _ | CallValidate _ _ | CallNominate _ _ | CallChill _ | CallSetPayee _ _
  | CallSetController _ _ | CallRebond _ _ | CallKick _ _ | CallChillOther _ _ | CallForceApplyMinCommission _ _
  | CallSetValidatorCount _ _ | CallIncreaseValidatorCount _ _ | CallScaleValidatorCount _ _ | CallForceNoEras _
  | CallForceNewEra _ | CallForceNewEraAlways _ | CallSetInvulnerables _ _ | CallCancelDeferredSlash _ _ _
  | CallSetStakingConfigs _ _ _ _ _ _ _ => span_quiet (run op)
  | _ => True
  end.
Proof.
  destruct op; try done; cbn [run];
    unfold bond, bond_extra, validate, nominate, check_target, chill, set_payee, set_controller, rebond, kick, chill_other,
      force_apply_min_commission, set_validator_count, increase_validator_count, scale_validator_count, force_no_eras,
      force_new_era, force_new_era_always, set_invulnerables, cancel_deferred_slash, remove_slash, set_staking_configs,
      config_op_exp, config_op_exp_option, chill_stash, do_add_validator, do_remove_validator, do_add_nominator,
      do_remove_nominator, update_voter, update_ledger, deposit_event, Lookup, try_mutate_existing, try_mutate; span_quiet.
Qed.

Lemma hooks_span_quiet op :
  match op with
  | HookNewSession _ _ | HookEndSession _ | HookFinalize | HookNoteAuthor _ | HookNoteUncle _ _
  | HookReportOffence _ => span_quiet (run op)
  | _ => True
  end.
Proof.
  destruct op; try done; cbn [run];
    unfold forget, session_manager_new_session, new_session, try_trigger_new_era, trigger_new_era, clear_era_information,
      store_stakers_info, collect_exposures, end_session, end_era, on_finalize, note_author, note_uncle, reward_by_ids,
      report_offence, on_unbalanced, deposit_event; span_quiet.
Qed.

Lemma start_session_span_quiet session : span_quiet (start_session session).
Proof.
  unfold start_session, start_era, push_bonded_era, clear_era_metadata, apply_unapplied_slashes.
  intros p. repeat first [progress preserves | apply apply_slash_span_quiet | case_match | by apply preserves_modify].
Qed.

Lemma slash_offender_spans f era w now strategy inv details fraction :
  0 <= w < 2 ^ 32 → 0 <= now < 2 ^ 32 - 1 →
  preserves spans_inv (slash_offender f era w now strategy inv details fraction).
Proof.
  intros Hw Hnow. unfold slash_offender. cbv zeta. case_decide; [preserves|]. apply preserves_bind.
  - apply wp_preserves. intros s Hs. by apply compute_slash_spans.
  - intros [u|]; unfold deposit_event; preserves; try spans_leaf. apply span_quiet_preserves, apply_slash_span_quiet.
Qed.

Lemma on_offence_spans l f session strategy s :
  bonds_ok (bonds s) → eras_left s → spans_inv s → spans_inv (on_offence l f session strategy s).1.
Proof.
  intros Hok Hera Hinv. apply (wp_run _ (λ _, spans_inv)); [|done]. unfold on_offence. wp_steps; try done.
  apply wp_of_preserves; [|done]. apply preserves_for_each. intros [d fr].
  pose proof (bo_active _ Hok) as Ha. cbn in Ha. unfold eras_left in Hera. pose proof BondingDuration_u32.
  match goal with H : ActiveEra s = Some _ |- _ => rewrite H in Ha; specialize (Ha _ eq_refl) end.
  apply slash_offender_spans; unfold saturating_sub, era_of in *; lia.
Qed.

Lemma run_spans op s :
  bonds_ok (bonds s) → admissible s op → spans_inv s → spans_inv (run op s).1.
Proof.
  intros Hok [Hera _] Hinv. pose proof (calls_span_quiet op) as Hc. pose proof (hooks_span_quiet op) as Hh.
  destruct op; try (by apply (span_quiet_preserves _ Hc)); try (by apply (span_quiet_preserves _ Hh)); cbn [run].
  - by apply unbond_spans.
  - by apply withdrawal_spans.
  - by apply force_unstake_spans.
  - apply (span_quiet_preserves _ (payout_stakers_span_quiet _ _ _)). done.
  - by apply reap_stash_spans.
  - apply (span_quiet_preserves _ (start_session_span_quiet _)). done.
  - by apply on_offence_spans.
  - apply (span_quiet_preserves _ (slash_scheduler_span_quiet _)). done.
Qed.

(** C24 In every state reachable from genesis the slashing metadata is consistent: the
    spans of a stash are well-formed, and every record of a span belongs to a span of
    its stash that has not been pruned, so that pruning and the end of a stash leave no
    record behind. *)
Theorem span_records_live s s' stash ix r :
  genesis s → SlashingSpansOf s = ∅ → SpanSlash s = ∅ → rtc (step (λ _, True)) s s' →
  (∀ sp, SlashingSpansOf s' !! stash = Some sp → spans_ok sp) ∧
  (SpanSlash s' !! (stash, ix) = Some r →
   ∃ sp span, SlashingSpansOf s' !! stash = Some sp ∧ span ∈ iter sp ∧ span.(sp_index) = ix).
Proof.
  intros Hgen Hsp Hrec Hrun.
  assert (bonds_ok (bonds s') ∧ spans_inv s') as [_ [Hok Hlive]].
  { assert (Hs : bonds_ok (bonds s) ∧ spans_inv s).
    { split; [by apply genesis_ok|]. split; [rewrite Hsp|rewrite Hrec]; done. }
    clear Hgen Hsp Hrec. induction Hrun as [s|s1 s2 s3 Hstep _ IH]; [done|]. apply IH. destruct Hs as [Hb Hs].
    split; [eapply moves_ok; [exact Hb|by apply step_moves]|].
    destruct Hstep; [by apply run_spans|done]. }
  split.
  - intros sp Hsp'. by apply (Hok stash).
  - intros (sp & Hsp' & Hix)%Hlive. destruct (iter_index sp ix) as (span & ? & ?); [by apply (Hok stash)|done|]. eauto.
Qed.

(** The end of a stash: [kill_stash] succeeds exactly when it is told at least the
    number of slashing spans of the stash, and then leaves nothing of it: no controller,
    ledger, payee, role, slashing spans or record of a span. *)
Theorem kill_stash_leaves_nothing stash c n s :
  spans_inv s → 0 <= n → Bonded s !! stash = Some c →
  let '(s', r) := kill_stash stash n s in
  (r = Ok () ↔ span_count s stash <= n) ∧
  (r = Ok () → no_spans s' stash ∧ Bonded s' !! stash = None ∧ Ledger s' !! c = None ∧ Payee s' !! stash = None ∧
     Validators s' !! stash = None ∧ Nominators s' !! stash = None).
Proof.
  intros Hinv Hn Hc.
  assert (Hwp : wp (kill_stash stash n) (λ _ s', span_count s stash <= n ∧ no_spans s' stash ∧ Bonded s' !! stash = None ∧
      Ledger s' !! c = None ∧ Payee s' !! stash = None ∧ Validators s' !! stash = None ∧ Nominators s' !! stash = None)
    (λ _, n < span_count s stash) s).
  { unfold kill_stash. wp_step. apply wp_try_get; [congruence|]. intros c' Hc'. assert (c' = c) as -> by congruence. wp_step.
    eapply wp_mono; [by apply wp_clear_stash_metadata| |by intros ? []]. intros ? s1 [[_ Hno] Hcnt].
    unfold do_remove_validator, do_remove_nominator. wp_steps; cbn; split_and!; try done; try apply lookup_delete_eq. }
  unfold wp in Hwp. destruct (kill_stash stash n s) as [s' [[]|e|]].
  - destruct Hwp as [Hcnt Hrest]. split; [by split|done].
  - split; [split; [done|lia]|done].
  - split; [split; [done|lia]|done].
Qed.
End slashes.
