(* ===== verification/Runtime.v ===== *)
(** * The runtime

    [src/runtime/src/lib.rs]: the constants the pallets are configured with and
    the wiring of their traits.  [World] is the part of the chain the file bank
    calls: storage handler, miners, tee workers, authorizations, the task
    scheduler and the block's randomness, over a shared ledger and block number.  The
    file bank runs over [World], the audit pallet over the file bank.  The
    interface classes get their instances here and the laws their proofs. *)
From S2P Require Import Prelude Errors Frame Common StorageHandler Sminer Oss SchedulerCredit TeeWorker.
From S2P Require Import FileBankData FileBank FileBankProofs FileBankFiles AuditPallet AuditProofs.
From S2P Require Import Interfaces.

(** ** Constants *)

Definition SessionsPerEra : Z := 6.
Definition SEGMENT_COUNT : Z := 1000.
Definition FRAGMENT_COUNT : Z := 3.

Definition file_bank_config : FileBankData.Config := {|
  FileBankData.OneDay := DAYS;
  FileBankData.StringLimit := 60240;
  FileBankData.UploadFillerLimit := 10;
  FileBankData.NameStrLimit := 63;
  FileBankData.FileListLimit := 500000;
  FileBankData.BucketLimit := 1000;
  FileBankData.NameMinLength := 3;
  FileBankData.SegmentCount := SEGMENT_COUNT;
  FileBankData.FragmentCount := FRAGMENT_COUNT;
  FileBankData.OwnerLimit := 50000;
  FileBankData.RestoralOrderLife := 250;
  FileBankData.MissionCount := SEGMENT_COUNT * FRAGMENT_COUNT
|}.

Definition audit_config : AuditPallet.Config := {|
  AuditPallet.StringLimit := 60240;
  AuditPallet.ChallengeMinerMax := 8000;
  AuditPallet.VerifyMissionMax := 500;
  AuditPallet.OneDay := DAYS;
  AuditPallet.OneHours := HOURS;
  AuditPallet.UnsignedPriority := 2 ^ 64 - 1;
  AuditPallet.LockTime := HOURS / 60
|}.

(** The stash of a controller and the check of an attestation belong to other
    components. *)
Definition credit_config (find_stash : AccountId → option AccountId) : SchedulerCredit.Config := {|
  SchedulerCredit.PeriodDuration := EPOCH_DURATION_IN_BLOCKS * SessionsPerEra;
  SchedulerCredit.find_stash_account_id := find_stash
|}.

Definition tee_config (verify : list Z → list Z → list Z → result Empty_set (option Z)) : TeeWorker.Config := {|
  TeeWorker.MaxWhitelist := 200;
  TeeWorker.verify_miner_cert := verify
|}.

(** ** The state under the file bank *)

(** What the tee workers call: staking and the credit counters. *)
Record TeeEnv (St : Type) := mkTeeEnv {
  tv_staking : St;
  tv_credit : SchedulerCredit.State
}.
Arguments mkTeeEnv {St} _ _.
Arguments tv_staking {St} _.
Arguments tv_credit {St} _.
#[export] Instance set_tv_tv_staking {St : Type} : Setter (@tv_staking St) := λ f r,
  mkTeeEnv (f (tv_staking r)) (tv_credit r).
#[export] Instance set_tv_tv_credit {St : Type} : Setter (@tv_credit St) := λ f r,
  mkTeeEnv (tv_staking r) (f (tv_credit r)).

Record World (B : Type) (St : Type) := mkWorld {
  w_balances : B;
  w_now : BlockNumber;
  w_storage : StorageHandler.State B;
  w_sminer : Sminer.State B;
  w_tee : TeeWorker.State (TeeEnv St);
  w_oss : Oss.State;
  w_agenda : Agenda;
  w_random : Z → Z;
  w_random_hash : Z → option (list Z)
}.
Arguments mkWorld {B} {St} _ _ _ _ _ _ _ _ _.
Arguments w_balances {B} {St} _.
Arguments w_now {B} {St} _.
Arguments w_storage {B} {St} _.
Arguments w_sminer {B} {St} _.
Arguments w_tee {B} {St} _.
Arguments w_oss {B} {St} _.
Arguments w_agenda {B} {St} _.
Arguments w_random {B} {St} _.
Arguments w_random_hash {B} {St} _.
#[export] Instance set_w_w_balances {B : Type} {St : Type} : Setter (@w_balances B St) := λ f r,
  mkWorld (f (w_balances r)) (w_now r) (w_storage r) (w_sminer r) (w_tee r) (w_oss r) (w_agenda r) (w_random r) (w_random_hash r).
#[export] Instance set_w_w_now {B : Type} {St : Type} : Setter (@w_now B St) := λ f r,
  mkWorld (w_balances r) (f (w_now r)) (w_storage r) (w_sminer r) (w_tee r) (w_oss r) (w_agenda r) (w_random r) (w_random_hash r).
#[export] Instance set_w_w_storage {B : Type} {St : Type} : Setter (@w_storage B St) := λ f r,
  mkWorld (w_balances r) (w_now r) (f (w_storage r)) (w_sminer r) (w_tee r) (w_oss r) (w_agenda r) (w_random r) (w_random_hash r).
#[export] Instance set_w_w_sminer {B : Type} {St : Type} : Setter (@w_sminer B St) := λ f r,
  mkWorld (w_balances r) (w_now r) (w_storage r) (f (w_sminer r)) (w_tee r) (w_oss r) (w_agenda r) (w_random r) (w_random_hash r).
#[export] Instance set_w_w_tee {B : Type} {St : Type} : Setter (@w_tee B St) := λ f r,
  mkWorld (w_balances r) (w_now r) (w_storage r) (w_sminer r) (f (w_tee r)) (w_oss r) (w_agenda r) (w_random r) (w_random_hash r).
#[export] Instance set_w_w_oss {B : Type} {St : Type} : Setter (@w_oss B St) := λ f r,
  mkWorld (w_balances r) (w_now r) (w_storage r) (w_sminer r) (w_tee r) (f (w_oss r)) (w_agenda r) (w_random r) (w_random_hash r).
#[export] Instance set_w_w_agenda {B : Type} {St : Type} : Setter (@w_agenda B St) := λ f r,
  mkWorld (w_balances r) (w_now r) (w_storage r) (w_sminer r) (w_tee r) (w_oss r) (f (w_agenda r)) (w_random r) (w_random_hash r).
#[export] Instance set_w_w_random {B : Type} {St : Type} : Setter (@w_random B St) := λ f r,
  mkWorld (w_balances r) (w_now r) (w_storage r) (w_sminer r) (w_tee r) (w_oss r) (w_agenda r) (f (w_random r)) (w_random_hash r).
#[export] Instance set_w_w_random_hash {B : Type} {St : Type} : Setter (@w_random_hash B St) := λ f r,
  mkWorld (w_balances r) (w_now r) (w_storage r) (w_sminer r) (w_tee r) (w_oss r) (w_agenda r) (w_random r) (f (w_random_hash r)).

Section wiring.
Context {B St : Type} `{!Currency B} `{!Staking St} `{!PerbillOps} `{!StorageIter}
  `{!StorageHandler.Config} `{!Sminer.Config} `{!SchedulerCredit.Config} `{!TeeWorker.Config}.

#[export] Instance TeeEnv_staking : Staking (TeeEnv St) := {|
  bonded stash := zoom tv_staking (bonded stash);
  slash_scheduler stash := zoom tv_staking (slash_scheduler stash)
|}.

#[export] Instance TeeEnv_credit : SchedulerCreditCounter (TeeEnv St) := {|
  record_proceed_block_size a n := zoom tv_credit (SchedulerCredit.record_proceed_block_size a n);
  record_punishment a := zoom tv_credit (SchedulerCredit.record_punishment a)
|}.

Abbreviation W := (World B St).

(** A call of the storage handler or of the miner pallet sees the shared ledger
    and block number, and its changes of the ledger are kept; the ledger and the block number
    in the pallet's own state are placeholders. *)
Definition run_storage {A} (m : M (StorageHandler.State B) A) : M W A := λ w,
  let old := w_storage w in
  let '(s, r) := m (old <| StorageHandler.balances := w_balances w |>
                        <| StorageHandler.block_number := w_now w |>) in
  (w <| w_storage := s <| StorageHandler.balances := StorageHandler.balances old |>
                       <| StorageHandler.block_number := StorageHandler.block_number old |> |>
     <| w_balances := StorageHandler.balances s |>, r).

Definition run_sminer {A} (m : M (Sminer.State B) A) : M W A := λ w,
  let old := w_sminer w in
  let '(s, r) := m (old <| Sminer.balances := w_balances w |> <| Sminer.block_number := w_now w |>) in
  (w <| w_sminer := s <| Sminer.balances := Sminer.balances old |>
                      <| Sminer.block_number := Sminer.block_number old |> |>
     <| w_balances := Sminer.balances s |>, r).

#[export] Instance World_storage : StorageHandle W := {|
  update_user_space a op n := run_storage (StorageHandler.update_user_space a op n);
  add_total_idle_space n := run_storage (StorageHandler.add_total_idle_space n);
  sub_total_idle_space n := run_storage (StorageHandler.sub_total_idle_space n);
  add_total_service_space n := run_storage (StorageHandler.add_total_service_space n);
  sub_total_service_space n := run_storage (StorageHandler.sub_total_service_space n);
  get_total_space := run_storage StorageHandler.get_total_space;
  add_purchased_space n := run_storage (StorageHandler.add_purchased_space n);
  sub_purchased_space n := run_storage (StorageHandler.sub_purchased_space n);
  lock_user_space a n := run_storage (StorageHandler.lock_user_space a n);
  unlock_user_space a n := run_storage (StorageHandler.unlock_user_space a n);
  unlock_and_used_user_space a n := run_storage (StorageHandler.unlock_and_used_user_space a n);
  get_user_avail_space a := run_storage (StorageHandler.get_user_avail_space a);
  frozen_task := run_storage StorageHandler.frozen_task;
  delete_user_space_storage a := run_storage (StorageHandler.delete_user_space_storage a)
|}.

#[export] Instance World_miners : MinerControl W := {|
  add_miner_idle_space a n := run_sminer (Sminer.add_miner_idle_space a n);
  sub_miner_idle_space a n := run_sminer (Sminer.sub_miner_idle_space a n);
  add_miner_service_space a n := run_sminer (Sminer.add_miner_service_space a n);
  sub_miner_service_space a n := run_sminer (Sminer.sub_miner_service_space a n);
  get_power a := run_sminer (Sminer.get_power a);
  miner_is_exist a := run_sminer (Sminer.miner_is_exist a);
  get_miner_state a := run_sminer (Sminer.get_miner_state a);
  get_all_miner := run_sminer Sminer.get_all_miner;
  lock_space a n := run_sminer (Sminer.lock_space a n);
  unlock_space a n := run_sminer (Sminer.unlock_space a n);
  unlock_space_to_service a n := run_sminer (Sminer.unlock_space_to_service a n);
  get_miner_idle_space a := run_sminer (Sminer.get_miner_idle_space a);
  get_miner_count := run_sminer Sminer.get_miner_count;
  get_reward := run_sminer Sminer.get_reward;
  calculate_miner_reward m tr ti ts i sv := run_sminer (Sminer.calculate_miner_reward m tr ti ts i sv);
  clear_punish m l i sv := run_sminer (Sminer.clear_punish m l i sv);
  idle_punish m i sv := run_sminer (Sminer.idle_punish m i sv);
  service_punish m i sv := run_sminer (Sminer.service_punish m i sv);
  execute_exit a := run_sminer (Sminer.execute_exit a);
  withdraw a := run_sminer (Sminer.withdraw a);
  force_miner_exit a := run_sminer (Sminer.force_miner_exit a);
  is_positive a := run_sminer (Sminer.is_positive a);
  is_lock a := run_sminer (Sminer.is_lock a);
  update_miner_state a st := run_sminer (Sminer.update_miner_state a st)
|}.

#[export] Instance World_tee : ScheduleFind W := {|
  contains_scheduler a := zoom w_tee (TeeWorker.contains_scheduler a);
  punish_scheduler a := zoom w_tee (TeeWorker.punish_scheduler a);
  get_first_controller := zoom w_tee TeeWorker.get_first_controller;
  get_controller_list := zoom w_tee TeeWorker.get_controller_list
|}.

#[export] Instance World_oss : OssFindAuthor W := {|
  is_authorized owner operator := zoom w_oss (Oss.is_authorized owner operator)
|}.

#[export] Instance World_scheduler : TaskScheduler W := {|
  schedule_named id at_ task := zoom w_agenda (schedule_named id at_ task);
  cancel_named id := zoom w_agenda (cancel_named id)
|}.

#[export] Instance World_randomness : Randomness W := {| random seed := gets (λ w, w_random w seed) |}.

(** ** The laws the file bank relies on *)

Lemma run_sminer_reads {A} (m : M (Sminer.State B) A) : read_only m → read_only (run_sminer m).
Proof.
  intros Hm w w' r. unfold run_sminer. destruct (m _) as [s r'] eqn:Hr. apply Hm in Hr as ->.
  intros [= <- _]. by destruct w as [? ? ? [] ? ? ? ? ?].
Qed.

Lemma run_sminer_total {A} (m : M (Sminer.State B) A) : no_panic m → no_panic (run_sminer m).
Proof.
  intros Hm w. unfold returns, run_sminer.
  specialize (Hm ((w_sminer w) <| Sminer.balances := w_balances w |> <| Sminer.block_number := w_now w |>)).
  unfold returns in Hm. by destruct (m _).
Qed.

#[export] Instance World_queries : MinerQueryLaws W.
Proof.
  split; intros; (apply run_sminer_reads || apply run_sminer_total); cbn;
    unfold Sminer.get_all_miner, Sminer.is_positive, Sminer.get_miner_state, Sminer.get_miner_idle_space, try_get;
    eauto 10 with frame.
Qed.

#[export] Instance World_random_laws : RandomnessLaws W.
Proof. split; intros; cbn; eauto with frame. Qed.

Lemma World_lock_total a n : no_panic (lock_space a n : M W unit).
Proof.
  apply run_sminer_total. unfold Sminer.lock_space, try_mutate_existing, try_mutate.
  apply no_panic_bind; [eauto with frame|]. intros o. apply no_panic_bind; [|intros []; eauto with frame].
  eauto 10 with frame.
Qed.

(** ** The file bank as the audit pallet sees it *)

Context `{!FileBankData.Config}.
Abbreviation Chain := (FileBankData.State W).

#[export] Instance Chain_miners : MinerControl Chain := {|
  add_miner_idle_space a n := FileBank.call (add_miner_idle_space a n);
  sub_miner_idle_space a n := FileBank.call (sub_miner_idle_space a n);
  add_miner_service_space a n := FileBank.call (add_miner_service_space a n);
  sub_miner_service_space a n := FileBank.call (sub_miner_service_space a n);
  get_power a := FileBank.call (get_power a);
  miner_is_exist a := FileBank.call (miner_is_exist a);
  get_miner_state a := FileBank.call (get_miner_state a);
  get_all_miner := FileBank.call get_all_miner;
  lock_space a n := FileBank.call (lock_space a n);
  unlock_space a n := FileBank.call (unlock_space a n);
  unlock_space_to_service a n := FileBank.call (unlock_space_to_service a n);
  get_miner_idle_space a := FileBank.call (get_miner_idle_space a);
  get_miner_count := FileBank.call get_miner_count;
  get_reward := FileBank.call get_reward;
  calculate_miner_reward m tr ti ts i sv := FileBank.call (calculate_miner_reward m tr ti ts i sv);
  clear_punish m l i sv := FileBank.call (clear_punish m l i sv);
  idle_punish m i sv := FileBank.call (idle_punish m i sv);
  service_punish m i sv := FileBank.call (service_punish m i sv);
  execute_exit a := FileBank.call (execute_exit a);
  withdraw a := FileBank.call (withdraw a);
  force_miner_exit a := FileBank.call (force_miner_exit a);
  is_positive a := FileBank.call (is_positive a);
  is_lock a := FileBank.call (is_lock a);
  update_miner_state a st := FileBank.call (update_miner_state a st)
|}.

#[export] Instance Chain_tee : ScheduleFind Chain := {|
  contains_scheduler a := FileBank.call (contains_scheduler a);
  punish_scheduler a := FileBank.call (punish_scheduler a);
  get_first_controller := FileBank.call get_first_controller;
  get_controller_list := FileBank.call get_controller_list
|}.

#[export] Instance Chain_files : RandomFileList Chain := {|
  random_force_miner_exit m := FileBank.force_miner_exit m
|}.

#[export] Instance Chain_random : RandomHash Chain := {|
  random_hash seed c := w_random_hash (FileBankData.ext c) seed
|}.
End wiring.
