(* ===== verification/StakingRuntime.v ===== *)
(** * The staking pallet in the runtime

    The configuration of the staking pallet in [src/runtime/src/lib.rs], the rewards
    it pays out, and the staking pallet behind the tee-worker pallet: what happens to
    the bonds when a scheduler is punished. *)
From S2P Require Import Prelude Errors Frame Common Interfaces SchedulerCredit TeeWorker Wp.
From S2P Require Import StakingLedger StakingSpans StakingTypes StakingPallet StakingBonds StakingRefine StakingSteps.
From S2P Require Import StakingSlashes Runtime.

(** ** Configuration *)

Definition MILLICENTS : Z := 10000000.
Definition CENTS : Z := 1000 * MILLICENTS.
Definition DOLLARS : Z := 100 * CENTS.

(** Milliseconds of a Julian year over those of an era. *)
Definition MILLISECONDS_PER_YEAR : Z := 1000 * 3600 * 24 * 36525 / 100.
Definition RUNTIME_ERAS_PER_YEAR : Z :=
  MILLISECONDS_PER_YEAR / MILLISECS_PER_BLOCK / (EPOCH_DURATION_IN_BLOCKS * Runtime.SessionsPerEra).

(** What the runtime takes from Substrate is an argument: the lookup of accounts, the
    conversion of currency to votes and the origin that may cancel slashes. *)
Definition staking_config (lookup : AccountId → option AccountId) (to_vote to_currency : Z → Z → Z)
    (slash_cancel_origin : Origin → bool) : StakingTypes.Config := {|
  ERAS_PER_YEAR := RUNTIME_ERAS_PER_YEAR;
  FIRST_YEAR_VALIDATOR_REWARDS := 238500000 * DOLLARS;
  FIRST_YEAR_SMINER_REWARDS := 477000000 * DOLLARS;
  REWARD_DECREASE_RATIO := (841 * (BILLION / 1000) : Perbill);
  REWARD_DECREASE_YEARS := 30;
  MaxNominations := 1;
  HistoryDepth := 84;
  StakingTypes.SessionsPerEra := Runtime.SessionsPerEra;
  BondingDuration := 4 * 28;
  SlashDeferDuration := 4 * 7;
  MaxNominatorRewardedPerValidator := 256;
  OffendingValidatorsThreshold := from_percent 17;
  MaxUnlockingChunks := 32;
  MaxWinners := 1000;
  StakingTypes.lookup := lookup;
  StakingTypes.to_vote := to_vote;
  StakingTypes.to_currency := to_currency;
  StakingTypes.slash_cancel_origin := slash_cancel_origin
|}.

#[export] Instance staking_config_unsigned lookup to_vote to_currency cancel :
  @UnsignedConfig Z_perbill (staking_config lookup to_vote to_currency cancel).
Proof. split; cbn; unfold Runtime.SessionsPerEra; lia. Qed.

(** ** Rewards *)

Section rewards.
Context `{!PerbillOps} `{!PerbillLaws} `{!StakingTypes.Config}.

Lemma decrease_S n r : decrease (S n) r = perbill_mul REWARD_DECREASE_RATIO (decrease n r).
Proof. revert r. induction n as [|n IH]; intros r; [done|]. cbn. cbn in IH. by rewrite IH. Qed.

Lemma decrease_range n r : 0 <= r → 0 <= decrease n r <= r.
Proof.
  intros Hr. induction n as [|n IH]; [cbn; lia|]. rewrite decrease_S.
  pose proof (perbill_mul_range REWARD_DECREASE_RATIO _ (proj1 IH)). lia.
Qed.

Lemma decrease_mono n m r : (n <= m)%nat → 0 <= r → decrease m r <= decrease n r.
Proof.
  intros Hnm Hr. induction Hnm as [|m Hnm IH]; [done|]. rewrite decrease_S.
  pose proof (perbill_mul_range REWARD_DECREASE_RATIO _ (proj1 (decrease_range m r Hr))). lia.
Qed.

(** The rewards of the eras of a year stay within what is granted for the first
    year, never grow from one era to a later one, and no longer change once
    [REWARD_DECREASE_YEARS] years have passed. *)
Theorem era_rewards_decrease e e' :
  0 < ERAS_PER_YEAR → 0 <= FIRST_YEAR_VALIDATOR_REWARDS → 0 <= FIRST_YEAR_SMINER_REWARDS → 0 <= e <= e' →
  let '(v, m) := rewards_in_era e in
  let '(v', m') := rewards_in_era e' in
  0 <= v' <= v ∧ 0 <= m' <= m ∧
  ERAS_PER_YEAR * v <= FIRST_YEAR_VALIDATOR_REWARDS ∧ ERAS_PER_YEAR * m <= FIRST_YEAR_SMINER_REWARDS ∧
  (REWARD_DECREASE_YEARS <= e / ERAS_PER_YEAR → v' = v ∧ m' = m).
Proof.
  intros Hy Hv Hm He. unfold rewards_in_era.
  assert (Hdiv : e / ERAS_PER_YEAR <= e' / ERAS_PER_YEAR) by (apply Z.div_le_mono; lia).
  set (y := e / ERAS_PER_YEAR) in *. set (y' := e' / ERAS_PER_YEAR) in *.
  set (n := if REWARD_DECREASE_YEARS <? y then _ else _). set (n' := if REWARD_DECREASE_YEARS <? y' then _ else _).
  assert (Hn : (Z.to_nat n <= Z.to_nat n')%nat ∧ (REWARD_DECREASE_YEARS <= y → n' = n))
    by (unfold n, n'; repeat case_match; lia).
  destruct Hn as [Hn Hfix].
  assert (Hd : ∀ r, 0 <= r → 0 <= decrease (Z.to_nat n') r / ERAS_PER_YEAR <= decrease (Z.to_nat n) r / ERAS_PER_YEAR ∧
    ERAS_PER_YEAR * (decrease (Z.to_nat n) r / ERAS_PER_YEAR) <= r).
  { intros r Hr. pose proof (decrease_range (Z.to_nat n) r Hr). pose proof (decrease_range (Z.to_nat n') r Hr).
    pose proof (decrease_mono _ _ r Hn Hr). split_and!.
    - apply Z.div_pos; lia.
    - apply Z.div_le_mono; lia.
    - pose proof (Z.mul_div_le (decrease (Z.to_nat n) r) ERAS_PER_YEAR Hy). lia. }
  destruct (Hd _ Hv) as [Hv1 Hv2], (Hd _ Hm) as [Hm1 Hm2]. split_and!; try lia.
  intros Hlate. by rewrite (Hfix Hlate).
Qed.
End rewards.

(** ** Behind the tee-worker pallet *)

Section composed.
Context {X : Type} `{!PerbillOps} `{!PerbillLaws} `{!PerquintillOps} `{!PerquintillLaws} `{!StorageIter}
  `{!StakingTypes.Config} `{!UnsignedConfig} `{!Currency X} `{!LockableCurrency X} `{!LockableCurrencyLaws X}
  `{!StakingHooks X} `{!SchedulerCredit.Config} `{!TeeWorker.Config}.
Abbreviation St := (StakingTypes.State Perbill X).

(** The tee-worker pallet asks for the controller of a stash and slashes schedulers. *)
#[export] Instance Staking_pallet : Staking St := {|
  bonded stash := gets (λ s, Bonded s !! stash);
  Interfaces.slash_scheduler stash := StakingPallet.slash_scheduler stash
|}.

Definition staking_of (t : TeeWorker.State (TeeEnv St)) : St := tv_staking (TeeWorker.ext t).

Lemma one_slash_ledgers b b' stash value era :
  bonds_ok b → 0 <= value → one_slash (X := X) stash value era b b' →
  bonds_ok b' ∧ (∀ a, a ≠ stash → ledger_at b' a = ledger_at b a) ∧
  ∀ l, ledger_at b stash = Some l → ∃ l', ledger_at b' stash = Some l' ∧
    l.(ld_total) - (value + dust (minimum_balance (X := X))) <= l'.(ld_total) <= l.(ld_total).
Proof.
  intros Hok Hv [->|(c & l & Hc & Hl & ->)].
  { split_and!; [done|done|]. intros l Hl. exists l. split; [done|]. unfold dust. lia. }
  assert (Hst : l.(ld_stash) = stash) by (destruct (bo_ledger _ Hok _ _ Hc) as (l1 & Hl1 & ?); congruence).
  set (b' := b <| b_ledger ::= _ |>).
  assert (Hmove : move (X := X) (Slashing stash) b b') by (rewrite <- Hst; apply (mv_ledger _ _ _ l); [done|by apply lm_slash]).
  split_and!; [by eapply move_ok| |].
  - intros a Hne. unfold ledger_at. cbn. destruct (b_bonded b !! a) as [c0|] eqn:Hc0; [|done]. cbn.
    rewrite lookup_insert_ne; [done|]. intros <-. by eapply (controller_ne b a stash).
  - intros l0 Hl0. pose proof (ledger_at_of _ _ _ Hok Hl) as Hat. rewrite Hst in Hat. rewrite Hl0 in Hat. injection Hat as ->.
    unfold ledger_at. cbn. rewrite Hc. cbn. rewrite lookup_insert_eq. eexists. split; [done|].
    pose proof (lw_ok _ _ (bo_wf _ Hok _ _ Hl)) as Hlok.
    pose proof (slash_spec BondingDuration l value (minimum_balance (X := X)) era Hlok Hv minimum_balance_nonneg) as Hs.
    destruct (slash _ _ _ _ _) as [[l' taken] m]. destruct Hs as (_ & Ht & Hr & _). cbn. lia.
Qed.

End composed.
