(* ===== verification/StakingExamples.v ===== *)
(** * A concrete chain for the staking pallet

    The staking pallet with the configuration of the runtime over a ledger of free
    balances, run from a chain specification with a validator and a nominator.  The
    theorems about the staking pallet are applied to it. *)
From S2P Require Import Prelude Errors Frame Common Interfaces SchedulerCredit TeeWorker Wp.
From S2P Require Import StakingLedger StakingSpans StakingTypes StakingPallet StakingBonds StakingRefine StakingSteps.
From S2P Require Import StakingSlashes Runtime StakingRuntime.

(** ** The rest of the chain *)

Record Bank := mkBank {
  bk_free : gmap AccountId Z;
  bk_locks : gmap AccountId Z;
  bk_voters : list AccountId;
  bk_pool : Z
}.
#[export] Instance set_bk_free : Setter bk_free := λ f r, mkBank (f (bk_free r)) (bk_locks r) (bk_voters r) (bk_pool r).
#[export] Instance set_bk_locks : Setter bk_locks := λ f r, mkBank (bk_free r) (f (bk_locks r)) (bk_voters r) (bk_pool r).
#[export] Instance set_bk_voters : Setter bk_voters := λ f r, mkBank (bk_free r) (bk_locks r) (f (bk_voters r)) (bk_pool r).
#[export] Instance set_bk_pool : Setter bk_pool := λ f r, mkBank (bk_free r) (bk_locks r) (bk_voters r) (f (bk_pool r)).

(** Balances are read as unsigned 128-bit integers. *)
Definition bank_free (b : Bank) (a : AccountId) : Z := Z.max 0 (Z.min (2 ^ 128 - 1) (default 0 (bk_free b !! a))).
Definition bank_add (a : AccountId) (v : Z) (b : Bank) : Bank := b <| bk_free ::= <[a := bank_free b a + v]> |>.

#[export] Instance Bank_currency : Currency Bank := {|
  free_balance := bank_free;
  reserved_balance b a := 0;
  can_slash b a v := v <=? bank_free b a;
  transfer_keep_alive a a' v b :=
    if v <? bank_free b a then Ok (bank_add a' v (bank_add a (- v) b)) else Err (CurrencyError 0);
  reserve a v b := Err (CurrencyError 1);
  unreserve a v b := b;
  resolve_creating := bank_add
|}.

#[export] Instance Bank_lockable : LockableCurrency Bank := {|
  minimum_balance := 10;
  total_balance := bank_free;
  total_issuance b := 10 ^ 6;
  set_lock a v b := b <| bk_locks ::= <[a := v]> |>;
  remove_lock a b := b <| bk_locks ::= delete a |>;
  slash_free a v b := let taken := Z.min v (bank_free b a) in (bank_add a (- taken) b, (taken, v - taken));
  deposit_creating a v b := (bank_add a v b, v);
  deposit_into_existing a v b := if 0 <? bank_free b a then (bank_add a v b, Some v) else (b, None)
|}.

#[export] Instance Bank_lockable_laws : LockableCurrencyLaws Bank.
Proof.
  split; cbn.
  - lia.
  - intros x who. unfold bank_free. lia.
  - intros who v x x' taken missing Hv [= <- <- <-]. unfold bank_free. lia.
Qed.

#[export] Instance Bank_consumers : Consumers Bank := {| inc_consumers a b := Some b; dec_consumers a b := b |}.

#[export] Instance Bank_voters : VoterList Bank := {|
  voter_iter := bk_voters;
  voter_count b := Z.of_nat (length (bk_voters b));
  voter_contains b a := bool_decide (a ∈ bk_voters b);
  voter_on_insert a w b := b <| bk_voters ::= cons a |>;
  voter_on_update a w b := b;
  voter_on_remove a b := b <| bk_voters ::= filter (λ a', a' ≠ a) |>
|}.

#[export] Instance Bank_session : SessionInterface Bank := {|
  session_validators b := [1%N]; disable_validator i b := b; prune_historical_up_to e b := b
|}.

(** The validator 1 is elected with its own stake and that of the nominator 2. *)
#[export] Instance Bank_election : ElectionProvider Bank := {|
  elect is_genesis b := (b, Some [(1%N, [(1%N, 1000); (2%N, 500)])])
|}.

#[export] Instance Bank_hooks : StakingHooks Bank := {|
  on_slash_imbalance v b := b; on_reward_imbalance v b := b;
  sminer_reward_pool v b := b <| bk_pool ::= Z.add v |>; unix_now b := 0
|}.

#[local] Instance example_config : StakingTypes.Config :=
  staking_config Some (λ v _, v) (λ v _, v) (λ o, match o with Root => true | _ => false end).

(** ** Runs *)

Abbreviation St := (StakingTypes.State Perbill Bank).

Definition empty_state : St :=
  mkState 1 1 [] ∅ 0 0 0 (from_percent 0) ∅ ∅ ∅ None ∅ None None None ∅ ∅ ∅ ∅ ∅ ∅ ∅ NotForcing (from_percent 10) ∅ []
    ∅ ∅ ∅ ∅ 0 [] None (mkBank {[ 1%N := 2000; 2%N := 700; 11%N := 50; 12%N := 50 ]} ∅ [] 0) [].

Definition example_genesis : GenesisConfig := {|
  gc_validator_count := 1; gc_minimum_validator_count := 1; gc_invulnerables := []; gc_force_era := NotForcing;
  gc_slash_reward_fraction := from_percent 10;
  gc_stakers := [(1%N, 11%N, 1000, StakerValidator); (2%N, 12%N, 500, StakerNominator [1%N])];
  gc_min_nominator_bond := 100; gc_min_validator_bond := 800; gc_max_validator_count := None;
  gc_max_nominator_count := None
|}.

Definition start : St := (genesis_build id example_genesis empty_state).1.
Definition runs (ops : list Op) (s : St) : St := foldl (λ s op, (run op s).1) s ops.

(** Payouts apart, that a call is admissible is a computation. *)
Definition admissible_b (s : St) (op : Op) : bool :=
  (default 0 (CurrentEra s) + BondingDuration + 1 <? 2 ^ 32) &&
  match op with
  | CallBond _ _ v _ | CallRebond _ v => (0 <=? v) && (v <? 2 ^ 128)
  | CallBondExtra _ v | CallUnbond _ v => 0 <=? v
  | CallPayoutStakers _ _ _ => false
  | HookSlashScheduler _ => 0 <=? MinValidatorBond s
  | _ => true
  end.
Fixpoint admissible_all (ops : list Op) (s : St) : bool :=
  match ops with [] => true | op :: ops => admissible_b s op && admissible_all ops (run op s).1 end.

Lemma admissible_b_ok s op : admissible_b s op = true → admissible s op.
Proof.
  unfold admissible_b. rewrite andb_true_iff, Z.ltb_lt. intros [Hera Hop]. split; [exact Hera|].
  destruct op; try done; rewrite ?andb_true_iff, ?Z.leb_le, ?Z.ltb_lt in Hop; lia || done.
Qed.

Lemma runs_steps K ops s :
  admissible_all ops s = true → (∀ op (s : St), op ∈ ops → ∀ k, kinds s op k → K k) → rtc (step K) s (runs ops s).
Proof.
  revert s. induction ops as [|op ops IH]; intros s; cbn; [done|]. rewrite andb_true_iff. intros [Hop Hops] HK.
  eapply rtc_l; [apply step_run; [by apply admissible_b_ok|intros k; apply HK; by left]|]. apply IH; [done|].
  intros op' s' Hin. apply HK. by right.
Qed.

Lemma empty_genesis : genesis empty_state.
Proof. vm_compute. reflexivity. Qed.

Lemma stakers_balances : Forall (λ st, 0 <= st.1.2 < 2 ^ 128) example_genesis.(gc_stakers).
Proof. cbn [example_genesis gc_stakers]. repeat constructor; cbn; lia. Qed.

Lemma refines_run {A} K (m : M St A) s : refines K m s → bonds_ok (bonds s) → bonds_ok (bonds (m s).1).
Proof.
  intros Hm Hok. eapply (moves_ok K); [exact Hok|].
  apply (wp_run _ (λ _ s', moves (X := Bank) K (bonds s) (bonds s'))
    (λ s', moves (X := Bank) K (bonds s) (bonds s'))); [exact Hm|]. intros a s' H. exact H.
Qed.

Lemma start_ok : bonds_ok (bonds start).
Proof.
  apply (refines_run (λ k, k = Normal) (genesis_build id example_genesis) empty_state).
  - apply genesis_build_refines; [apply genesis_ok; exact empty_genesis|exact stakers_balances].
  - apply genesis_ok. exact empty_genesis.
Qed.

(** The validator unbonds 300 and tries to withdraw at once. *)
Definition leaving : list Op := [CallUnbond (Signed 11) 300; CallWithdrawUnbonded (Signed 11) 0; CallChill (Signed 11)].

Lemma staking_refines_bonds_witness :
  bonds_ok (bonds start) ∧ moves (X := Bank) (λ _, True) (bonds start) (bonds (runs leaving start)).
Proof.
  split; [exact start_ok|]. apply (staking_refines_bonds (λ _, True)); [exact start_ok|].
  apply runs_steps; [vm_compute; reflexivity|done].
Defined.

Lemma reachable_consistent_witness :
  Bonded (runs leaving start) !! 1%N = Some 11%N ∧
  ∃ l, Ledger (runs leaving start) !! 11%N = Some l ∧ l.(ld_stash) = 1%N.
Proof.
  assert (Hc : Bonded (runs leaving start) !! 1%N = Some 11%N) by (vm_compute; reflexivity).
  split; [exact Hc|].
  apply (reachable_consistent id example_genesis empty_state start (runs leaving start) () 1 11
    {| ld_stash := 1%N; ld_total := 0; ld_active := 0; ld_unlocking := []; ld_claimed_rewards := [] |});
    [exact empty_genesis|exact stakers_balances|vm_compute; reflexivity| |exact Hc].
  apply runs_steps; [vm_compute; reflexivity|done].
Defined.

Lemma try_state_ledgers_witness : check_ledgers (runs leaving start) = true.
Proof.
  apply (try_state_ledgers id example_genesis empty_state start (runs leaving start) ());
    [exact empty_genesis|exact stakers_balances|vm_compute; reflexivity|].
  apply runs_steps; [vm_compute; reflexivity|done].
Defined.

Lemma bonded_funds_locked_witness :
  ∃ c l, Bonded (runs leaving start) !! 1%N = Some c ∧ Ledger (runs leaving start) !! c = Some l ∧ 1000 <= l.(ld_total).
Proof.
  pose (l := {| ld_stash := 1%N; ld_total := 1000; ld_active := 1000; ld_unlocking := []; ld_claimed_rewards := [] |}).
  apply (bonded_funds_locked start (runs leaving start) 1 11 l);
    [exact start_ok| |vm_compute; reflexivity|vm_compute; reflexivity|vm_compute; reflexivity|vm_compute; discriminate
    |vm_compute; reflexivity].
  apply runs_steps; [vm_compute; reflexivity|]. intros op s Hop k. unfold leaving in Hop.
  repeat (apply elem_of_cons in Hop as [->|Hop]; [by intros ->|]). by apply elem_of_nil in Hop.
Defined.

(** Era 0 is planned and started, the validator writes a block, era 1 is planned and
    era 0 ends. *)
Definition one_era : list Op :=
  [HookNewSession 0 true; HookStartSession 0; HookFinalize; HookNoteAuthor 1; HookNewSession 6 false; HookEndSession 5;
   HookStartSession 6].
Definition after_era : St := runs one_era start.
Definition payout : Op := CallPayoutStakers (Signed 3) 1 0.

Lemma after_era_ok : bonds_ok (bonds after_era).
Proof.
  apply (run_bonds_ok (λ _, True) start); [exact start_ok|]. apply runs_steps; [vm_compute; reflexivity|done].
Qed.

Lemma after_era_room : payout_room 1 0 after_era.
Proof.
  intros reward Hr. assert (reward = default 0 (ErasValidatorReward after_era !! 0)) as -> by (by rewrite Hr).
  split; [vm_compute; split; [discriminate|reflexivity]|].
  assert (Hall : map_Forall (λ _ l, l.(ld_total) + 2 * default 0 (ErasValidatorReward after_era !! 0) < 2 ^ 128)
    (Ledger after_era)).
  { apply (bool_decide_unpack _). vm_compute. exact I. }
  intros c l Hl. apply Hall in Hl. exact Hl.
Qed.

Lemma no_double_payout_witness :
  (payout_stakers (Signed 3) 1 0 after_era).2 = Ok () ∧
  (payout_stakers (Signed 4) 1 0 (runs [CallChill (Signed 11)] (payout_stakers (Signed 3) 1 0 after_era).1)).2 ≠ Ok ().
Proof.
  assert (Hpaid : (payout_stakers (Signed 3) 1 0 after_era).2 = Ok ()) by (vm_compute; reflexivity).
  split; [exact Hpaid|].
  apply (no_double_payout (Signed 3) (Signed 4) 1 0 after_era ()); [exact after_era_ok|exact after_era_room|exact Hpaid|].
  apply runs_steps; [vm_compute; reflexivity|done].
Defined.

(** ** Slashes *)

(** The first slash of account 1, of 30 in era 3. *)
Definition first_look : InspectingSpans Perbill :=
  mkInspectingSpans false 0 1%N (spans_new 0) 0 0 (from_percent 10).

Lemma span_slash_increase_witness :
  ∃ s i, compare_and_update_span_slash first_look 3 30 empty_state = (s, Ok (i, Some 0)) ∧
    slashed_in s (1%N, 0) = 30 ∧ i.(in_slash_of) = 30.
Proof.
  destruct (span_slash_increase first_look 3 30 empty_state) as (s & i & Hrun & Hrec & Hsl & _).
  - apply spans_new_ok. lia.
  - intros key. vm_compute. split; [discriminate|reflexivity].
  - lia.
  - vm_compute. discriminate.
  - vm_compute. reflexivity.
  - exists s, i. split; [exact Hrun|]. cbn in Hrec. split; [exact Hrec|].
    rewrite Hsl. cbn. rewrite Hrec. reflexivity.
Defined.

(** Account 1 bonds, validates and is reported in the first era. *)
Definition offending : list Op :=
  [CallBond (Signed 1) 11 1000 DestStaked; CallValidate (Signed 11) default_prefs; HookNewSession 0 true;
   HookStartSession 0; HookFinalize;
   HookOnOffence [{| od_stash := 1%N; od_exposure := {| ex_total := 1000; ex_own := 1000; ex_others := [] |};
                     od_reporters := [] |}] [from_percent 10] 0 DisableNever].

Lemma span_records_live_witness :
  sr_slashed <$> SpanSlash (runs offending empty_state) !! (1%N, 0) = Some 100 ∧
  ∃ sp span, SlashingSpansOf (runs offending empty_state) !! 1%N = Some sp ∧ span ∈ iter sp ∧ span.(sp_index) = 0.
Proof.
  split; [vm_compute; reflexivity|].
  destruct (span_records_live empty_state (runs offending empty_state) 1 0
    (default default_record (SpanSlash (runs offending empty_state) !! (1%N, 0)))) as [_ Hlive].
  - exact empty_genesis.
  - reflexivity.
  - reflexivity.
  - apply runs_steps; [vm_compute; reflexivity|done].
  - apply Hlive. vm_compute. reflexivity.
Defined.

Lemma empty_spans : spans_inv empty_state.
Proof. by split. Qed.

Lemma offending_spans : spans_inv (runs offending empty_state) ∧ bonds_ok (bonds (runs offending empty_state)).
Proof.
  assert (H : ∀ ops s, admissible_all ops s = true → spans_inv s → bonds_ok (bonds s) →
    spans_inv (runs ops s) ∧ bonds_ok (bonds (runs ops s))).
  { induction ops as [|op ops IH]; intros s; cbn; [done|]. rewrite andb_true_iff. intros [Hop Hops] Hs Hb.
    apply admissible_b_ok in Hop. apply IH; [done|exact (run_spans op s Hb Hop Hs)|].
    exact (run_bonds_ok _ _ _ Hb (rtc_once _ _ (step_run (λ _, True) s op Hop (λ _ _, I)))). }
  apply H; [vm_compute; reflexivity|exact empty_spans|apply genesis_ok; exact empty_genesis].
Qed.

(** It has two spans, the one with the slash and the one after it. *)
Lemma kill_stash_leaves_nothing_witness :
  (kill_stash 1 2 (runs offending empty_state)).2 = Ok () ∧
  no_spans (kill_stash 1 2 (runs offending empty_state)).1 1.
Proof.
  pose proof (kill_stash_leaves_nothing 1 11 2 (runs offending empty_state) (proj1 offending_spans) ltac:(lia)
    ltac:(vm_compute; reflexivity)) as Hkill.
  assert (Hok : (kill_stash 1 2 (runs offending empty_state)).2 = Ok ()) by (vm_compute; reflexivity).
  split; [exact Hok|]. destruct (kill_stash 1 2 (runs offending empty_state)) as [s' r]. destruct Hkill as [_ Hno].
  destruct (Hno Hok) as [Hn _]. exact Hn.
Defined.

Lemma era_rewards_decrease_witness :
  rewards_in_era 0 = (163244353182751540, 326488706365503080) ∧
  (rewards_in_era 100000).1 <= (rewards_in_era 0).1.
Proof.
  assert (Hy : 0 < ERAS_PER_YEAR) by (vm_compute; reflexivity).
  assert (Hv : 0 <= FIRST_YEAR_VALIDATOR_REWARDS) by (vm_compute; discriminate).
  assert (Hm : 0 <= FIRST_YEAR_SMINER_REWARDS) by (vm_compute; discriminate).
  pose proof (era_rewards_decrease 0 100000 Hy Hv Hm ltac:(lia)) as Hd. clear Hy Hv Hm.
  split; [vm_compute; reflexivity|]. destruct (rewards_in_era 0) as [v m], (rewards_in_era 100000) as [v' m'].
  destruct Hd as ([_ Hv] & _). exact Hv.
Defined.

(** The validator 1 also runs the tee worker with controller 11. *)
#[local] Instance example_credit_config : SchedulerCredit.Config := credit_config Some.
#[local] Instance example_tee_config : TeeWorker.Config := tee_config (λ sign cert report, Ok (Some 1)).

Definition example_workers : TeeWorker.State (TeeEnv St) :=
  (TeeWorker.register (Signed 11) 1 5 6 [7] (TeeWorker.mkSgxAttestationReport [1] [2] [3])
     (TeeWorker.mkState ∅ None [] (mkTeeEnv after_era (SchedulerCredit.mkState ∅ ∅ 0)) [])).1.

