(* ===== verification/RuntimeDeals.v ===== *)
(** * Deals across the pallets

    A declared file locks space of its user in the storage handler and of its
    miners in the miner pallet.  When the deal is given up, the scheduled call
    releases both: nothing of the declaration is left. *)
From S2P Require Import Prelude Errors Frame Common StorageHandler Sminer Oss SchedulerCredit TeeWorker.
From S2P Require Import FileBankData FileBank FileBankProofs FileBankFiles AuditPallet AuditProofs.
From S2P Require Import Interfaces Runtime.

Section deals.
Context {B St : Type} `{!Currency B} `{!Staking St} `{!PerbillOps} `{!StorageIter}
  `{!StorageHandler.Config} `{!Sminer.Config} `{!SchedulerCredit.Config} `{!TeeWorker.Config}
  `{!FileBankData.Config}.
Abbreviation W := (World B St).
Abbreviation Chain := (FileBankData.State W).
Implicit Types (c : Chain) (w : W) (t : MinerTaskList).

Definition items c : gmap AccountId Sminer.MinerInfo := Sminer.MinerItems (w_sminer (FileBankData.ext c)).
Definition spaces c : gmap AccountId StorageHandler.OwnedSpaceDetails :=
  StorageHandler.UserOwnedSpace (w_storage (FileBankData.ext c)).

(** ** Locking and unlocking the miners of a deal *)

Definition share t : Z := Z.of_nat (length t.(mt_fragment_list)) * FRAGMENT_SIZE.

Definition locked (n : Z) (mi : Sminer.MinerInfo) : Sminer.MinerInfo :=
  mi <| Sminer.lock_space_ := Sminer.lock_space_ mi + n |> <| Sminer.idle_space := Sminer.idle_space mi - n |>.

Lemma locked_unlocked n mi : locked (- n) (locked n mi) = mi.
Proof.
  destruct mi. unfold locked, set_field, Sminer.set_mi_lock_space_, Sminer.set_mi_idle_space. cbn. f_equal; lia.
Qed.

Definition lock_items (m : gmap AccountId Sminer.MinerInfo) (tasks : list MinerTaskList) :=
  foldl (λ m t, alter (locked (share t)) t.(mt_miner) m) m tasks.

Definition with_items c (m : gmap AccountId Sminer.MinerInfo) : Chain :=
  c <| FileBankData.ext ::= λ w, w <| w_sminer ::= λ s, s <| Sminer.MinerItems := m |> |> |>.

Lemma with_items_id c : with_items c (items c) = c.
Proof. by destruct c as [? ? ? ? ? ? ? ? ? ? ? [? ? ? [] ? ? ? ? ?] ? ?]. Qed.

(** A call of the miner pallet that touches only the miners' entries. *)
Lemma call_run_sminer (m : M (Sminer.State B) unit) c it :
  (∀ s, Sminer.MinerItems s = items c → m s = (s <| Sminer.MinerItems := it |>, Ok ())) →
  FileBank.call (run_sminer m) c = (with_items c it, Ok ()).
Proof.
  intros Hm. unfold FileBank.call, zoom, run_sminer. rewrite Hm by done.
  by destruct c as [? ? ? ? ? ? ? ? ? ? ? [? ? ? [] ? ? ? ? ?] ? ?].
Qed.

Lemma lock_call_Ok a n c c' :
  FileBank.call (lock_space a n) c = (c', Ok ()) →
  ∃ mi, items c !! a = Some mi ∧ Sminer.lock_space_ mi + n < 2 ^ 128 ∧ n <= Sminer.idle_space mi ∧
    c' = with_items c (<[a := locked n mi]> (items c)).
Proof.
  intros Hrun. pose proof Hrun as Hrun'. apply zoom_Ok in Hrun as (w & Hw & _). cbn in Hw. unfold run_sminer in Hw.
  destruct (Sminer.lock_space a n _) as [s r] eqn:Hm. injection Hw as _ ->.
  apply Sminer.lock_space_Ok in Hm as (mi & Hmi & Hl & Hi & _). cbn in Hmi. exists mi. split_and!; [done..|].
  cbn in Hrun'. erewrite call_run_sminer in Hrun'; [by injection Hrun' as <-|].
  intros s' Hs'. apply Sminer.lock_space_Ok. exists mi. rewrite Hs'. split_and!; [done..|]. by destruct s'; cbn in *; subst.
Qed.

Lemma unlock_call a n c mi :
  items c !! a = Some mi → n <= Sminer.lock_space_ mi → Sminer.idle_space mi + n < 2 ^ 128 →
  FileBank.call (unlock_space a n) c = (with_items c (<[a := locked (- n) mi]> (items c)), Ok ()).
Proof.
  intros Hmi Hl Hi. apply call_run_sminer. intros s Hs. unfold Sminer.unlock_space. apply try_mutate_Ok.
  eexists s, (Some _). rewrite Hs, Hmi. split.
  - run_ok; cbn; lia.
  - destruct s, mi. cbn in *. subst. unfold locked. cbn.
    by rewrite Z.add_opp_r, Z.sub_opp_r.
Qed.

(** Every miner of the deal exists, with its share idle and room in the books. *)
Definition can_lock (m : gmap AccountId Sminer.MinerInfo) (tasks : list MinerTaskList) : Prop :=
  Forall (λ t, ∃ mi, m !! t.(mt_miner) = Some mi ∧ share t <= Sminer.idle_space mi) tasks.

Lemma lock_items_other m tasks a : a ∉ mt_miner <$> tasks → lock_items m tasks !! a = m !! a.
Proof.
  revert m. induction tasks as [|t tasks IH]; intros m Ha; [done|]. cbn in *. apply not_elem_of_cons in Ha as [Hne Ha].
  unfold lock_items in *. cbn. rewrite IH by done. by rewrite lookup_alter_ne.
Qed.

Lemma lock_items_alter m tasks a f :
  a ∉ mt_miner <$> tasks → lock_items (alter f a m) tasks = alter f a (lock_items m tasks).
Proof.
  revert m. induction tasks as [|t tasks IH]; intros m Ha; [done|]. cbn in *. apply not_elem_of_cons in Ha as [Hne Ha].
  unfold lock_items in *. cbn. rewrite <- IH by done. f_equal. by apply alter_alter_ne.
Qed.

Lemma with_items_with c m m' : with_items (with_items c m) m' = with_items c m'.
Proof. done. Qed.

Lemma items_with c m : items (with_items c m) = m.
Proof. done. Qed.

Lemma lock_tasks_Ok tasks c c' :
  NoDup (mt_miner <$> tasks) →
  for_each tasks (λ t, FileBank.call (lock_space t.(mt_miner) (share t))) c = (c', Ok ()) →
  can_lock (items c) tasks ∧ c' = with_items c (lock_items (items c) tasks).
Proof.
  revert c. induction tasks as [|t tasks IH]; intros c Hnd Hrun; cbn [for_each] in Hrun.
  { apply ret_Ok in Hrun as [-> _]. split; [constructor|]. unfold lock_items. cbn. by rewrite with_items_id. }
  apply bind_Ok in Hrun as (c1 & [] & H1' & Hrun). cbn in Hnd. apply NoDup_cons in Hnd as [Ht Hnd].
  apply lock_call_Ok in H1' as (mi & Hmi & Hl & Hi & ->).
  apply IH in Hrun as [Hcan ->]; [|done]. rewrite items_with in *. split.
  - constructor; [by eexists|]. eapply Forall_impl; [apply Forall_and; split; [exact Hcan|]|].
    + apply Forall_forall. intros t' Ht'. exact (list_elem_of_fmap_2 mt_miner _ _ Ht').
    + cbn. intros t' [(mi' & Hmi' & ?) Hin]. rewrite lookup_insert_ne in Hmi'; [by eexists|]. intros E. apply Ht. by rewrite E.
  - rewrite with_items_with. f_equal. unfold lock_items. cbn. f_equal. apply map_eq. intros a.
    destruct (decide (a = mt_miner t)) as [->|].
    + by rewrite lookup_insert_eq, lookup_alter_eq, Hmi.
    + by rewrite lookup_insert_ne, lookup_alter_ne by done.
Qed.

Lemma share_nonneg t : 0 <= share t.
Proof. unfold share. assert (0 <= FRAGMENT_SIZE) by done. nia. Qed.

(** Unlocking restores the entries. *)
Lemma unlock_tasks_restores tasks c m :
  NoDup (mt_miner <$> tasks) → can_lock m tasks →
  map_Forall (λ _ mi, 0 <= Sminer.lock_space_ mi ∧ Sminer.idle_space mi < 2 ^ 128) m →
  items c = lock_items m tasks →
  unlock_tasks tasks c = (with_items c m, Ok ()).
Proof.
  intros Hnd Hcan Hwf. revert c. induction tasks as [|t tasks IH]; intros c Hc.
  { cbn in Hc. unfold lock_items in Hc. cbn in Hc. subst m. cbn. by rewrite with_items_id. }
  cbn in Hnd. apply NoDup_cons in Hnd as [Ht Hnd]. apply Forall_cons in Hcan as [(mi & Hmi & Hle) Hcan].
  destruct (Hwf _ _ Hmi) as [Hl0 Hi0]. pose proof (share_nonneg t).
  assert (items c = alter (locked (share t)) t.(mt_miner) (lock_items m tasks)) as Hitems.
  { rewrite Hc. unfold lock_items at 1. cbn. by apply lock_items_alter. }
  assert (items c !! t.(mt_miner) = Some (locked (share t) mi)) as Hlook.
  { rewrite Hitems, lookup_alter_eq, lock_items_other, Hmi; done. }
  unfold unlock_tasks. cbn [for_each]. apply bind_Ok. eexists _, (). split.
  - rewrite (Z.mul_comm FRAGMENT_SIZE). apply (unlock_call _ (share t) _ _ Hlook).
    + unfold locked. cbn. lia.
    + unfold locked. cbn. lia.
  - etrans; [apply IH; [done|done|]|done]. rewrite items_with, Hitems. apply map_eq. intros a.
    destruct (decide (a = mt_miner t)) as [->|].
    + rewrite lookup_insert_eq, lock_items_other, Hmi by done. by rewrite locked_unlocked.
    + by rewrite lookup_insert_ne, lookup_alter_ne by done.
Qed.

(** ** Locking and unlocking the space of a user *)

Definition with_spaces c (m : gmap AccountId StorageHandler.OwnedSpaceDetails) : Chain :=
  c <| FileBankData.ext ::= λ w, w <| w_storage ::= λ s, s <| StorageHandler.UserOwnedSpace := m |> |> |>.

Lemma call_run_storage (m : M (StorageHandler.State B) unit) c it :
  (∀ s, StorageHandler.UserOwnedSpace s = spaces c → m s = (s <| StorageHandler.UserOwnedSpace := it |>, Ok ())) →
  FileBank.call (run_storage m) c = (with_spaces c it, Ok ()).
Proof.
  intros Hm. unfold FileBank.call, zoom, run_storage. rewrite Hm by done.
  by destruct c as [? ? ? ? ? ? ? ? ? ? ? [? ? [] ? ? ? ? ? ?] ? ?].
Qed.

Definition user_locked (n : Z) (d : StorageHandler.OwnedSpaceDetails) : StorageHandler.OwnedSpaceDetails :=
  d <| StorageHandler.locked_space := StorageHandler.locked_space d + n |>
    <| StorageHandler.remaining_space := StorageHandler.remaining_space d - n |>.

Lemma lock_user_call_Ok a n c c' :
  FileBank.call (lock_user_space a n) c = (c', Ok ()) →
  ∃ d, spaces c !! a = Some d ∧ n <= StorageHandler.remaining_space d ∧
    c' = with_spaces c (<[a := user_locked n d]> (spaces c)).
Proof.
  intros Hrun. pose proof Hrun as Hrun'. apply zoom_Ok in Hrun as (w & Hw & _). cbn in Hw. unfold run_storage in Hw.
  destruct (StorageHandler.lock_user_space a n _) as [s r] eqn:Hm. injection Hw as _ ->.
  apply StorageHandler.lock_user_space_Ok in Hm as (d & Hd & Hst & Hr & Hl & _). cbn in Hd. exists d. split_and!; [done..|].
  cbn in Hrun'. erewrite call_run_storage in Hrun'; [by injection Hrun' as <-|].
  intros s' Hs'. apply StorageHandler.lock_user_space_Ok. exists d. rewrite Hs'. split_and!; [done..|].
  by destruct s'; cbn in *; subst.
Qed.

Lemma unlock_user_call a n c d :
  spaces c !! a = Some d → n <= StorageHandler.locked_space d → StorageHandler.remaining_space d + n < 2 ^ 128 →
  FileBank.call (unlock_user_space a n) c = (with_spaces c (<[a := user_locked (- n) d]> (spaces c)), Ok ()).
Proof.
  intros Hd Hl Hr. apply call_run_storage. intros s Hs. apply StorageHandler.unlock_user_space_Ok.
  exists d. rewrite Hs. split_and!; [done..|]. destruct s. cbn in *. subst. unfold user_locked.
  by rewrite Z.add_opp_r, Z.sub_opp_r.
Qed.

(** ** A deal that is given up *)

Lemma run_storage_reads {A} (m : M (StorageHandler.State B) A) :
  read_only m → read_only (run_storage m : M W A).
Proof.
  intros Hm w w' r. unfold run_storage. destruct (m _) as [s r'] eqn:Hr. apply Hm in Hr as ->.
  intros [= <- _]. by destruct w as [? ? [] ? ? ? ? ? ?].
Qed.

Lemma check_permission_reads operator owner : read_only (check_permission operator owner : M Chain bool).
Proof.
  unfold check_permission. apply read_only_if; [eauto with frame|]. apply call_read_only.
  cbn. apply read_only_zoom; [by intros []|]. unfold Oss.is_authorized. apply read_only_bind; [eauto with frame|].
  intros []; eauto with frame.
Qed.

Lemma avail_space_reads a : read_only (FileBank.call (get_user_avail_space a) : M Chain Z).
Proof.
  apply call_read_only. cbn. apply run_storage_reads. unfold StorageHandler.get_user_avail_space. eauto with frame.
Qed.

Lemma start_first_task_Ok h count life c c' :
  start_first_task h count life c = (c', Ok ()) →
  ∃ a, c' = c <| FileBankData.ext ::= λ w, w <| w_agenda := a |> |>.
Proof.
  intros Hrun. unfold start_first_task in Hrun. apply bind_Ok in Hrun as (c1 & now & [-> ->]%gets_Ok & Hrun).
  apply bind_Ok in Hrun as (c1 & b & [-> _]%ok_or_Ok & Hrun). apply bind_Ok in Hrun as (c1 & sv & [-> _]%ok_or_Ok & Hrun).
  apply bind_Ok in Hrun as (c1 & r & Hr & [-> _]%ensure_Ok).
  unfold catch, FileBank.call, zoom in Hr. cbn in Hr. unfold zoom in Hr. cbn in Hr.
  destruct (agenda _ !! _) as [?|]; [|destruct (_ <=? _)]; injection Hr as <- _; by eexists.
Qed.

(** What a declaration of a new file does: lock the user's space, lock the miners'
    shares, and enter the deal. *)
Lemma upload_new_Ok who h needed brief size c c' :
  File c !! h = None → NoDup (Sminer.AllMiner (w_sminer (FileBankData.ext c))) →
  upload_declaration (Signed who) h needed brief size c = (c', Ok ()) →
  let n := cal_file_size (Z.of_nat (length needed)) in
  let u := brief.(ub_user) in
  ∃ d tasks deal,
    spaces c !! u = Some d ∧ n <= StorageHandler.remaining_space d ∧
    NoDup (mt_miner <$> tasks) ∧ can_lock (items c) tasks ∧
    spaces c' = <[u := user_locked n d]> (spaces c) ∧ items c' = lock_items (items c) tasks ∧
    DealMap c' = <[h := deal]> (DealMap c) ∧
    deal.(di_segment_list) = needed ∧ deal.(di_assigned_miner) = tasks ∧ deal.(di_user) = brief.
Proof.
  intros Hnew Hall Hrun n u. unfold upload_declaration in Hrun. rewrite transactional_Ok in Hrun.
  apply bind_Ok in Hrun as (c1 & s & [-> [= <-]]%ensure_signed_Ok & Hrun).
  apply bind_Ok in Hrun as (c1 & p & Hp & Hrun). apply check_permission_reads in Hp as ->.
  do 4 (apply bind_Ok in Hrun as (c1 & [] & [-> _]%ensure_Ok & Hrun)).
  apply bind_Ok in Hrun as (c1 & av & Hav & Hrun). apply avail_space_reads in Hav as ->.
  apply bind_Ok in Hrun as (c1 & [] & [-> _]%ensure_Ok & Hrun).
  apply bind_Ok in Hrun as (c1 & ex & [-> ->]%contains_key_Ok & Hrun).
  rewrite Hnew, bool_decide_eq_false_2 in Hrun by by intros [].
  apply bind_Ok in Hrun as (c1 & [] & Hbody & ->%modify_Ok).
  apply bind_Ok in Hbody as (c2 & [] & Hlock & Hgen).
  apply lock_user_call_Ok in Hlock as (d & Hd & Hle & ->).
  unfold generate_deal in Hgen. apply bind_Ok in Hgen as (c3 & tasks & Hassign & Hgen). cbv zeta in Hgen.
  destruct ((λ H, random_assign_miner_run (X := W) _ _ _ _ _ H Hall Hassign) eq_refl) as (ch & _ & _ & _ & _ & Hlocks).
  pose proof ((λ H, random_assign_miner_nodup (X := W) _ _ _ _ _ H Hall Hassign) eq_refl) as Hnd.
  apply lock_tasks_Ok in Hlocks as [Hcan ->]; [|done].
  apply bind_Ok in Hgen as (c4 & [] & (a & ->)%start_first_task_Ok & ->%insert_at_Ok).
  do 3 eexists. by split_and!.
Qed.

End deals.
