(* ===== verification/RuntimeExamples.v ===== *)
(** * A concrete chain

    The runtime with a ledger of balances, three miners, a tee worker and a user,
    built by running the pallets' own calls.  The theorems about the file bank
    and the audit pallet are applied to it, and runs on it show where the pallets
    do not do what they mean to. *)
From S2P Require Import Prelude Errors Frame Common StorageHandler Sminer Oss SchedulerCredit TeeWorker.
From S2P Require Import FileBankData FileBank FileBankProofs FileBankFiles FileBankLife FileBankTypes AuditPallet.
From S2P Require Import AuditProofs Interfaces Runtime RuntimeDeals.

(** ** The chain *)

#[local] Instance example_storage_config : StorageHandler.Config := StorageHandler.runtime_config 900 901.
#[local] Instance example_sminer_config : Sminer.Config := Sminer.runtime_config 900.
#[local] Instance example_credit_config : SchedulerCredit.Config := credit_config Some.
#[local] Instance example_tee_config : TeeWorker.Config := tee_config (λ sign cert report, Ok (Some 1)).
#[local] Instance example_bank_config : FileBankData.Config := file_bank_config.
#[local] Instance example_audit_config : AuditPallet.Config := audit_config.

(** Every account is its own controller; slashing is not observed. *)
#[local] Instance example_staking : Staking unit :=
  {| bonded stash := mret (Some stash); slash_scheduler stash := mret () |}.

Abbreviation W := (World Ledger unit).
Abbreviation Chain := (FileBankData.State W).

(** The miners 1, 2 and 3 and the user 7 have funds. *)
Definition example_ledger : Ledger :=
  mkLedger {[ 1%N := 10 ^ 17; 2%N := 10 ^ 17; 3%N := 10 ^ 17; 7%N := 10 ^ 6; 900%N := 1 ]} ∅ 1.

Definition example_tee : TeeWorker.State (TeeEnv unit) :=
  (TeeWorker.register (Signed 50) 50 5 6 [7] (TeeWorker.mkSgxAttestationReport [1] [2] [3])
     (TeeWorker.mkState ∅ None [] (mkTeeEnv () (SchedulerCredit.mkState ∅ ∅ 0)) [])).1.

Definition example_world : W :=
  mkWorld example_ledger 100
    ((StorageHandler.genesis 30 example_ledger) <| StorageHandler.TotalIdleSpace := 4 * G_BYTE |>)
    (Sminer.initial example_ledger) example_tee (Oss.mkState ∅ ∅ []) (mkAgenda ∅ 100)
    (λ seed, seed + 1) (λ _, None).

Definition example_genesis : Chain :=
  FileBankData.mkState ∅ ∅ ∅ ∅ ∅ ∅ ∅ ∅ ∅ ∅ [] example_world 100 [].

(** Calls in a row; each is expected to succeed. *)
Fixpoint run_all (l : list (M Chain unit)) (c : Chain) : Chain * list (result DispatchError unit) :=
  match l with
  | [] => (c, [])
  | m :: l => let '(c, r) := m c in let '(c, rs) := run_all l c in (c, r :: rs)
  end.

Definition register_miner (m : AccountId) : M Chain unit :=
  FileBank.call (run_sminer (Sminer.regnstk (Signed m) m m (10 ^ 16))).

Definition fillers (m : AccountId) : list FillerInfo :=
  (λ i, mkFillerInfo 0 m (m * 100 + i)%N) <$> [0%N; 1%N; 2%N; 3%N; 4%N].

Definition set_up : list (M Chain unit) :=
  [ register_miner 1; register_miner 2; register_miner 3;
    upload_filler (Signed 1) 50 (fillers 1); upload_filler (Signed 2) 50 (fillers 2);
    upload_filler (Signed 3) 50 (fillers 3);
    FileBank.call (run_storage (StorageHandler.buy_space (Signed 7) 1)) ].

Definition example_chain : Chain := (run_all set_up example_genesis).1.

Example set_up_succeeds : (run_all set_up example_genesis).2 = replicate 7 (Ok ()).
Proof. vm_compute. reflexivity. Qed.

(** A file of two segments. *)
Definition example_file : list SegmentList :=
  [mkSegmentList 1001 [1; 2; 3]%N; mkSegmentList 1002 [4; 5; 6]%N].
Definition example_brief : UserBrief := mkUserBrief 7 (bytes_of "name.txt") (bytes_of "bucket").

Definition example_declared : Chain * result DispatchError unit :=
  upload_declaration (Signed 7) 500 example_file example_brief 1000 example_chain.

Example declaration_succeeds : example_declared.2 = Ok ().
Proof. vm_compute. reflexivity. Qed.

(** ** Deals *)

Definition tasks_of (r : result DispatchError (list MinerTaskList)) : list MinerTaskList :=
  match r with Ok l => l | _ => [] end.

Definition example_assigned : Chain * result DispatchError (list MinerTaskList) :=
  random_assign_miner example_file example_chain.

Definition example_tasks : list MinerTaskList := tasks_of example_assigned.2.

Lemma example_assigned_Ok : random_assign_miner example_file example_chain = (example_assigned.1, Ok example_tasks).
Proof. vm_compute. reflexivity. Qed.

Definition all_miners (c : Chain) : list AccountId := Sminer.AllMiner (w_sminer (FileBankData.ext c)).

Lemma example_miners : all_miners example_chain = [1; 2; 3]%N.
Proof. vm_compute. reflexivity. Qed.

Lemma example_miners_nodup : NoDup (all_miners example_chain).
Proof. rewrite example_miners. apply (bool_decide_unpack _). vm_compute. exact I. Qed.


Lemma random_assign_miner_total_witness : (random_assign_miner example_file example_chain).2 ≠ Panic.
Proof. apply random_assign_miner_total. exact World_lock_total. Defined.


Lemma file_lifecycle_witness :
  view_of 500 example_chain = (None, None) ∧
  life Declaration (view_of 500 example_chain) (view_of 500 example_declared.1).
Proof.
  split; [vm_compute; reflexivity|].
  destruct (file_lifecycle (BUploadDeclaration (Signed 7) 500 example_file example_brief 1000) 500 example_chain)
    as [Hsame|(m & Hm & Hlife)].
  - exfalso. revert Hsame. vm_compute. discriminate.
  - injection Hm as <-. exact Hlife.
Defined.

#[local] Instance example_unsigned : UnsignedConfig.
Proof. split; vm_compute; discriminate. Qed.

Lemma genesis_typed : typed example_genesis.
Proof. split; [apply map_Forall_empty..|vm_compute; discriminate|done]. Qed.


(** ** A stored file *)

(** The miners report the fragments, the file is tagged and becomes active. *)
Definition stored : Chain * list (result DispatchError unit) :=
  run_all [ upload_declaration (Signed 7) 500 example_file example_brief 1000;
            transfer_report (Signed 1) [500%N]; transfer_report (Signed 2) [500%N];
            transfer_report (Signed 3) [500%N]; calculate_end Root 500 ] example_chain.

Example storing_succeeds : stored.2 = replicate 5 (Ok ()).
Proof. vm_compute. reflexivity. Qed.

(** Miner 3 gives up fragment 1 and miner 1 restores it. *)
Definition order_open : Chain := (generate_restoral_order (Signed 3) 500 1 stored.1).1.
Definition order_claimed : Chain := (claim_restoral_order (Signed 1) 1 order_open).1.
Definition order_done : Chain := (restoral_order_complete (Signed 1) 1 order_claimed).1.

Lemma restoral_order_complete_spec_witness :
  RestoralOrder order_done = delete 1%N (RestoralOrder order_claimed).
Proof.
  destruct (restoral_order_complete_spec 1 1 order_claimed order_done) as (order & _ & _ & _ & Hdel & _).
  - vm_compute. reflexivity.
  - exact Hdel.
Defined.

Lemma restoral_claim_exclusive_witness :
  claim_restoral_order (Signed 2) 1 order_claimed ≠ (order_claimed, Ok ()).
Proof.
  destruct (restoral_claim_exclusive 1 1 order_open order_claimed) with (s2 := order_claimed) as [Hclaim _].
  - vm_compute. reflexivity.
  - vm_compute. split; [discriminate|reflexivity].
  - reflexivity.
  - apply Hclaim. vm_compute. discriminate.
Defined.

(** The user declares the stored file once more, under another name. *)
Definition owned_twice : Chain :=
  (upload_declaration (Signed 7) 500 example_file
     (mkUserBrief 7 (bytes_of "copy.txt") (bytes_of "bucket")) 1000 stored.1).1.

Definition twice_file : FileInfo :=
  default (mkFileInfo [] [] 0 0 Missing) (File owned_twice !! 500%N).

Definition release_space (w : W) : W := (update_user_space 7 2 (cal_file_size 2) w).1.

Lemma delete_leaves_orphan_witness :
  ∃ c, delete_user_file 500 7 twice_file owned_twice = (c, Ok ()) ∧
    File c !! 500%N = Some (twice_file <| fi_owner := [] |>) ∧
    FileBankData.ext c = release_space (release_space (FileBankData.ext owned_twice)).
Proof.
  apply (delete_leaves_orphan 500 7 example_brief (mkUserBrief 7 (bytes_of "copy.txt") (bytes_of "bucket"))
    twice_file owned_twice (release_space (FileBankData.ext owned_twice))
    (release_space (release_space (FileBankData.ext owned_twice)))).
  - vm_compute. reflexivity.
  - vm_compute. reflexivity.
  - reflexivity.
  - reflexivity.
  - vm_compute. discriminate.
  - vm_compute. reflexivity.
  - vm_compute. reflexivity.
Defined.

(** The user holds 298 files that are gone, another one, and the stored file. *)
Definition gone_files : list UserFileSliceInfo := (λ i, mkUserFileSliceInfo (N.of_nat i) 1) <$> seq 1000 299.
Definition last_file : UserFileSliceInfo := mkUserFileSliceInfo 500 50331648.
Definition hook_run : Chain * result DispatchError (option Z) :=
  clear_files 7 (gone_files ++ last_file :: []) 0 stored.1.

Lemma hook_loses_file_witness :
  UserHoldFileList hook_run.1 !! 7%N = Some [] ∧ File hook_run.1 !! 500%N = File stored.1 !! 500%N.
Proof.
  destruct (hook_loses_file 7 gone_files last_file [] stored.1 hook_run.1 None) as (_ & Hheld & Hfile).
  - vm_compute. reflexivity.
  - apply (bool_decide_unpack _). vm_compute. exact I.
  - vm_compute. reflexivity.
  - split; [exact Hheld|exact Hfile].
Defined.


(** ** Runs that go wrong *)

Definition second_file : list SegmentList := [mkSegmentList 1003 [7; 8; 9]%N; mkSegmentList 1004 [10; 11; 12]%N].
Definition second_brief : UserBrief := mkUserBrief 7 (bytes_of "second.txt") (bytes_of "bucket").

(** Two files are declared; the first is reported by its three miners, and miner 3 reports
    it once more. *)
Definition reported_twice : Chain * list (result DispatchError unit) :=
  run_all [ upload_declaration (Signed 7) 500 example_file example_brief 1000;
            upload_declaration (Signed 7) 501 second_file second_brief 1000;
            transfer_report (Signed 1) [500%N]; transfer_report (Signed 2) [500%N];
            transfer_report (Signed 3) [500%N]; transfer_report (Signed 3) [500%N];
            transfer_report (Signed 1) [501%N]; transfer_report (Signed 2) [501%N] ] example_chain.

(** [transfer_report] does not look at the stage of the deal.  The second report is accepted and
    finishes the deal again: the user is charged the file twice, out of the space locked for the
    second file, whose last report then fails. *)
Theorem repeated_report_charges_again :
  reported_twice.2 = replicate 8 (Ok ()) ∧
  (λ d, (StorageHandler.used_space d, StorageHandler.locked_space d)) <$> spaces reported_twice.1 !! 7%N
    = Some (2 * cal_file_size 2, 0) ∧
  (transfer_report (Signed 3) [501%N] reported_twice.1).2 = Err (InStorageHandler StorageHandlerError.Overflow).
Proof. vm_compute. split_and!; reflexivity. Qed.

Definition at_block (n : BlockNumber) : M Chain unit :=
  modify (λ c, c <| FileBankData.block_number := n |>
                 <| FileBankData.ext := (FileBankData.ext c) <| w_now := n |> |>).

(** Miner 1 leaves, withdraws, registers again, withdraws at once, and registers again. *)
Definition withdrawn_twice : Chain * list (result DispatchError unit) :=
  run_all [ miner_exit_prep (Signed 1); miner_exit Root 1; at_block (10 ^ 6); miner_withdraw (Signed 1);
            register_miner 1; miner_withdraw (Signed 1); register_miner 1 ] stored.1.

(** [miner_withdraw] keeps the restoral target, so a miner that registered again withdraws without
    leaving: it stays on the list of miners, and registering once more enters it a second time. *)
Theorem second_withdrawal_duplicates_miner :
  withdrawn_twice.2 = replicate 7 (Ok ()) ∧ all_miners withdrawn_twice.1 = [2; 3; 1; 1]%N.
Proof. vm_compute. split; reflexivity. Qed.

(** ** The audit pallet over the chain *)

#[local] Instance example_crypto : Crypto :=
  {| proposal_hash c := Z.to_N (ns_start (ci_net_snap_shot c)); verify _ _ _ := true; sign key _ := Some key |}.
#[local] Instance example_session : Session Chain :=
  {| session_index _ := 1; average_session_length _ := 600; estimate_current_session_progress _ _ := Some 0 |}.
#[local] Instance example_node : NodeConfig :=
  {| is_validator := true; local_keys := [11%N]; network_state := Some []; pool_accepts _ := true |}.

Abbreviation Full := (AuditPallet.State Chain).

(** The randomness for a subject is the subject itself, in four bytes. *)
Definition example_hash (seed : Z) : option (list Z) :=
  Some ([seed mod 256; seed / 2 ^ 8 mod 256; seed / 2 ^ 16 mod 256; seed / 2 ^ 24] ++ replicate 28 0).

Definition audited_chain : Chain :=
  stored.1 <| FileBankData.ext ::= λ w, w <| w_random_hash := example_hash |> |>.

Definition quiet_audit : Full :=
  AuditPallet.mkState 0 0 [11; 12; 13; 14; 15]%N ∅ None ∅ ∅ ∅ ∅ audited_chain 100 [].

Definition proposal : ChallengeInfo := mkChallengeInfo (mkNetSnapShot 100 20 0 0 0 [] []) [].

(** All five validators propose the same challenge. *)
Definition propose (key : N) : audit_call := CallSave Unsigned proposal key (mkSegDigest 5 100 []) key.
Abbreviation after c s := (run_call c s).1.
Abbreviation proposed :=
  (after (propose 15) (after (propose 14) (after (propose 13) (after (propose 12) (after (propose 11) quiet_audit))))).

Lemma run_result {S A} (m : M S A) (s : S) (r : result DispatchError A) : (m s).2 = r → m s = ((m s).1, r).
Proof. intros <-. apply surjective_pairing. Qed.

Lemma no_challenge_takes_effect_witness :
  ChallengeSnapShot proposed = None ∧
  submit_proof (Signed 1) [] [] proposed = (proposed, Err (InAudit AuditError.NoChallenge)).
Proof.
  destruct (no_challenge_takes_effect proposed) as (Hnone & Hproof & _).
  - do 5 apply reachable_call. apply reachable_genesis; reflexivity.
  - split; [exact Hnone|apply Hproof].
Defined.

(** A challenge of miners 1 and 2, whose proofs tee worker 50 has to check. *)
Definition mission (m : AccountId) : ProveInfo := mkProveInfo (mkMinerSnapShot m 25165824 16777216) [] [].
Definition challenged : Full :=
  quiet_audit <| ChallengeSnapShot := Some (mkChallengeInfo (mkNetSnapShot 100 20 1000 50331648 33554432 [] []) []) |>
              <| VerifyDuration := 200 |> <| UnverifyProof := {[ 50%N := [mission 1; mission 2] ]} |>.

Abbreviation verified := ((submit_verify_result (Signed 50) 2 false true challenged).1).

Lemma submit_verify_result_spec_witness :
  UnverifyProof verified !! 50%N = Some [mission 1] ∧ CountedIdleFailed verified !! 2%N = Some 1.
Proof.
  destruct (submit_verify_result_spec 50 2 false true challenged verified)
    as (pre & m & post & snap & x1 & x2 & _ & Hlist & Hm & Hpre & Hunv & Hidle & _).
  - apply run_result. vm_compute. reflexivity.
  - split.
    + vm_compute. reflexivity.
    + rewrite Hidle. vm_compute. reflexivity.
Defined.

Abbreviation handed_on := ((clear_verify_mission 200 challenged).1).

Lemma missions_conserved_witness : all_missions (UnverifyProof handed_on) ≡ₚ all_missions (UnverifyProof challenged).
Proof.
  destruct (missions_conserved 200 [50%N] challenged handed_on) as (Hperm & _).
  - reflexivity.
  - vm_compute. reflexivity.
  - vm_compute. discriminate.
  - vm_compute. reflexivity.
  - apply run_result. vm_compute. reflexivity.
  - exact Hperm.
Defined.

Definition example_worker : Node Chain := mkNode quiet_audit ∅ [].
Definition generated : ChallengeInfo :=
  match (generation_challenge 100 example_worker).2 with Ok c => c | _ => proposal end.

Lemma generation_challenge_spec_witness :
  length (ns_random_index_list (ci_net_snap_shot generated)) = 47%nat.
Proof.
  destruct (generation_challenge_spec [1; 2; 3]%N 3 0 100 example_worker
    (generation_challenge 100 example_worker).1 generated)
    as (_ & _ & _ & _ & _ & _ & _ & _ & (_ & Hlen & _) & _).
  - vm_compute. reflexivity.
  - apply (bool_decide_unpack _). vm_compute. exact I.
  - vm_compute. reflexivity.
  - vm_compute. split; [discriminate|reflexivity].
  - vm_compute. reflexivity.
  - apply run_result. vm_compute. reflexivity.
  - exact Hlen.
Defined.

(** Two lists of 300 missions do not fit one list of 500, and 50 is the only tee worker. *)
Definition overloaded : Full :=
  challenged <| UnverifyProof := {[ 50%N := replicate 300 (mission 1); 51%N := replicate 300 (mission 2) ]} |>.

(** When the second list does not fit, the hook returns after it removed the first list from
    storage: the missions of the first list are lost. *)
Theorem overflow_loses_missions :
  (clear_verify_mission 200 overloaded).2 = Ok () ∧
  length (all_missions (UnverifyProof overloaded)) = 600%nat ∧
  length (all_missions (UnverifyProof (clear_verify_mission 200 overloaded).1)) = 300%nat.
Proof. vm_compute. split_and!; reflexivity. Qed.
