(* ===== verification/Untrusted.v ===== *)
(** * Readers of untrusted bytes

    [ring] and [webpki] ([src/utils]) parse bytes with the crate [untrusted], which is
    not part of the repository.  Its [Reader] is a parameter here: the class [Untrusted]
    has the operations the two crates use, [UntrustedLaws] what their documentation says
    about them, in terms of the bytes that a reader has left.  What a failing read does to
    the reader is not documented and not assumed.

    The reader that is the list of the bytes it has left is an instance.  A parser written
    against the class behaves with every lawful reader as with this one: [sim] relates
    the two runs, and the tactic [sim] proves it for a parser put together from parsers
    for which it is known (database [sim]).  Theorems are proved on lists and
    transported. *)
From S2P Require Import Prelude Errors Frame.

Abbreviation Input := (list Z).

(** A parser changes a reader and returns a value, an error or panics. *)
Definition Parser (Reader E A : Type) : Type := Reader → Reader * result E A.

#[export] Instance Parser_ret Reader E : MRet (Parser Reader E) := λ A a r, (r, Ok a).
#[export] Instance Parser_bind Reader E : MBind (Parser Reader E) := λ A B k p r,
  match p r with
  | (r', Ok a) => k a r'
  | (r', Err e) => (r', Err e)
  | (r', Panic) => (r', Panic)
  end.

#[export] Instance result_ret E : MRet (result E) := λ A a, Ok a.
#[export] Instance result_bind E : MBind (result E) := λ A B k x,
  match x with Ok a => k a | Err e => Err e | Panic => Panic end.

(** [Result::map_err] *)
Definition map_err {E E' A} (f : E → E') (x : result E A) : result E' A :=
  match x with Ok a => Ok a | Err e => Err (f e) | Panic => Panic end.

(** [Option::ok_or] *)
Definition some_or {E A} (o : option A) (e : E) : result E A :=
  match o with Some a => Ok a | None => Err e end.

Section parser.
Context {Reader E : Type}.

Definition fail {A} (e : E) : Parser Reader E A := λ r, (r, Err e).
Definition abort {A} : Parser Reader E A := λ r, (r, Panic).
Definition lift {A} (x : result E A) : Parser Reader E A := λ r, (r, x).
Definition asks {A} (f : Reader → A) : Parser Reader E A := λ r, (r, Ok (f r)).
Definition pmap_err {E' A} (f : E' → E) (p : Parser Reader E' A) : Parser Reader E A := λ r,
  let '(r', x) := p r in (r', map_err f x).
(** [unwrap] of the result *)
Definition punwrap {E' A} (p : Parser Reader E' A) : Parser Reader E A := λ r,
  let '(r', x) := p r in (r', match x with Ok a => Ok a | _ => Panic end).
(** An operation that does not fail. *)
Definition total {A} (f : Reader → Reader * A) : Parser Reader E A := λ r,
  let '(r', a) := f r in (r', Ok a).

(** The [Result] itself, without [?] *)
Definition attempt {A} (p : Parser Reader E A) : Parser Reader E (result E A) := λ r,
  match p r with
  | (r', Panic) => (r', Panic)
  | (r', x) => (r', Ok x)
  end.

(** [loop { body }]: the body returns [inl] with the values of the next round or [inr]
    with the result.  Every round of the loops of the two crates reads a byte, so the
    number of bytes bounds the number of rounds. *)
Fixpoint loop {A B} (rounds : nat) (body : A → Parser Reader E (A + B)) (a : A) : Parser Reader E B :=
  match rounds with
  | O => abort
  | S rounds =>
      x ← body a;
      match x with inl a => loop rounds body a | inr b => mret b end
  end.
End parser.

Lemma loop_S {Reader E A B} rounds (body : A → Parser Reader E (A + B)) a r :
  loop (S rounds) body a r =
  match body a r with
  | (r', Ok (inl a')) => loop rounds body a' r'
  | (r', Ok (inr b)) => (r', Ok b)
  | (r', Err e) => (r', Err e)
  | (r', Panic) => (r', Panic)
  end.
Proof. cbn. unfold mbind, Parser_bind. by destruct (body a r) as [r' [[]|e|]]. Qed.

(** ** The interface *)

Class Untrusted (Reader : Type) := {
  reader_new : Input → Reader;
  at_end : Reader → bool;
  peek : Z → Reader → bool;
  read_byte : Parser Reader unit Z;
  read_bytes : nat → Parser Reader unit Input;
  read_bytes_to_end : Reader → Reader * Input;
  skip : nat → Parser Reader unit unit;
  skip_to_end : Reader → Reader * unit;
  read_partial : ∀ E A : Type, Parser Reader E A → Parser Reader E (Input * A);
  read_all : ∀ E A : Type, Input → E → Parser Reader E A → result E A;
  (** The closure is given by what it does with a reader and what it does without. *)
  read_all_optional : ∀ E A : Type, option Input → E → Parser Reader E A → result E A → result E A
}.
Arguments read_partial {Reader _ E A} p.
Arguments read_all {Reader _ E A} i e p.
Arguments read_all_optional {Reader _ E A} i e p x.

#[export] Instance list_untrusted : Untrusted (list Z) := {|
  reader_new i := i;
  at_end l := match l with [] => true | _ => false end;
  peek b l := match l with [] => false | b' :: _ => b' =? b end;
  read_byte l := match l with [] => (l, Err ()) | b :: l' => (l', Ok b) end;
  read_bytes n l :=
    if decide (n <= length l)%nat then (drop n l, Ok (take n l)) else (l, Err ());
  read_bytes_to_end l := ([], l);
  skip n l := if decide (n <= length l)%nat then (drop n l, Ok ()) else (l, Err ());
  skip_to_end l := ([], ());
  read_partial E A p l :=
    match p l with
    | (l', Ok a) => (l', Ok (take (length l - length l') l, a))
    | (l', Err e) => (l', Err e)
    | (l', Panic) => (l', Panic)
    end;
  read_all E A i e p :=
    match p i with
    | (l', Ok a) => match l' with [] => Ok a | _ => Err e end
    | (_, Err e) => Err e
    | (_, Panic) => Panic
    end;
  read_all_optional E A o e p x :=
    match o with
    | Some i =>
        match p i with
        | (l', Ok a) => match l' with [] => Ok a | _ => Err e end
        | (_, Err e) => Err e
        | (_, Panic) => Panic
        end
    | None => x
    end
|}.

Class UntrustedLaws (Reader : Type) `{!Untrusted Reader} := {
  remaining : Reader → Input;
  remaining_new i : remaining (reader_new i) = i;
  at_end_spec r : at_end r = true ↔ remaining r = [];
  peek_spec b r : peek b r = true ↔ head (remaining r) = Some b;
  read_byte_spec r :
    match remaining r with
    | [] => (read_byte r).2 = Err ()
    | b :: l => ∃ r', read_byte r = (r', Ok b) ∧ remaining r' = l
    end;
  read_bytes_spec n r :
    if decide (n <= length (remaining r))%nat then
      ∃ r', read_bytes n r = (r', Ok (take n (remaining r))) ∧ remaining r' = drop n (remaining r)
    else (read_bytes n r).2 = Err ();
  read_bytes_to_end_spec r :
    ∃ r', read_bytes_to_end r = (r', remaining r) ∧ remaining r' = [];
  skip_spec n r :
    if decide (n <= length (remaining r))%nat then
      ∃ r', skip n r = (r', Ok ()) ∧ remaining r' = drop n (remaining r)
    else (skip n r).2 = Err ();
  skip_to_end_spec r : remaining (skip_to_end r).1 = [];
  read_partial_spec {E A} (p : Parser Reader E A) r :
    match p r with
    | (r', Ok a) =>
        ∃ r'', read_partial p r =
          (r'', Ok (take (length (remaining r) - length (remaining r')) (remaining r), a)) ∧
          remaining r'' = remaining r'
    | (_, Err e) => (read_partial p r).2 = Err e
    | (_, Panic) => (read_partial p r).2 = Panic
    end;
  read_all_spec {E A} i (e : E) (p : Parser Reader E A) :
    read_all i e p =
    match p (reader_new i) with
    | (r, Ok a) => if at_end r then Ok a else Err e
    | (_, Err e) => Err e
    | (_, Panic) => Panic
    end;
  read_all_optional_spec {E A} o (e : E) (p : Parser Reader E A) x :
    read_all_optional o e p x = match o with Some i => read_all i e p | None => x end
}.

#[export] Instance list_untrusted_laws : UntrustedLaws (list Z).
Proof.
  exists (λ l, l).
  - done.
  - intros [|]; cbn; naive_solver.
  - intros b [|b' l]; cbn; [naive_solver|]. rewrite Z.eqb_eq. naive_solver.
  - intros [|]; cbn; eauto.
  - intros n l. cbn. case_decide; eauto.
  - intros l. cbn. eauto.
  - intros n l. cbn. case_decide; eauto.
  - done.
  - intros E A p l. cbn. destruct (p l) as [l' [a|e|]]; eauto.
  - intros E A i e p. cbn. by destruct (p i) as [[|] [a|e'|]].
  - by intros E A [i|] e p x.
Defined.

(** A parser for one of the readers of a function that has several. *)
Definition on_first {R1 R2 E A} (p : Parser R1 E A) : Parser (R1 * R2) E A := λ r,
  let '(r1, x) := p r.1 in ((r1, r.2), x).
Definition on_second {R1 R2 E A} (p : Parser R2 E A) : Parser (R1 * R2) E A := λ r,
  let '(r2, x) := p r.2 in ((r.1, r2), x).

(** The result of a function body that returns early by failing with the result. *)
Definition returned {Reader E A} (x : Reader * result A A) : result E A :=
  match x.2 with Ok a | Err a => Ok a | Panic => Panic end.

(** ** Running with a lawful reader is running on the list of its bytes *)

Create HintDb sim discriminated.

(** Two runs from related readers have the same result, and after success the readers are
    related again. *)
Definition sim_rel {R1 R2 E A} (R : R1 → R2 → Prop) (p : Parser R1 E A) (q : Parser R2 E A) : Prop := ∀ r s,
  R r s →
  match p r, q s with
  | (r', Ok a), (s', Ok a') => a' = a ∧ R r' s'
  | (_, Err e), (_, Err e') => e' = e
  | (_, Panic), (_, Panic) => True
  | _, _ => False
  end.

Section sim_rel.
Context {R1 R2 : Type} (R : R1 → R2 → Prop).

Lemma sim_bind {E A B} (p : Parser R1 E A) q (k : A → Parser R1 E B) k' :
  sim_rel R p q → (∀ a, sim_rel R (k a) (k' a)) → sim_rel R (p ≫= k) (q ≫= k').
Proof.
  intros Hp Hk r s Hr. specialize (Hp r s Hr). unfold mbind, Parser_bind.
  destruct (p r) as [r' [a|e|]], (q s) as [s' [a'|e'|]]; try done.
  destruct Hp as [-> ?]. by apply Hk.
Qed.

Lemma sim_ret {E A} (a : A) : sim_rel R (E := E) (mret a) (mret a).
Proof. by intros r s Hr. Qed.

Lemma sim_fail {E A} (e : E) : sim_rel R (A := A) (fail e) (fail e).
Proof. by intros r s Hr. Qed.

Lemma sim_abort {E A} : sim_rel R (E := E) (A := A) abort abort.
Proof. by intros r s Hr. Qed.

Lemma sim_lift {E A} (x y : result E A) : x = y → sim_rel R (lift x) (lift y).
Proof. intros -> r s Hr. by destruct y. Qed.

Lemma sim_pmap_err {E E' A} (f : E → E') (p : Parser R1 E A) q :
  sim_rel R p q → sim_rel R (pmap_err f p) (pmap_err f q).
Proof.
  intros Hp r s Hr. specialize (Hp r s Hr). unfold pmap_err.
  destruct (p r) as [r' [a|e|]], (q s) as [s' [a'|e'|]]; naive_solver.
Qed.

Lemma sim_punwrap {E E' A} (p : Parser R1 E A) q :
  sim_rel R p q → sim_rel R (E := E') (punwrap p) (punwrap q).
Proof.
  intros Hp r s Hr. specialize (Hp r s Hr). unfold punwrap.
  destruct (p r) as [r' [a|e|]], (q s) as [s' [a'|e'|]]; naive_solver.
Qed.

Lemma sim_loop {E A B} rounds (body : A → Parser R1 E (A + B)) body' a :
  (∀ a, sim_rel R (body a) (body' a)) → sim_rel R (loop rounds body a) (loop rounds body' a).
Proof.
  intros Hbody. revert a. induction rounds as [|rounds IH]; intros a; cbn; [by intros r s|].
  apply sim_bind; [done|]. intros [a'|b]; [done|]. apply sim_ret.
Qed.

Lemma returned_sim {E A} (p : Parser R1 A A) q r s :
  sim_rel R p q → R r s → returned (E := E) (p r) = returned (q s).
Proof.
  intros Hp Hr. specialize (Hp r s Hr). unfold returned.
  destruct (p r) as [r' [a|e|]], (q s) as [s' [a'|e'|]]; naive_solver.
Qed.
End sim_rel.

(** Two readers are related one by one. *)
Definition both {R1 R2 S1 S2} (R : R1 → S1 → Prop) (R' : R2 → S2 → Prop) : R1 * R2 → S1 * S2 → Prop :=
  λ r s, R r.1 s.1 ∧ R' r.2 s.2.

Lemma sim_on_first {R1 R2 S1 S2 E A} (R : R1 → S1 → Prop) (R' : R2 → S2 → Prop) (p : Parser R1 E A) q :
  sim_rel R p q → sim_rel (both R R') (on_first p) (on_first q).
Proof.
  intros Hp r s [H1 H2]. specialize (Hp _ _ H1). unfold on_first.
  destruct (p r.1) as [r' [a|e|]], (q s.1) as [s' [a'|e'|]]; try done. by destruct Hp.
Qed.

Lemma sim_on_second {R1 R2 S1 S2 E A} (R : R1 → S1 → Prop) (R' : R2 → S2 → Prop) (p : Parser R2 E A) q :
  sim_rel R' p q → sim_rel (both R R') (on_second p) (on_second q).
Proof.
  intros Hp r s [H1 H2]. specialize (Hp _ _ H2). unfold on_second.
  destruct (p r.2) as [r' [a|e|]], (q s.2) as [s' [a'|e'|]]; try done. by destruct Hp.
Qed.

Section sim.
Context {Reader : Type} `{!Untrusted Reader} `{!UntrustedLaws Reader}.

(** The list of the bytes a reader has left. *)
Definition reads (r : Reader) (l : list Z) : Prop := l = remaining r.
Abbreviation sim := (sim_rel reads).

Lemma at_end_remaining r : at_end r = at_end (remaining r).
Proof. apply eq_bool_prop_intro. rewrite !Is_true_true, !at_end_spec. done. Qed.

Lemma peek_remaining b r : peek b r = peek b (remaining r).
Proof. apply eq_bool_prop_intro. rewrite !Is_true_true, !peek_spec. done. Qed.

Lemma sim_at_end {E} : sim_rel reads (E := E) (asks at_end) (asks at_end).
Proof. intros r l ->. cbn. split; [|done]. symmetry. apply at_end_remaining. Qed.

Lemma sim_peek {E} b : sim_rel reads (E := E) (asks (peek b)) (asks (peek b)).
Proof. intros r l ->. cbn [asks]. split; [|done]. symmetry. apply peek_remaining. Qed.

Lemma sim_read_byte : sim read_byte read_byte.
Proof.
  intros r ? ->. unfold reads. pose proof (read_byte_spec r) as Hr. destruct (remaining r) as [|b l] eqn:Hrem; cbn.
  - destruct (read_byte r) as [r' x]. cbn in Hr. by subst.
  - destruct Hr as (r' & -> & <-). done.
Qed.

Lemma sim_read_bytes n : sim (read_bytes n) (read_bytes n).
Proof.
  intros r ? ->. unfold reads. pose proof (read_bytes_spec n r) as Hr. cbn. case_decide.
  - destruct Hr as (r' & -> & ->). done.
  - destruct (read_bytes n r) as [r' x]. cbn in Hr. by subst.
Qed.

Lemma sim_skip n : sim (skip n) (skip n).
Proof.
  intros r ? ->. unfold reads. pose proof (skip_spec n r) as Hr. cbn. case_decide.
  - destruct Hr as (r' & -> & ->). done.
  - destruct (skip n r) as [r' x]. cbn in Hr. by subst.
Qed.

Lemma sim_read_bytes_to_end {E} : sim_rel reads (E := E) (total read_bytes_to_end) (total read_bytes_to_end).
Proof. intros r ? ->. unfold reads. destruct (read_bytes_to_end_spec r) as (r' & Hr & Hr'). unfold total. rewrite Hr. done. Qed.

Lemma sim_skip_to_end {E} : sim_rel reads (E := E) (total skip_to_end) (total skip_to_end).
Proof.
  intros r ? ->. unfold reads. pose proof (skip_to_end_spec r) as Hr. unfold total.
  destruct (skip_to_end r) as [r' []]. cbn in *. done.
Qed.

Lemma sim_read_partial {E A} (p : Parser Reader E A) q : sim p q → sim (read_partial p) (read_partial q).
Proof.
  intros Hp r ? ->. unfold reads in *. specialize (Hp r _ eq_refl). pose proof (read_partial_spec p r) as Hr. cbn.
  destruct (p r) as [r' [a|e|]], (q (remaining r)) as [l [a'|e'|]]; try done.
  - destruct Hp as [-> ->], Hr as (r'' & -> & ->). done.
  - destruct (read_partial p r) as [r'' x]. cbn in Hr. by subst.
  - destruct (read_partial p r) as [r'' x]. cbn in Hr. by subst.
Qed.

Lemma read_all_sim {E A} i (e : E) (p : Parser Reader E A) q : sim p q → read_all i e p = read_all i e q.
Proof.
  intros Hp. rewrite read_all_spec. specialize (Hp (reader_new i) i). unfold reads in Hp.
  rewrite remaining_new in Hp. specialize (Hp eq_refl). cbn.
  destruct (p (reader_new i)) as [r' [a|e0|]], (q i) as [l [a'|e'|]]; try done; [|by subst].
  destruct Hp as [-> ->]. rewrite at_end_remaining. by destruct (remaining r').
Qed.

Lemma reads_new i : reads (reader_new i) (reader_new i).
Proof. unfold reads. by rewrite remaining_new. Qed.

Lemma read_all_optional_sim {E A} o (e : E) (p : Parser Reader E A) q x :
  sim p q → read_all_optional o e p x = read_all_optional o e q x.
Proof. intros Hp. rewrite !read_all_optional_spec. destruct o; [by apply read_all_sim|done]. Qed.
End sim.

Abbreviation sim := (sim_rel reads).
#[export] Hint Resolve reads_new sim_ret sim_fail sim_abort sim_at_end sim_peek sim_read_byte sim_read_bytes sim_skip sim_read_bytes_to_end sim_skip_to_end : sim.

(** Rules for combinators that are defined later. *)
Ltac sim_rule := fail.

Ltac sim :=
  repeat first
    [ progress intros
    | solve [eauto 2 with sim]
    | sim_rule
    | apply sim_bind | apply sim_pmap_err | apply sim_punwrap | apply sim_loop | apply sim_read_partial
    | apply sim_on_first | apply sim_on_second
    | apply sim_lift | apply read_all_sim | apply read_all_optional_sim
    | case_match | done ].
