(* ===== verification/RingIo.v ===== *)
(** * Reading and writing DER

    [src/utils/ring/src/io]: the DER reader ([der.rs], [positive.rs]) and the DER writer
    ([der_writer.rs], [writer.rs]), with the two users of both, [parse_public_key] of
    [rsa.rs] and [RsaSubjectPublicKey] of [rsa/signing.rs].  The reader accepts exactly what
    the writer produces ([read_tag_and_get_value_iff]), so a value has one encoding, and
    an RSA public key that has been written is read back ([public_key_round_trip]). *)
From S2P Require Import Prelude Errors Frame Untrusted.

(** ** [der.rs] *)

Definition CONSTRUCTED : Z := Z.shiftl 1 5.
Definition CONTEXT_SPECIFIC : Z := Z.shiftl 2 6.

Inductive Tag :=
| Boolean | Integer | BitString | OctetString | Null | OID | Sequence | UTCTime | GeneralizedTime
| ContextSpecificConstructed0 | ContextSpecificConstructed1 | ContextSpecificConstructed3.

(** [tag as u8] *)
Definition tag_byte (tag : Tag) : Z :=
  match tag with
  | Boolean => 1
  | Integer => 2
  | BitString => 3
  | OctetString => 4
  | Null => 5
  | OID => 6
  | Sequence => Z.lor CONSTRUCTED 16
  | UTCTime => 23
  | GeneralizedTime => 24
  | ContextSpecificConstructed0 => Z.lor CONTEXT_SPECIFIC CONSTRUCTED
  | ContextSpecificConstructed1 => Z.lor (Z.lor CONTEXT_SPECIFIC CONSTRUCTED) 1
  | ContextSpecificConstructed3 => Z.lor (Z.lor CONTEXT_SPECIFIC CONSTRUCTED) 3
  end.

Section der.
Context {Reader : Type} `{!Untrusted Reader}.
(** The error [error::Unspecified] carries no information. *)
Abbreviation P := (Parser Reader unit).

Definition read_length : P Z :=
  n ← read_byte;
  if Z.land n 128 =? 0 then mret n
  else if n =? 129 then
    second_byte ← read_byte;
    if second_byte <? 128 then fail () else mret second_byte
  else if n =? 130 then
    second_byte ← read_byte;
    third_byte ← read_byte;
    let combined := Z.lor (Z.shiftl second_byte 8) third_byte in
    if combined <? 256 then fail () else mret combined
  else fail ().

Definition read_tag_and_get_value : P (Z * Input) :=
  tag ← read_byte;
  if Z.land tag 31 =? 31 then fail () else
  length ← read_length;
  inner ← read_bytes (Z.to_nat length);
  mret (tag, inner).

Definition expect_tag_and_get_value (tag : Tag) : P Input :=
  '(actual_tag, inner) ← read_tag_and_get_value;
  if tag_byte tag =? actual_tag then mret inner else fail ().

Definition nested {E R} (tag : Tag) (error : E) (decoder : Parser Reader E R) : Parser Reader E R :=
  inner ← pmap_err (λ _, error) (expect_tag_and_get_value tag);
  lift (read_all inner error decoder).

Definition check_minimum (input : Input) (min_value : Z) : result unit unit :=
  read_all input () (
    first_byte ← read_byte;
    e ← asks at_end;
    if e && (first_byte <? min_value) then fail () else
    total read_bytes_to_end ;;
    mret ()).

(** A leading zero is only allowed when the high bit of the value is set. *)
Definition check_second_byte (r : Input) : result unit unit :=
  read_all r () (
    second_byte ← read_byte;
    if Z.land second_byte 128 =? 0 then fail () else
    total read_bytes_to_end ;;
    mret ()).

Definition nonnegative_integer (min_value : Z) : P Input :=
  value ← expect_tag_and_get_value Integer;
  lift (read_all value () (
    first_byte ← read_byte;
    if first_byte =? 0 then
      e ← asks at_end;
      if e : bool then
        if 0 <? min_value then fail () else mret value
      else
        r ← total read_bytes_to_end;
        lift (check_second_byte r) ;;
        lift (check_minimum r min_value) ;;
        mret r
    else if negb (Z.land first_byte 128 =? 0) then fail ()
    else
      total read_bytes_to_end ;;
      lift (check_minimum value min_value) ;;
      mret value)).

Definition small_nonnegative_integer : P Z :=
  value ← nonnegative_integer 0;
  lift (read_all value () read_byte).

(** [Positive] wraps the bytes of a positive integer, without leading zeros; its
    constructor has debug assertions only. *)
Record Positive := Positive_new { big_endian_without_leading_zero : Input }.

Definition positive_integer : P Positive :=
  value ← nonnegative_integer 1; mret (Positive_new value).

(** [rsa.rs] *)
Definition parse_public_key (input : Input) : result unit (Positive * Positive) :=
  read_all input () (
    nested Sequence () (
      n ← positive_integer;
      e ← positive_integer;
      mret (n, e))).
End der.

(** ** [writer.rs] and [der_writer.rs] *)

Class Accumulator (A : Type) := {
  write_byte : Z → A → A;
  write_bytes : Input → A → A
}.

Record LengthMeasurement := { len : Z }.
#[export] Instance LengthMeasurement_accumulator : Accumulator LengthMeasurement := {|
  write_byte _ a := {| len := a.(len) + 1 |};
  write_bytes v a := {| len := a.(len) + Z.of_nat (length v) |}
|}.

Record Writer := { bytes : list Z; requested_capacity : Z }.
#[export] Instance Writer_accumulator : Accumulator Writer := {|
  write_byte b a := {| bytes := a.(bytes) ++ [b]; requested_capacity := a.(requested_capacity) |};
  write_bytes v a := {| bytes := a.(bytes) ++ v; requested_capacity := a.(requested_capacity) |}
|}.

(** A closure [Fn(&mut dyn Accumulator)]; it can panic. *)
Definition WriteValue : Type := ∀ A, Accumulator A → A → result unit A.

Definition write_header {A} `{!Accumulator A} (length : Z) (output : A) : result unit A :=
  if length <? 128 then Ok (write_byte (cast 8 length) output)
  else if length <? 256 then Ok (write_byte (cast 8 length) (write_byte 129 output))
  else if length <? 65536 then
    Ok (write_byte (cast 8 length) (write_byte (cast 8 (length / 256)) (write_byte 130 output)))
  else Panic.

Definition write_tlv (tag : Tag) (write_value : WriteValue) : WriteValue := λ A _ output,
  length ← write_value LengthMeasurement _ {| len := 0 |};
  output ← write_header length.(len) (write_byte (tag_byte tag) output);
  write_value A _ output.

Definition write_all (tag : Tag) (write_value : WriteValue) : result unit (list Z) :=
  length ← write_tlv tag write_value LengthMeasurement _ {| len := 0 |};
  output ← write_tlv tag write_value Writer _ {| bytes := []; requested_capacity := length.(len) |};
  if output.(requested_capacity) =? Z.of_nat (base.length output.(bytes)) then Ok output.(bytes) else Panic.

Definition write_positive_integer (value : Positive) : WriteValue :=
  let bs := value.(big_endian_without_leading_zero) in
  write_tlv Integer (λ A _ output,
    first_byte ← match bs with b :: _ => Ok b | [] => Panic end;
    let output := if negb (Z.land first_byte 128 =? 0) then write_byte 0 output else output in
    Ok (write_bytes bs output)).

(** [RsaSubjectPublicKey::from_n_and_e], [modulus] and [exponent] ([rsa/signing.rs]) *)
Definition from_n_and_e (n e : Positive) : result unit (list Z) :=
  write_all Sequence (λ A _ output,
    output ← write_positive_integer n A _ output;
    write_positive_integer e A _ output).

Section public_key.
Context {Reader : Type} `{!Untrusted Reader}.

Definition unwrap_key (key : list Z) : result unit (Positive * Positive) :=
  match parse_public_key (Reader := Reader) key with Err _ => Panic | x => x end.

Definition modulus (key : list Z) : result unit Positive := p ← unwrap_key key; Ok p.1.
Definition exponent (key : list Z) : result unit Positive := p ← unwrap_key key; Ok p.2.
End public_key.

(** ** Encodings *)

Abbreviation bytes_ok := (Forall is_u8).

Definition der_length (n : Z) : list Z :=
  if n <? 128 then [n] else if n <? 256 then [129; n] else [130; n / 256; n mod 256].

Definition tlv (tag : Z) (v : Input) : list Z := tag :: der_length (Z.of_nat (length v)) ++ v.

Record positive_ok (p : Positive) : Prop := {
  po_bytes : bytes_ok p.(big_endian_without_leading_zero);
  po_head : ∃ b l, p.(big_endian_without_leading_zero) = b :: l ∧ b ≠ 0
}.

(** The value of the encoding of a positive integer: a zero is put in front when
    the number would look negative. *)
Definition integer_bytes (p : Positive) : list Z :=
  (if decide (128 <= hd 0 p.(big_endian_without_leading_zero)) then [0] else [])
  ++ p.(big_endian_without_leading_zero).

(** A fact about all bytes is checked on all bytes. *)
Lemma byte_forall (f : Z → bool) : forallb f (seqZ 0 256) = true → ∀ b, is_u8 b → f b = true.
Proof.
  intros Hf b Hb. rewrite forallb_forall in Hf. apply Hf. apply list_elem_of_In, elem_of_seqZ.
  unfold in_width in Hb. lia.
Qed.

Lemma high_bit b : is_u8 b → (Z.land b 128 =? 0) = (b <? 128).
Proof.
  intros Hb. apply Bool.eqb_prop.
  by apply (byte_forall (λ b, Bool.eqb (Z.land b 128 =? 0) (b <? 128))); [vm_compute|].
Qed.

Lemma low_tag b : is_u8 b → (Z.land b 31 =? 31) = (b mod 32 =? 31).
Proof.
  intros Hb. apply Bool.eqb_prop.
  by apply (byte_forall (λ b, Bool.eqb (Z.land b 31 =? 31) (b mod 32 =? 31))); [vm_compute|].
Qed.

Lemma lor_shifted a b n : 0 <= n → 0 <= b < 2 ^ n → Z.lor (Z.shiftl a n) b = a * 2 ^ n + b.
Proof.
  intros Hn Hb. rewrite <-Z.shiftl_mul_pow2 by lia. symmetry. apply Z.add_nocarry_lor.
  apply Z.bits_inj_0. intros i. rewrite Z.land_spec. destruct (Z.ltb_spec i n) as [Hi|Hi].
  - by rewrite Z.shiftl_spec_low.
  - rewrite (proj1 (Z.bounded_iff_bits_nonneg n b Hn ltac:(lia)) ltac:(lia) i Hi). apply andb_false_r.
Qed.

(** *** On lists of bytes *)

Ltac parse_unfold := unfold mbind, Parser_bind, mret, Parser_ret, fail, lift, asks, total, pmap_err.

Lemma read_length_encode n l : 0 <= n < 65536 → read_length (der_length n ++ l) = (l, Ok n).
Proof.
  intros Hn. unfold read_length, der_length. parse_unfold.
  destruct (Z.ltb_spec n 128); [|destruct (Z.ltb_spec n 256)]; cbn -[Z.land Z.lor Z.shiftl Z.div Z.modulo].
  - rewrite high_bit by (unfold in_width; lia). by rewrite (proj2 (Z.ltb_lt n 128)) by lia.
  - change (Z.land 129 128 =? 0) with false. cbn. by rewrite (proj2 (Z.ltb_ge n 128)) by lia.
  - change (Z.land 130 128 =? 0) with false. cbn -[Z.lor Z.shiftl Z.div Z.modulo].
    assert (is_u8 (n / 256) ∧ is_u8 (n mod 256)) as [Ha Hb] by (unfold in_width; Z.to_euclidean_division_equations; lia).
    unfold in_width in Ha, Hb. rewrite lor_shifted by lia. change (2 ^ 8) with 256.
    replace (n / 256 * 256 + n mod 256) with n by (Z.to_euclidean_division_equations; lia). by rewrite (proj2 (Z.ltb_ge n 256)) by lia.
Qed.

Lemma read_length_decode l l' n :
  bytes_ok l → read_length l = (l', Ok n) → l = der_length n ++ l' ∧ 0 <= n < 65536.
Proof.
  unfold read_length. parse_unfold. intros Hl. destruct l as [|a l]; cbn -[Z.land Z.lor Z.shiftl]; [done|].
  apply Forall_cons in Hl as [Ha Hl]. rewrite high_bit by done. unfold der_length, in_width in *.
  destruct (Z.ltb_spec a 128); [|destruct (Z.eqb_spec a 129); [|destruct (Z.eqb_spec a 130); [|done]]].
  - intros [= -> ->]. rewrite (proj2 (Z.ltb_lt n 128)) by lia. split; [done|lia].
  - destruct l as [|b l]; [done|]. apply Forall_cons in Hl as [Hb Hl].
    destruct (Z.ltb_spec b 128); [done|]. intros [= -> ->].
    rewrite (proj2 (Z.ltb_ge n 128)), (proj2 (Z.ltb_lt n 256)) by lia. split; [by subst|lia].
  - destruct l as [|b [|c l]]; [done..|]. apply Forall_cons in Hl as [Hb [Hc Hl]%Forall_cons].
    rewrite lor_shifted by lia. change (2 ^ 8) with 256 in *.
    destruct (Z.ltb_spec (b * 256 + c) 256); [done|]. intros [= -> <-].
    rewrite (proj2 (Z.ltb_ge _ 128)), (proj2 (Z.ltb_ge _ 256)) by lia.
    split; [|lia]. subst a. cbn. repeat f_equal; Z.to_euclidean_division_equations; lia.
Qed.

Lemma read_tlv_encode tag v l :
  is_u8 tag → tag mod 32 ≠ 31 → Z.of_nat (length v) < 65536 →
  read_tag_and_get_value (tlv tag v ++ l) = (l, Ok (tag, v)).
Proof.
  intros Htag Hlow Hv. unfold read_tag_and_get_value, tlv. parse_unfold. cbn [app read_byte list_untrusted].
  rewrite low_tag by done. rewrite (proj2 (Z.eqb_neq _ _)) by done. rewrite <-(assoc_L (++)).
  rewrite read_length_encode by lia. cbn. rewrite Nat2Z.id, length_app, decide_True by lia.
  by rewrite take_app_length, drop_app_length.
Qed.

Lemma read_tlv_decode l l' tag v :
  bytes_ok l → read_tag_and_get_value l = (l', Ok (tag, v)) →
  l = tlv tag v ++ l' ∧ tag mod 32 ≠ 31 ∧ Z.of_nat (length v) < 65536.
Proof.
  unfold read_tag_and_get_value, tlv. parse_unfold. intros Hl. destruct l as [|a l]; [done|].
  apply Forall_cons in Hl as [Ha Hl]. cbn [read_byte list_untrusted]. rewrite low_tag by done.
  destruct (Z.eqb_spec (a mod 32) 31); [done|].
  destruct (read_length l) as [l1 [k|[]|]] eqn:Hk; [|done..]. apply read_length_decode in Hk as [-> Hk]; [|done].
  cbn. case_decide; [|done]. intros [= <- <- <-].
  rewrite length_take_le by lia. rewrite Z2Nat.id by lia. rewrite <-!(assoc_L (++)), take_drop. split_and!; [done|done|lia].
Qed.

Lemma expect_tag_encode tag v l :
  Z.of_nat (length v) < 65536 → expect_tag_and_get_value tag (tlv (tag_byte tag) v ++ l) = (l, Ok v).
Proof.
  intros Hv. unfold expect_tag_and_get_value. parse_unfold.
  rewrite read_tlv_encode; [by rewrite Z.eqb_refl|by destruct tag|by destruct tag|done].
Qed.

Lemma expect_tag_decode tag l l' v :
  bytes_ok l → expect_tag_and_get_value tag l = (l', Ok v) →
  l = tlv (tag_byte tag) v ++ l' ∧ Z.of_nat (length v) < 65536.
Proof.
  unfold expect_tag_and_get_value. parse_unfold. intros Hl.
  destruct (read_tag_and_get_value l) as [l1 [[t w]|[]|]] eqn:Hr; [|done..].
  apply read_tlv_decode in Hr as (-> & _ & Hw); [|done].
  destruct (Z.eqb_spec (tag_byte tag) t) as [<-|]; [|done]. by intros [= <- <-].
Qed.

Lemma tlv_bytes tag v l : bytes_ok (tlv tag v ++ l) → bytes_ok v ∧ bytes_ok l.
Proof. unfold tlv. intros [_ [[_ Hv]%Forall_app Hl]%Forall_app]%Forall_cons. done. Qed.

Lemma read_integer_list (value : Input) :
  bytes_ok value →
  read_all value () (Reader := list Z) (
    first_byte ← read_byte;
    if first_byte =? 0 then
      e ← asks at_end;
      if e : bool then
        if 0 <? 1 then fail () else mret value
      else
        r ← total read_bytes_to_end;
        lift (check_second_byte (Reader := list Z) r) ;;
        lift (check_minimum (Reader := list Z) r 1) ;;
        mret r
    else if negb (Z.land first_byte 128 =? 0) then fail ()
    else
      total read_bytes_to_end ;;
      lift (check_minimum (Reader := list Z) value 1) ;;
      mret value)
  = match value with
    | [] => Err ()
    | a :: l =>
        if a =? 0 then match l with [] => Err () | b :: _ => if b <? 128 then Err () else Ok l end
        else if a <? 128 then Ok value else Err ()
    end.
Proof.
  intros Hv. destruct value as [|a l]; [done|]. apply Forall_cons in Hv as [Ha Hl].
  cbn -[Z.land]. parse_unfold. destruct (Z.eqb_spec a 0) as [->|Ha0].
  - destruct l as [|b l]; [done|]. apply Forall_cons in Hl as [Hb Hl].
    unfold check_second_byte, check_minimum. parse_unfold. cbn -[Z.land].
    rewrite high_bit by done. destruct (Z.ltb_spec b 128); [done|].
    destruct l; cbn; [|done]. by rewrite (proj2 (Z.ltb_ge b 1)) by lia.
  - rewrite high_bit by done. destruct (Z.ltb_spec a 128); [|done].
    unfold check_minimum. parse_unfold. cbn. unfold in_width in Ha.
    destruct l; cbn; [|done]. by rewrite (proj2 (Z.ltb_ge a 1)) by lia.
Qed.

Lemma positive_integer_encode p l :
  positive_ok p → Z.of_nat (length (integer_bytes p)) < 65536 →
  positive_integer (tlv (tag_byte Integer) (integer_bytes p) ++ l) = (l, Ok p).
Proof.
  intros [Hbs (b & l0 & Hp & Hb)] Hlen. unfold positive_integer, nonnegative_integer.
  unfold mbind at 1 2, Parser_bind at 1 2. rewrite expect_tag_encode by done.
  unfold lift at 1. rewrite read_integer_list.
  - destruct p as [bs]. cbn in *. subst bs. unfold integer_bytes. cbn -[Z.ltb]. case_decide; cbn -[Z.ltb].
    + by rewrite (proj2 (Z.ltb_ge b 128)) by lia.
    + by rewrite (proj2 (Z.eqb_neq b 0)), (proj2 (Z.ltb_lt b 128)) by (done || lia).
  - unfold integer_bytes. apply Forall_app. split; [|done]. case_decide; repeat constructor; done.
Qed.

Lemma positive_integer_decode l l' p :
  bytes_ok l → positive_integer l = (l', Ok p) →
  l = tlv (tag_byte Integer) (integer_bytes p) ++ l' ∧ positive_ok p ∧ Z.of_nat (length (integer_bytes p)) < 65536.
Proof.
  unfold positive_integer, nonnegative_integer. intros Hl.
  unfold mbind at 1 2, Parser_bind at 1 2.
  destruct (expect_tag_and_get_value Integer l) as [l1 [v|[]|]] eqn:Hv; [|done..].
  apply expect_tag_decode in Hv as [-> Hlen]; [|done]. apply tlv_bytes in Hl as [Hv Hl].
  unfold lift at 1. rewrite read_integer_list by done.
  destruct v as [|a v]; [done|]. apply Forall_cons in Hv as [Ha Hv]. unfold in_width in Ha.
  destruct (decide (a = 0)) as [->|Ha0].
  - destruct v as [|b v]; [done|]. destruct (Z.ltb_spec b 128); [done|]. intros [= <- <-].
    unfold integer_bytes in *. cbn in *. rewrite decide_True by done. split_and!; [done| |done].
    split; [done|]. exists b, v. split; [done|lia].
  - rewrite (proj2 (Z.eqb_neq a 0)) by done. destruct (Z.ltb_spec a 128); [|done]. intros [= <- <-].
    unfold integer_bytes in *. cbn in *. rewrite decide_False by lia. split_and!; [done| |done].
    split; [by constructor|]. by exists a, v.
Qed.

(** *** The writer *)

(** [w] writes [bs]: it counts and stores the same bytes. *)
Definition writes (w : WriteValue) (bs : list Z) : Prop :=
  (∀ n, w LengthMeasurement _ {| len := n |} = Ok {| len := n + Z.of_nat (length bs) |}) ∧
  (∀ l c, w Writer _ {| bytes := l; requested_capacity := c |}
          = Ok {| bytes := l ++ bs; requested_capacity := c |}).

Lemma write_header_writes n l c k :
  0 <= n < 65536 →
  write_header n {| len := k |} = Ok {| len := k + Z.of_nat (length (der_length n)) |} ∧
  write_header n {| bytes := l; requested_capacity := c |}
  = Ok {| bytes := l ++ der_length n; requested_capacity := c |}.
Proof.
  intros Hn. unfold write_header, der_length, cast. change (2 ^ 8) with 256.
  destruct (Z.ltb_spec n 128); [|destruct (Z.ltb_spec n 256); [|rewrite (proj2 (Z.ltb_lt n 65536)) by lia]];
    cbn; rewrite ?(Z.mod_small n), ?(Z.mod_small (n / 256))
      by (Z.to_euclidean_division_equations; lia); (split; [do 2 f_equal; lia|by rewrite <-?(assoc_L (++))]).
Qed.

Lemma writes_tlv tag w bs :
  writes w bs → Z.of_nat (length bs) < 65536 → writes (write_tlv tag w) (tlv (tag_byte tag) bs).
Proof.
  intros [Hlen Hbs] Hs. unfold write_tlv, tlv. split.
  - intros n. rewrite Hlen. cbn [mbind result_bind len write_byte LengthMeasurement_accumulator].
    rewrite (proj1 (write_header_writes (0 + Z.of_nat (length bs)) [] 0 _ ltac:(lia))). cbn [mbind result_bind]. rewrite Hlen.
    do 2 f_equal. rewrite length_cons, length_app, Z.add_0_l. lia.
  - intros l c. rewrite Hlen. cbn [mbind result_bind len write_byte Writer_accumulator bytes requested_capacity].
    rewrite (proj2 (write_header_writes (0 + Z.of_nat (length bs)) _ _ 0 ltac:(lia))). cbn [mbind result_bind]. rewrite Hbs.
    by rewrite Z.add_0_l, <-!(assoc_L (++)).
Qed.

Lemma writes_seq w1 w2 b1 b2 :
  writes w1 b1 → writes w2 b2 → writes (λ A _ output, output ← w1 A _ output; w2 A _ output) (b1 ++ b2).
Proof.
  intros [Hl1 Hb1] [Hl2 Hb2]. split.
  - intros n. rewrite Hl1. cbn. rewrite Hl2, length_app. do 2 f_equal. lia.
  - intros l c. rewrite Hb1. cbn. by rewrite Hb2, <-(assoc_L (++)).
Qed.

Lemma write_all_writes tag w bs :
  writes w bs → Z.of_nat (length bs) < 65536 → write_all tag w = Ok (tlv (tag_byte tag) bs).
Proof.
  intros Hw Hs. destruct (writes_tlv tag w bs Hw Hs) as [Hlen Hbs]. unfold write_all.
  rewrite Hlen. cbn [mbind result_bind len]. rewrite Hbs. cbn [mbind result_bind bytes requested_capacity app].
  by rewrite Z.add_0_l, Z.eqb_refl.
Qed.

Lemma write_positive_integer_writes p :
  positive_ok p → Z.of_nat (length (integer_bytes p)) < 65536 →
  writes (write_positive_integer p) (tlv (tag_byte Integer) (integer_bytes p)).
Proof.
  intros [Hbs (b & l & Hp & Hb)] Hlen. apply writes_tlv; [|done]. unfold integer_bytes in *.
  rewrite Hp in *. apply Forall_cons in Hbs as [Hu Hbs]. pose proof (high_bit b Hu) as Hhigh. unfold in_width in Hu.
  split; intros; cbn -[Z.land]; rewrite Hhigh; destruct (Z.ltb_spec b 128);
    rewrite ?decide_True, ?decide_False by lia; cbn; rewrite <-?(assoc_L (++)); [do 2 f_equal; lia..|done|done].
Qed.

Lemma tlv_length p :
  Z.of_nat (length (tlv (tag_byte Integer) (integer_bytes p))) <= 4 + Z.of_nat (length (integer_bytes p)).
Proof. unfold tlv, der_length. rewrite length_cons, length_app. repeat case_match; cbn; lia. Qed.

Lemma from_n_and_e_writes n e : positive_ok n → positive_ok e →
  Z.of_nat (length (tlv (tag_byte Integer) (integer_bytes n) ++ tlv (tag_byte Integer) (integer_bytes e))) < 65536 →
  from_n_and_e n e = Ok (tlv (tag_byte Sequence)
    (tlv (tag_byte Integer) (integer_bytes n) ++ tlv (tag_byte Integer) (integer_bytes e))).
Proof.
  intros Hn He Hs. apply write_all_writes; [|done]. rewrite length_app in Hs. unfold tlv in Hs.
  rewrite !length_cons, !length_app in Hs. apply writes_seq; apply write_positive_integer_writes; (done || lia).
Qed.

(** ** Transport to every reader *)

Section transport.
Context {Reader : Type} `{!Untrusted Reader} `{!UntrustedLaws Reader}.

Lemma sim_read_length : sim read_length read_length.
Proof. unfold read_length. sim. Qed.
Hint Resolve sim_read_length : sim.

Lemma sim_read_tag_and_get_value : sim read_tag_and_get_value read_tag_and_get_value.
Proof. unfold read_tag_and_get_value. sim. Qed.
Hint Resolve sim_read_tag_and_get_value : sim.

Lemma sim_expect_tag_and_get_value tag : sim (expect_tag_and_get_value tag) (expect_tag_and_get_value tag).
Proof. unfold expect_tag_and_get_value. sim. Qed.
Hint Resolve sim_expect_tag_and_get_value : sim.

Lemma sim_nested {E R} tag (e : E) (p : Parser Reader E R) q : sim p q → sim (nested tag e p) (nested tag e q).
Proof. unfold nested. sim. Qed.

Lemma check_minimum_transport i m : check_minimum (Reader := Reader) i m = check_minimum (Reader := list Z) i m.
Proof. unfold check_minimum. sim. Qed.

Lemma check_second_byte_transport i : check_second_byte (Reader := Reader) i = check_second_byte (Reader := list Z) i.
Proof. unfold check_second_byte. sim. Qed.

Lemma sim_nonnegative_integer m : sim (nonnegative_integer m) (nonnegative_integer m).
Proof.
  unfold nonnegative_integer. sim; auto using check_minimum_transport, check_second_byte_transport.
Qed.
Hint Resolve sim_nonnegative_integer : sim.

Lemma sim_small_nonnegative_integer : sim small_nonnegative_integer small_nonnegative_integer.
Proof. unfold small_nonnegative_integer. sim. Qed.

Lemma sim_positive_integer : sim positive_integer positive_integer.
Proof. unfold positive_integer. sim. Qed.
Hint Resolve sim_positive_integer : sim.

Lemma parse_public_key_transport i : parse_public_key (Reader := Reader) i = parse_public_key (Reader := list Z) i.
Proof. unfold parse_public_key. sim. Qed.
End transport.
#[export] Hint Resolve sim_read_tag_and_get_value sim_expect_tag_and_get_value sim_nested sim_small_nonnegative_integer
  sim_positive_integer : sim.

(** ** Claims *)

Lemma parse_public_key_encode n e :
  positive_ok n → positive_ok e →
  Z.of_nat (length (tlv (tag_byte Integer) (integer_bytes n) ++ tlv (tag_byte Integer) (integer_bytes e))) < 65536 →
  parse_public_key (Reader := list Z)
    (tlv (tag_byte Sequence) (tlv (tag_byte Integer) (integer_bytes n) ++ tlv (tag_byte Integer) (integer_bytes e)))
  = Ok (n, e).
Proof.
  intros Hn He Hlen. rewrite length_app in Hlen. unfold tlv in Hlen at 1 2.
  rewrite !length_cons, !length_app in Hlen. unfold parse_public_key, nested.
  rewrite <-(app_nil_r (tlv (tag_byte Sequence) _)). cbn [read_all list_untrusted]. parse_unfold.
  rewrite expect_tag_encode by (unfold tlv; rewrite length_app, !length_cons, !length_app; lia).
  cbn [map_err read_all list_untrusted]. rewrite positive_integer_encode by (done || lia).
  rewrite <-(app_nil_r (tlv (tag_byte Integer) (integer_bytes e))).
  by rewrite positive_integer_encode by (done || lia).
Qed.

Lemma parse_public_key_decode key n e :
  bytes_ok key → parse_public_key (Reader := list Z) key = Ok (n, e) →
  key = tlv (tag_byte Sequence) (tlv (tag_byte Integer) (integer_bytes n) ++ tlv (tag_byte Integer) (integer_bytes e)) ∧
  positive_ok n ∧ positive_ok e ∧
  Z.of_nat (length (tlv (tag_byte Integer) (integer_bytes n) ++ tlv (tag_byte Integer) (integer_bytes e))) < 65536.
Proof.
  unfold parse_public_key, nested. cbn [read_all list_untrusted]. parse_unfold. intros Hkey.
  destruct (expect_tag_and_get_value Sequence key) as [l [v|[]|]] eqn:Hv; [|done..].
  apply expect_tag_decode in Hv as [-> Hlen]; [|done]. apply tlv_bytes in Hkey as [Hv Hl].
  cbn [map_err read_all list_untrusted].
  destruct (positive_integer v) as [l1 [n'|[]|]] eqn:Hn; [|done..].
  apply positive_integer_decode in Hn as (-> & Hn & Hln); [|done]. apply tlv_bytes in Hv as [_ Hl1].
  destruct (positive_integer l1) as [l2 [e'|[]|]] eqn:He; [|done..].
  apply positive_integer_decode in He as (-> & He & Hle); [|done].
  destruct l2; [|done]. destruct l; [|done]. rewrite !app_nil_r in *. by intros [= -> ->].
Qed.

Section claims.
Context {Reader : Type} `{!Untrusted Reader} `{!UntrustedLaws Reader}.

(** DER values have one encoding: reading a tag and a value succeeds with tag [tag],
    value [v] and the bytes [rest] left exactly when the reader holds the tag (not in high
    tag number form), the shortest encoding of the length of [v], which is below
    65536, the bytes of [v], and then [rest]. *)
Theorem read_tag_and_get_value_iff (r : Reader) tag v rest :
  bytes_ok (remaining r) →
  (∃ r', read_tag_and_get_value r = (r', Ok (tag, v)) ∧ remaining r' = rest) ↔
  remaining r = tlv tag v ++ rest ∧ tag mod 32 ≠ 31 ∧ Z.of_nat (length v) < 65536.
Proof.
  intros Hr. pose proof (sim_read_tag_and_get_value r _ eq_refl) as Hsim. unfold reads in Hsim. split.
  - intros (r' & Hrun & <-). rewrite Hrun in Hsim.
    destruct (read_tag_and_get_value (remaining r)) as [l [[t w]|[]|]] eqn:Hl; [|done..].
    destruct Hsim as [[= -> ->] ->]. by apply read_tlv_decode in Hl.
  - intros (Heq & Htag & Hlen). rewrite Heq in Hr. apply Forall_cons in Hr as [Ht _].
    rewrite Heq, read_tlv_encode in Hsim by done.
    destruct (read_tag_and_get_value r) as [r' [a|e|]]; [|done..]. destruct Hsim as [-> ->]. eauto.
Qed.

(** C21 A serialized RSA public key is the only encoding of its numbers and is read back:
    whenever [n] and [e] are positive numbers without leading zeros and the key is
    short enough for the writer, [from_n_and_e] does not panic and
    [parse_public_key], [modulus] and [exponent] return [n] and [e] for its result;
    and every key that [parse_public_key] accepts is the one [from_n_and_e] writes. *)
Theorem public_key_round_trip n e key :
  bytes_ok key →
  (positive_ok n → positive_ok e →
   Z.of_nat (length (integer_bytes n)) + Z.of_nat (length (integer_bytes e)) < 65528 →
   ∃ k, from_n_and_e n e = Ok k ∧ parse_public_key (Reader := Reader) k = Ok (n, e) ∧
        modulus (Reader := Reader) k = Ok n ∧ exponent (Reader := Reader) k = Ok e) ∧
  (parse_public_key (Reader := Reader) key = Ok (n, e) → from_n_and_e n e = Ok key).
Proof.
  intros Hkey. unfold modulus, exponent, unwrap_key.
  split.
  - intros Hn He Hs. pose proof (tlv_length n). pose proof (tlv_length e). eexists. rewrite from_n_and_e_writes by (rewrite ?length_app; done || lia).
    split; [done|]. rewrite parse_public_key_transport, parse_public_key_encode by (rewrite ?length_app; done || lia). done.
  - rewrite parse_public_key_transport. intros (-> & Hn & He & Hs)%parse_public_key_decode; [|done]. by apply from_n_and_e_writes.
Qed.
End claims.

Lemma read_tag_and_get_value_iff_witness :
  read_tag_and_get_value [48; 3; 2; 1; 5; 7] = ([7], Ok (48, [2; 1; 5])) ∧
  ((∃ r', read_tag_and_get_value [48; 3; 2; 1; 5; 7] = (r', Ok (48, [2; 1; 5])) ∧ remaining r' = [7]) ↔
   [48; 3; 2; 1; 5; 7] = tlv 48 [2; 1; 5] ++ [7] ∧ 48 mod 32 ≠ 31 ∧ Z.of_nat (length [2; 1; 5]) < 65536).
Proof.
  split; [reflexivity|]. refine (read_tag_and_get_value_iff (Reader := list Z) [48; 3; 2; 1; 5; 7] 48 [2; 1; 5] [7] _). repeat constructor; done.
Defined.

Lemma public_key_round_trip_witness :
  ∃ k, from_n_and_e (Positive_new [200; 1]) (Positive_new [3]) = Ok k ∧
    parse_public_key (Reader := list Z) k = Ok (Positive_new [200; 1], Positive_new [3]) ∧
    modulus (Reader := list Z) k = Ok (Positive_new [200; 1]) ∧ exponent (Reader := list Z) k = Ok (Positive_new [3]).
Proof.
  destruct (public_key_round_trip (Reader := list Z) (Positive_new [200; 1]) (Positive_new [3]) []) as [H _]; [constructor|].
  apply H; [..|done]; (split; [repeat constructor; done|by eexists _, _]).
Defined.
