(* ===== verification/WebpkiDer.v ===== *)
(** * DER values and time in certificates

    [src/utils/webpki/src]: the errors of the crate ([error.rs]), its DER readers
    ([der.rs]), which wrap those of ring, and the conversion of dates to Unix time
    ([calendar.rs], [time.rs]).  The conversion counts the days of the calendar one by one
    and keeps the order of dates ([time_from_ymdhms_utc_spec]). *)
From S2P Require Import Prelude Errors Frame Untrusted RingIo.

Inductive Error :=
| BadDER | BadDERTime | CAUsedAsEndEntity | CertExpired | CertNotValidForName | CertNotValidYet
| EndEntityUsedAsCA | ExtensionValueInvalid | InvalidCertValidity | InvalidSignatureForPublicKey
| NameConstraintViolation | PathLenConstraintViolated | SignatureAlgorithmMismatch | RequiredEKUNotFound
| UnknownIssuer | UnsupportedCertVersion | UnsupportedCriticalExtension
| UnsupportedSignatureAlgorithmForPublicKey | UnsupportedSignatureAlgorithm.

#[export] Instance Error_eq_dec : EqDecision Error.
Proof. solve_decision. Defined.

(** ** [calendar.rs]

    Years have at most four digits, so the [u64] arithmetic does not overflow. *)

Definition DAYS_BEFORE_UNIX_EPOCH_AD : Z := 719162.

Definition days_before_year_ad (year : Z) : Z :=
  (year - 1) * 365 + (year - 1) / 4 - (year - 1) / 100 + (year - 1) / 400.

Definition days_before_year_since_unix_epoch (year : Z) : result Error Z :=
  if year <? 1970 then Err BadDERTime
  else Ok (days_before_year_ad year - DAYS_BEFORE_UNIX_EPOCH_AD).

Definition days_in_feb (year : Z) : Z :=
  if (year mod 4 =? 0) && (negb (year mod 100 =? 0) || (year mod 400 =? 0)) then 29 else 28.

(** Another month than 1 to 12 is [unreachable!]. *)
Definition days_in_month (year month : Z) : result Error Z :=
  match month with
  | 1 | 3 | 5 | 7 | 8 | 10 | 12 => Ok 31
  | 4 | 6 | 9 | 11 => Ok 30
  | 2 => Ok (days_in_feb year)
  | _ => Panic
  end.

Definition days_before_month_in_year (feb month : Z) : result Error Z :=
  let JAN := 31 in let MAR := 31 in let APR := 30 in let MAY := 31 in let JUN := 30 in
  let JUL := 31 in let AUG := 31 in let SEP := 30 in let OCT := 31 in let NOV := 30 in
  match month with
  | 1 => Ok 0
  | 2 => Ok JAN
  | 3 => Ok (JAN + feb)
  | 4 => Ok (JAN + feb + MAR)
  | 5 => Ok (JAN + feb + MAR + APR)
  | 6 => Ok (JAN + feb + MAR + APR + MAY)
  | 7 => Ok (JAN + feb + MAR + APR + MAY + JUN)
  | 8 => Ok (JAN + feb + MAR + APR + MAY + JUN + JUL)
  | 9 => Ok (JAN + feb + MAR + APR + MAY + JUN + JUL + AUG)
  | 10 => Ok (JAN + feb + MAR + APR + MAY + JUN + JUL + AUG + SEP)
  | 11 => Ok (JAN + feb + MAR + APR + MAY + JUN + JUL + AUG + SEP + OCT)
  | 12 => Ok (JAN + feb + MAR + APR + MAY + JUN + JUL + AUG + SEP + OCT + NOV)
  | _ => Panic
  end.

(** [Time] wraps the seconds since the Unix epoch. *)
Definition time_from_ymdhms_utc (year month day_of_month hours minutes seconds : Z) : result Error Z :=
  days_before_year_since_unix_epoch ← days_before_year_since_unix_epoch year;
  days_before_month_in_year ← days_before_month_in_year (days_in_feb year) month;
  let days_before := days_before_year_since_unix_epoch + days_before_month_in_year + day_of_month - 1 in
  Ok (days_before * 24 * 60 * 60 + hours * 60 * 60 + minutes * 60 + seconds).

(** ** [der.rs] *)

Section der.
Context {Reader : Type} `{!Untrusted Reader}.
Abbreviation P := (Parser Reader Error).

Definition expect_tag_and_get_value (tag : Tag) : P Input :=
  pmap_err (λ _, BadDER) (RingIo.expect_tag_and_get_value tag).

Definition read_tag_and_get_value : P (Z * Input) :=
  pmap_err (λ _, BadDER) RingIo.read_tag_and_get_value.

(** The decoder gets the number of bytes of the value, which bounds its rounds. *)
Definition nested_mut {R} (tag : Tag) (error : Error) (decoder : nat → P R) : P R :=
  inner ← pmap_err (λ _, error) (expect_tag_and_get_value tag);
  lift (map_err (λ _, error) (read_all inner error (decoder (length inner)))).

(** The closure's mutable state is [s]. *)
Definition nested_of_mut_round {S} (inner_tag : Tag) (error : Error) (decoder : S → P S) (s : S) : P (S + S) :=
  s ← nested_mut inner_tag error (λ _, decoder s);
  e ← asks at_end;
  mret (if e : bool then inr s else inl s).

Definition nested_of_mut {S} (outer_tag inner_tag : Tag) (error : Error) (decoder : S → P S) (s : S) : P S :=
  nested_mut outer_tag error (λ n, loop (Datatypes.S n) (nested_of_mut_round inner_tag error decoder) s).

Definition bit_string_with_no_unused_bits : P Input :=
  nested BitString BadDER (
    unused_bits_at_end ← pmap_err (λ _, BadDER) read_byte;
    if negb (unused_bits_at_end =? 0) then fail BadDER else total read_bytes_to_end).

Definition optional_boolean : P bool :=
  p ← asks (peek (tag_byte Boolean));
  if negb p then mret false else
  nested Boolean BadDER (
    b ← pmap_err (λ _, BadDER) read_byte;
    if b =? 255 then mret true else if b =? 0 then mret false else fail BadDER).

Definition positive_integer : P Positive := pmap_err (λ _, BadDER) RingIo.positive_integer.

Definition small_nonnegative_integer : P Z := pmap_err (λ _, BadDER) RingIo.small_nonnegative_integer.

Definition read_digit : P Z :=
  b ← pmap_err (λ _, BadDERTime) read_byte;
  if (b <? 48) || (57 <? b) then fail BadDERTime else mret (b - 48).

Definition read_two_digits (min max : Z) : P Z :=
  hi ← read_digit;
  lo ← read_digit;
  let value := hi * 10 + lo in
  if (value <? min) || (max <? value) then fail BadDERTime else mret value.

Definition time_choice : P Z :=
  is_utc_time ← asks (peek (tag_byte UTCTime));
  nested (if is_utc_time : bool then UTCTime else GeneralizedTime) BadDER (
    '(year_hi, year_lo) ←
      (if is_utc_time : bool then
         lo ← read_two_digits 0 99;
         let hi := if 50 <=? lo then 19 else 20 in
         mret (hi, lo)
       else
         hi ← read_two_digits 0 99;
         lo ← read_two_digits 0 99;
         mret (hi, lo));
    let year := year_hi * 100 + year_lo in
    month ← read_two_digits 1 12;
    days_in_month ← lift (days_in_month year month);
    day_of_month ← read_two_digits 1 days_in_month;
    hours ← read_two_digits 0 23;
    minutes ← read_two_digits 0 59;
    seconds ← read_two_digits 0 59;
    time_zone ← pmap_err (λ _, BadDERTime) read_byte;
    if negb (time_zone =? 90) then fail BadDERTime else
    lift (time_from_ymdhms_utc year month day_of_month hours minutes seconds)).
End der.

(** ** Transport to every reader *)

Section transport.
Context {Reader : Type} `{!Untrusted Reader} `{!UntrustedLaws Reader}.

Lemma sim_webpki_expect_tag tag : sim (expect_tag_and_get_value tag) (expect_tag_and_get_value tag).
Proof. unfold expect_tag_and_get_value. sim. Qed.
Hint Resolve sim_webpki_expect_tag : sim.

Lemma sim_webpki_read_tag : sim read_tag_and_get_value read_tag_and_get_value.
Proof. unfold read_tag_and_get_value. sim. Qed.

Lemma sim_nested_mut {R} tag e (p : nat → Parser Reader Error R) q :
  (∀ n, sim (p n) (q n)) → sim (nested_mut tag e p) (nested_mut tag e q).
Proof. intros Hp. unfold nested_mut. sim. f_equal. by apply read_all_sim. Qed.

Lemma sim_nested_of_mut {S} o i e (p : S → Parser Reader Error S) q s :
  (∀ s, sim (p s) (q s)) → sim (nested_of_mut o i e p s) (nested_of_mut o i e q s).
Proof.
  intros Hp. unfold nested_of_mut. apply sim_nested_mut. intros n. apply sim_loop. intros s'.
  unfold nested_of_mut_round. apply sim_bind; [by apply sim_nested_mut|]. sim.
Qed.

Lemma sim_bit_string : sim bit_string_with_no_unused_bits bit_string_with_no_unused_bits.
Proof. unfold bit_string_with_no_unused_bits. sim. Qed.

Lemma sim_optional_boolean : sim optional_boolean optional_boolean.
Proof. unfold optional_boolean. sim. Qed.

Lemma sim_webpki_positive_integer : sim positive_integer positive_integer.
Proof. unfold positive_integer. sim. Qed.

Lemma sim_webpki_small_nonnegative_integer : sim small_nonnegative_integer small_nonnegative_integer.
Proof. unfold small_nonnegative_integer. sim. Qed.

Lemma sim_read_two_digits min max : sim (read_two_digits min max) (read_two_digits min max).
Proof. unfold read_two_digits, read_digit. sim. Qed.
Hint Resolve sim_read_two_digits : sim.

Lemma sim_time_choice : sim time_choice time_choice.
Proof. unfold time_choice. sim. Qed.
End transport.
#[export] Hint Resolve sim_webpki_expect_tag sim_webpki_read_tag sim_bit_string sim_optional_boolean
  sim_webpki_positive_integer sim_webpki_small_nonnegative_integer sim_time_choice : sim.
Ltac sim_rule ::= first [apply sim_nested | apply sim_nested_mut | apply sim_nested_of_mut].

(** ** The calendar *)

Definition days_in_year (year : Z) : Z := days_in_feb year + 337.

(** The lengths of the months of a year, in order. *)
Definition months (year : Z) : list Z := [31; days_in_feb year; 31; 30; 31; 30; 31; 31; 30; 31; 30; 31].

(** The days from January 1, 1970 to a date, counted year by year and month by month. *)
Definition day_number (year month day : Z) : Z :=
  sum_list_with_Z days_in_year (seqZ 1970 (year - 1970))
  + sum_list_with_Z id (take (Z.to_nat (month - 1)) (months year)) + (day - 1).

Record Date := mkDate { d_year : Z; d_month : Z; d_day : Z; d_hours : Z; d_minutes : Z; d_seconds : Z }.

(** A date that [time_choice] can have read, after the epoch. *)
Record date_ok (d : Date) : Prop := {
  do_year : 1970 <= d.(d_year);
  do_month : 1 <= d.(d_month) <= 12;
  do_day : ∃ n, days_in_month d.(d_year) d.(d_month) = Ok n ∧ 1 <= d.(d_day) <= n;
  do_hours : 0 <= d.(d_hours) <= 23;
  do_minutes : 0 <= d.(d_minutes) <= 59;
  do_seconds : 0 <= d.(d_seconds) <= 59
}.

(** The order of dates: the first field that differs decides. *)
Definition date_lt (a b : Date) : Prop :=
  a.(d_year) < b.(d_year) ∨ a.(d_year) = b.(d_year) ∧
  (a.(d_month) < b.(d_month) ∨ a.(d_month) = b.(d_month) ∧
  (a.(d_day) < b.(d_day) ∨ a.(d_day) = b.(d_day) ∧
  (a.(d_hours) < b.(d_hours) ∨ a.(d_hours) = b.(d_hours) ∧
  (a.(d_minutes) < b.(d_minutes) ∨ a.(d_minutes) = b.(d_minutes) ∧ a.(d_seconds) < b.(d_seconds))))).

Definition time_of (d : Date) : result Error Z :=
  time_from_ymdhms_utc d.(d_year) d.(d_month) d.(d_day) d.(d_hours) d.(d_minutes) d.(d_seconds).

Lemma days_before_year_step year :
  days_before_year_ad (year + 1) = days_before_year_ad year + days_in_year year.
Proof.
  unfold days_before_year_ad, days_in_year, days_in_feb.
  destruct (Z.eqb_spec (year mod 4) 0), (Z.eqb_spec (year mod 100) 0), (Z.eqb_spec (year mod 400) 0);
    cbn; Z.to_euclidean_division_equations; lia.
Qed.

Lemma seqZ_one m : seqZ m 1 = [m].
Proof. done. Qed.

Lemma days_before_year_spec n :
  days_before_year_ad (1970 + Z.of_nat n) - DAYS_BEFORE_UNIX_EPOCH_AD
  = sum_list_with_Z days_in_year (seqZ 1970 (Z.of_nat n)).
Proof.
  induction n as [|n IH]; [done|].
  replace (Z.of_nat (S n)) with (Z.of_nat n + 1) by lia.
  rewrite seqZ_app by lia. rewrite sum_list_app, <-IH. rewrite seqZ_one. rewrite Z.add_assoc, days_before_year_step. cbn. lia.
Qed.

(** A statement about all months is checked month by month. *)
Lemma month_cases (Q : Z → Prop) :
  Q 1 → Q 2 → Q 3 → Q 4 → Q 5 → Q 6 → Q 7 → Q 8 → Q 9 → Q 10 → Q 11 → Q 12 → ∀ m, 1 <= m <= 12 → Q m.
Proof.
  intros. assert (m = 1 ∨ m = 2 ∨ m = 3 ∨ m = 4 ∨ m = 5 ∨ m = 6 ∨ m = 7 ∨ m = 8 ∨ m = 9 ∨ m = 10 ∨ m = 11 ∨ m = 12)
    as Hm by lia. by repeat destruct Hm as [->|Hm]; [..|subst].
Qed.

Lemma days_before_month_spec year m :
  1 <= m <= 12 →
  days_before_month_in_year (days_in_feb year) m = Ok (sum_list_with_Z id (take (Z.to_nat (m - 1)) (months year))).
Proof.
  revert m. apply month_cases;
    match goal with |- context [Z.to_nat ?x] => let v := eval vm_compute in (Z.to_nat x) in change (Z.to_nat x) with v end;
    cbn; f_equal; unfold id; lia.
Qed.

Lemma days_in_month_months year m :
  1 <= m <= 12 → ∃ n, days_in_month year m = Ok n ∧ months year !! Z.to_nat (m - 1) = Some n.
Proof. revert m. apply month_cases; eexists; done. Qed.

Lemma time_from_day_number year month day hours minutes seconds :
  1970 <= year → 1 <= month <= 12 →
  time_from_ymdhms_utc year month day hours minutes seconds
  = Ok (day_number year month day * 86400 + hours * 3600 + minutes * 60 + seconds).
Proof.
  intros Hy Hm. unfold time_from_ymdhms_utc, days_before_year_since_unix_epoch, day_number.
  rewrite (proj2 (Z.ltb_ge _ _)) by done. cbn [mbind result_bind]. rewrite days_before_month_spec by done. cbn [mbind result_bind].
  pose proof (days_before_year_spec (Z.to_nat (year - 1970))) as Hd. rewrite Z2Nat.id in Hd by lia.
  replace (1970 + (year - 1970)) with year in Hd by lia. rewrite Hd. f_equal. lia.
Qed.

Lemma days_in_feb_range year : 28 <= days_in_feb year <= 29.
Proof. unfold days_in_feb. case_match; lia. Qed.

(** In a list of lengths the end of one is not after the start of a later one. *)
Lemma sum_take_end (l : list Z) i j n :
  Forall (λ x, 0 <= x) l → l !! i = Some n → (i < j)%nat →
  sum_list_with_Z id (take i l) + n <= sum_list_with_Z id (take j l).
Proof.
  intros Hl. revert i j. induction Hl as [|x l Hx Hl IH]; intros i j Hn Hij; [done|].
  destruct i as [|i], j as [|j]; [lia| |lia|].
  - injection Hn as ->. cbn [take]. rewrite sum_list_cons. unfold id at 2.
    assert (0 <= sum_list_with_Z id (take j l)); [|cbn; lia].
    apply sum_list_nonneg. intros y Hy. by apply (proj1 (Forall_forall _ _) (Forall_take _ j _ Hl)).
  - cbn [take]. rewrite !sum_list_cons. specialize (IH i j Hn ltac:(lia)). lia.
Qed.

Lemma months_nonneg year : Forall (λ x, 0 <= x) (months year).
Proof. pose proof (days_in_feb_range year). repeat constructor; lia. Qed.

Lemma months_total year : sum_list_with_Z id (months year) = days_in_year year.
Proof. unfold days_in_year, months. cbn. unfold id. lia. Qed.

Lemma day_number_lt y1 m1 d1 y2 m2 d2 n1 :
  1970 <= y1 → 1 <= m1 <= 12 → days_in_month y1 m1 = Ok n1 → 1 <= d1 <= n1 → 1 <= m2 <= 12 → 1 <= d2 →
  y1 < y2 ∨ y1 = y2 ∧ (m1 < m2 ∨ m1 = m2 ∧ d1 < d2) →
  day_number y1 m1 d1 < day_number y2 m2 d2.
Proof.
  intros Hy Hm1 Hn1 Hd1 Hm2 Hd2 Hlt. unfold day_number.
  destruct (days_in_month_months y1 m1 Hm1) as (n & Hn & Hlook). rewrite Hn1 in Hn. injection Hn as <-.
  destruct Hlt as [Hlt|[<- [Hlt|[<- Hlt]]]]; [| |lia].
  - pose proof (sum_take_end _ _ 12 _ (months_nonneg y1) Hlook ltac:(lia)) as Hend.
    rewrite (take_ge (months y1) 12), months_total in Hend by (cbn; lia).
    replace (y2 - 1970) with ((y1 - 1970) + (1 + (y2 - y1 - 1))) by lia.
    rewrite !seqZ_app by lia. rewrite !sum_list_app.
    rewrite seqZ_one, sum_list_cons. replace (days_in_year (1970 + (y1 - 1970))) with (days_in_year y1) by (f_equal; lia).
    assert (0 <= sum_list_with_Z days_in_year (seqZ (1970 + (y1 - 1970) + 1) (y2 - y1 - 1))).
    { apply sum_list_nonneg. intros y _. unfold days_in_year. pose proof (days_in_feb_range y). lia. }
    assert (0 <= sum_list_with_Z id (take (Z.to_nat (m2 - 1)) (months y2))).
    { apply sum_list_nonneg. intros y Hin.
      by apply (proj1 (Forall_forall _ _) (Forall_take _ (Z.to_nat (m2 - 1)) _ (months_nonneg y2))). }
    cbn. lia.
  - pose proof (sum_take_end _ _ (Z.to_nat (m2 - 1)) _ (months_nonneg y1) Hlook ltac:(lia)). lia.
Qed.

Lemma time_of_lt a b ta tb :
  date_ok a → date_ok b → time_of a = Ok ta → time_of b = Ok tb → date_lt a b → ta < tb.
Proof.
  intros [Hy Hm (n & Hn & Hd) Hh Hmi Hs] [Hy' Hm' (n' & Hn' & Hd') Hh' Hmi' Hs'].
  unfold time_of. rewrite !time_from_day_number by done. intros [= <-] [= <-] Hlt.
  assert (day_number (d_year a) (d_month a) (d_day a) < day_number (d_year b) (d_month b) (d_day b) ∨
    day_number (d_year a) (d_month a) (d_day a) = day_number (d_year b) (d_month b) (d_day b) ∧
    (d_hours a < d_hours b ∨ d_hours a = d_hours b ∧
     (d_minutes a < d_minutes b ∨ d_minutes a = d_minutes b ∧ d_seconds a < d_seconds b))) as [?|[-> ?]]; [|lia..].
  destruct Hlt as [Hlt|(Hyy & [Hlt|(Hmm & [Hlt|(Hdd & Hlt)])])];
    [left; eapply day_number_lt; eauto; lia..|right; by rewrite Hyy, Hmm, Hdd].
Qed.

Lemma date_lt_total a b : date_lt a b ∨ a = b ∨ date_lt b a.
Proof.
  destruct a as [y m d h mi s], b as [y' m' d' h' mi' s']. unfold date_lt. cbn.
  destruct (Z.lt_trichotomy y y') as [?|[->|?]]; [tauto| |tauto].
  destruct (Z.lt_trichotomy m m') as [?|[->|?]]; [tauto| |tauto].
  destruct (Z.lt_trichotomy d d') as [?|[->|?]]; [tauto| |tauto].
  destruct (Z.lt_trichotomy h h') as [?|[->|?]]; [tauto| |tauto].
  destruct (Z.lt_trichotomy mi mi') as [?|[->|?]]; [tauto| |tauto].
  destruct (Z.lt_trichotomy s s') as [?|[->|?]]; tauto.
Qed.

(** Dates become Unix time: for every date from 1970 on that the readers of [UTCTime] and
    [GeneralizedTime] let through the conversion does not fail, its result is the number of
    seconds of the days since January 1, 1970, counted year by year and month by
    month, plus the time of day, and it is in the order of the dates: an earlier date
    has an earlier time, and no two dates have the same. *)
Theorem time_from_ymdhms_utc_spec a b :
  date_ok a → date_ok b →
  ∃ ta tb,
    time_of a = Ok ta ∧ time_of b = Ok tb ∧
    ta = day_number a.(d_year) a.(d_month) a.(d_day) * 86400 + a.(d_hours) * 3600 + a.(d_minutes) * 60 + a.(d_seconds) ∧
    (date_lt a b ↔ ta < tb) ∧ (a = b ↔ ta = tb).
Proof.
  intros Ha Hb. pose proof (do_year a Ha). pose proof (do_month a Ha). pose proof (do_year b Hb). pose proof (do_month b Hb).
  assert (∃ ta, time_of a = Ok ta) as [ta Hta] by (unfold time_of; rewrite time_from_day_number; eauto).
  assert (∃ tb, time_of b = Ok tb) as [tb Htb] by (unfold time_of; rewrite time_from_day_number; eauto).
  exists ta, tb. pose proof (time_of_lt a b ta tb Ha Hb Hta Htb). pose proof (time_of_lt b a tb ta Hb Ha Htb Hta).
  assert (a = b → ta = tb) by (intros ->; congruence).
  split_and!; [done|done| |destruct (date_lt_total a b) as [?|[?|?]]; naive_solver lia..].
  revert Hta. unfold time_of. rewrite time_from_day_number by done. by intros [= <-].
Qed.

(** The last second of 2016 and the first of 2017. *)
Lemma time_from_ymdhms_utc_spec_witness :
  date_ok (mkDate 2016 12 31 23 59 59) ∧ date_ok (mkDate 2017 1 1 0 0 0) ∧
  ∃ ta tb, time_of (mkDate 2016 12 31 23 59 59) = Ok ta ∧ time_of (mkDate 2017 1 1 0 0 0) = Ok tb ∧ ta < tb.
Proof.
  assert (date_ok (mkDate 2016 12 31 23 59 59)) as Ha by (split; cbn; [lia..|by exists 31|lia|lia|lia]).
  assert (date_ok (mkDate 2017 1 1 0 0 0)) as Hb by (split; cbn; [lia..|by exists 31|lia|lia|lia]).
  split; [exact Ha|]. split; [exact Hb|].
  destruct (time_from_ymdhms_utc_spec _ _ Ha Hb) as (ta & tb & Hta & Htb & _ & [Hlt _] & _).
  exists ta, tb. split; [exact Hta|]. split; [exact Htb|]. apply Hlt. left. cbn. lia.
Defined.
