(* ===== verification/WebpkiCert.v ===== *)
(** * Certificates

    [src/utils/webpki/src]: certificates and their parser ([cert.rs]), signed data and
    signature algorithms ([signed_data.rs]), and trust anchors
    ([webpki.rs], [trust_anchor_util.rs]).  The signature algorithms of ring are trait
    objects; here they are functions, so that every algorithm is covered. *)
From S2P Require Import Prelude Errors Frame Untrusted RingIo WebpkiDer.

(** ** [signed_data.rs] *)

Record SignedData := mkSignedData {
  sd_data : Input;
  sd_algorithm : Input;
  sd_signature : Input
}.

(** [ring::signature::VerificationAlgorithm]: public key, message and signature. *)
Definition VerificationAlgorithm : Type := Input → Input → Input → result unit unit.

(** An [AlgorithmIdentifier] is the bytes it has to be equal to. *)
Record SignatureAlgorithm := mkSignatureAlgorithm {
  public_key_alg_id : Input;
  signature_alg_id : Input;
  verification_alg : VerificationAlgorithm
}.

Definition matches_algorithm_id_value (self encoded : Input) : bool := bool_decide (encoded = self).

Record SubjectPublicKeyInfo := mkSubjectPublicKeyInfo {
  algorithm_id_value : Input;
  key_value : Input
}.

(** The files [data/alg-*.der] *)
Definition RSA_ENCRYPTION : Input := [6; 9; 42; 134; 72; 134; 247; 13; 1; 1; 1; 5; 0].
Definition RSA_PKCS1_SHA256 : Input := [6; 9; 42; 134; 72; 134; 247; 13; 1; 1; 11; 5; 0].
Definition RSA_PKCS1_SHA384 : Input := [6; 9; 42; 134; 72; 134; 247; 13; 1; 1; 12; 5; 0].
Definition RSA_PKCS1_SHA512 : Input := [6; 9; 42; 134; 72; 134; 247; 13; 1; 1; 13; 5; 0].

(** ** [cert.rs] *)

Inductive EndEntityOrCA (C : Type) := EndEntity | CA (child : C).
Arguments EndEntity {C}.
Arguments CA {C} child.

Inductive Cert := mkCert {
  ee_or_ca : EndEntityOrCA Cert;
  signed_data : SignedData;
  issuer : Input;
  validity : Input;
  subject : Input;
  spki : Input;
  basic_constraints : option Input;
  eku : option Input;
  name_constraints : option Input;
  subject_alt_name : option Input
}.
#[export] Instance set_ce_basic_constraints : Setter basic_constraints := λ f c,
  mkCert (ee_or_ca c) (signed_data c) (issuer c) (validity c) (subject c) (spki c)
    (f (basic_constraints c)) (eku c) (name_constraints c) (subject_alt_name c).
#[export] Instance set_ce_eku : Setter eku := λ f c,
  mkCert (ee_or_ca c) (signed_data c) (issuer c) (validity c) (subject c) (spki c)
    (basic_constraints c) (f (eku c)) (name_constraints c) (subject_alt_name c).
#[export] Instance set_ce_name_constraints : Setter name_constraints := λ f c,
  mkCert (ee_or_ca c) (signed_data c) (issuer c) (validity c) (subject c) (spki c)
    (basic_constraints c) (eku c) (f (name_constraints c)) (subject_alt_name c).
#[export] Instance set_ce_subject_alt_name : Setter subject_alt_name := λ f c,
  mkCert (ee_or_ca c) (signed_data c) (issuer c) (validity c) (subject c) (spki c)
    (basic_constraints c) (eku c) (name_constraints c) (f (subject_alt_name c)).

Inductive Understood := Yes | No.

(** [webpki.rs] *)
Record TrustAnchor := mkTrustAnchor {
  ta_subject : Input;
  ta_spki : Input;
  ta_name_constraints : option Input
}.

Section cert.
Context {Reader : Type} `{!Untrusted Reader}.
Abbreviation P := (Parser Reader Error).

Definition parse_signed_data : P (Input * SignedData) :=
  '(data, tbs) ← read_partial (expect_tag_and_get_value Sequence);
  algorithm ← expect_tag_and_get_value Sequence;
  signature ← bit_string_with_no_unused_bits;
  mret (tbs, {| sd_data := data; sd_algorithm := algorithm; sd_signature := signature |}).

Definition parse_spki_value (input : Input) : result Error SubjectPublicKeyInfo :=
  read_all input BadDER (
    algorithm_id_value ← expect_tag_and_get_value Sequence;
    key_value ← bit_string_with_no_unused_bits;
    mret {| algorithm_id_value := algorithm_id_value; key_value := key_value |}).

Definition verify_signature (signature_alg : SignatureAlgorithm) (spki_value msg signature : Input) : result Error unit :=
  spki ← parse_spki_value spki_value;
  if negb (matches_algorithm_id_value signature_alg.(public_key_alg_id) spki.(algorithm_id_value))
  then Err UnsupportedSignatureAlgorithmForPublicKey
  else map_err (λ _, InvalidSignatureForPublicKey) (signature_alg.(verification_alg) spki.(key_value) msg signature).

(** The loop over the algorithms that match the one of the signed data. *)
Fixpoint verify_with (found_signature_alg_match : bool) (algorithms : list SignatureAlgorithm)
    (spki_value : Input) (signed_data : SignedData) : result Error unit :=
  match algorithms with
  | [] => Err (if found_signature_alg_match then UnsupportedSignatureAlgorithmForPublicKey
               else UnsupportedSignatureAlgorithm)
  | supported_alg :: algorithms =>
      match verify_signature supported_alg spki_value signed_data.(sd_data) signed_data.(sd_signature) with
      | Err UnsupportedSignatureAlgorithmForPublicKey => verify_with true algorithms spki_value signed_data
      | result => result
      end
  end.

Definition verify_signed_data (supported_algorithms : list SignatureAlgorithm) (spki_value : Input)
    (signed_data : SignedData) : result Error unit :=
  verify_with false
    (filter (λ alg, matches_algorithm_id_value alg.(signature_alg_id) signed_data.(sd_algorithm) = true) supported_algorithms)
    spki_value signed_data.

Definition version3 : P unit :=
  nested ContextSpecificConstructed0 BadDER (
    version ← small_nonnegative_integer;
    if negb (version =? 2) then fail UnsupportedCertVersion else mret ()).

Definition certificate_serial_number : P unit :=
  value ← positive_integer;
  if 20 <? Z.of_nat (length value.(big_endian_without_leading_zero)) then fail BadDER else mret ().

(** The last part of [remember_extension], for the field it has chosen. *)
Definition remember (fld : Cert → option Input) `{!Setter fld} (cert : Cert) (value : Input)
  : result Error (Cert * Understood) :=
  match fld cert with
  | Some _ => Err ExtensionValueInvalid
  | None =>
      sequence_value ← read_all value BadDER (expect_tag_and_get_value Sequence);
      Ok (cert <| fld := Some sequence_value |>, Yes)
  end.

Definition remember_extension (cert : Cert) (extn_id value : Input) : result Error (Cert * Understood) :=
  let ID_CE := [40 * 2 + 5; 29] in
  if negb (length extn_id =? length ID_CE + 1)%nat || negb (bool_decide (take 2 extn_id = ID_CE))
  then Ok (cert, No) else
  match last extn_id with
  | Some 15 => Ok (cert, Yes)
  | Some 17 => remember subject_alt_name cert value
  | Some 19 => remember basic_constraints cert value
  | Some 30 => remember name_constraints cert value
  | Some 37 => remember eku cert value
  | Some _ => Ok (cert, No)
  | None => Panic
  end.

(** The closure that reads one extension. *)
Definition extension (cert : Cert) : P Cert :=
  extn_id ← expect_tag_and_get_value OID;
  critical ← optional_boolean;
  extn_value ← expect_tag_and_get_value OctetString;
  '(cert, understood) ← lift (remember_extension cert extn_id extn_value);
  match understood with
  | No => if critical : bool then fail UnsupportedCriticalExtension else mret cert
  | Yes => mret cert
  end.

Definition parse_tbs (ee_or_ca : EndEntityOrCA Cert) (serial_number : P unit) (signed_data : SignedData) : P Cert :=
  version3 ;;
  serial_number ;;
  signature ← expect_tag_and_get_value Sequence;
  if negb (bool_decide (signature = signed_data.(sd_algorithm))) then fail SignatureAlgorithmMismatch else
  issuer ← expect_tag_and_get_value Sequence;
  validity ← expect_tag_and_get_value Sequence;
  subject ← expect_tag_and_get_value Sequence;
  spki ← expect_tag_and_get_value Sequence;
  let cert := {|
    ee_or_ca := ee_or_ca; signed_data := signed_data; issuer := issuer; validity := validity;
    subject := subject; spki := spki; basic_constraints := None; eku := None;
    name_constraints := None; subject_alt_name := None |} in
  nested_mut ContextSpecificConstructed3 BadDER (λ _,
    nested_of_mut Sequence Sequence BadDER extension cert).

Definition parse_cert_internal (cert_der : Input) (ee_or_ca : EndEntityOrCA Cert) (serial_number : P unit)
  : result Error Cert :=
  '(tbs, signed_data) ← read_all cert_der BadDER (nested Sequence BadDER parse_signed_data);
  read_all tbs BadDER (parse_tbs ee_or_ca serial_number signed_data).

Definition parse_cert (cert_der : Input) (ee_or_ca : EndEntityOrCA Cert) : result Error Cert :=
  parse_cert_internal cert_der ee_or_ca certificate_serial_number.

(** ** [trust_anchor_util.rs] *)

Definition skip_value (tag : Tag) : P unit := expect_tag_and_get_value tag ;; mret ().

Definition trust_anchor_from_cert (cert : Cert) : TrustAnchor :=
  {| ta_subject := cert.(subject); ta_spki := cert.(spki); ta_name_constraints := cert.(name_constraints) |}.

(** The result of reading the anchor is returned after the rest has been skipped. *)
Definition parse_cert_v1 (cert_der : Input) : result Error TrustAnchor :=
  read_all cert_der BadDER (
    nested Sequence BadDER (
      anchor ← attempt (
        nested Sequence BadDER (
          certificate_serial_number ;;
          skip_value Sequence ;;
          skip_value Sequence ;;
          skip_value Sequence ;;
          subject ← expect_tag_and_get_value Sequence;
          spki ← expect_tag_and_get_value Sequence;
          mret {| ta_subject := subject; ta_spki := spki; ta_name_constraints := None |}));
      skip_value Sequence ;;
      skip_value BitString ;;
      lift anchor)).

Definition cert_der_as_trust_anchor (cert_der : Input) : result Error TrustAnchor :=
  match parse_cert_internal cert_der EndEntity (skip_value Integer) with
  | Ok cert => Ok (trust_anchor_from_cert cert)
  | Err BadDER => map_err (λ _, BadDER) (parse_cert_v1 cert_der)
  | Err err => Err err
  | Panic => Panic
  end.
End cert.

(** ** Transport to every reader *)

Section transport.
Context {Reader : Type} `{!Untrusted Reader} `{!UntrustedLaws Reader}.

Lemma sim_parse_signed_data : sim parse_signed_data parse_signed_data.
Proof. unfold parse_signed_data. sim. Qed.
Hint Resolve sim_parse_signed_data : sim.

Lemma parse_spki_value_transport i : parse_spki_value (Reader := Reader) i = parse_spki_value (Reader := list Z) i.
Proof. unfold parse_spki_value. sim. Qed.

Lemma verify_signature_transport alg k m s :
  verify_signature (Reader := Reader) alg k m s = verify_signature (Reader := list Z) alg k m s.
Proof. unfold verify_signature. by rewrite parse_spki_value_transport. Qed.

Lemma verify_signed_data_transport algs k sd :
  verify_signed_data (Reader := Reader) algs k sd = verify_signed_data (Reader := list Z) algs k sd.
Proof.
  unfold verify_signed_data. generalize false. induction (filter _ algs) as [|alg l IH]; intros b; [done|].
  cbn [verify_with]. rewrite verify_signature_transport. destruct (verify_signature _ _ _ _) as [|[]|]; auto.
Qed.

Lemma sim_version3 : sim version3 version3.
Proof. unfold version3. sim. Qed.
Hint Resolve sim_version3 : sim.

Lemma sim_certificate_serial_number : sim certificate_serial_number certificate_serial_number.
Proof. unfold certificate_serial_number. sim. Qed.
Hint Resolve sim_certificate_serial_number : sim.

Lemma remember_extension_transport cert i v :
  remember_extension (Reader := Reader) cert i v = remember_extension (Reader := list Z) cert i v.
Proof.
  unfold remember_extension, remember.
  by rewrite (read_all_sim v BadDER (expect_tag_and_get_value Sequence) (expect_tag_and_get_value Sequence)) by sim.
Qed.

Lemma sim_extension cert : sim (extension cert) (extension cert).
Proof. unfold extension. sim. apply remember_extension_transport. Qed.
Hint Resolve sim_extension : sim.

Lemma sim_parse_tbs c (p : Parser Reader Error unit) q sd : sim p q → sim (parse_tbs c p sd) (parse_tbs c q sd).
Proof. intros Hp. unfold parse_tbs. sim. Qed.

Lemma parse_cert_transport der c : parse_cert (Reader := Reader) der c = parse_cert (Reader := list Z) der c.
Proof.
  unfold parse_cert, parse_cert_internal.
  rewrite (read_all_sim der BadDER _ (nested Sequence BadDER parse_signed_data)) by sim.
  destruct (read_all _ _ _) as [[tbs sd]|e|]; [|done..]. cbn -[read_all].
  apply read_all_sim, sim_parse_tbs, sim_certificate_serial_number.
Qed.
End transport.
