(* ===== verification/WebpkiName.v ===== *)
(** * Names in certificates

    [src/utils/webpki/src/name.rs]: the syntax of DNS names, matching of the names a
    certificate presents against reference names, and name constraints.  A function that
    returns early from the middle of a loop is a parser that fails with the result
    ([returned]); the readers it compares are a pair. *)
From S2P Require Import Prelude Errors Frame Untrusted RingIo WebpkiDer WebpkiCert.

Inductive AllowWildcards := WildcardsNo | WildcardsYes.
Inductive IDRole := ReferenceID | PresentedID | NameConstraint.
Inductive Subtrees := PermittedSubtrees | ExcludedSubtrees.

#[export] Instance AllowWildcards_eq_dec : EqDecision AllowWildcards.
Proof. solve_decision. Defined.
#[export] Instance IDRole_eq_dec : EqDecision IDRole.
Proof. solve_decision. Defined.

(** A panic of the closure of [iterate_names] is [Stop Panic]. *)
Inductive NameIteration := KeepGoing | Stop (x : result Error unit).

Inductive GeneralName :=
| DNSName (name : Input)
| DirectoryName (name : Input)
| IPAddress (address : Input)
| Unsupported (tag : Z).

Definition ascii_lower (b : Z) : Z := if (65 <=? b) && (b <=? 90) then b + 97 - 65 else b.

(** ** Valid DNS names *)

(** The variables of the loop of [is_valid_dns_id]. *)
Record LabelState := mkLabelState {
  dot_count : Z;
  label_length : Z;
  label_is_all_numeric : bool;
  label_ends_with_hyphen : bool;
  is_first_byte : bool
}.

Definition MAX_LABEL_LENGTH : Z := 63.

(** The end of the arms for bytes of a label. *)
Definition label_byte (st : LabelState) (all_numeric hyphen : bool) : option LabelState :=
  let label_length := st.(label_length) + 1 in
  if MAX_LABEL_LENGTH <? label_length then None
  else Some (mkLabelState st.(dot_count) label_length all_numeric hyphen false).

(** One round of the loop, from the byte read to the test for the end of the input;
    [None] is [return false]. *)
Definition dns_byte (id_role : IDRole) (st : LabelState) (b : Z) : option LabelState :=
  if b =? 45 then
    if st.(label_length) =? 0 then None else label_byte st false true
  else if (48 <=? b) && (b <=? 57) then
    label_byte st (if st.(label_length) =? 0 then true else st.(label_is_all_numeric)) false
  else if ((97 <=? b) && (b <=? 122)) || ((65 <=? b) && (b <=? 90)) || (b =? 95) then
    label_byte st false false
  else if b =? 46 then
    if (st.(label_length) =? 0) && (negb (bool_decide (id_role = NameConstraint)) || negb st.(is_first_byte)) then None
    else if st.(label_ends_with_hyphen) then None
    else Some (mkLabelState (st.(dot_count) + 1) 0 st.(label_is_all_numeric) st.(label_ends_with_hyphen) false)
  else None.

(** The tests after the loop. *)
Definition dns_end (id_role : IDRole) (is_wildcard : bool) (st : LabelState) : bool :=
  if (st.(label_length) =? 0) && negb (bool_decide (id_role = ReferenceID)) then false
  else if st.(label_ends_with_hyphen) then false
  else if st.(label_is_all_numeric) then false
  else if is_wildcard then
    let label_count := if st.(label_length) =? 0 then st.(dot_count) else st.(dot_count) + 1 in
    negb (label_count <? 3)
  else true.

Section names.
Context {Reader : Type} `{!Untrusted Reader}.
Abbreviation P := (Parser Reader Error).

Definition dns_round (id_role : IDRole) (st : LabelState) : Parser Reader bool (LabelState + LabelState) :=
  b ← pmap_err (λ _, false) read_byte;
  match dns_byte id_role st b with
  | None => fail false
  | Some st =>
      e ← asks at_end;
      mret (if e : bool then inr st else inl st)
  end.

Definition is_valid_dns_id (hostname : Input) (id_role : IDRole) (allow_wildcards : AllowWildcards)
  : result Error bool :=
  if 253 <? Z.of_nat (length hostname) then Ok false else
  returned ((
    e ← asks at_end;
    if bool_decide (id_role = NameConstraint) && e then fail true else
    p ← asks (peek 42);
    let is_wildcard := bool_decide (allow_wildcards = WildcardsYes) && p in
    dot_count ←
      (if is_wildcard then
         b ← pmap_err (λ _, false) read_byte;
         (if b =? 42 then mret () else fail false) ;;
         b ← pmap_err (λ _, false) read_byte;
         if b =? 46 then mret 1 else fail false
       else mret 0);
    st ← loop (S (length hostname)) (dns_round id_role) (mkLabelState dot_count 0 false false (negb is_wildcard));
    mret (dns_end id_role is_wildcard st)) (reader_new hostname)).

Definition is_valid_reference_dns_id (hostname : Input) : result Error bool :=
  is_valid_dns_id hostname ReferenceID WildcardsNo.

(** ** Matching *)

(** The readers are those of the presented and of the reference name. *)
Abbreviation PP := (Parser (Reader * Reader) (option bool)).

(** The [match] on the role before the comparison. *)
Definition skip_prefix (presented_len reference_len : nat) (reference_dns_id_role : IDRole) : PP unit :=
  match reference_dns_id_role with
  | ReferenceID => mret ()
  | NameConstraint =>
      if (reference_len <? presented_len)%nat then
        if (reference_len =? 0)%nat then fail (Some true) else
        p ← on_second (asks (peek 46));
        if p : bool then on_first (punwrap (skip (presented_len - reference_len)))
        else
          on_first (punwrap (skip (presented_len - reference_len - 1))) ;;
          b ← on_first (pmap_err (λ _, Some false) read_byte);
          if b =? 46 then mret () else fail (Some false)
      else mret ()
  | PresentedID => abort
  end.

(** A wildcard label matches the first label of the reference name. *)
Definition wildcard_round (_ : unit) : PP (unit + unit) :=
  on_second (pmap_err (λ _, Some false) read_byte) ;;
  d ← on_second (asks (peek 46));
  mret (if d : bool then inr () else inl ()).

Definition skip_wildcard (reference_len : nat) : PP unit :=
  p ← on_first (asks (peek 42));
  if p : bool then
    on_first (punwrap (skip 1)) ;;
    loop (S reference_len) wildcard_round ()
  else mret ().

Definition compare_round (_ : unit) : PP (unit + unit) :=
  p ← on_first (pmap_err (λ _, Some false) read_byte);
  r ← on_second (pmap_err (λ _, Some false) read_byte);
  if negb (ascii_lower p =? ascii_lower r) then fail (Some false) else
  e ← on_first (asks at_end);
  if e : bool then
    if p =? 46 then fail None else mret (inr ())
  else mret (inl ()).

(** A relative presented name matches an absolute reference name. *)
Definition skip_last_dot (reference_dns_id_role : IDRole) : PP unit :=
  e ← on_second (asks at_end);
  if e : bool then mret () else
  (if bool_decide (reference_dns_id_role = NameConstraint) then mret () else
   b ← on_second (pmap_err (λ _, Some false) read_byte);
   if b =? 46 then mret () else fail (Some false)) ;;
  e ← on_second (asks at_end);
  if e : bool then mret () else fail (Some false).

Definition presented_dns_id_matches_reference_dns_id_internal (presented_dns_id : Input)
    (reference_dns_id_role : IDRole) (reference_dns_id : Input) : result Error (option bool) :=
  v ← is_valid_dns_id presented_dns_id PresentedID WildcardsYes;
  if negb v then Ok None else
  v ← is_valid_dns_id reference_dns_id reference_dns_id_role WildcardsNo;
  if negb v then Ok None else
  returned ((
    skip_prefix (length presented_dns_id) (length reference_dns_id) reference_dns_id_role ;;
    skip_wildcard (length reference_dns_id) ;;
    loop (S (length presented_dns_id)) compare_round () ;;
    skip_last_dot reference_dns_id_role ;;
    e1 ← on_first (asks at_end);
    e2 ← on_second (asks at_end);
    if e1 && e2 then mret (Some true) else abort)
    (reader_new presented_dns_id, reader_new reference_dns_id)).

Definition presented_dns_id_matches_reference_dns_id (presented_dns_id reference_dns_id : Input) : result Error (option bool) :=
  presented_dns_id_matches_reference_dns_id_internal presented_dns_id ReferenceID reference_dns_id.

Definition presented_dns_id_matches_dns_id_constraint (presented_dns_id reference_dns_id : Input) : result Error (option bool) :=
  presented_dns_id_matches_reference_dns_id_internal presented_dns_id NameConstraint reference_dns_id.

Definition presented_directory_name_matches_constraint (name constraint : Input) (subtrees : Subtrees) : result Error bool :=
  match subtrees with
  | PermittedSubtrees => Ok (bool_decide (name = constraint))
  | ExcludedSubtrees => Ok true
  end.

(** The loop over the bytes of the name, the address and the mask. *)
Definition masked_round (_ : unit) : Parser (Reader * Reader * Reader) bool (unit + bool) :=
  name_byte ← on_first (on_first (punwrap read_byte));
  constraint_address_byte ← on_first (on_second (punwrap read_byte));
  constraint_mask_byte ← on_second (punwrap read_byte);
  if negb (Z.land (Z.lxor name_byte constraint_address_byte) constraint_mask_byte =? 0) then fail false else
  e ← on_first (on_first (asks at_end));
  mret (if e : bool then inr true else inl ()).

Definition presented_ip_address_matches_constraint (name constraint : Input) : result Error bool :=
  if negb (length name =? 4)%nat && negb (length name =? 16)%nat then Err BadDER
  else if negb (length constraint =? 8)%nat && negb (length constraint =? 32)%nat then Err BadDER
  else if negb (length name * 2 =? length constraint)%nat then Ok false else
  '(constraint_address, constraint_mask) ←
    read_all constraint BadDER (
      address ← punwrap (read_bytes (length constraint / 2)%nat);
      mask ← punwrap (read_bytes (length constraint / 2)%nat);
      mret (address, mask));
  returned (loop (S (length name)) masked_round () (reader_new name, reader_new constraint_address, reader_new constraint_mask)).

(** ** General names and name constraints *)

Definition general_name : P GeneralName :=
  let OTHER_NAME_TAG := Z.lor CONTEXT_SPECIFIC CONSTRUCTED in
  let RFC822_NAME_TAG := Z.lor CONTEXT_SPECIFIC 1 in
  let DNS_NAME_TAG := Z.lor CONTEXT_SPECIFIC 2 in
  let X400_ADDRESS_TAG := Z.lor (Z.lor CONTEXT_SPECIFIC CONSTRUCTED) 3 in
  let DIRECTORY_NAME_TAG := Z.lor (Z.lor CONTEXT_SPECIFIC CONSTRUCTED) 4 in
  let EDI_PARTY_NAME_TAG := Z.lor (Z.lor CONTEXT_SPECIFIC CONSTRUCTED) 5 in
  let UNIFORM_RESOURCE_IDENTIFIER_TAG := Z.lor CONTEXT_SPECIFIC 6 in
  let IP_ADDRESS_TAG := Z.lor CONTEXT_SPECIFIC 7 in
  let REGISTERED_ID_TAG := Z.lor CONTEXT_SPECIFIC 8 in
  '(tag, value) ← read_tag_and_get_value;
  if tag =? DNS_NAME_TAG then mret (DNSName value)
  else if tag =? DIRECTORY_NAME_TAG then mret (DirectoryName value)
  else if tag =? IP_ADDRESS_TAG then mret (IPAddress value)
  else if (tag =? OTHER_NAME_TAG) || (tag =? RFC822_NAME_TAG) || (tag =? X400_ADDRESS_TAG)
       || (tag =? EDI_PARTY_NAME_TAG) || (tag =? UNIFORM_RESOURCE_IDENTIFIER_TAG) || (tag =? REGISTERED_ID_TAG)
  then mret (Unsupported (Z.land tag (Z.lxor 255 (Z.lor CONTEXT_SPECIFIC CONSTRUCTED))))
  else fail BadDER.

(** The loop over the subject alternative names fails with what it returns early. *)
Definition names_round (f : GeneralName → NameIteration) (_ : unit) : Parser Reader (result Error unit) (unit + unit) :=
  e ← asks at_end;
  if e : bool then mret (inr ()) else
  name ← pmap_err (λ e, Err e) general_name;
  match f name with
  | Stop result => fail result
  | KeepGoing => mret (inl ())
  end.

Definition iterate_names (subject : Input) (subject_alt_name : option Input)
    (result_if_never_stopped_early : result Error unit) (f : GeneralName → NameIteration) : result Error unit :=
  let rest :=
    match f (DirectoryName subject) with
    | Stop result => result
    | KeepGoing => result_if_never_stopped_early
    end in
  match subject_alt_name with
  | Some subject_alt_name =>
      match (loop (S (length subject_alt_name)) (names_round f) () (reader_new subject_alt_name)).2 with
      | Ok _ => rest
      | Err result => result
      | Panic => Panic
      end
  | None => rest
  end.

Definition verify_cert_dns_name (cert : Cert) (dns_name : Input) : result Error unit :=
  iterate_names cert.(subject) cert.(subject_alt_name) (Err CertNotValidForName) (λ name,
    match name with
    | DNSName presented_id =>
        match presented_dns_id_matches_reference_dns_id presented_id dns_name with
        | Ok (Some true) => Stop (Ok ())
        | Ok (Some false) => KeepGoing
        | Ok None => Stop (Err BadDER)
        | Err e => Stop (Err e)
        | Panic => Stop Panic
        end
    | _ => KeepGoing
    end).

Definition general_subtree : P GeneralName :=
  general_subtree ← expect_tag_and_get_value Sequence;
  lift (read_all general_subtree BadDER general_name).

(** Does a name match the base of a constraint? *)
Definition name_matches (subtrees : Subtrees) (name base : GeneralName) : result Error bool :=
  match name, base with
  | DNSName name, DNSName base =>
      o ← presented_dns_id_matches_dns_id_constraint name base;
      some_or o BadDER
  | DirectoryName name, DirectoryName base => presented_directory_name_matches_constraint name base subtrees
  | IPAddress name, IPAddress base => presented_ip_address_matches_constraint name base
  | Unsupported name_tag, Unsupported base_tag =>
      if name_tag =? base_tag then Err NameConstraintViolation else Ok false
  | _, _ => Ok false
  end.

(** The loop over the constraints; its state is whether there has been a permitted match
    and a permitted mismatch. *)
Definition constraints_round (name : GeneralName) (subtrees : Subtrees) (st : bool * bool)
  : Parser Reader NameIteration (bool * bool + bool * bool) :=
  base ← pmap_err (λ err, Stop (Err err)) general_subtree;
  st ←
    match subtrees, name_matches subtrees name base with
    | PermittedSubtrees, Ok true => mret (true, st.2)
    | PermittedSubtrees, Ok false => mret (st.1, true)
    | ExcludedSubtrees, Ok true => fail (Stop (Err NameConstraintViolation))
    | ExcludedSubtrees, Ok false => mret st
    | _, Err err => fail (Stop (Err err))
    | _, Panic => abort
    end;
  e ← asks at_end;
  mret (if e : bool then inr st else inl st).

Definition check_presented_id_conforms_to_constraints_in_subtree (name : GeneralName) (subtrees : Subtrees)
    (constraints : option Input) : NameIteration :=
  match constraints with
  | None => KeepGoing
  | Some constraints =>
      match (loop (S (length constraints)) (constraints_round name subtrees) (false, false) (reader_new constraints)).2 with
      | Ok (has_permitted_subtrees_match, has_permitted_subtrees_mismatch) =>
          if has_permitted_subtrees_mismatch && negb has_permitted_subtrees_match
          then Stop (Err NameConstraintViolation) else KeepGoing
      | Err iteration => iteration
      | Panic => Stop Panic
      end
  end.

Definition check_presented_id_conforms_to_constraints (name : GeneralName)
    (permitted_subtrees excluded_subtrees : option Input) : NameIteration :=
  match check_presented_id_conforms_to_constraints_in_subtree name PermittedSubtrees permitted_subtrees with
  | Stop x => Stop x
  | KeepGoing => check_presented_id_conforms_to_constraints_in_subtree name ExcludedSubtrees excluded_subtrees
  end.

Definition parse_subtrees (subtrees_tag : Tag) : P (option Input) :=
  p ← asks (peek (tag_byte subtrees_tag));
  if negb p then mret None else
  subtrees ← nested subtrees_tag BadDER (expect_tag_and_get_value Sequence);
  mret (Some subtrees).

(** The loop from the certificate down to the end entity. *)
Fixpoint check_names (f : GeneralName → NameIteration) (child : Cert) : result Error unit :=
  iterate_names child.(subject) child.(subject_alt_name) (Ok ()) f ;;
  match child with
  | mkCert (CA child_cert) _ _ _ _ _ _ _ _ _ => check_names f child_cert
  | mkCert EndEntity _ _ _ _ _ _ _ _ _ => Ok ()
  end.

(** [check_name_constraints] with a reader; without one it is [Ok ()]. *)
Definition check_name_constraints (subordinate_certs : Cert) : P unit :=
  permitted_subtrees ← parse_subtrees ContextSpecificConstructed0;
  excluded_subtrees ← parse_subtrees ContextSpecificConstructed1;
  lift (check_names (λ name, check_presented_id_conforms_to_constraints name permitted_subtrees excluded_subtrees)
          subordinate_certs).
End names.

(** ** Transport to every reader *)

Section transport.
Context {Reader : Type} `{!Untrusted Reader} `{!UntrustedLaws Reader}.
Abbreviation sim2 := (sim_rel (both reads reads)).

Lemma sim_dns_round role st : sim (dns_round role st) (dns_round role st).
Proof. unfold dns_round. sim. Qed.
Hint Resolve sim_dns_round : sim.

Lemma is_valid_dns_id_transport i role w :
  is_valid_dns_id (Reader := Reader) i role w = is_valid_dns_id (Reader := list Z) i role w.
Proof.
  unfold is_valid_dns_id. case_match; [done|]. apply (returned_sim reads); [sim|apply reads_new].
Qed.

Lemma sim_skip_prefix p r role : sim2 (skip_prefix p r role) (skip_prefix p r role).
Proof. unfold skip_prefix. sim. Qed.

Lemma sim_skip_wildcard r : sim2 (skip_wildcard r) (skip_wildcard r).
Proof. unfold skip_wildcard, wildcard_round. sim. Qed.

Lemma sim_compare_round u : sim2 (compare_round u) (compare_round u).
Proof. unfold compare_round. sim. Qed.

Lemma sim_skip_last_dot role : sim2 (skip_last_dot role) (skip_last_dot role).
Proof. unfold skip_last_dot. sim. Qed.
Hint Resolve sim_skip_prefix sim_skip_wildcard sim_compare_round sim_skip_last_dot : sim.

Lemma matches_internal_transport p role r :
  presented_dns_id_matches_reference_dns_id_internal (Reader := Reader) p role r
  = presented_dns_id_matches_reference_dns_id_internal (Reader := list Z) p role r.
Proof.
  unfold presented_dns_id_matches_reference_dns_id_internal. rewrite !is_valid_dns_id_transport.
  destruct (is_valid_dns_id p _ _) as [[]|e|]; [|done..]. cbn [mbind result_bind negb].
  destruct (is_valid_dns_id r _ _) as [[]|e|]; [|done..]. cbn [mbind result_bind negb].
  apply (returned_sim (both reads reads)); [sim|split; apply reads_new].
Qed.

Lemma masked_loop_transport n a b c :
  returned (E := Error) (loop n masked_round () (reader_new a, reader_new b, reader_new c) : Reader * Reader * Reader * _)
  = returned (loop n masked_round () (reader_new a, reader_new b, reader_new c) : list Z * list Z * list Z * _).
Proof.
  apply (returned_sim (both (both reads reads) reads)); [unfold masked_round; sim|].
  split; [split|]; apply reads_new.
Qed.

Lemma ip_transport n c :
  presented_ip_address_matches_constraint (Reader := Reader) n c
  = presented_ip_address_matches_constraint (Reader := list Z) n c.
Proof.
  unfold presented_ip_address_matches_constraint. repeat (case_match; [done|]).
  rewrite (read_all_sim c BadDER _
    (address ← punwrap (read_bytes (length c / 2)%nat); mask ← punwrap (read_bytes (length c / 2)%nat); mret (address, mask)))
    by sim.
  destruct (read_all _ _ _) as [[a m]|e|]; [|done..]. apply masked_loop_transport.
Qed.

Lemma sim_general_name : sim general_name general_name.
Proof. unfold general_name. sim. Qed.
Hint Resolve sim_general_name : sim.

Lemma iterate_names_transport s o x f g :
  (∀ n, f n = g n) → iterate_names (Reader := Reader) s o x f = iterate_names (Reader := list Z) s o x g.
Proof.
  intros Hfg. unfold iterate_names. rewrite Hfg. destruct o as [i|]; [|done].
  assert (∀ k, sim (loop k (names_round f) ()) (loop k (names_round g) ())) as Hsim.
  { intros k. apply sim_loop. intros []. unfold names_round. apply sim_bind; [apply sim_at_end|]. intros [|]; [apply sim_ret|].
    apply sim_bind; [apply sim_pmap_err, sim_general_name|]. intros n. rewrite Hfg. sim. }
  specialize (Hsim (S (length i)) _ _ (reads_new i)).
  destruct (loop _ _ _ (reader_new (Reader := Reader) i)) as [r' [a|e|]], (loop _ _ _ _) as [l [a'|e'|]]; naive_solver.
Qed.

Lemma name_matches_transport t n b : name_matches (Reader := Reader) t n b = name_matches (Reader := list Z) t n b.
Proof.
  unfold name_matches, presented_dns_id_matches_dns_id_constraint.
  destruct n, b; rewrite ?matches_internal_transport, ?ip_transport; done.
Qed.

Lemma sim_constraints_loop k n t :
  sim (loop k (constraints_round n t) (false, false)) (loop k (constraints_round n t) (false, false)).
Proof.
  apply sim_loop. intros st. unfold constraints_round, general_subtree.
  apply sim_bind; [sim|]. intros b.
  destruct t; rewrite name_matches_transport; destruct (name_matches (Reader := list Z) _ n b) as [[]|e|]; sim.
Qed.

Lemma conforms_transport n p e :
  check_presented_id_conforms_to_constraints (Reader := Reader) n p e
  = check_presented_id_conforms_to_constraints (Reader := list Z) n p e.
Proof.
  assert (∀ t o, check_presented_id_conforms_to_constraints_in_subtree (Reader := Reader) n t o
    = check_presented_id_conforms_to_constraints_in_subtree (Reader := list Z) n t o) as Ht.
  { intros t [i|]; [|done]. unfold check_presented_id_conforms_to_constraints_in_subtree.
    pose proof (sim_constraints_loop (S (length i)) n t _ _ (reads_new i)) as Hsim.
    destruct (loop _ _ _ (reader_new (Reader := Reader) i)) as [r' [a|x|]], (loop _ _ _ _) as [l [a'|x'|]]; naive_solver. }
  unfold check_presented_id_conforms_to_constraints. by rewrite !Ht.
Qed.

Lemma sim_check_name_constraints c : sim (check_name_constraints c) (check_name_constraints c).
Proof.
  unfold check_name_constraints, parse_subtrees. sim. rename a into p, a0 into e.
  revert c. fix IH 1. intros [[|child] sd iss v su sp bc ek nc san]; cbn [check_names];
    rewrite (iterate_names_transport _ _ _ _ _ (λ n, conforms_transport n p e)); [done|].
  by rewrite IH.
Qed.

Lemma verify_cert_dns_name_transport c n :
  verify_cert_dns_name (Reader := Reader) c n = verify_cert_dns_name (Reader := list Z) c n.
Proof.
  unfold verify_cert_dns_name. apply iterate_names_transport. intros []; try done.
  unfold presented_dns_id_matches_reference_dns_id. by rewrite matches_internal_transport.
Qed.
End transport.
#[export] Hint Resolve sim_check_name_constraints : sim.
