(* ===== verification/WebpkiVerify.v ===== *)
(** * Building certificate chains

    [src/utils/webpki/src/verify_cert.rs] and the public interface of [webpki.rs].
    [build_chain] searches depth first for a chain of issuers from a certificate to a
    trust anchor. *)
From S2P Require Import Prelude Errors Frame Untrusted RingIo WebpkiDer WebpkiCert WebpkiName.

Inductive UsedAsCA := UsedAsCA_Yes | UsedAsCA_No.

Definition used_as_ca (ee_or_ca : EndEntityOrCA Cert) : UsedAsCA :=
  match ee_or_ca with EndEntity => UsedAsCA_No | CA _ => UsedAsCA_Yes end.

(** A [KeyPurposeId] is the bytes of its object identifier. *)
Definition EKU_SERVER_AUTH : Input := [40 * 1 + 3; 6; 1; 5; 5; 7; 3; 1].
Definition EKU_CLIENT_AUTH : Input := [40 * 1 + 3; 6; 1; 5; 5; 7; 3; 2].
Definition EKU_OCSP_SIGNING : Input := [40 * 1 + 3; 6; 1; 5; 5; 7; 3; 9].

Definition MAX_SUB_CA_COUNT : Z := 6.

(** The [match] at the end of [check_basic_constraints]. *)
Definition basic_constraints_result (used_as_ca : UsedAsCA) (is_ca : bool) (path_len_constraint : option Z)
    (sub_ca_count : Z) : result Error unit :=
  match used_as_ca, is_ca, path_len_constraint with
  | UsedAsCA_No, true, _ => Err CAUsedAsEndEntity
  | UsedAsCA_Yes, false, _ => Err EndEntityUsedAsCA
  | UsedAsCA_Yes, true, Some len => if len <? sub_ca_count then Err PathLenConstraintViolated else Ok ()
  | _, _, _ => Ok ()
  end.

(** An error is not fatal: the next value is tried. *)
Fixpoint loop_while_non_fatal_error {V} (values : list V) (f : V → result Error unit) : result Error unit :=
  match values with
  | [] => Err UnknownIssuer
  | v :: values =>
      match f v with
      | Ok _ => Ok ()
      | Err _ => loop_while_non_fatal_error values f
      | Panic => Panic
      end
  end.

(** The loop that prevents loops: does the chain have the key and the subject already? *)
Fixpoint in_chain (potential_issuer prev : Cert) : bool :=
  if bool_decide (potential_issuer.(spki) = prev.(spki)) && bool_decide (potential_issuer.(subject) = prev.(subject))
  then true else
  match prev with
  | mkCert EndEntity _ _ _ _ _ _ _ _ _ => false
  | mkCert (CA child_cert) _ _ _ _ _ _ _ _ _ => in_chain potential_issuer child_cert
  end.

Section verify.
Context {Reader : Type} `{!Untrusted Reader}.
Abbreviation P := (Parser Reader Error).

Definition check_validity (time : Z) : P unit :=
  not_before ← time_choice;
  not_after ← time_choice;
  if not_after <? not_before then fail InvalidCertValidity
  else if time <? not_before then fail CertNotValidYet
  else if not_after <? time then fail CertExpired
  else mret ().

(** With a reader; without one [is_ca] is [false] and there is no constraint. *)
Definition check_basic_constraints (used_as_ca : UsedAsCA) (sub_ca_count : Z) : P unit :=
  is_ca ← optional_boolean;
  e ← asks at_end;
  path_len_constraint ←
    (if negb e then value ← small_nonnegative_integer; mret (Some value) else mret None);
  lift (basic_constraints_result used_as_ca is_ca path_len_constraint sub_ca_count).

Definition eku_round (required_eku_if_present : Input) (_ : unit) : P (unit + unit) :=
  value ← expect_tag_and_get_value OID;
  if bool_decide (value = required_eku_if_present) then total skip_to_end ;; mret (inr ())
  else
    e ← asks at_end;
    if e : bool then fail RequiredEKUNotFound else mret (inl ()).

(** With a reader of at most [rounds] bytes. *)
Definition check_eku (rounds : nat) (required_eku_if_present : Input) : P unit :=
  loop (S rounds) (eku_round required_eku_if_present) ().

Definition check_no_eku (required_eku_if_present : Input) : result Error unit :=
  if bool_decide (required_eku_if_present = EKU_OCSP_SIGNING) then Err RequiredEKUNotFound else Ok ().

Definition check_issuer_independent_properties (cert : Cert) (time : Z) (used_as_ca : UsedAsCA)
    (sub_ca_count : Z) (required_eku_if_present : Input) : result Error unit :=
  read_all cert.(validity) BadDER (check_validity time) ;;
  read_all_optional cert.(basic_constraints) BadDER (check_basic_constraints used_as_ca sub_ca_count)
    (basic_constraints_result used_as_ca false None sub_ca_count) ;;
  read_all_optional cert.(eku) BadDER
    (check_eku (from_option length O cert.(eku)) required_eku_if_present) (check_no_eku required_eku_if_present).

Fixpoint check_signatures (supported_sig_algs : list SignatureAlgorithm) (cert : Cert) (spki_value : Input)
  : result Error unit :=
  verify_signed_data supported_sig_algs spki_value cert.(signed_data) ;;
  match cert with
  | mkCert (CA child_cert) _ _ _ _ _ _ _ _ _ => check_signatures supported_sig_algs child_cert cert.(spki)
  | mkCert EndEntity _ _ _ _ _ _ _ _ _ => Ok ()
  end.

(** The closure over the trust anchors. *)
Definition check_trust_anchor (supported_sig_algs : list SignatureAlgorithm) (cert : Cert) (trust_anchor : TrustAnchor)
  : result Error unit :=
  if negb (bool_decide (cert.(issuer) = trust_anchor.(ta_subject))) then Err UnknownIssuer else
  read_all_optional trust_anchor.(ta_name_constraints) BadDER (check_name_constraints cert) (Ok ()) ;;
  check_signatures supported_sig_algs cert trust_anchor.(ta_spki).

(** The closure over the intermediate certificates up to the recursive call, with the
    certificate it is called with. *)
Definition potential_issuer (cert : Cert) (cert_der : Input) : result Error Cert :=
  potential_issuer ← parse_cert cert_der (CA cert);
  if negb (bool_decide (potential_issuer.(subject) = cert.(issuer))) then Err UnknownIssuer
  else if in_chain potential_issuer cert then Err UnknownIssuer else
  read_all_optional potential_issuer.(name_constraints) BadDER (check_name_constraints cert) (Ok ()) ;;
  Ok potential_issuer.

(** [depth] bounds the recursion: a chain has at most seven certificates, and the
    call for the eighth returns before it recurs. *)
Fixpoint build_chain (depth : nat) (required_eku_if_present : Input) (supported_sig_algs : list SignatureAlgorithm)
    (trust_anchors : list TrustAnchor) (intermediate_certs : list Input) (cert : Cert) (time sub_ca_count : Z)
  : result Error unit :=
  match depth with
  | O => Panic
  | S depth =>
      let used_as_ca := used_as_ca cert.(ee_or_ca) in
      check_issuer_independent_properties cert time used_as_ca sub_ca_count required_eku_if_present ;;
      match used_as_ca with
      | UsedAsCA_Yes => if MAX_SUB_CA_COUNT <=? sub_ca_count then Err UnknownIssuer else Ok ()
      | UsedAsCA_No => if sub_ca_count =? 0 then Ok () else Panic
      end ;;
      match loop_while_non_fatal_error trust_anchors (check_trust_anchor supported_sig_algs cert) with
      | Ok _ => Ok ()
      | Panic => Panic
      | Err _ =>
          loop_while_non_fatal_error intermediate_certs (λ cert_der,
            potential_issuer ← potential_issuer cert cert_der;
            let next_sub_ca_count :=
              match used_as_ca with UsedAsCA_No => sub_ca_count | UsedAsCA_Yes => sub_ca_count + 1 end in
            build_chain depth required_eku_if_present supported_sig_algs trust_anchors intermediate_certs
              potential_issuer time next_sub_ca_count)
      end
  end.

Definition CHAIN_DEPTH : nat := 8.

(** ** [EndEntityCert] *)

Definition from (cert_der : Input) : result Error Cert := parse_cert cert_der EndEntity.

Definition verify_is_valid_tls_server_cert (self : Cert) (supported_sig_algs : list SignatureAlgorithm)
    (trust_anchors : list TrustAnchor) (intermediate_certs : list Input) (time : Z) : result Error unit :=
  build_chain CHAIN_DEPTH EKU_SERVER_AUTH supported_sig_algs trust_anchors intermediate_certs self time 0.

Definition verify_is_valid_tls_client_cert (self : Cert) (supported_sig_algs : list SignatureAlgorithm)
    (trust_anchors : list TrustAnchor) (intermediate_certs : list Input) (time : Z) : result Error unit :=
  build_chain CHAIN_DEPTH EKU_CLIENT_AUTH supported_sig_algs trust_anchors intermediate_certs self time 0.

Definition verify_is_valid_for_dns_name (self : Cert) (dns_name : Input) : result Error unit :=
  verify_cert_dns_name self dns_name.

(** [filter] keeps the names in order; a name that does not match is left out whatever the error. *)
Fixpoint valid_names (self : Cert) (dns_names : list Input) : result Error (list Input) :=
  match dns_names with
  | [] => Ok []
  | n :: dns_names =>
      match verify_is_valid_for_dns_name self n with
      | Ok () => names ← valid_names self dns_names; Ok (n :: names)
      | Err _ => valid_names self dns_names
      | Panic => Panic
      end
  end.

Definition verify_is_valid_for_at_least_one_dns_name (self : Cert) (dns_names : list Input)
  : result Error (list Input) :=
  result ← valid_names self dns_names;
  match result with
  | [] => Err CertNotValidForName
  | _ => Ok result
  end.

Definition ee_verify_signature (self : Cert) (signature_alg : SignatureAlgorithm) (msg signature : Input)
  : result Error unit :=
  verify_signature signature_alg self.(spki) msg signature.

(** [DNSNameRef] is a byte string that passed this check. *)
Definition try_from_ascii (dns_name : Input) : result unit Input :=
  valid ← map_err (λ _, ()) (is_valid_reference_dns_id dns_name);
  if valid : bool then Ok dns_name else Err ().
End verify.

(** ** Transport to every reader *)

Section transport.
Context {Reader : Type} `{!Untrusted Reader} `{!UntrustedLaws Reader}.

Lemma sim_check_validity t : sim (check_validity t) (check_validity t).
Proof. unfold check_validity. sim. Qed.

Lemma sim_check_basic_constraints u n : sim (check_basic_constraints u n) (check_basic_constraints u n).
Proof. unfold check_basic_constraints. sim. Qed.

Lemma sim_check_eku k e : sim (check_eku k e) (check_eku k e).
Proof. unfold check_eku, eku_round. sim. Qed.

Lemma check_issuer_independent_transport c t u n e :
  check_issuer_independent_properties (Reader := Reader) c t u n e
  = check_issuer_independent_properties (Reader := list Z) c t u n e.
Proof.
  unfold check_issuer_independent_properties. rewrite (read_all_sim _ _ _ _ (sim_check_validity t)).
  rewrite (read_all_optional_sim _ _ _ _ _ (sim_check_basic_constraints u n)).
  by rewrite (read_all_optional_sim _ _ _ _ _ (sim_check_eku _ e)).
Qed.

Lemma check_signatures_transport algs c k :
  check_signatures (Reader := Reader) algs c k = check_signatures (Reader := list Z) algs c k.
Proof.
  revert c k. fix IH 1. intros [[|child] sd iss v su sp bc ek nc san] k; cbn [check_signatures];
    rewrite verify_signed_data_transport; [done|]. by rewrite IH.
Qed.

Lemma check_trust_anchor_transport algs c ta :
  check_trust_anchor (Reader := Reader) algs c ta = check_trust_anchor (Reader := list Z) algs c ta.
Proof.
  unfold check_trust_anchor. rewrite check_signatures_transport.
  by rewrite (read_all_optional_sim _ _ _ _ _ (sim_check_name_constraints c)).
Qed.

Lemma potential_issuer_transport c der :
  potential_issuer (Reader := Reader) c der = potential_issuer (Reader := list Z) c der.
Proof.
  unfold potential_issuer. rewrite parse_cert_transport. destruct (parse_cert der _) as [i|e|]; [|done..].
  cbn [mbind result_bind]. by rewrite (read_all_optional_sim _ _ _ _ _ (sim_check_name_constraints c)).
Qed.

Lemma loop_while_ext {V} (l : list V) f g :
  (∀ v, f v = g v) → loop_while_non_fatal_error l f = loop_while_non_fatal_error l g.
Proof. intros Hfg. induction l as [|v l IH]; [done|]. cbn. by rewrite Hfg, IH. Qed.

Lemma build_chain_transport d e algs tas ics c t n :
  build_chain (Reader := Reader) d e algs tas ics c t n = build_chain (Reader := list Z) d e algs tas ics c t n.
Proof.
  revert c n. induction d as [|d IH]; intros c n; [done|]. cbn [build_chain].
  rewrite check_issuer_independent_transport.
  rewrite (loop_while_ext tas _ _ (check_trust_anchor_transport algs c)).
  destruct (check_issuer_independent_properties _ _ _ _ _) as [[]|x|]; [|done..]. cbn [mbind result_bind].
  destruct (loop_while_non_fatal_error tas _) as [[]|x|]; [done| |done].
  rewrite (loop_while_ext ics _ (λ der, i ← potential_issuer (Reader := list Z) c der;
    build_chain (Reader := list Z) d e algs tas ics i t (match used_as_ca c.(ee_or_ca) with UsedAsCA_No => n | UsedAsCA_Yes => n + 1 end)));
    [done|].
  intros der. rewrite potential_issuer_transport. destruct (potential_issuer c der) as [i|y|]; [apply IH|done..].
Qed.
End transport.
