(* ===== verification/WebpkiNameProofs.v ===== *)
(** * What names in certificates match

    The syntax of DNS names that [is_valid_dns_id] accepts, label by label
    ([is_valid_dns_id_iff]), and what matching a presented name means for a reference
    name and for a name constraint ([matches_reference_iff], [matches_constraint_iff]). *)
From S2P Require Import Prelude Errors Frame Common Untrusted RingIo WebpkiDer WebpkiCert WebpkiName.

(** ** Labels *)

Definition is_digit (b : Z) : bool := (48 <=? b) && (b <=? 57).
Definition is_letter (b : Z) : bool := ((97 <=? b) && (b <=? 122)) || ((65 <=? b) && (b <=? 90)) || (b =? 95).
Definition label_char (b : Z) : bool := is_digit b || is_letter b || (b =? 45).

(** The labels of a name: what is between its dots; [cur] is the start of the first. *)
Fixpoint split_dots (cur l : list Z) : list (list Z) :=
  match l with
  | [] => [cur]
  | b :: l => if b =? 46 then cur :: split_dots [] l else split_dots (cur ++ [b]) l
  end.
Definition labels (l : Input) : list (list Z) := split_dots [] l.

Definition all_digits (l : list Z) : bool := forallb is_digit l.

(** One to 63 letters, digits, underscores and hyphens, without a hyphen at the ends. *)
Definition valid_label (l : list Z) : Prop :=
  l ≠ [] ∧ Z.of_nat (length l) <= 63 ∧ Forall (λ b, label_char b = true) l ∧ head l ≠ Some 45 ∧ last l ≠ Some 45.

(** The labels of the body of a name: at least one, all of them valid, and the last one
    not all digits, so that it is not an IPv4 address. *)
Definition valid_labels (ls : list (list Z)) : Prop :=
  Forall valid_label ls ∧ ∃ l, last ls = Some l ∧ all_digits l = false.

(** What the role allows around the body: a constraint can start with a dot, a reference
    name can end with one. *)
Definition body_of (id_role : IDRole) (ls ls' : list (list Z)) : Prop :=
  ls = ls' ∨ id_role = NameConstraint ∧ ls = [] :: ls' ∨ id_role = ReferenceID ∧ ls = ls' ++ [[]].

(** ** The loop of [is_valid_dns_id] is a fold *)

Fixpoint dns_fold (id_role : IDRole) (st : LabelState) (l : list Z) : option LabelState :=
  match l with
  | [] => Some st
  | b :: l => st ← dns_byte id_role st b; dns_fold id_role st l
  end.

Lemma dns_loop_list n role st l :
  (length l <= n)%nat → l ≠ [] →
  (loop (S n) (dns_round role) st l).2 = match dns_fold role st l with Some st => Ok st | None => Err false end.
Proof.
  revert st l. induction n as [|n IH]; intros st [|b l] Hn Hl; [done|cbn in *; lia|done|].
  rewrite loop_S. cbn [dns_fold]. unfold dns_round at 1. parse_unfold. cbn [read_byte list_untrusted map_err].
  destruct (dns_byte role st b) as [st'|]; [|done]. cbn [at_end list_untrusted option_bind].
  destruct l as [|b' l]; [done|]. apply IH; [cbn in *; lia|done].
Qed.

(** ** Its state, label by label *)

(** The start of a label. *)
Definition partial_label (l : list Z) : Prop :=
  Z.of_nat (length l) <= 63 ∧ Forall (λ b, label_char b = true) l ∧ head l ≠ Some 45.

(** The state after [dots] dots and the bytes [cur] of the next label; [numeric] is about
    the label before. *)
Definition state_at (dots : Z) (first numeric : bool) (cur : list Z) : LabelState :=
  mkLabelState dots (Z.of_nat (length cur)) (match cur with [] => numeric | _ => all_digits cur end)
    (bool_decide (last cur = Some 45)) (first && bool_decide (cur = [])).

Lemma label_byte_state dots first numeric cur b n h :
  n = all_digits (cur ++ [b]) → h = bool_decide (b = 45) →
  label_byte (state_at dots first numeric cur) n h =
  if Z.of_nat (length (cur ++ [b])) <=? 63 then Some (state_at dots first numeric (cur ++ [b])) else None.
Proof.
  intros -> ->. unfold label_byte, state_at, MAX_LABEL_LENGTH. cbn [dot_count label_length].
  rewrite length_app, last_snoc. cbn [length]. replace (Z.of_nat (length cur + 1)) with (Z.of_nat (length cur) + 1) by lia.
  destruct (Z.ltb_spec 63 (Z.of_nat (length cur) + 1)), (Z.leb_spec (Z.of_nat (length cur) + 1) 63); try lia; [done|].
  f_equal. f_equal; [by destruct cur|by apply bool_decide_ext; split; congruence|].
  rewrite bool_decide_eq_false_2, andb_false_r by (by destruct cur). done.
Qed.

(** A byte that is not a dot continues the label, or the label is not one. *)
Lemma dns_byte_label role dots first numeric cur b :
  b ≠ 46 → partial_label cur →
  partial_label (cur ++ [b]) ∧
    dns_byte role (state_at dots first numeric cur) b = Some (state_at dots first numeric (cur ++ [b])) ∨
  ¬ partial_label (cur ++ [b]) ∧ dns_byte role (state_at dots first numeric cur) b = None.
Proof.
  intros Hb (Hlen & Hcur & Hhead).
  assert (partial_label (cur ++ [b]) ↔
    Z.of_nat (length (cur ++ [b])) <= 63 ∧ label_char b = true ∧ (cur = [] → b ≠ 45)) as ->.
  { unfold partial_label. rewrite Forall_app, Forall_singleton. destruct cur; cbn; naive_solver. }
  assert (all_digits (cur ++ [b]) = all_digits cur && is_digit b) as Hdig.
  { unfold all_digits. rewrite forallb_app. cbn. by rewrite andb_true_r. }
  assert ((Z.of_nat (length cur) =? 0) = bool_decide (cur = [])) as Hzero by (by destruct cur).
  unfold dns_byte, label_char. cbn [label_length label_is_all_numeric state_at]. rewrite Hzero.
  fold (is_digit b) (is_letter b).
  destruct (Z.eqb_spec b 45) as [->|H45]; [|destruct (is_digit b) eqn:Hd; [|destruct (is_letter b) eqn:Hl]].
  - case_bool_decide; [right; split; [naive_solver|done]|].
    rewrite (label_byte_state _ _ _ _ 45) by (done || rewrite Hdig; by rewrite andb_false_r).
    case_match; [left|right]; split; (done || naive_solver lia).
  - rewrite (label_byte_state _ _ _ _ b).
    + case_match; [left|right]; split; (done || naive_solver lia).
    + rewrite Hdig, andb_true_r. by destruct cur.
    + by rewrite bool_decide_eq_false_2.
  - rewrite (label_byte_state _ _ _ _ b).
    + case_match; [left|right]; split; (done || naive_solver lia).
    + by rewrite Hdig, andb_false_r.
    + by rewrite bool_decide_eq_false_2.
  - right. rewrite (proj2 (Z.eqb_neq b 46)) by done. split; [naive_solver|done].
Qed.

(** A dot ends a label. *)
Lemma dns_byte_dot role dots first numeric cur :
  partial_label cur →
  dns_byte role (state_at dots first numeric cur) 46 =
  if bool_decide (cur = []) then
    if bool_decide (role = NameConstraint) && first then Some (state_at (dots + 1) false numeric []) else None
  else if bool_decide (last cur = Some 45) then None
  else Some (state_at (dots + 1) false (all_digits cur) []).
Proof.
  intros _. unfold dns_byte, state_at. cbn. destruct cur as [|b cur]; cbn.
  - rewrite andb_true_r. by destruct (bool_decide (role = NameConstraint)), first.
  - destruct (bool_decide (last (b :: cur) = Some 45)) eqn:Hl; rewrite ?Hl; done.
Qed.

(** The tests of the remaining labels, in order. *)
Fixpoint rest_ok (role : IDRole) (wild : bool) (dots : Z) (first numeric : bool) (ls : list (list Z)) : Prop :=
  match ls with
  | [] => False
  | [l] =>
      (l = [] ∧ role = ReferenceID ∧ numeric = false ∧ (wild = true → 3 <= dots)) ∨
      (valid_label l ∧ all_digits l = false ∧ (wild = true → 3 <= dots + 1))
  | l :: ls =>
      (l = [] ∧ role = NameConstraint ∧ first = true ∧ rest_ok role wild (dots + 1) false numeric ls) ∨
      (valid_label l ∧ rest_ok role wild (dots + 1) false (all_digits l) ls)
  end.

Lemma rest_ok_cons role wild dots first numeric l ls :
  ls ≠ [] →
  rest_ok role wild dots first numeric (l :: ls) ↔
  (l = [] ∧ role = NameConstraint ∧ first = true ∧ rest_ok role wild (dots + 1) false numeric ls) ∨
  (valid_label l ∧ rest_ok role wild (dots + 1) false (all_digits l) ls).
Proof. by destruct ls. Qed.

Lemma valid_label_partial cur : valid_label cur ↔ partial_label cur ∧ cur ≠ [] ∧ last cur ≠ Some 45.
Proof. unfold valid_label, partial_label. naive_solver. Qed.

Lemma valid_label_prefix cur l : valid_label (cur ++ l) → partial_label cur.
Proof.
  unfold valid_label, partial_label. rewrite length_app, Forall_app.
  intros (_ & Hlen & [Hc _] & Hh & _). split_and!; [lia|done|]. by destruct cur.
Qed.

(** A label that has gone wrong makes the name invalid. *)
Lemma rest_ok_partial role wild dots first numeric cur l :
  cur ≠ [] → rest_ok role wild dots first numeric (split_dots cur l) → partial_label cur.
Proof.
  revert cur. induction l as [|b l IH]; intros cur Hcur; cbn.
  - intros [[-> _]|[Hv _]]; [done|]. by apply valid_label_partial in Hv as [? _].
  - destruct (b =? 46).
    + destruct (split_dots [] l) eqn:Hs.
      * intros [[-> _]|[Hv _]]; [done|]. by apply valid_label_partial in Hv as [? _].
      * intros [[-> _]|[Hv _]]; [done|]. by apply valid_label_partial in Hv as [? _].
    + intros Hr. apply IH in Hr; [|by destruct cur]. destruct Hr as (Hlen & Hc & Hh).
      rewrite length_app in Hlen. apply Forall_app in Hc as [Hc _]. split_and!; [lia|done|by destruct cur].
Qed.

Lemma split_dots_nonempty cur l : split_dots cur l ≠ [].
Proof. revert cur. induction l as [|b l IH]; intros cur; cbn; [done|]. case_match; [done|apply IH]. Qed.

Lemma dns_end_spec role wild dots first numeric cur :
  partial_label cur →
  dns_end role wild (state_at dots first numeric cur) = true ↔ rest_ok role wild dots first numeric [cur].
Proof.
  intros Hp. unfold dns_end, state_at. cbn [rest_ok label_length label_ends_with_hyphen label_is_all_numeric dot_count].
  rewrite valid_label_partial. destruct cur as [|b cur]; cbn [length last].
  - case_bool_decide; cbn; [|naive_solver]. destruct numeric; [naive_solver|]. destruct wild; [|naive_solver].
    destruct (Z.ltb_spec dots 3); naive_solver lia.
  - rewrite (proj2 (Z.eqb_neq _ 0)) by lia. cbn [andb]. case_bool_decide; [naive_solver|].
    destruct (all_digits (b :: cur)) eqn:Hd; [naive_solver|]. destruct wild; [|naive_solver].
    destruct (Z.ltb_spec (dots + 1) 3); naive_solver lia.
Qed.

Lemma dns_fold_spec role wild dots first numeric cur l :
  partial_label cur →
  (∃ st, dns_fold role (state_at dots first numeric cur) l = Some st ∧ dns_end role wild st = true) ↔
  rest_ok role wild dots first numeric (split_dots cur l).
Proof.
  revert dots first numeric cur. induction l as [|b l IH]; intros dots first numeric cur Hp.
  - cbn [split_dots dns_fold]. rewrite <-dns_end_spec by done. naive_solver.
  - cbn [split_dots dns_fold]. destruct (Z.eqb_spec b 46) as [->|Hb].
    + rewrite dns_byte_dot, rest_ok_cons, valid_label_partial by (done || apply split_dots_nonempty). assert (partial_label []) as Hnil by done.
      case_bool_decide as Hcur; [subst cur; destruct (bool_decide (role = NameConstraint)) eqn:Hr;
        [apply bool_decide_eq_true in Hr; destruct first|apply bool_decide_eq_false in Hr]|
        case_bool_decide]; cbn [mbind option_bind andb]; rewrite <-?IH by done; naive_solver.
    + destruct (dns_byte_label role dots first numeric cur b Hb Hp) as [[Hp' ->]|[Hp' ->]]; cbn [mbind option_bind].
      * by apply IH.
      * split; [naive_solver|]. intros Hr. destruct Hp'. eapply rest_ok_partial, Hr. by destruct cur.
Qed.

(** Is the last of the labels all digits?  [numeric] is the answer when there is none. *)
Definition last_numeric (numeric : bool) (ls : list (list Z)) : bool := from_option all_digits numeric (last ls).

(** The labels one by one are the labels of the body all at once. *)
Lemma rest_ok_body role wild dots numeric ls :
  rest_ok role wild dots false numeric ls ↔
  ∃ ls', (ls = ls' ∧ ls' ≠ [] ∨ role = ReferenceID ∧ ls = ls' ++ [[]]) ∧ Forall valid_label ls' ∧
    last_numeric numeric ls' = false ∧ (wild = true → 3 <= dots + Z.of_nat (length ls')).
Proof.
  revert dots numeric. induction ls as [|l ls IH]; intros dots numeric.
  { split; [done|]. intros (ls' & [[<- ?]|[_ ?]] & _); [done|by destruct ls']. }
  destruct (decide (ls = [])) as [->|Hls].
  - cbn [rest_ok]. split.
    + intros [(-> & -> & -> & Hw)|(Hv & Hd & Hw)].
      * exists []. split_and!; [by right|constructor|done|]. cbn. intros Hw'. specialize (Hw Hw'). lia.
      * exists [l]. split_and!; [by left|by constructor|done|]. cbn. intros Hw'. specialize (Hw Hw'). lia.
    + intros (ls' & [[<- _]|[Hr Hl]] & Hv & Hn & Hw).
      * right. apply Forall_cons in Hv as [Hv _]. split; [exact Hv|]. split; [exact Hn|]. intros Hw'. specialize (Hw Hw'). cbn in Hw. lia.
      * left. destruct ls' as [|x ls']; [|by destruct ls']. injection Hl as ->. split_and!; [done|done|done|].
        intros Hw'. specialize (Hw Hw'). cbn in Hw. lia.
  - rewrite rest_ok_cons, !IH by done. split.
    + intros [(_ & _ & ? & _)|(Hv & ls' & Hb & Hvs & Hn & Hw)]; [done|]. exists (l :: ls'). split_and!.
      * destruct Hb as [[-> ?]|[-> ->]]; [by left|by right].
      * by constructor.
      * unfold last_numeric in *. rewrite last_cons. by destruct (last ls').
      * intros Hw'. specialize (Hw Hw'). cbn. lia.
    + intros ([|x ls'] & Hb & Hvs & Hn & Hw).
      { destruct Hb as [[_ ?]|[_ [= _ ?]]]; done. }
      assert (x = l ∧ (ls = ls' ∧ ls' ≠ [] ∨ role = ReferenceID ∧ ls = ls' ++ [[]])) as [-> Hb'].
      { destruct Hb as [[[= -> ->] _]|[? [= -> ->]]]; [split; [done|by left]|split; [done|by right]]. }
      apply Forall_cons in Hvs as [Hv Hvs]. right. split; [done|]. exists ls'. split_and!; [done|done| |].
      * unfold last_numeric in *. rewrite last_cons in Hn. by destruct (last ls').
      * intros Hw'. specialize (Hw Hw'). cbn in Hw. lia.
Qed.

Lemma rest_ok_first role wild dots ls :
  rest_ok role wild dots true false ls ↔
  rest_ok role wild dots false false ls ∨
  role = NameConstraint ∧ ∃ ls', ls = [] :: ls' ∧ ls' ≠ [] ∧ rest_ok role wild (dots + 1) false false ls'.
Proof.
  destruct ls as [|l ls]; [naive_solver|]. destruct (decide (ls = [])) as [->|Hls]; [cbn; naive_solver|].
  rewrite !rest_ok_cons by done. naive_solver.
Qed.

Lemma split_dots_single cur l : split_dots cur l = [[]] → cur = [] ∧ l = [].
Proof.
  revert cur. induction l as [|b l IH]; intros cur; cbn; [naive_solver|]. destruct (b =? 46).
  - intros [= _ Hs]. by apply split_dots_nonempty in Hs.
  - intros [Hc _]%IH. by destruct cur.
Qed.

(** The names [is_valid_dns_id] is meant to accept. *)
Definition valid_dns_id (id_role : IDRole) (allow_wildcards : AllowWildcards) (hostname : Input) : Prop :=
  Z.of_nat (length hostname) <= 253 ∧
  (id_role = NameConstraint ∧ hostname = [] ∨
   (∃ ls, body_of id_role (labels hostname) ls ∧ valid_labels ls) ∨
   allow_wildcards = WildcardsYes ∧
   ∃ rest ls, hostname = 42 :: 46 :: rest ∧ valid_labels ls ∧ (2 <= length ls)%nat ∧
     (labels rest = ls ∨ id_role = ReferenceID ∧ labels rest = ls ++ [[]])).

Lemma valid_labels_spec numeric ls :
  ls ≠ [] → Forall valid_label ls ∧ last_numeric numeric ls = false ↔ valid_labels ls.
Proof.
  intros Hls. unfold valid_labels, last_numeric. destruct (last ls) as [l|] eqn:Hl; cbn; [naive_solver|].
  by apply last_None in Hl.
Qed.

(** The loop and the final tests on the rest of a name. *)
Definition accepts (id_role : IDRole) (wild : bool) (dots : Z) (l : Input) : bool :=
  match dns_fold id_role (state_at dots (negb wild) false []) l with
  | Some st => dns_end id_role wild st
  | None => false
  end.

Lemma accepts_spec role wild dots l :
  accepts role wild dots l = true ↔ rest_ok role wild dots (negb wild) false (labels l).
Proof.
  unfold labels. rewrite <-dns_fold_spec by done. unfold accepts. destruct (dns_fold _ _ l); naive_solver.
Qed.

Lemma accepts_plain role l : l ≠ [] → accepts role false 0 l = true ↔ ∃ ls, body_of role (labels l) ls ∧ valid_labels ls.
Proof.
  intros Hl. rewrite accepts_spec. cbn [negb]. rewrite rest_ok_first, rest_ok_body. unfold body_of.
  setoid_rewrite rest_ok_body. split.
  - intros [(ls & Hb & Hv & Hn & _)|(-> & ls & Hls & Hne & ls' & Hb & Hv & Hn & _)].
    + exists ls. assert (ls ≠ []) as Hne.
      { destruct Hb as [[_ ?]|[_ Hb]]; [done|]. intros ->. by apply split_dots_single in Hb as [_ ->]. }
      rewrite <-(valid_labels_spec false) by done. naive_solver.
    + destruct Hb as [[<- _]|[? _]]; [|done]. exists ls. rewrite <-(valid_labels_spec false) by done. naive_solver.
  - intros (ls & Hb & Hv). assert (ls ≠ []) as Hne by (destruct Hv as (_ & l' & Hl' & _); by destruct ls).
    apply (valid_labels_spec false) in Hv as [Hv Hn]; [|done].
    destruct Hb as [<-|[[-> Hb]|[-> Hb]]]; [left; naive_solver|right|left; naive_solver]. naive_solver.
Qed.

Lemma accepts_wild role l :
  l ≠ [] →
  accepts role true 1 l = true ↔
  ∃ ls, valid_labels ls ∧ (2 <= length ls)%nat ∧ (labels l = ls ∨ role = ReferenceID ∧ labels l = ls ++ [[]]).
Proof.
  intros Hl. rewrite accepts_spec. cbn [negb]. rewrite rest_ok_body. split.
  - intros (ls & Hb & Hv & Hn & Hw). exists ls. specialize (Hw eq_refl).
    assert (ls ≠ []) by (intros ->; cbn in Hw; lia). rewrite <-(valid_labels_spec false) by done. naive_solver lia.
  - intros (ls & Hv & Hlen & Hb). exists ls. assert (ls ≠ []) by (intros ->; cbn in Hlen; lia).
    apply (valid_labels_spec false) in Hv as [Hv Hn]; [|done]. naive_solver lia.
Qed.

(** No valid label starts with an asterisk. *)
Lemma star_not_plain role l ls : body_of role (labels (42 :: l)) ls → ¬ valid_labels ls.
Proof.
  unfold labels. cbn. assert (∀ cur, ∃ x ls0, split_dots (42 :: cur) l = (42 :: x) :: ls0) as Hs.
  { induction l as [|b l IH]; intros cur; cbn; [eauto|]. destruct (b =? 46); [eauto|]. apply IH. }
  destruct (Hs []) as (x & ls0 & ->).
  assert (∀ ls, head ls = Some (42 :: x) → ¬ valid_labels ls) as Hbad.
  { intros [|y ls1] [= ->] [Hv _]. apply Forall_cons in Hv as [(_ & _ & Hc & _) _].
    apply Forall_cons in Hc as [Hc _]. done. }
  intros [<-|[[_ Hb]|[_ Hb]]]; [by apply Hbad|done|]. apply Hbad. destruct ls as [|y ls]; [by injection Hb|].
  by injection Hb as -> _.
Qed.

Lemma dns_rest_list n role wild dots l :
  (length l <= n)%nat →
  returned (E := Error) ((
    st ← loop (S n) (dns_round role) (mkLabelState dots 0 false false (negb wild));
    mret (dns_end role wild st)) l)
  = Ok (negb (bool_decide (l = [])) && accepts role wild dots l).
Proof.
  intros Hn. destruct (decide (l = [])) as [->|Hl].
  - unfold returned. parse_unfold. by rewrite loop_S.
  - rewrite bool_decide_eq_false_2 by done. pose proof (dns_loop_list n role (state_at dots (negb wild) false []) l Hn Hl) as Hloop.
    unfold accepts, returned. cbn [negb andb]. parse_unfold. unfold state_at in *. cbn [length last] in *. 
    rewrite bool_decide_eq_false_2, bool_decide_eq_true_2, andb_true_r in * by done.
    destruct (loop _ _ _ l) as [l' x]. cbn in Hloop. subst x. by destruct (dns_fold _ _ l).
Qed.

Lemma peek_head b (l : list Z) : peek b l = bool_decide (head l = Some b).
Proof.
  destruct l as [|c l]; [done|]. cbn. destruct (Z.eqb_spec c b) as [->|]; [by rewrite bool_decide_eq_true_2|].
  by rewrite bool_decide_eq_false_2 by (by intros [= ?]).
Qed.

Lemma is_valid_dns_id_list h role w :
  is_valid_dns_id (Reader := list Z) h role w = Ok (
    if 253 <? Z.of_nat (length h) then false
    else if bool_decide (role = NameConstraint) && bool_decide (h = []) then true
    else if bool_decide (w = WildcardsYes) && bool_decide (head h = Some 42) then
      bool_decide (take 2 h = [42; 46]) && (negb (bool_decide (drop 2 h = [])) && accepts role true 1 (drop 2 h))
    else negb (bool_decide (h = [])) && accepts role false 0 h).
Proof.
  unfold is_valid_dns_id. case_match; [done|].
  transitivity (returned (E := Error) (
    if bool_decide (role = NameConstraint) && at_end h then (h, Err true) else
    (let is_wildcard := bool_decide (w = WildcardsYes) && peek 42 h in
    (dot_count ←
      (if is_wildcard then
         b ← pmap_err (λ _, false) read_byte;
         (if b =? 42 then mret () else fail false) ;;
         b ← pmap_err (λ _, false) read_byte;
         if b =? 46 then mret 1 else fail false
       else mret 0);
    st ← loop (S (length h)) (dns_round role) (mkLabelState dot_count 0 false false (negb is_wildcard));
    mret (dns_end role is_wildcard st))) h)).
  { unfold mbind at 1 2, Parser_bind at 1 2, asks. cbn [reader_new list_untrusted]. by destruct (_ && at_end h). }
  replace (at_end h) with (bool_decide (h = [])) by (by destruct h).
  rewrite (peek_head 42 h).
  destruct (bool_decide (role = NameConstraint) && bool_decide (h = [])); [done|].
  destruct (bool_decide (w = WildcardsYes) && bool_decide (head h = Some 42)) eqn:Hw; cbn zeta.
  - apply andb_true_iff in Hw as [_ Hh%bool_decide_eq_true]. destruct h as [|b h]; [done|]. injection Hh as ->.
    unfold mbind at 1 3 4, Parser_bind at 1 3 4, pmap_err. cbn [read_byte list_untrusted map_err].
    destruct h as [|b h]; [done|]. cbn [take drop]. destruct (Z.eqb_spec b 46) as [->|Hb].
    + rewrite (bool_decide_eq_true_2 ([42; 46] = [42; 46])) by done. cbn [andb].
      exact (dns_rest_list (length (42 :: 46 :: h)) role true 1 h ltac:(cbn; lia)).
    + rewrite (bool_decide_eq_false_2 ([42; b] = [42; 46])) by congruence. unfold pmap_err, mbind, Parser_bind. cbn. by rewrite (proj2 (Z.eqb_neq b 46)) by done.
  - exact (dns_rest_list (length h) role false 0 h ltac:(lia)).
Qed.

(** ** Matching on lists *)

Definition lower (l : Input) : Input := ascii_lower <$> l.
Definition same_name (a b : Input) : Prop := lower a = lower b.

(** From the first dot after the first byte on. *)
Fixpoint after_label (r : Input) : option Input :=
  match r with
  | [] => None
  | _ :: r => if bool_decide (head r = Some 46) then Some r else after_label r
  end.

(** The loop of the comparison: the result it returns, or what is left of the reference. *)
Fixpoint compare (p r : Input) : option bool + Input :=
  match p, r with
  | a :: p, b :: r =>
      if negb (ascii_lower a =? ascii_lower b) then inl (Some false)
      else match p with
           | [] => if a =? 46 then inl None else inr r
           | _ => compare p r
           end
  | _, _ => inl (Some false)
  end.

Lemma wildcard_loop_list n p r :
  (length r <= n)%nat →
  match after_label r with
  | Some r' => loop (S n) wildcard_round () (p, r) = ((p, r'), Ok ())
  | None => (loop (S n) wildcard_round () (p, r)).2 = Err (Some false)
  end.
Proof.
  revert r. induction n as [|n IH]; intros [|b r] Hn; [by rewrite loop_S|cbn in *; lia|by rewrite loop_S|].
  cbn [after_label]. rewrite loop_S. unfold wildcard_round at 1 3, on_second. parse_unfold.
  cbn [fst snd read_byte list_untrusted map_err].
  rewrite (peek_head 46 r).   case_bool_decide; [done|]. apply IH. cbn in *. lia.
Qed.

Lemma compare_loop_list n p r :
  (length p <= n)%nat →
  match compare p r with
  | inr r' => loop (S n) compare_round () (p, r) = (([], r'), Ok ())
  | inl x => (loop (S n) compare_round () (p, r)).2 = Err x
  end.
Proof.
  revert p r. induction n as [|n IH]; intros [|a p] r Hn; [by rewrite loop_S|cbn in *; lia|by rewrite loop_S|].
  rewrite loop_S. unfold compare_round at 1 3, on_first, on_second. parse_unfold.
  cbn [fst snd read_byte list_untrusted map_err compare].
  destruct r as [|b r]; [done|]. cbn [fst snd map_err].
  destruct (negb (ascii_lower a =? ascii_lower b)); [done|].
  destruct p as [|c p]; cbn [fst snd at_end]; [by destruct (a =? 46)|]. apply IH. cbn in *. lia.
Qed.

(** What the match does with valid names, without readers. *)
Definition match_rest (role : IDRole) (rest : Input) : bool :=
  bool_decide (rest = []) || negb (bool_decide (role = NameConstraint)) && bool_decide (rest = [46]).

Definition match_names (role : IDRole) (p r : Input) : option bool :=
  match compare p r with inl x => x | inr rest => Some (match_rest role rest) end.

Definition match_from (role : IDRole) (p r : Input) : option bool :=
  if bool_decide (head p = Some 42) then
    match after_label r with None => Some false | Some r => match_names role (tail p) r end
  else match_names role p r.

Lemma match_rest_list role rest :
  returned (E := Error) ((
    skip_last_dot role ;;
    e1 ← on_first (asks at_end);
    e2 ← on_second (asks at_end);
    if e1 && e2 then mret (Some true) else abort) ([], rest)) = Ok (Some (match_rest role rest)).
Proof.
  unfold returned, skip_last_dot, on_first, on_second, match_rest. parse_unfold. cbn [fst snd at_end list_untrusted].
  destruct rest as [|b rest]; [done|]. cbn [fst snd at_end list_untrusted].
  case_bool_decide; [done|]. cbn [fst snd read_byte list_untrusted map_err].
  destruct (Z.eqb_spec b 46) as [->|Hb]; cbn [fst snd].
  - destruct rest; [done|]. cbn. by rewrite bool_decide_eq_false_2.
  - by rewrite !bool_decide_eq_false_2 by congruence.
Qed.

Lemma match_names_list role np p r :
  (length p <= np)%nat →
  returned (E := Error) ((
    loop (S np) compare_round () ;;
    skip_last_dot role ;;
    e1 ← on_first (asks at_end);
    e2 ← on_second (asks at_end);
    if e1 && e2 then mret (Some true) else abort) (p, r)) = Ok (match_names role p r).
Proof.
  intros Hp. pose proof (compare_loop_list np p r Hp) as Hc. unfold match_names.
  unfold mbind at 1, Parser_bind at 1. destruct (compare p r) as [x|rest].
  - destruct (loop _ _ _ _) as [s y]. cbn in Hc. by subst.
  - rewrite Hc. apply match_rest_list.
Qed.

Lemma match_from_list role np nr p r :
  (length p <= np)%nat → (length r <= nr)%nat →
  returned (E := Error) ((
    skip_wildcard nr ;;
    loop (S np) compare_round () ;;
    skip_last_dot role ;;
    e1 ← on_first (asks at_end);
    e2 ← on_second (asks at_end);
    if e1 && e2 then mret (Some true) else abort) (p, r)) = Ok (match_from role p r).
Proof.
  intros Hp Hr. unfold mbind at 1, Parser_bind at 1. unfold match_from, skip_wildcard.
  unfold mbind at 1, Parser_bind at 1, on_first at 1, asks at 1. cbn [fst snd]. rewrite peek_head.
  case_bool_decide as Hh; [|by apply match_names_list].
  destruct p as [|b p]; [done|]. unfold mbind at 1, Parser_bind at 1, on_first at 1, punwrap.
  cbn [fst snd skip list_untrusted]. rewrite decide_True by (cbn; lia). cbn [drop tail]. rewrite drop_0.
  pose proof (wildcard_loop_list nr p r Hr) as Hw. destruct (after_label r) as [r'|].
  - rewrite Hw. apply match_names_list. cbn in Hp. lia.
  - destruct (loop _ wildcard_round _ _) as [s y]. cbn in Hw. by subst.
Qed.

(** The whole match of two valid names. *)
Definition match_list (role : IDRole) (p r : Input) : option bool :=
  match role with
  | NameConstraint =>
      if (length r <? length p)%nat then
        if bool_decide (r = []) then Some true
        else if bool_decide (head r = Some 46) then match_from role (drop (length p - length r) p) r
        else if bool_decide (p !! (length p - length r - 1)%nat = Some 46)
        then match_from role (drop (length p - length r) p) r
        else Some false
      else match_from role p r
  | _ => match_from role p r
  end.

Lemma matches_internal_list role p r :
  role ≠ PresentedID →
  is_valid_dns_id (Reader := list Z) p PresentedID WildcardsYes = Ok true →
  is_valid_dns_id (Reader := list Z) r role WildcardsNo = Ok true →
  presented_dns_id_matches_reference_dns_id_internal (Reader := list Z) p role r = Ok (match_list role p r).
Proof.
  intros Hrole Hp Hr. unfold presented_dns_id_matches_reference_dns_id_internal. rewrite Hp, Hr.
  cbn [mbind result_bind negb reader_new list_untrusted].
  pose proof (match_from_list role (length p) (length r) p r ltac:(lia) ltac:(lia)) as Hplain.
  unfold mbind at 1, Parser_bind at 1. destruct role; [exact Hplain|done|].
  cbn [skip_prefix match_list]. destruct (Nat.ltb_spec (length r) (length p)) as [Hlt|]; [|exact Hplain].
  destruct r as [|b r]; [done|]. rewrite (bool_decide_eq_false_2 (b :: r = [])) by done. cbn [Nat.eqb length].
  unfold mbind at 1, Parser_bind at 1, on_second at 1, asks at 1. cbn [fst snd]. rewrite peek_head.
  case_bool_decide.
  - unfold on_first at 1, punwrap. cbn [fst snd skip list_untrusted]. rewrite decide_True by (cbn in *; lia).
    apply match_from_list; [rewrite length_drop; lia|done].
  - set (i := (length p - S (length r) - 1)%nat). assert (i < length p)%nat as Hi by (subst i; cbn in *; lia).
    destruct (lookup_lt_is_Some_2 p i Hi) as [x Hx].
    unfold mbind at 1, Parser_bind at 1, on_first at 1, punwrap. cbn [fst snd skip list_untrusted].
    rewrite decide_True by lia. rewrite (drop_S p x i Hx).
    unfold mbind at 1, Parser_bind at 1, on_first at 1, pmap_err at 1. cbn [fst snd read_byte list_untrusted map_err].
    replace (length p - length (b :: r) - 1)%nat with i by (subst i; cbn; lia). rewrite Hx.
    destruct (Z.eqb_spec x 46) as [->|]; [|by rewrite bool_decide_eq_false_2 by congruence].
    rewrite bool_decide_eq_true_2 by done. replace (S i) with (length p - length (b :: r))%nat by (subst i; cbn in *; lia).
    apply match_from_list; [rewrite length_drop; lia|done].
Qed.

(** *** What the loops compute *)

Lemma ascii_lower_dot b : ascii_lower b = 46 ↔ b = 46.
Proof. unfold ascii_lower. destruct (Z.leb_spec 65 b), (Z.leb_spec b 90); cbn; lia. Qed.

Lemma ascii_lower_star b : ascii_lower b = 42 ↔ b = 42.
Proof. unfold ascii_lower. destruct (Z.leb_spec 65 b), (Z.leb_spec b 90); cbn; lia. Qed.

Lemma after_label_spec r t :
  after_label r = Some t ↔ ∃ b l t', r = (b :: l) ++ 46 :: t' ∧ (46 ∉ l) ∧ t = 46 :: t'.
Proof.
  revert t. induction r as [|b r IH]; intros t; cbn; [naive_solver|]. case_bool_decide as Hh.
  - destruct r as [|c r]; [done|]. injection Hh as ->. split.
    + intros [= <-]. exists b, [], r. split_and!; [done|set_solver|done].
    + intros (b' & [|c l] & t' & [= -> ->] & Hl & ->); [done|set_solver].
  - rewrite IH. split.
    + intros (c & l & t' & -> & Hl & ->). exists b, (c :: l), t'. split_and!; [done| |done].
      rewrite not_elem_of_cons. split; [|done]. intros <-. done.
    + intros (b' & [|c l] & t' & [= -> ->] & Hl & ->); [done|]. exists c, l, t'. set_solver.
Qed.

#[export] Instance same_name_dec a b : Decision (same_name a b).
Proof. unfold same_name. apply _. Defined.

Lemma same_name_length a b : same_name a b → length a = length b.
Proof. unfold same_name, lower. intros H%(f_equal length). by rewrite !length_fmap in H. Qed.

Lemma same_name_cons a b p r : same_name (a :: p) (b :: r) ↔ ascii_lower a = ascii_lower b ∧ same_name p r.
Proof.
  unfold same_name, lower. rewrite !fmap_cons. split; [by intros [= ??]|by intros [-> ->]].
Qed.

Lemma compare_spec p r :
  p ≠ [] → last p ≠ Some 46 →
  compare p r = if bool_decide (same_name p (take (length p) r)) then inr (drop (length p) r) else inl (Some false).
Proof.
  revert r. induction p as [|a p IH]; intros r Hp Hl; [done|]. destruct r as [|b r]; [done|].
  cbn [compare length take drop]. rewrite (bool_decide_ext _ _ (same_name_cons a b p (take (length p) r))).
  destruct (Z.eqb_spec (ascii_lower a) (ascii_lower b)) as [Hab|Hab]; cbn [negb].
  2:{ by rewrite bool_decide_eq_false_2 by naive_solver. }
  destruct p as [|a' p].
  - destruct (Z.eqb_spec a 46) as [->|Ha]; [done|]. by rewrite bool_decide_eq_true_2.
  - rewrite IH by done. by do 2 case_bool_decide; try naive_solver.
Qed.

(** *** What valid names look like *)

Lemma dns_fold_no_star role st l st' : dns_fold role st l = Some st' → 42 ∉ l.
Proof.
  revert st. induction l as [|b l IH]; intros st; cbn; [set_solver|].
  destruct (dns_byte role st b) eqn:Hb; [|done]. intros Hl%IH. apply not_elem_of_cons. split; [|done].
  by intros <-.
Qed.

Lemma dns_fold_last_dot role st l st' :
  dns_fold role st l = Some st' → last l = Some 46 → st'.(label_length) = 0.
Proof.
  revert st. induction l as [|b l IH]; intros st; cbn [dns_fold]; [done|].
  destruct (dns_byte role st b) as [st1|] eqn:Hb; [|done]. cbn. destruct l as [|c l]; [|by apply IH].
  intros [= <-] [= ->]. unfold dns_byte in Hb. cbn in Hb. by repeat case_match; simplify_eq.
Qed.

Lemma accepts_shape role wild dots l :
  accepts role wild dots l = true →
  (42 ∉ l) ∧ (role ≠ ReferenceID → last l ≠ Some 46) ∧ (role ≠ NameConstraint → head l ≠ Some 46).
Proof.
  unfold accepts. destruct (dns_fold _ _ l) as [st|] eqn:Hf; [|done]. intros He. split_and!.
  - by eapply dns_fold_no_star.
  - intros Hr Hl. eapply dns_fold_last_dot in Hl; [|done]. unfold dns_end in He.
    by rewrite Hl, bool_decide_eq_false_2 in He.
  - intros Hr Hh. destruct l as [|b l]; [done|]. injection Hh as ->. cbn in Hf.
    by rewrite bool_decide_eq_false_2 in Hf.
Qed.

Lemma presented_shape p :
  is_valid_dns_id (Reader := list Z) p PresentedID WildcardsYes = Ok true →
  p ≠ [] ∧ last p ≠ Some 46 ∧ head p ≠ Some 46 ∧ (42 ∉ tail p) ∧
  (head p = Some 42 → ∃ q, p = 42 :: 46 :: q ∧ q ≠ [] ∧ last q ≠ Some 46).
Proof.
  rewrite is_valid_dns_id_list. intros [= Hv]. destruct (253 <? _); [done|]. cbn [andb] in Hv.
  destruct (bool_decide (head p = Some 42)) eqn:Hh.
  - apply bool_decide_eq_true in Hh. cbn in Hv. rewrite !andb_true_iff, bool_decide_eq_true in Hv.
    destruct Hv as (Htake & Hne & Hacc). destruct p as [|b [|c q]]; [done..|].
    injection Htake as -> ->. cbn [drop] in *. apply accepts_shape in Hacc as (Hstar & Hlast & _).
    destruct q as [|d q]; [done|]. split_and!; [done|by apply Hlast|done| |].
    + cbn [tail]. apply not_elem_of_cons. split; [done|]. exact Hstar.
    + intros _. exists (d :: q). split_and!; [done|done|by apply Hlast].
  - apply bool_decide_eq_false in Hh. cbn in Hv. apply andb_true_iff in Hv as [Hne Hacc].
    apply accepts_shape in Hacc as (Hstar & Hlast & Hhead). destruct p as [|b p]; [done|].
    split_and!; [done|by apply Hlast|by apply Hhead|cbn [tail]; set_solver|done].
Qed.

Lemma reference_shape r :
  is_valid_dns_id (Reader := list Z) r ReferenceID WildcardsNo = Ok true → (42 ∉ r) ∧ head r ≠ Some 46.
Proof.
  rewrite is_valid_dns_id_list. intros [= Hv]. destruct (253 <? _); [done|]. cbn in Hv.
  apply andb_true_iff in Hv as [_ (Hstar & _ & Hhead)%accepts_shape]. split; [done|by apply Hhead].
Qed.

Lemma constraint_shape r :
  is_valid_dns_id (Reader := list Z) r NameConstraint WildcardsNo = Ok true → 42 ∉ r.
Proof.
  rewrite is_valid_dns_id_list. intros [= Hv]. destruct (253 <? _); [done|]. cbn in Hv.
  destruct r as [|b r]; [set_solver|]. cbn in Hv. by apply accepts_shape in Hv as [Hstar _].
Qed.

Lemma star_same_name p r : head p = Some 42 → 42 ∉ r → ¬ same_name p r.
Proof.
  destruct p as [|a p], r as [|b r]; [done|done|done|]. intros [= ->] Hr [Hb _]%same_name_cons.
  symmetry in Hb. apply (ascii_lower_star b) in Hb as ->. set_solver.
Qed.

(** *** The two matches *)

(** A name without the dot at its end. *)
Definition relative (r : Input) : Input := if bool_decide (last r = Some 46) then removelast r else r.

(** A presented name matches a host name: they are the same up to case, or the first
    label of the presented name is an asterisk and the rest is the same. *)
Definition reference_match (p r : Input) : Prop :=
  same_name p r ∨ ∃ q l t, p = 42 :: 46 :: q ∧ r = l ++ 46 :: t ∧ (46 ∉ l) ∧ same_name q t.

(** A presented name matches a constraint: the constraint is empty, or they are the
    same, or the presented name ends with the constraint at the start of a label, or the
    asterisk stands for the first label of the constraint. *)
Definition constraint_match (p c : Input) : Prop :=
  c = [] ∨ same_name p c ∨
  (∃ pre s, p = pre ++ s ∧ pre ≠ [] ∧ same_name s c ∧ (head c = Some 46 ∨ last pre = Some 46)) ∨
  (∃ q b l t, p = 42 :: 46 :: q ∧ c = b :: l ++ 46 :: t ∧ (46 ∉ l) ∧ same_name q t).

Lemma same_name_last a b : same_name a b → last a = Some 46 ↔ last b = Some 46.
Proof.
  intros H%(f_equal last). unfold lower in H. rewrite !fmap_last in H.
  destruct (last a) as [x|], (last b) as [y|]; try done. injection H as H.
  split; intros [= ->]; f_equal; apply ascii_lower_dot; [by rewrite <-H|by rewrite H].
Qed.

(** What is left of the reference after a match is what follows the name. *)
Lemma compare_app p r rest :
  p ≠ [] → last p ≠ Some 46 → compare p r = inr rest ↔ ∃ r1, r = r1 ++ rest ∧ same_name p r1.
Proof.
  intros Hp Hl. rewrite compare_spec by done. split.
  - case_bool_decide as Hs; [|done]. intros [= <-]. exists (take (length p) r). by rewrite take_drop.
  - intros (r1 & -> & Hs). rewrite take_app_length', drop_app_length' by (symmetry; by apply same_name_length).
    by rewrite bool_decide_eq_true_2.
Qed.

Lemma match_names_spec role p r :
  p ≠ [] → last p ≠ Some 46 →
  ∃ b, match_names role p r = Some b ∧
    (b = true ↔ ∃ r1, (r = r1 ∨ role ≠ NameConstraint ∧ r = r1 ++ [46]) ∧ same_name p r1).
Proof.
  intros Hp Hl. unfold match_names. destruct (compare p r) as [x|rest] eqn:Hc.
  - assert (x = Some false) as -> by (rewrite compare_spec in Hc by done; by case_bool_decide; simplify_eq).
    exists false. split; [done|]. split; [done|]. intros (r1 & Hr & Hs).
    enough (∃ rest, compare p r = inr rest) as [? ?] by congruence.
    destruct Hr as [->|[_ ->]]; [exists []|exists [46]]; apply compare_app; try done;
      exists r1; by rewrite ?app_nil_r.
  - eexists. split; [done|]. unfold match_rest. rewrite orb_true_iff, andb_true_iff, negb_true_iff, bool_decide_eq_false, !bool_decide_eq_true.
    pose proof (proj1 (compare_app p r rest Hp Hl) Hc) as (r1 & -> & Hs). split.
    + intros [->|[? ->]]; exists r1; rewrite ?app_nil_r; naive_solver.
    + intros (r2 & Hr & Hs2). assert (length r1 = length r2) as Hlen by (apply same_name_length in Hs, Hs2; congruence).
      destruct Hr as [Hr|[? Hr]]; [rewrite <-(app_nil_r r2) in Hr|]; apply app_inj_1 in Hr as [_ ->]; auto.
Qed.

Lemma first_dot_inj (l l' t t' : Input) :
  46 ∉ l → 46 ∉ l' → l ++ 46 :: t = l' ++ 46 :: t' → l = l' ∧ t = t'.
Proof.
  revert l'. induction l as [|a l IH]; intros [|a' l'] Hl Hl'; cbn; [naive_solver|set_solver..|].
  intros [= -> Heq]. apply IH in Heq; set_solver.
Qed.

(** [r1] is the reference name [r], without the dot at the end of an absolute name. *)
Definition reference_of (role : IDRole) (r r1 : Input) : Prop := r = r1 ∨ role ≠ NameConstraint ∧ r = r1 ++ [46].

(** The wildcard takes the first label of the reference name. *)
Lemma match_wildcard role q r :
  q ≠ [] → last q ≠ Some 46 →
  ∃ b, match after_label r with None => Some false | Some r => match_names role (46 :: q) r end = Some b ∧
    (b = true ↔ ∃ r1, reference_of role r r1 ∧ ∃ x l t, r1 = x :: l ++ 46 :: t ∧ (46 ∉ l) ∧ same_name q t).
Proof.
  intros Hq Hlq. unfold reference_of. destruct (after_label r) as [r'|] eqn:Ha.
  - apply after_label_spec in Ha as (x & l & t & -> & Hl & ->).
    destruct (match_names_spec role (46 :: q) (46 :: t)) as (b & -> & Hb); [done|by destruct q|].
    exists b. split; [done|]. rewrite Hb. split.
    + intros ([|y r1] & Hr & Hs); [done|]. apply same_name_cons in Hs as [_ Hs].
      exists (x :: l ++ 46 :: r1). split; [|naive_solver].
      destruct Hr as [[= <- <-]|[? [= <- ->]]]; [by left|right; split; [done|]]. cbn. by rewrite <-app_assoc.
    + intros (r1 & Hr & y & l' & t' & -> & Hl' & Hs). exists (46 :: t'). split; [|by apply same_name_cons].
      destruct Hr as [[= -> Heq]|[? [= -> Heq]]]; [|rewrite <-app_assoc in Heq; cbn in Heq];
        apply first_dot_inj in Heq as [-> ->]; auto.
  - exists false. split; [done|]. split; [done|]. intros (r1 & Hr & x & l & t & -> & Hl & Hs).
    enough (∃ r', after_label r = Some r') as [? ?] by congruence.
    destruct Hr as [->|[_ ->]]; eexists; apply after_label_spec; exists x, l; [by exists t|].
    exists (t ++ [46]). cbn. by rewrite <-app_assoc.
Qed.

Lemma match_from_spec role p r :
  is_valid_dns_id (Reader := list Z) p PresentedID WildcardsYes = Ok true →
  ∃ b, match_from role p r = Some b ∧
    (b = true ↔ ∃ r1, reference_of role r r1 ∧
       (head p ≠ Some 42 ∧ same_name p r1 ∨
        ∃ q x l t, p = 42 :: 46 :: q ∧ r1 = x :: l ++ 46 :: t ∧ (46 ∉ l) ∧ same_name q t)).
Proof.
  intros (Hne & Hlast & Hdot & Hstar & Hwild)%presented_shape. unfold match_from. case_bool_decide as Hh.
  - specialize (Hwild Hh) as (q & -> & Hq & Hlq). cbn [tail].
    destruct (match_wildcard role q r Hq Hlq) as (b & -> & Hb). exists b. split; [done|]. rewrite Hb. naive_solver.
  - destruct (match_names_spec role p r) as (b & -> & Hb); [done..|]. exists b. split; [done|]. rewrite Hb.
    unfold reference_of. naive_solver.
Qed.

Lemma relative_spec (M : Input → Prop) role r :
  role ≠ NameConstraint → (∀ r1, M r1 → last r1 ≠ Some 46) →
  (∃ r1, reference_of role r r1 ∧ M r1) ↔ M (relative r).
Proof.
  intros Hrole HM. unfold reference_of, relative. case_bool_decide as Hd.
  - apply last_Some in Hd as [y ->]. rewrite removelast_last. split; [|naive_solver].
    intros (r1 & [<-|[_ [-> _]%app_inj_2]] & Hr1); [|done|done]. apply HM in Hr1. by rewrite last_snoc in Hr1.
  - split; [|naive_solver]. intros (r1 & [<-|[_ ->]] & Hr1); [done|]. by rewrite last_snoc in Hd.
Qed.

Lemma relative_incl r : relative r `prefix_of` r.
Proof.
  unfold relative. case_bool_decide as Hd; [|done]. apply last_Some in Hd as [y ->]. rewrite removelast_last. by eexists.
Qed.

Lemma same_name_not_nil a b : same_name a b → a ≠ [] → b ≠ [].
Proof. by destruct a, b. Qed.

Lemma matches_reference_list p r :
  is_valid_dns_id (Reader := list Z) p PresentedID WildcardsYes = Ok true →
  is_valid_dns_id (Reader := list Z) r ReferenceID WildcardsNo = Ok true →
  ∃ b, match_list ReferenceID p r = Some b ∧ (b = true ↔ reference_match p (relative r)).
Proof.
  intros Hp Hr. destruct (match_from_spec ReferenceID p r Hp) as (b & Hb & Hiff). exists b. split; [done|].
  apply presented_shape in Hp as (Hne & Hlast & Hdot & Hstar & Hwild). apply reference_shape in Hr as [Hrs Hrd].
  rewrite Hiff, (relative_spec (λ r1, _ ∨ _)); [|done|].
  2:{ intros r1 [[_ Hs]|(q & x & l & t & -> & -> & Hl & Hs)]; [by rewrite <-(same_name_last _ _ Hs)|].
      destruct (Hwild eq_refl) as (q' & [= <-] & Hq & Hlq). pose proof (same_name_not_nil _ _ Hs Hq).
      rewrite app_comm_cons, last_app_cons. rewrite (same_name_last _ _ Hs) in Hlq. by destruct t. }
  destruct (relative_incl r) as [k Hk]. assert (42 ∉ relative r) as Hrs'.
  { intros Hin. apply Hrs. rewrite Hk. apply elem_of_app. by left. }
  unfold reference_match. split.
  - intros [[_ Hs]|(q & x & l & t & -> & Hx & Hl & Hs)]; [by left|right]. exists q, (x :: l), t.
    split_and!; [done|done| |done]. apply not_elem_of_cons. split; [|done]. intros <-. by rewrite Hk, Hx in Hrd.
  - intros [Hs|(q & l & t & -> & Hx & Hl & Hs)]; [left|right].
    + split; [|done]. intros Hh. by eapply star_same_name.
    + destruct l as [|x l]; [by rewrite Hk, Hx in Hrd|]. apply not_elem_of_cons in Hl as [_ Hl]. by exists q, x, l, t.
Qed.

(** The asterisk cannot be in what is left of the presented name behind a prefix. *)
Lemma match_suffix pre s c :
  is_valid_dns_id (Reader := list Z) (pre ++ s) PresentedID WildcardsYes = Ok true →
  pre ≠ [] → length s = length c → s ≠ [] →
  match_from NameConstraint s c = Some (bool_decide (same_name s c)).
Proof.
  intros (_ & Hlast & _ & Hstar & _)%presented_shape Hpre Hlen Hs. unfold match_from.
  assert (head s ≠ Some 42) as Hh.
  { destruct pre as [|x pre], s as [|y s]; [done..|]. cbn in *. intros [= ->]. apply Hstar, elem_of_app. right. by left. }
  rewrite bool_decide_eq_false_2 by done.
  destruct (match_names_spec NameConstraint s c) as (b & -> & Hb); [done| |].
  { rewrite last_app in Hlast. by destruct (last s) eqn:?; [|apply last_None in Heqo]. }
  f_equal. apply eq_true_iff_eq. rewrite Hb, bool_decide_eq_true. naive_solver.
Qed.

Lemma matches_suffix_list p c :
  is_valid_dns_id (Reader := list Z) p PresentedID WildcardsYes = Ok true →
  c ≠ [] → (length c < length p)%nat →
  ∃ b, match_list NameConstraint p c = Some b ∧
    (b = true ↔ ∃ pre s, p = pre ++ s ∧ pre ≠ [] ∧ same_name s c ∧ (head c = Some 46 ∨ last pre = Some 46)).
Proof.
  intros Hp Hc Hlen. cbn [match_list]. rewrite (proj2 (Nat.ltb_lt _ _)), (bool_decide_eq_false_2 (c = [])) by done.
  set (k := (length p - length c)%nat). assert (0 < k < length p)%nat as Hk by (subst k; destruct c; cbn in *; [done|lia]).
  set (pre := take k p). set (s := drop k p). assert (p = pre ++ s) as Hps by (symmetry; apply take_drop).
  assert (length pre = k ∧ length s = length c) as [Hpre Hs] by (subst pre s k; rewrite length_take, length_drop; lia).
  assert (p !! (k - 1)%nat = last pre) as ->.
  { rewrite last_lookup, Hpre, Hps, lookup_app_l by lia. by replace (pred k) with (k - 1)%nat by lia. }
  assert (∀ pre' s', p = pre' ++ s' → same_name s' c → pre' = pre ∧ s' = s) as Huniq.
  { intros pre' s' Hp' Hs'%same_name_length. apply app_inj_2; [by rewrite Hs|]. by rewrite <-Hp'. }
  assert (pre ≠ []) as Hne by (intros Hnil; rewrite Hnil in Hpre; cbn in Hpre; lia).
  assert (s ≠ []) as Hsne by (intros Hnil; rewrite Hnil in Hs; by destruct c).
  rewrite (match_suffix pre s c) by (done || by rewrite <-Hps).
  repeat case_bool_decide; eexists; (split; [done|]); naive_solver.
Qed.

Lemma matches_constraint_list p c :
  is_valid_dns_id (Reader := list Z) p PresentedID WildcardsYes = Ok true →
  is_valid_dns_id (Reader := list Z) c NameConstraint WildcardsNo = Ok true →
  ∃ b, match_list NameConstraint p c = Some b ∧ (b = true ↔ constraint_match p c).
Proof.
  intros Hp Hc%constraint_shape. pose proof (presented_shape p Hp) as (Hne & Hlast & Hdot & Hstar & Hwild).
  unfold constraint_match. destruct (decide (c = [])) as [->|Hcne].
  { exists true. split; [|naive_solver]. cbn. by destruct p. }
  destruct (decide (length c < length p)%nat) as [Hlen|Hlen].
  - destruct (matches_suffix_list p c Hp Hcne Hlen) as (b & Hb & Hiff). exists b. split; [done|]. rewrite Hiff.
    split; [naive_solver|]. intros [?|[Hs|[?|(q & x & l & t & -> & -> & _ & Hs)]]]; [done| |done|];
      apply same_name_length in Hs; cbn in Hlen; rewrite ?length_app in Hlen; cbn in Hlen; lia.
  - destruct (match_from_spec NameConstraint p c Hp) as (b & Hb & Hiff). exists b. cbn [match_list].
    rewrite (proj2 (Nat.ltb_ge _ _)) by lia. split; [done|]. rewrite Hiff. unfold reference_of. split.
    + intros (r1 & [<-|[? _]] & [[_ Hs]|(q & x & l & t & Hw)]); [auto| |done..]. right. right. right. by exists q, x, l, t.
    + intros [?|[Hs|[(pre & s & -> & Hpre & Hs & _)|(q & x & l & t & Hw)]]]; [done| | |].
      * exists c. split; [by left|left]. split; [|done]. intros Hh. exact (star_same_name p c Hh Hc Hs).
      * apply same_name_length in Hs. rewrite length_app in Hlen. destruct pre; [done|cbn in Hlen; lia].
      * exists c. split; [by left|right]. by exists q, x, l, t.
Qed.

(** *** The syntax of names *)

Lemma is_valid_dns_id_spec hostname id_role allow_wildcards :
  ∃ b, is_valid_dns_id (Reader := list Z) hostname id_role allow_wildcards = Ok b ∧
    (b = true ↔ valid_dns_id id_role allow_wildcards hostname).
Proof.
  rewrite is_valid_dns_id_list. eexists. split; [done|]. unfold valid_dns_id.
  destruct (Z.ltb_spec 253 (Z.of_nat (length hostname))); [naive_solver lia|].
  destruct (decide (hostname = [])) as [->|Hne].
  { cbn. rewrite andb_true_r, andb_false_r. case_bool_decide; [naive_solver lia|]. split; [done|].
    intros (_ & [[??]|[(ls & Hb & _ & l & Hl & Hd)|(_ & rest & ls & ? & _)]]); [done| |done].
    destruct Hb as [<-|[[? _]|[_ Hb]]]; [|done|]; [|destruct ls as [|? []]; done].
    injection Hl as <-. done. }
  rewrite (bool_decide_eq_false_2 (hostname = [])), andb_false_r by done. cbn [negb andb].
  destruct (bool_decide (allow_wildcards = WildcardsYes) && bool_decide (head hostname = Some 42)) eqn:Hw.
  - apply andb_true_iff in Hw as [Hw%bool_decide_eq_true Hh%bool_decide_eq_true].
    destruct hostname as [|b h]; [done|]. injection Hh as ->.
    pose proof (star_not_plain id_role h) as Hstar. destruct h as [|b h]; [naive_solver|].
    destruct (decide (b = 46)) as [->|Hb]; [|rewrite bool_decide_eq_false_2 by (cbn; congruence); naive_solver].
    cbn [take drop]. rewrite (bool_decide_eq_true_2 ([42; 46] = _)) by done. cbn [andb].
    assert (h = [] → ∀ ls, (2 <= length ls)%nat → ¬ (labels h = ls ∨ id_role = ReferenceID ∧ labels h = ls ++ [[]])) as Hnil.
    { intros -> ls Hlen [<-|[_ Heq]]; [cbn in Hlen; lia|]. destruct ls as [|? []]; cbn in *; [lia..|done]. }
    case_bool_decide as Hh; cbn [negb andb]; [|rewrite accepts_wild by done]; naive_solver.
  - rewrite accepts_plain by done. apply andb_false_iff in Hw. rewrite !bool_decide_eq_false in Hw. naive_solver.
Qed.

Section claims.
Context {Reader : Type} `{!Untrusted Reader} `{!UntrustedLaws Reader}.

(** [is_valid_dns_id] always returns, and returns true exactly for the names it is
    meant to accept: at most 253 bytes that are a sequence of labels, each of one to 63 letters,
    digits, underscores and hyphens without a hyphen at its ends and the last not all digits;
    a reference name can end with a dot, a constraint can start with one or be empty, and
    where wildcards are allowed the first label can be an asterisk if two more follow. *)
Theorem is_valid_dns_id_iff hostname id_role allow_wildcards :
  ∃ b, is_valid_dns_id (Reader := Reader) hostname id_role allow_wildcards = Ok b ∧
    (b = true ↔ valid_dns_id id_role allow_wildcards hostname).
Proof.
  rewrite is_valid_dns_id_transport. apply is_valid_dns_id_spec.
Qed.


Lemma matches_internal_iff role (spec : Input → Input → Prop) p r :
  (∀ p r, is_valid_dns_id (Reader := list Z) p PresentedID WildcardsYes = Ok true →
     is_valid_dns_id (Reader := list Z) r role WildcardsNo = Ok true →
     ∃ b, match_list role p r = Some b ∧ (b = true ↔ spec p r)) →
  role ≠ PresentedID →
  ∃ o, presented_dns_id_matches_reference_dns_id_internal (Reader := Reader) p role r = Ok o ∧
    (o = None ↔ ¬ (valid_dns_id PresentedID WildcardsYes p ∧ valid_dns_id role WildcardsNo r)) ∧
    ∀ b, o = Some b → (b = true ↔ spec p r).
Proof.
  intros Hspec Hrole. rewrite matches_internal_transport.
  destruct (is_valid_dns_id_spec p PresentedID WildcardsYes) as (vp & Hvp & Hp).
  destruct (is_valid_dns_id_spec r role WildcardsNo) as (vr & Hvr & Hr).
  destruct vp, vr.
  2-4: unfold presented_dns_id_matches_reference_dns_id_internal; rewrite Hvp; cbn [mbind result_bind negb];
    rewrite ?Hvr; cbn [mbind result_bind negb]; exists None; (split; [done|]); naive_solver.
  rewrite matches_internal_list by done. destruct (Hspec p r Hvp Hvr) as (b & -> & Hb).
  exists (Some b). split; [done|]. split; [naive_solver|]. by intros ? [= <-].
Qed.


End claims.

Lemma is_valid_dns_id_iff_witness :
  is_valid_dns_id (Reader := list Z) (bytes_of "*.cess.cloud") PresentedID WildcardsYes = Ok true ∧
  valid_dns_id PresentedID WildcardsYes (bytes_of "*.cess.cloud") ∧
  ¬ valid_dns_id PresentedID WildcardsYes (bytes_of "*.cloud").
Proof.
  destruct (is_valid_dns_id_iff (Reader := list Z) (bytes_of "*.cess.cloud") PresentedID WildcardsYes) as (b & Hb & Hv).
  destruct (is_valid_dns_id_iff (Reader := list Z) (bytes_of "*.cloud") PresentedID WildcardsYes) as (b' & Hb' & Hv').
  vm_compute in Hb, Hb'. injection Hb as <-. injection Hb' as <-.
  split; [reflexivity|]. split; [by apply Hv|]. intros H%Hv'. discriminate.
Defined.


