(* ===== verification/WebpkiSafe.v ===== *)
(** * Parsing certificates does not panic

    Certificates come from outside the chain.  Parsing one, building its chain and matching
    its names always returns, whatever the bytes are ([webpki_no_panic]): no [unwrap]
    fails, no [unreachable!] is reached and every loop ends, because each of its rounds reads
    at least a byte. *)
From S2P Require Import Prelude Errors Frame Common Untrusted RingIo WebpkiDer WebpkiCert WebpkiName WebpkiNameProofs WebpkiVerify.

(** ** Parsers that return *)

Create HintDb safe discriminated.

(** A run that does not panic, and that reads at least [k] bytes and returns a value in [Q] if it
    succeeds. *)
Definition safe_at {E A} (k : nat) (Q : A → Prop) (p : Parser (list Z) E A) (l : Input) : Prop :=
  match p l with
  | (l', Ok a) => (length l' + k <= length l)%nat ∧ Q a
  | (l', Err _) => (length l' <= length l)%nat
  | (_, Panic) => False
  end.

Definition anything {A} : A → Prop := λ _, True.

Definition safe {E A} (k : nat) (p : Parser (list Z) E A) : Prop := ∀ l, safe_at k anything p l.

Definition returns {E A} (x : result E A) : Prop := match x with Panic => False | _ => True end.

Lemma returns_iff {E A} (x : result E A) : returns x ↔ x ≠ Panic.
Proof. by destruct x. Qed.

Section rules.
Context {E : Type}.
Implicit Types l : Input.

Lemma safe_at_bind {A B} j k n Q Q' (p : Parser (list Z) E A) (f : A → Parser (list Z) E B) l :
  safe_at j Q p l → (∀ a l', Q a → (length l' <= length l)%nat → safe_at k Q' (f a) l') → (n <= j + k)%nat →
  safe_at n Q' (p ≫= f) l.
Proof.
  unfold safe_at, mbind, Parser_bind. intros Hp Hf Hn. destruct (p l) as [l' [a|e|]]; [|done..].
  destruct Hp as [Hlen Ha]. specialize (Hf a l' Ha ltac:(lia)). destruct (f a l') as [l'' [b|e|]]; [|lia|done].
  destruct Hf. split; [lia|done].
Qed.

Lemma safe_bind {A B} (p : Parser (list Z) E A) (f : A → Parser (list Z) E B) :
  safe 0 p → (∀ a, safe 0 (f a)) → safe 0 (p ≫= f).
Proof. intros Hp Hf l. eapply (safe_at_bind 0 0); [apply Hp|intros a l' _ _; apply Hf|lia]. Qed.

(** The first of two parsers reads a byte. *)
Lemma safe_bind_1 {A B} (p : Parser (list Z) E A) (f : A → Parser (list Z) E B) :
  safe 1 p → (∀ a, safe 0 (f a)) → safe 1 (p ≫= f).
Proof. intros Hp Hf l. eapply (safe_at_bind 1 0); [apply Hp|intros a l' _ _; apply Hf|lia]. Qed.

Lemma safe_bind_attempt {A B} (p : Parser (list Z) E A) (f : result E A → Parser (list Z) E B) :
  safe 0 p → (∀ x, returns x → safe 0 (f x)) → safe 0 (attempt p ≫= f).
Proof.
  intros Hp Hf l. specialize (Hp l). apply (safe_at_bind 0 0 0 returns); [|intros x l' Hx _; by apply Hf|lia].
  unfold safe_at, attempt in *. destruct (p l) as [l' [a|e|]]; [|split; [lia|done]|done]. destruct Hp. by split.
Qed.

Lemma safe_weaken {A} (p : Parser (list Z) E A) : safe 1 p → safe 0 p.
Proof.
  intros Hp l. specialize (Hp l). unfold safe_at in *. destruct (p l) as [l' [a|e|]]; [|done..].
  destruct Hp. split; [lia|done].
Qed.

Lemma safe_ret {A} (a : A) : safe 0 (mret a : Parser (list Z) E A).
Proof. intros l. cbn. split; [lia|done]. Qed.

Lemma safe_fail {A} k (e : E) : safe k (fail (A := A) e).
Proof. intros l. cbn. lia. Qed.

Lemma safe_asks {A} (f : list Z → A) : safe 0 (asks (E := E) f).
Proof. intros l. cbn. split; [lia|done]. Qed.

Lemma safe_lift {A} (x : result E A) : returns x → safe 0 (lift x).
Proof. intros Hx l. destruct x; cbn in *; [split; [lia|done]|lia|done]. Qed.

Lemma safe_pmap_err {E' A} k (f : E' → E) (p : Parser (list Z) E' A) : safe k p → safe k (pmap_err f p).
Proof. intros Hp l. specialize (Hp l). unfold safe_at, pmap_err in *. by destruct (p l) as [l' [a|e|]]. Qed.

Lemma safe_read_bytes_to_end : safe 0 (total (E := E) (read_bytes_to_end (Reader := list Z))).
Proof. intros l. cbn. split; [lia|done]. Qed.

Lemma safe_skip_to_end : safe 0 (total (E := E) (skip_to_end (Reader := list Z))).
Proof. intros l. cbn. split; [lia|done]. Qed.

Lemma safe_read_partial {A} k (p : Parser (list Z) E A) : safe k p → safe k (read_partial p).
Proof. intros Hp l. specialize (Hp l). unfold safe_at in *. cbn. by destruct (p l) as [l' [a|e|]]. Qed.

Lemma read_all_returns {A} i (e : E) (p : Parser (list Z) E A) : safe_at 0 anything p i → returns (read_all i e p).
Proof. unfold safe_at. cbn. by destruct (p i) as [[|] [a|e'|]]. Qed.

Lemma read_all_optional_returns {A} o (e : E) (p : Parser (list Z) E A) x :
  (∀ i, o = Some i → safe_at 0 anything p i) → returns x → returns (read_all_optional o e p x).
Proof. intros Hp Hx. destruct o as [i|]; [by apply (read_all_returns i e p), Hp|done]. Qed.

(** A loop whose rounds read a byte before they go on ends. *)
Lemma safe_at_loop {A B} n (body : A → Parser (list Z) E (A + B)) a l :
  (∀ a l, match body a l with
          | (l', Ok (inl _)) => (length l' < length l)%nat
          | (l', Ok (inr _)) => (length l' <= length l)%nat
          | (l', Err _) => (length l' <= length l)%nat
          | (_, Panic) => False
          end) →
  (length l <= n)%nat → safe_at 0 anything (loop (S n) body a) l.
Proof.
  intros Hbody. revert a l. induction n as [|n IH]; intros a l Hn; unfold safe_at; rewrite loop_S;
    specialize (Hbody a l); destruct (body a l) as [l' [[a'|b]|e|]]; try done; try (split; [lia|done]).
  - lia.
  - specialize (IH a' l' ltac:(lia)). unfold safe_at in IH. destruct (loop (S n) body a' l') as [l'' [b|e|]]; [|lia|done].
    destruct IH. split; [lia|done].
Qed.

Lemma safe_loop {A B} n (body : A → Parser (list Z) E (A + B)) a l :
  (∀ a, safe 1 (body a)) → (length l <= n)%nat → safe_at 0 anything (loop (S n) body a) l.
Proof.
  intros Hbody. apply safe_at_loop. intros a' l'. specialize (Hbody a' l'). unfold safe_at in Hbody.
  destruct (body a' l') as [l'' [[]|e|]]; [|lia|done..]. destruct Hbody. lia.
Qed.
End rules.

Lemma safe_read_byte : safe 1 (read_byte (Reader := list Z)).
Proof. intros [|b l]; cbn; [lia|]. split; [lia|done]. Qed.

Lemma safe_read_bytes n : safe 0 (read_bytes (Reader := list Z) n).
Proof. intros l. unfold safe_at. cbn. case_decide; [|lia]. rewrite length_drop. split; [lia|done]. Qed.

#[export] Hint Resolve safe_read_byte safe_read_bytes safe_read_bytes_to_end safe_skip_to_end : safe.

(** Take a parser apart; what it calls is in the database. *)
Ltac safe_rule := fail.
Ltac safe_step :=
  lazymatch goal with
  | |- ∀ _, _ => intros ?
  | |- returns (Ok _) => exact I
  | |- returns (Err _) => exact I
  | |- returns (read_all _ _ _) => apply read_all_returns; cut_input
  | |- returns _ => solve [auto 2 with safe]
  | |- safe _ ?p =>
      first [
        solve [auto 2 with safe] | apply safe_weaken; solve [auto 2 with safe] | safe_rule | apply safe_weaken; safe_rule
      | apply safe_ret | apply safe_fail | apply safe_asks | apply safe_lift | apply safe_pmap_err
      | apply safe_read_partial | apply safe_bind | apply safe_bind_1
      | match p with
        | (if ?b then _ else _) => destruct b
        | match ?x with _ => _ end => destruct x
        end ]
  end
with cut_input :=
  match goal with |- safe_at 0 anything ?p ?i => cut (safe 0 p); [intros H; exact (H i)|] end.
Ltac safe := repeat safe_step.

(** ** DER *)

Lemma safe_read_length : safe 1 (read_length (Reader := list Z)).
Proof. unfold read_length. safe. Qed.
#[export] Hint Resolve safe_read_length : safe.

Lemma safe_read_tag_and_get_value : safe 1 (RingIo.read_tag_and_get_value (Reader := list Z)).
Proof. unfold RingIo.read_tag_and_get_value. safe. Qed.
#[export] Hint Resolve safe_read_tag_and_get_value : safe.

Lemma safe_expect_tag tag : safe 1 (RingIo.expect_tag_and_get_value (Reader := list Z) tag).
Proof. unfold RingIo.expect_tag_and_get_value. safe. Qed.
#[export] Hint Resolve safe_expect_tag : safe.

Lemma safe_nested {E R} tag (e : E) (p : Parser (list Z) E R) : safe 0 p → safe 1 (nested tag e p).
Proof. intros Hp. unfold nested. safe. Qed.

Lemma check_minimum_returns i m : returns (check_minimum (Reader := list Z) i m).
Proof. unfold check_minimum. safe. Qed.

Lemma check_second_byte_returns i : returns (check_second_byte (Reader := list Z) i).
Proof. unfold check_second_byte. safe. Qed.
#[export] Hint Resolve check_minimum_returns check_second_byte_returns : safe.

Lemma safe_nonnegative_integer m : safe 1 (nonnegative_integer (Reader := list Z) m).
Proof. unfold nonnegative_integer. safe. Qed.
#[export] Hint Resolve safe_nonnegative_integer : safe.

Lemma safe_ring_small_integer : safe 1 (RingIo.small_nonnegative_integer (Reader := list Z)).
Proof. unfold RingIo.small_nonnegative_integer. safe. Qed.

Lemma safe_ring_positive_integer : safe 1 (RingIo.positive_integer (Reader := list Z)).
Proof. unfold RingIo.positive_integer. safe. Qed.
#[export] Hint Resolve safe_ring_small_integer safe_ring_positive_integer : safe.

Lemma safe_webpki_expect_tag tag : safe 1 (expect_tag_and_get_value (Reader := list Z) tag).
Proof. unfold expect_tag_and_get_value. safe. Qed.

Lemma safe_webpki_read_tag : safe 1 (read_tag_and_get_value (Reader := list Z)).
Proof. unfold read_tag_and_get_value. safe. Qed.
#[export] Hint Resolve safe_webpki_expect_tag safe_webpki_read_tag : safe.

Lemma safe_nested_mut {R} tag e (p : nat → Parser (list Z) Error R) :
  (∀ l, safe_at 0 anything (p (length l)) l) → safe 1 (nested_mut tag e p).
Proof.
  intros Hp. unfold nested_mut. safe. pose proof (read_all_returns _ e _ (Hp a)) as Hr.
  by destruct (read_all a e (p (length a))).
Qed.

Lemma safe_nested_of_mut {S} o i e (p : S → Parser (list Z) Error S) s :
  (∀ s, safe 0 (p s)) → safe 1 (nested_of_mut o i e p s).
Proof.
  intros Hp. unfold nested_of_mut. apply safe_nested_mut. intros l. apply safe_loop; [|done].
  intros s'. unfold nested_of_mut_round. apply safe_bind_1; [|safe].
  apply safe_nested_mut. intros l'. apply Hp.
Qed.

Lemma safe_nested_mut_all {R} tag e (p : nat → Parser (list Z) Error R) :
  (∀ n, safe 0 (p n)) → safe 1 (nested_mut tag e p).
Proof. intros Hp. apply safe_nested_mut. intros l. apply Hp. Qed.
Ltac safe_rule ::= first [apply safe_nested | apply safe_nested_of_mut | apply safe_nested_mut_all].

Lemma safe_bit_string : safe 1 (bit_string_with_no_unused_bits (Reader := list Z)).
Proof. unfold bit_string_with_no_unused_bits. safe. Qed.

Lemma safe_optional_boolean : safe 0 (optional_boolean (Reader := list Z)).
Proof. unfold optional_boolean. safe. Qed.

Lemma safe_positive_integer : safe 1 (positive_integer (Reader := list Z)).
Proof. unfold positive_integer. safe. Qed.

Lemma safe_small_nonnegative_integer : safe 1 (small_nonnegative_integer (Reader := list Z)).
Proof. unfold small_nonnegative_integer. safe. Qed.
#[export] Hint Resolve safe_bit_string safe_optional_boolean safe_positive_integer safe_small_nonnegative_integer : safe.

(** Two digits are in the range asked for. *)
Lemma two_digits_at min max l : safe_at 1 (λ v, min <= v <= max) (read_two_digits (Reader := list Z) min max) l.
Proof.
  assert (safe 1 (read_digit (Reader := list Z))) as Hd by (unfold read_digit; safe).
  unfold read_two_digits. apply (safe_at_bind 1 0 1 anything); [apply Hd| |lia].
  intros hi l1 _ _. apply (safe_at_bind 0 0 0 anything); [by apply safe_weaken| |lia]. intros lo l2 _ _.
  destruct (Z.ltb_spec (hi * 10 + lo) min), (Z.ltb_spec max (hi * 10 + lo)); cbn; lia.
Qed.

Lemma safe_two_digits min max : safe 1 (read_two_digits (Reader := list Z) min max).
Proof.
  intros l. pose proof (two_digits_at min max l) as H. unfold safe_at in *.
  destruct (read_two_digits min max l) as [l' [v|e|]]; naive_solver.
Qed.
#[export] Hint Resolve safe_two_digits : safe.

Lemma time_returns year month day hours minutes seconds :
  1 <= month <= 12 → returns (time_from_ymdhms_utc year month day hours minutes seconds).
Proof.
  intros Hm. unfold time_from_ymdhms_utc, days_before_year_since_unix_epoch. case_match; [done|]. cbn [mbind result_bind].
  by rewrite days_before_month_spec.
Qed.

Lemma safe_time_choice : safe 0 (time_choice (Reader := list Z)).
Proof.
  unfold time_choice. apply safe_bind; [apply safe_asks|]. intros utc. apply safe_weaken, safe_nested, safe_bind; [safe|].
  intros [year_hi year_lo] l. apply (safe_at_bind 1 0 0 (λ month, 1 <= month <= 12)); [apply two_digits_at| |lia].
  intros month l' Hm _. revert l'. destruct (days_in_month_months (year_hi * 100 + year_lo) month Hm) as (n & -> & _).
  match goal with |- ∀ l, safe_at 0 anything (?p) l => change (safe 0 p) end.
  safe. by apply time_returns.
Qed.
#[export] Hint Resolve safe_time_choice : safe.

(** ** Certificates *)

Lemma safe_parse_signed_data : safe 0 (parse_signed_data (Reader := list Z)).
Proof. unfold parse_signed_data. safe. Qed.
#[export] Hint Resolve safe_parse_signed_data : safe.

Lemma parse_spki_returns i : returns (parse_spki_value (Reader := list Z) i).
Proof. unfold parse_spki_value. safe. Qed.

Lemma remember_returns fld `{!Setter fld} c v : returns (remember (Reader := list Z) fld c v).
Proof.
  unfold remember. destruct (fld c); [done|].
  assert (returns (read_all v BadDER (expect_tag_and_get_value (Reader := list Z) Sequence))) as Hr by safe.
  by destruct (read_all v _ _).
Qed.

Lemma remember_extension_returns c i v : returns (remember_extension (Reader := list Z) c i v).
Proof.
  unfold remember_extension. destruct (_ || _) eqn:Hid; [done|].
  apply orb_false_iff in Hid as [Hlen%negb_false_iff%Nat.eqb_eq _].
  destruct (last i) as [z|] eqn:Hl; [|apply last_None in Hl; by subst].
  repeat case_match; try done; apply remember_returns.
Qed.
#[export] Hint Resolve remember_extension_returns : safe.

Lemma safe_extension c : safe 0 (extension (Reader := list Z) c).
Proof. unfold extension. safe. Qed.
#[export] Hint Resolve safe_extension : safe.

Lemma safe_parse_tbs c p sd : safe 0 p → safe 0 (parse_tbs (Reader := list Z) c p sd).
Proof.
  intros Hp. unfold parse_tbs, version3. safe.
Qed.

Lemma parse_cert_internal_returns der c p :
  safe 0 p → returns (parse_cert_internal (Reader := list Z) der c p).
Proof.
  intros Hp. unfold parse_cert_internal.
  assert (returns (read_all der BadDER (nested (Reader := list Z) Sequence BadDER parse_signed_data))) as Hr by safe.
  destruct (read_all der _ _) as [[tbs sd]|e|]; [|done..]. cbn [mbind result_bind].
  apply read_all_returns. by apply safe_parse_tbs.
Qed.

Lemma parse_cert_returns der c : returns (parse_cert (Reader := list Z) der c).
Proof. apply parse_cert_internal_returns. unfold certificate_serial_number. safe. Qed.

Lemma cert_der_as_trust_anchor_returns der : returns (cert_der_as_trust_anchor (Reader := list Z) der).
Proof.
  unfold cert_der_as_trust_anchor.
  assert (returns (parse_cert_internal (Reader := list Z) der EndEntity (skip_value Integer))) as Hr.
  { apply parse_cert_internal_returns. unfold skip_value. safe. }
  destruct (parse_cert_internal _ _ _) as [c|[]|]; try done.
  enough (returns (parse_cert_v1 (Reader := list Z) der)) by (by destruct (parse_cert_v1 der)).
  unfold parse_cert_v1, skip_value. apply read_all_returns, safe_weaken, safe_nested, safe_bind_attempt.
  - unfold certificate_serial_number. safe.
  - intros x Hx. safe.
Qed.

(** ** Names *)

(** An address is in a network: every byte agrees where the mask is set. *)
Definition in_network (name address mask : Input) : bool :=
  forallb (λ x : Z * Z * Z, Z.land (Z.lxor x.1.1 x.1.2) x.2 =? 0) (zip (zip name address) mask).

Lemma masked_loop_list n name address mask :
  name ≠ [] → length address = length name → length mask = length name → (length name <= n)%nat →
  returned (E := Error) (loop (S n) masked_round () (name, address, mask)) = Ok (in_network name address mask).
Proof.
  revert name address mask. induction n as [|n IH]; intros [|b name] [|a address] [|m mask] Hne Ha Hm Hn;
    cbn in Ha, Hm, Hn; try done; try lia.
  rewrite loop_S. unfold masked_round at 1, on_first, on_second, punwrap. parse_unfold. unfold in_network.
  cbn [fst snd read_byte list_untrusted zip zip_with forallb].
  destruct (Z.land (Z.lxor b a) m =? 0); cbn [negb andb]; [|done].
  destruct name as [|b' name]; [by destruct address|]. cbn [fst snd at_end]. apply IH; cbn in *; try lia. done.
Qed.

(** Matching of an IP address: the only errors are wrong lengths. *)
Lemma ip_matches_list name constraint :
  presented_ip_address_matches_constraint (Reader := list Z) name constraint =
  if negb (length name =? 4)%nat && negb (length name =? 16)%nat then Err BadDER
  else if negb (length constraint =? 8)%nat && negb (length constraint =? 32)%nat then Err BadDER
  else if negb (length name * 2 =? length constraint)%nat then Ok false
  else Ok (in_network name (take (length name) constraint) (drop (length name) constraint)).
Proof.
  unfold presented_ip_address_matches_constraint. case_match eqn:Hn; [done|]. case_match; [done|].
  destruct (Nat.eqb_spec (length name * 2) (length constraint)) as [Hlen|]; [|done]. cbn [negb].
  assert (length constraint / 2 = length name)%nat as -> by (rewrite <-Hlen; apply Nat.div_mul; lia).
  assert (name ≠ []) by (intros ->; done).
  cbn [read_all list_untrusted]. unfold punwrap. parse_unfold. cbn [read_bytes list_untrusted].
  rewrite decide_True by lia. cbn [fst snd]. rewrite decide_True by (rewrite length_drop; lia).
  rewrite drop_drop, (drop_ge _ (length name + length name)) by lia. 
  rewrite (take_ge (drop _ _)) by (rewrite length_drop; lia).
  apply masked_loop_list; [done|rewrite length_take; lia|rewrite length_drop; lia|lia].
Qed.

Lemma safe_general_name : safe 1 (general_name (Reader := list Z)).
Proof. unfold general_name. safe. Qed.
#[export] Hint Resolve safe_general_name : safe.

Lemma safe_general_subtree : safe 1 (general_subtree (Reader := list Z)).
Proof. unfold general_subtree. safe. Qed.
#[export] Hint Resolve safe_general_subtree : safe.

(** A round of a loop that returns early with the error. *)
Definition round_ok {E A B} (Q : E → Prop) (body : A → Parser (list Z) E (A + B)) : Prop := ∀ a l,
  match body a l with
  | (l', Ok (inl _)) => (length l' < length l)%nat
  | (_, Ok (inr _)) => True
  | (_, Err e) => Q e
  | (_, Panic) => False
  end.

Lemma loop_returns {E A B} (Q : E → Prop) n (body : A → Parser (list Z) E (A + B)) a l :
  round_ok Q body → (length l <= n)%nat →
  match (loop (S n) body a l).2 with Ok _ => True | Err e => Q e | Panic => False end.
Proof.
  intros Hbody. revert a l. induction n as [|n IH]; intros a l Hn; rewrite loop_S;
    specialize (Hbody a l); destruct (body a l) as [l' [[a'|b]|e|]]; try done; [lia|]. apply IH. lia.
Qed.

Definition calm (x : NameIteration) : Prop := match x with KeepGoing => True | Stop x => returns x end.

Lemma names_round_ok f : (∀ n, calm (f n)) → round_ok returns (names_round (Reader := list Z) f).
Proof.
  intros Hf [] [|b l]; unfold names_round; parse_unfold; cbn [at_end list_untrusted]; [done|].
  pose proof (safe_general_name (b :: l)) as Hg. unfold safe_at in Hg.
  destruct (general_name (b :: l)) as [l' [n|e|]]; [|done..]. cbn [map_err]. specialize (Hf n).
  destruct (f n); [|done]. destruct Hg. lia.
Qed.

Lemma iterate_names_returns s o x f :
  returns x → (∀ n, calm (f n)) → returns (iterate_names (Reader := list Z) s o x f).
Proof.
  intros Hx Hf. unfold iterate_names. cbn zeta.
  set (rest := match f (DirectoryName s) with Stop y => y | KeepGoing => x end).
  assert (returns rest) as Hrest by (subst rest; specialize (Hf (DirectoryName s)); by destruct (f _)).
  destruct o as [i|]; [|done].
  pose proof (loop_returns returns (length i) (names_round f) () i (names_round_ok f Hf) ltac:(lia)) as Hl.
  cbn [reader_new list_untrusted]. by destruct (loop _ _ _ i).2.
Qed.

Lemma matches_returns p role r :
  role ≠ PresentedID → ∃ o, presented_dns_id_matches_reference_dns_id_internal (Reader := list Z) p role r = Ok o.
Proof.
  intros Hrole. destruct role; [|done|].
  - destruct (matches_internal_iff (Reader := list Z) ReferenceID _ p r matches_reference_list Hrole) as (o & Ho & _). eauto.
  - destruct (matches_internal_iff (Reader := list Z) NameConstraint _ p r matches_constraint_list Hrole) as (o & Ho & _). eauto.
Qed.

Lemma name_matches_returns t n b : returns (name_matches (Reader := list Z) t n b).
Proof.
  destruct n, b; cbn [name_matches]; try done.
  - destruct (matches_returns name NameConstraint name0 ltac:(done)) as [o Ho].
    unfold presented_dns_id_matches_dns_id_constraint. rewrite Ho. by destruct o.
  - by destruct t.
  - rewrite ip_matches_list. by repeat case_match.
  - by case_match.
Qed.

Lemma constraints_round_ok n t : round_ok calm (constraints_round (Reader := list Z) n t).
Proof.
  intros st l. unfold constraints_round. parse_unfold. pose proof (safe_general_subtree l) as Hg. unfold safe_at in Hg.
  destruct (general_subtree l) as [l' [b|e|]]; [|done..]. cbn [map_err]. destruct Hg as [Hg _].
  pose proof (name_matches_returns t n b) as Hn.
  destruct t, (name_matches _ n b) as [[]|e|]; cbn; try done; destruct l'; cbn in *; (done || lia).
Qed.

Lemma in_subtree_calm n t o : calm (check_presented_id_conforms_to_constraints_in_subtree (Reader := list Z) n t o).
Proof.
  unfold check_presented_id_conforms_to_constraints_in_subtree. destruct o as [i|]; [|done]. cbn [reader_new list_untrusted].
  pose proof (loop_returns calm (length i) _ (false, false) i (constraints_round_ok n t) ltac:(lia)) as Hl.
  destruct (loop _ _ _ i).2 as [[a b]|it|]; [by case_match|done..].
Qed.

Lemma conforms_calm n p x : calm (check_presented_id_conforms_to_constraints (Reader := list Z) n p x).
Proof.
  unfold check_presented_id_conforms_to_constraints.
  pose proof (in_subtree_calm n PermittedSubtrees p). destruct (check_presented_id_conforms_to_constraints_in_subtree _ _ p);
    [apply in_subtree_calm|done].
Qed.

Lemma check_names_returns f c : (∀ n, calm (f n)) → returns (check_names (Reader := list Z) f c).
Proof.
  intros Hf. revert c. fix IH 1. intros [[|child] sd iss v su sp bc ek nc san]; cbn [check_names];
    pose proof (iterate_names_returns su san (Ok ()) f I Hf) as Hi;
    destruct (iterate_names _ _ _ f) as [[]|e|]; cbn; (done || apply IH).
Qed.

Lemma safe_check_name_constraints c : safe 0 (check_name_constraints (Reader := list Z) c).
Proof.
  unfold check_name_constraints, parse_subtrees. safe. apply check_names_returns. intros n. apply conforms_calm.
Qed.
#[export] Hint Resolve safe_check_name_constraints : safe.

Lemma verify_cert_dns_name_returns c n : returns (verify_cert_dns_name (Reader := list Z) c n).
Proof.
  apply iterate_names_returns; [done|]. intros [p| | |]; try done.
  unfold presented_dns_id_matches_reference_dns_id. destruct (matches_returns p ReferenceID n) as [o ->]; [done|].
  by destruct o as [[]|].
Qed.

(** ** Chains *)

(** The signature algorithms return. *)
Definition algs_return (algs : list SignatureAlgorithm) : Prop :=
  Forall (λ alg, ∀ key msg sig, returns (alg.(verification_alg) key msg sig)) algs.

Lemma verify_signature_returns alg k m s :
  (∀ key msg sig, returns (alg.(verification_alg) key msg sig)) →
  returns (verify_signature (Reader := list Z) alg k m s).
Proof.
  intros Ha. unfold verify_signature. pose proof (parse_spki_returns k) as Hk.
  destruct (parse_spki_value k) as [i|e|]; [|done..]. cbn [mbind result_bind]. case_match; [done|].
  specialize (Ha (key_value i) m s). by destruct (verification_alg alg _ m s).
Qed.

Lemma verify_signed_data_returns algs k sd :
  algs_return algs → returns (verify_signed_data (Reader := list Z) algs k sd).
Proof.
  intros Hf. unfold verify_signed_data.
  assert (algs_return (filter (λ alg, matches_algorithm_id_value alg.(signature_alg_id) sd.(sd_algorithm) = true) algs))
    as Hall by (apply Forall_forall; intros alg [_ Hin]%list_elem_of_filter; by eapply Forall_forall in Hf).
  revert Hall. generalize false. induction (filter _ algs) as [|alg l IH]; intros b Hall; [done|].
  apply Forall_cons in Hall as [Ha Hall]. cbn [verify_with].
  pose proof (verify_signature_returns alg k sd.(sd_data) sd.(sd_signature) Ha) as Hv.
  destruct (verify_signature alg _ _ _) as [|[]|]; try done. by apply IH.
Qed.

Lemma check_signatures_returns algs c k : algs_return algs → returns (check_signatures (Reader := list Z) algs c k).
Proof.
  intros Hf. revert c k. fix IH 1. intros [[|child] sd iss v su sp bc ek nc san] k; cbn [check_signatures];
    pose proof (verify_signed_data_returns algs k sd Hf) as Hv; cbn [signed_data];
    destruct (verify_signed_data algs k sd) as [[]|e|]; cbn; (done || apply IH).
Qed.

Lemma loop_while_returns {V} (l : list V) f :
  (∀ v, returns (f v)) → returns (loop_while_non_fatal_error l f).
Proof. intros Hf. induction l as [|v l IH]; cbn; [done|]. specialize (Hf v). by destruct (f v). Qed.

Lemma check_trust_anchor_returns algs c ta : algs_return algs → returns (check_trust_anchor (Reader := list Z) algs c ta).
Proof.
  intros Hf. unfold check_trust_anchor. case_match; [done|].
  assert (returns (read_all_optional (ta_name_constraints ta) BadDER (check_name_constraints (Reader := list Z) c) (Ok ()))) as Hr.
  { apply read_all_optional_returns; [|done]. intros i _. apply safe_check_name_constraints. }
  destruct (read_all_optional _ _ _ _) as [[]|e|]; [|done..]. cbn. by apply check_signatures_returns.
Qed.

Lemma issuer_independent_returns c t u n e :
  returns (check_issuer_independent_properties (Reader := list Z) c t u n e).
Proof.
  unfold check_issuer_independent_properties.
  assert (∀ u b o n, returns (basic_constraints_result u b o n)) as Hbasic by (intros [] [] [] ?; cbn; try done; by case_match).
  assert (returns (read_all c.(validity) BadDER (check_validity (Reader := list Z) t))) as H1 by (unfold check_validity; safe).
  assert (returns (read_all_optional c.(basic_constraints) BadDER (check_basic_constraints (Reader := list Z) u n)
    (basic_constraints_result u false None n))) as H2.
  { apply read_all_optional_returns; [|done]. intros i _. revert i. change (safe 0 (check_basic_constraints (Reader := list Z) u n)).
    unfold check_basic_constraints. safe. }
  destruct (read_all _ _ _) as [[]|x|]; [|done..]. cbn [mbind result_bind].
  destruct (read_all_optional c.(basic_constraints) _ _ _) as [[]|x|]; [|done..]. cbn [mbind result_bind].
  apply read_all_optional_returns; [|unfold check_no_eku; by case_match].
  intros i Hi. rewrite Hi. cbn [from_option]. apply safe_loop; [|done]. intros []. unfold eku_round. safe.
Qed.

(** The values a parser returns. *)
Definition yields {E A} (Q : A → Prop) (p : Parser (list Z) E A) : Prop := ∀ l l' a, p l = (l', Ok a) → Q a.

Lemma yields_bind {E A B} Q (p : Parser (list Z) E A) (f : A → Parser (list Z) E B) :
  (∀ a, yields Q (f a)) → yields Q (p ≫= f).
Proof.
  intros Hf l l' b. unfold mbind, Parser_bind. destruct (p l) as [l1 [a|e|]]; [|done..]. apply Hf.
Qed.

Lemma yields_loop {E A B} (Q : A → Prop) (Q' : B → Prop) n (body : A → Parser (list Z) E (A + B)) a :
  (∀ a, Q a → yields (λ x, match x with inl a => Q a | inr b => Q' b end) (body a)) → Q a → yields Q' (loop n body a).
Proof.
  intros Hbody. revert a. induction n as [|n IH]; intros a Ha l l' b; [done|]. rewrite loop_S.
  destruct (body a l) as [l1 [[a'|b']|e|]] eqn:Hb; [|intros [= <- <-]|done..]; apply (Hbody a Ha) in Hb; [|done].
  by apply IH.
Qed.

Lemma read_all_yields {E A} Q i (e : E) (p : Parser (list Z) E A) a : yields Q p → read_all i e p = Ok a → Q a.
Proof. intros Hp. cbn. destruct (p i) as [[|] [b|e'|]] eqn:Hb; [|done..]. intros [= <-]. by eapply Hp. Qed.

Lemma yields_nested_mut {R} Q tag e (p : nat → Parser (list Z) Error R) :
  (∀ n, yields Q (p n)) → yields Q (nested_mut tag e p).
Proof.
  intros Hp. apply yields_bind. intros i l l' a. unfold lift.
  destruct (read_all i e (p (length i))) as [a'|x|] eqn:Hr; [|done..]. intros [= _ <-]. by eapply read_all_yields.
Qed.

Lemma yields_nested_of_mut {S} (Q : S → Prop) o i e (p : S → Parser (list Z) Error S) s :
  (∀ s, Q s → yields Q (p s)) → Q s → yields Q (nested_of_mut o i e p s).
Proof.
  intros Hp Hs. apply yields_nested_mut. intros n. apply (yields_loop Q); [|done]. intros s' Hs' l l' x.
  unfold nested_of_mut_round, mbind, Parser_bind.
  destruct (nested_mut _ _ _ l) as [l1 [s1|x1|]] eqn:Hn; [|done..]. cbn. intros [= _ <-].
  pose proof (yields_nested_mut Q i e (λ _, p s') (λ _, Hp s' Hs') l l1 s1 Hn). by destruct l1.
Qed.

(** Extensions do not change who the certificate is for. *)
Lemma extension_ee c c0 : c.(ee_or_ca) = c0 → yields (λ c', c'.(ee_or_ca) = c0) (extension (Reader := list Z) c).
Proof.
  intros Hc. unfold extension. do 3 (apply yields_bind; intros ?). intros l l' c'. unfold mbind, Parser_bind, lift.
  assert (∀ c2 u, remember_extension (Reader := list Z) c a a1 = Ok (c2, u) → c2.(ee_or_ca) = c0) as Hr.
  { intros c2 u. unfold remember_extension, remember. cbn zeta.
    destruct (read_all a1 BadDER _) as [v|e|]; cbn [mbind result_bind]; repeat case_match; intros [= <- _]; done. }
  destruct (remember_extension c a a1) as [[c2 u]|e|]; [|done..]. specialize (Hr c2 u eq_refl).
  destruct u; [by intros [= _ <-]|]. destruct a0; [done|by intros [= _ <-]].
Qed.

Lemma parse_cert_ee der c i : parse_cert (Reader := list Z) der c = Ok i → i.(ee_or_ca) = c.
Proof.
  unfold parse_cert, parse_cert_internal. destruct (read_all der _ _) as [[tbs sd]|e|]; [|done..]. cbn [mbind result_bind].
  apply (read_all_yields (λ i, i.(ee_or_ca) = c)). unfold parse_tbs. do 3 (apply yields_bind; intros ?).
  case_match; [done|]. do 4 (apply yields_bind; intros ?). apply yields_nested_mut. intros _.
  apply yields_nested_of_mut; [|done]. intros c'. apply extension_ee.
Qed.

Lemma potential_issuer_returns c der : returns (potential_issuer (Reader := list Z) c der).
Proof.
  unfold potential_issuer. pose proof (parse_cert_returns der (CA c)) as Hp.
  destruct (parse_cert der (CA c)) as [i|e|]; [|done..]. cbn [mbind result_bind]. case_match; [done|]. case_match; [done|].
  assert (returns (read_all_optional (name_constraints i) BadDER (check_name_constraints (Reader := list Z) c) (Ok ()))) as Hr.
  { apply read_all_optional_returns; [|done]. intros j _. apply safe_check_name_constraints. }
  by destruct (read_all_optional _ _ _ _).
Qed.

Lemma potential_issuer_ee c der i : potential_issuer (Reader := list Z) c der = Ok i → i.(ee_or_ca) = CA c.
Proof.
  unfold potential_issuer. destruct (parse_cert der (CA c)) as [j|e|] eqn:Hp; [|done..]. cbn [mbind result_bind].
  case_match; [done|]. case_match; [done|]. destruct (read_all_optional _ _ _ _); [|done..]. intros [= <-].
  by apply parse_cert_ee in Hp.
Qed.

(** The calls that are left for a certificate with [n] authorities below it. *)
Definition calls_left (c : Cert) (n : Z) : Z := match c.(ee_or_ca) with EndEntity => 8 | CA _ => 7 - n end.

Lemma build_chain_returns d e algs tas ics c t n :
  algs_return algs → calls_left c n <= Z.of_nat d → 0 <= n <= 6 → (c.(ee_or_ca) = EndEntity → n = 0) →
  returns (build_chain (Reader := list Z) d e algs tas ics c t n).
Proof.
  intros Ha. revert c n. induction d as [|d IH]; intros c n Hd Hn Hee.
  { unfold calls_left in Hd. destruct (ee_or_ca c); lia. }
  cbn [build_chain]. pose proof (issuer_independent_returns c t (used_as_ca c.(ee_or_ca)) n e) as Hi.
  destruct (check_issuer_independent_properties _ _ _ _ _) as [[]|x|]; [|done..]. cbn [mbind result_bind].
  pose proof (loop_while_returns tas _ (λ ta, check_trust_anchor_returns algs c ta Ha)) as Hta.
  unfold calls_left in Hd. destruct (ee_or_ca c) as [|child] eqn:Hc; cbn [used_as_ca].
  - specialize (Hee eq_refl) as ->. change (0 =? 0) with true. cbn [mbind result_bind]. destruct (loop_while_non_fatal_error tas _) as [[]|x|]; [done| |done].
    apply loop_while_returns. intros der. pose proof (potential_issuer_returns c der) as Hp.
    destruct (potential_issuer c der) as [i|y|] eqn:Hi'; [|done..]. apply potential_issuer_ee in Hi'. cbn [mbind result_bind].
    apply IH; unfold calls_left; rewrite ?Hi'; [lia|lia|done].
  - unfold MAX_SUB_CA_COUNT. destruct (Z.leb_spec 6 n); [done|]. cbn [mbind result_bind].
    destruct (loop_while_non_fatal_error tas _) as [[]|x|]; [done| |done].
    apply loop_while_returns. intros der. pose proof (potential_issuer_returns c der) as Hp.
    destruct (potential_issuer c der) as [i|y|] eqn:Hi'; [|done..]. apply potential_issuer_ee in Hi'. cbn [mbind result_bind].
    apply IH; unfold calls_left; rewrite ?Hi'; [lia|lia|done].
Qed.

(** ** The public functions *)

Section claims.
Context {Reader : Type} `{!Untrusted Reader} `{!UntrustedLaws Reader}.

(** C10 No input makes webpki panic.  If the signature algorithms return, then on every
    bytes and certificates parsing a certificate, verifying it as a server or client
    certificate, verifying a signature with its key and checking it for a host name return with
    success or an error: no [unwrap] fails, no [unreachable!] is reached, every loop ends, and
    the search for a chain stops after at most eight nested calls. *)
Theorem webpki_no_panic cert_der cert supported_sig_algs trust_anchors intermediate_certs time alg msg signature dns_name :
  algs_return (alg :: supported_sig_algs) →
  cert.(ee_or_ca) = EndEntity →
  from (Reader := Reader) cert_der ≠ Panic ∧
  verify_is_valid_tls_server_cert (Reader := Reader) cert supported_sig_algs trust_anchors intermediate_certs time ≠ Panic ∧
  verify_is_valid_tls_client_cert (Reader := Reader) cert supported_sig_algs trust_anchors intermediate_certs time ≠ Panic ∧
  verify_signature (Reader := Reader) alg cert.(spki) msg signature ≠ Panic ∧
  verify_is_valid_for_dns_name (Reader := Reader) cert dns_name ≠ Panic.
Proof.
  intros [Halg Halgs]%Forall_cons Hee. rewrite <-!returns_iff.
  unfold from, verify_is_valid_tls_server_cert, verify_is_valid_tls_client_cert, verify_is_valid_for_dns_name.
  rewrite parse_cert_transport, (build_chain_transport _ EKU_SERVER_AUTH), (build_chain_transport _ EKU_CLIENT_AUTH).
  rewrite verify_signature_transport, verify_cert_dns_name_transport.
  split; [apply parse_cert_returns|].
  split; [apply build_chain_returns; [done|unfold calls_left; by rewrite Hee|lia|done]|].
  split; [apply build_chain_returns; [done|unfold calls_left; by rewrite Hee|lia|done]|].
  split; [by apply verify_signature_returns|apply verify_cert_dns_name_returns].
Qed.
End claims.

(** A toy algorithm, for which a signature is the key, and a certificate. *)
Definition sample_alg : SignatureAlgorithm := mkSignatureAlgorithm [5] [6] (λ key msg sig, if bool_decide (sig = key) then Ok () else Err ()).
Definition sample_cert : Cert :=
  mkCert EndEntity (mkSignedData [] [6] [7]) [1] (tlv 23 (bytes_of "220101000000Z") ++ tlv 23 (bytes_of "230101000000Z"))
    [2] (tlv 48 [5] ++ tlv 3 [0; 7]) None None None None.
Definition sample_anchor : TrustAnchor := mkTrustAnchor [1] (tlv 48 [5] ++ tlv 3 [0; 7]) None.

Lemma webpki_no_panic_witness :
  verify_is_valid_tls_server_cert (Reader := list Z) sample_cert [sample_alg] [sample_anchor] [] 1650000000 = Ok () ∧
  verify_is_valid_tls_server_cert (Reader := list Z) sample_cert [sample_alg] [sample_anchor] [] 1690000000 ≠ Panic.
Proof.
  split; [vm_compute; reflexivity|].
  refine (proj1 (proj2 (webpki_no_panic [] sample_cert [sample_alg] [sample_anchor] [] 1690000000 sample_alg [] [] [] _ eq_refl))).
  repeat constructor; intros key msg sig; cbn; destruct (bool_decide (sig = key)); exact I.
Defined.
