(* ===== verification/WebpkiChain.v ===== *)
(** * What an accepted certificate guarantees

    [name_constraints_iff] says which certificates the name constraints of an issuer
    allow, [trusted_iff] that the search of [build_chain] succeeds exactly for
    the certificates that have a chain of valid issuers up to a trust anchor, signed all the way down.
    The specifications use the parsers on lists of bytes. *)
From S2P Require Import Prelude Errors Frame Common Untrusted RingIo WebpkiDer WebpkiCert WebpkiName WebpkiNameProofs WebpkiVerify WebpkiSafe.

(** ** Name constraints *)

(** The certificates of the chain below a certificate, itself first. *)
Fixpoint members (c : Cert) : list Cert :=
  c :: match c with
       | mkCert (CA child) _ _ _ _ _ _ _ _ _ => members child
       | mkCert EndEntity _ _ _ _ _ _ _ _ _ => []
       end.

(** Certificates from the end entity up. *)
Lemma cert_chain_ind (P : Cert → Prop) :
  (∀ c, c.(ee_or_ca) = EndEntity → P c) → (∀ c child, c.(ee_or_ca) = CA child → P child → P c) → ∀ c, P c.
Proof.
  intros He Hc. fix IH 1. intros [[|child] sd iss v su sp bc ek nc san]; [by apply He|]. by apply (Hc _ child), IH.
Qed.

Lemma members_unfold c : members c = c :: match c.(ee_or_ca) with CA child => members child | EndEntity => [] end.
Proof. by destruct c as [[]]. Qed.

Lemma check_names_unfold f c :
  check_names (Reader := list Z) f c =
  (iterate_names (Reader := list Z) c.(subject) c.(subject_alt_name) (Ok ()) f ;;
   match c.(ee_or_ca) with CA child => check_names (Reader := list Z) f child | EndEntity => Ok () end).
Proof. by destruct c as [[]]. Qed.

(** The bytes are the constraints [bs]; there is at least one. *)
Inductive bases : Input → list GeneralName → Prop :=
| bases_one l b : general_subtree l = ([], Ok b) → bases l [b]
| bases_more l l' b bs : general_subtree l = (l', Ok b) → bases l' bs → bases l (b :: bs).

(** The bytes are the names [ns]. *)
Inductive general_names : Input → list GeneralName → Prop :=
| names_none : general_names [] []
| names_more l l' n ns : general_name l = (l', Ok n) → general_names l' ns → general_names l (n :: ns).

(** The names of a certificate: the alternative names and the subject. *)
Definition cert_names (c : Cert) (ns : list GeneralName) : Prop :=
  ∃ alt, match c.(subject_alt_name) with Some i => general_names i alt | None => alt = [] end ∧
         ns = alt ++ [DirectoryName c.(subject)].

(** The constraints can be compared with the name, and the answers are [rs]. *)
Definition answers (subtrees : Subtrees) (name : GeneralName) (bs : list GeneralName) (rs : list bool) : Prop :=
  Forall2 (λ b r, name_matches (Reader := list Z) subtrees name b = Ok r) bs rs.

(** A name is permitted if it matches one of the permitted subtrees. *)
Definition permitted (constraints : option Input) (name : GeneralName) : Prop :=
  match constraints with
  | None => True
  | Some i => ∃ bs rs, bases i bs ∧ answers PermittedSubtrees name bs rs ∧ In true rs
  end.

(** A name is excluded unless it matches none of the excluded subtrees. *)
Definition not_excluded (constraints : option Input) (name : GeneralName) : Prop :=
  match constraints with
  | None => True
  | Some i => ∃ bs rs, bases i bs ∧ answers ExcludedSubtrees name bs rs ∧ ¬ In true rs
  end.

Lemma bases_not_nil l bs : bases l bs → l ≠ [].
Proof. by inversion 1; subst; intros ->. Qed.

Lemma bases_inv l bs :
  bases l bs ↔ ∃ l' b, general_subtree l = (l', Ok b) ∧ (l' = [] ∧ bs = [b] ∨ ∃ bs', bases l' bs' ∧ bs = b :: bs').
Proof.
  split.
  - inversion 1; subst; eexists _, _; (split; [done|]); [by left|right; eauto].
  - intros (l' & b & Hg & [[-> ->]|(bs' & Hb & ->)]); [by constructor|by econstructor].
Qed.

(** The state of the loop after a comparison. *)
Definition after_answer (subtrees : Subtrees) (st : bool * bool) (r : bool) : option (bool * bool) :=
  match subtrees with
  | PermittedSubtrees => Some (if r then (true, st.2) else (st.1, true))
  | ExcludedSubtrees => if r then None else Some st
  end.

Fixpoint compare_all (subtrees : Subtrees) (name : GeneralName) (st : bool * bool) (bs : list GeneralName) : option (bool * bool) :=
  match bs with
  | [] => Some st
  | b :: bs =>
      match name_matches (Reader := list Z) subtrees name b with
      | Ok r => st ← after_answer subtrees st r; compare_all subtrees name st bs
      | _ => None
      end
  end.

Lemma constraints_round_list name t st l :
  constraints_round (Reader := list Z) name t st l =
  match general_subtree l with
  | (l', Ok b) =>
      match name_matches (Reader := list Z) t name b with
      | Ok r =>
          match after_answer t st r with
          | Some st => (l', Ok (if bool_decide (l' = []) then inr st else inl st))
          | None => (l', Err (Stop (Err NameConstraintViolation)))
          end
      | Err e => (l', Err (Stop (Err e)))
      | Panic => (l', Panic)
      end
  | (l', Err e) => (l', Err (Stop (Err e)))
  | (l', Panic) => (l', Panic)
  end.
Proof.
  unfold constraints_round. parse_unfold. unfold abort. destruct (general_subtree l) as [l' [b|e|]]; [|done..]. cbn [map_err].
  by destruct t, (name_matches _ name b) as [[]|e|]; cbn; destruct l'.
Qed.

Lemma constraints_loop_list n name t st l st' :
  (length l <= n)%nat →
  (loop (S n) (constraints_round (Reader := list Z) name t) st l).2 = Ok st' ↔
  ∃ bs, bases l bs ∧ compare_all t name st bs = Some st'.
Proof.
  revert st l. induction n as [|n IH]; intros st l Hn.
  { destruct l as [|]; [|cbn in Hn; lia]. split; [done|]. by intros (bs & Hb%bases_not_nil & _). }
  rewrite loop_S, constraints_round_list. setoid_rewrite bases_inv.
  pose proof (safe_general_subtree l) as Hs. unfold safe_at in Hs.
  destruct (general_subtree l) as [l' [b|e|]]; [|split; [done|naive_solver]..]. destruct Hs as [Hs _].
  trans (∃ bs, (l' = [] ∧ bs = [] ∨ bases l' bs) ∧ compare_all t name st (b :: bs) = Some st').
  2:{ split.
      - intros (bs & Hb & Hc). exists (b :: bs). split; [|done]. exists l', b. split; [done|]. destruct Hb as [[-> ->]|Hb]; eauto.
      - intros (bs & (l1 & b1 & [= <- <-] & Hb) & Hc). destruct Hb as [[-> ->]|(bs' & Hb & ->)]; eauto. }
  cbn [compare_all]. destruct (name_matches t name b) as [r|e|]; [|split; [done|naive_solver]..].
  destruct (after_answer t st r) as [st1|]; cbn [mbind option_bind]; [|split; [done|naive_solver]].
  case_bool_decide as Hl.
  - subst. split; [intros [= <-]; exists []; auto|]. intros (bs & [[_ ->]|Hb%bases_not_nil] & Heq); [|done]. cbn in *. congruence.
  - rewrite IH by lia. naive_solver.
Qed.

Lemma compare_all_permitted name st bs st' :
  compare_all PermittedSubtrees name st bs = Some st' ↔
  ∃ rs, answers PermittedSubtrees name bs rs ∧ st' = (st.1 || existsb id rs, st.2 || existsb negb rs).
Proof.
  revert st. unfold answers. induction bs as [|b bs IH]; intros st; cbn [compare_all].
  - split.
    + intros [= <-]. exists []. split; [constructor|]. cbn. rewrite !orb_false_r. by destruct st.
    + intros (rs & Hf & ->). apply Forall2_nil_inv_l in Hf as ->. cbn. rewrite !orb_false_r. by destruct st.
  - trans (∃ r rs, name_matches (Reader := list Z) PermittedSubtrees name b = Ok r ∧
        answers PermittedSubtrees name bs rs ∧ st' = (st.1 || existsb id (r :: rs), st.2 || existsb negb (r :: rs))).
    2:{ split; [intros (r & rs & Hr & Hf & ->); exists (r :: rs); split; [by constructor|done]|].
        intros (rs & (r & rs' & Hr & Hf & ->)%Forall2_cons_inv_l & ->). eauto. }
    destruct (name_matches _ name b) as [r|e|]; [|split; [done|naive_solver]..].
    cbn [after_answer mbind option_bind]. rewrite IH. cbn [existsb].
    split; [intros (rs & Hf & ->); exists r, rs|intros (r' & rs & [= <-] & Hf & ->); exists rs];
      (split; [done|]); try (split; [done|]); destruct r, st as [[] []]; cbn; by rewrite ?orb_true_r.
Qed.

Lemma compare_all_excluded name st bs st' :
  compare_all ExcludedSubtrees name st bs = Some st' ↔
  st' = st ∧ ∃ rs, answers ExcludedSubtrees name bs rs ∧ ¬ In true rs.
Proof.
  revert st. unfold answers. induction bs as [|b bs IH]; intros st; cbn [compare_all].
  - split; [|naive_solver]. intros [= <-]. split; [done|]. exists []. split; [constructor|]. by intros [].
  - destruct (name_matches _ name b) as [[]|e|] eqn:Hm; cbn [after_answer mbind option_bind]; [| |split; [done|]..].
    + split; [done|]. intros (_ & rs & (r & rs' & Hr & Hf & ->)%Forall2_cons_inv_l & Hin). destruct Hin. left. congruence.
    + rewrite IH. split.
      * intros (-> & rs & Hf & Hin). split; [done|]. exists (false :: rs). split; [by constructor|]. by intros [].
      * intros (-> & rs & (r & rs' & Hr & Hf & ->)%Forall2_cons_inv_l & Hin). split; [done|]. exists rs'. split; [done|].
        intros H. apply Hin. by right.
    + intros (_ & rs & (r & rs' & Hr & _)%Forall2_cons_inv_l & _). congruence.
    + intros (_ & rs & (r & rs' & Hr & _)%Forall2_cons_inv_l & _). congruence.
Qed.

Lemma existsb_In (rs : list bool) : existsb id rs = true ↔ In true rs.
Proof. rewrite existsb_exists. unfold id. split; [intros (x & Hin & ->); done|eauto]. Qed.

Lemma answers_some t name l bs rs : bases l bs → answers t name bs rs → existsb id rs || existsb negb rs = true.
Proof.
  intros Hb Hf. destruct rs as [|r rs]; [|cbn; destruct r; cbn; by rewrite ?orb_true_r].
  apply Forall2_nil_inv_r in Hf as ->. by inversion Hb.
Qed.

(** The iteration stops with an error. *)
Definition refuses (it : NameIteration) : Prop := match it with Stop (Err _) => True | _ => False end.

Lemma constraints_round_stops name t : round_ok refuses (constraints_round (Reader := list Z) name t).
Proof.
  intros st l. pose proof (constraints_round_ok name t st l) as Hr. rewrite constraints_round_list in *.
  destruct (general_subtree l) as [l' [b|e|]]; [|done..]. destruct (name_matches _ _ _) as [r|e|]; [|done..].
  by destruct (after_answer t st r).
Qed.

(** No constraint is looked at before the loop ends. *)
Lemma in_subtree_keep_going name t i :
  check_presented_id_conforms_to_constraints_in_subtree (Reader := list Z) name t (Some i) = KeepGoing ↔
  ∃ bs st, bases i bs ∧ compare_all t name (false, false) bs = Some st ∧ (st.2 && negb st.1) = false.
Proof.
  unfold check_presented_id_conforms_to_constraints_in_subtree. cbn [reader_new list_untrusted].
  pose proof (λ st', constraints_loop_list (length i) name t (false, false) i st' ltac:(lia)) as Hl.
  pose proof (loop_returns _ (length i) _ (false, false) i (constraints_round_stops name t) ltac:(lia)) as Hstop.
  destruct (loop _ _ _ i).2 as [[m mm]|it|].
  - destruct (proj1 (Hl (m, mm)) eq_refl) as (bs & Hb & Hc). destruct (mm && negb m) eqn:Hmm.
    + split; [done|]. intros (bs' & st & Hb' & Hc' & Hst). pose proof (proj2 (Hl st)) as Heq.
      specialize (Heq ltac:(eauto)). injection Heq as <-. cbn in Hst. congruence.
    + split; [|done]. intros _. exists bs, (m, mm). auto.
  - split; [by intros ->|]. intros (bs' & st & Hb' & Hc' & Hst). pose proof (proj2 (Hl st)) as Heq. by specialize (Heq ltac:(eauto)).
  - done.
Qed.

Lemma permitted_list name o :
  check_presented_id_conforms_to_constraints_in_subtree (Reader := list Z) name PermittedSubtrees o = KeepGoing ↔
  permitted o name.
Proof.
  destruct o as [i|]; [|done]. rewrite in_subtree_keep_going. unfold permitted. setoid_rewrite compare_all_permitted.
  cbn [fst snd orb]. split.
  - intros (bs & st & Hb & (rs & Hf & ->) & Hst). exists bs, rs. split_and!; [done|done|]. apply existsb_In.
    pose proof (answers_some _ _ _ _ _ Hb Hf) as Hs. cbn in Hst. by destruct (existsb id rs), (existsb negb rs).
  - intros (bs & rs & Hb & Hf & Hin%existsb_In). exists bs. eexists. split; [done|]. split; [eauto|]. cbn. rewrite Hin.
    apply andb_false_r.
Qed.

Lemma not_excluded_list name o :
  check_presented_id_conforms_to_constraints_in_subtree (Reader := list Z) name ExcludedSubtrees o = KeepGoing ↔
  not_excluded o name.
Proof.
  destruct o as [i|]; [|done]. rewrite in_subtree_keep_going. unfold not_excluded. setoid_rewrite compare_all_excluded. split.
  - intros (bs & st & Hb & (-> & rs & Hf & Hin) & _). eauto.
  - intros (bs & rs & Hb & Hf & Hin). exists bs, (false, false). split; [done|]. split; [|done]. eauto.
Qed.

Lemma conforms_list name p x :
  check_presented_id_conforms_to_constraints (Reader := list Z) name p x = KeepGoing ↔ permitted p name ∧ not_excluded x name.
Proof.
  unfold check_presented_id_conforms_to_constraints. rewrite <-permitted_list, <-not_excluded_list.
  destruct (check_presented_id_conforms_to_constraints_in_subtree name PermittedSubtrees p); naive_solver.
Qed.

Lemma in_subtree_refuses name t o :
  let x := check_presented_id_conforms_to_constraints_in_subtree (Reader := list Z) name t o in x = KeepGoing ∨ refuses x.
Proof.
  unfold check_presented_id_conforms_to_constraints_in_subtree. destruct o as [i|]; [|by left]. cbn [reader_new list_untrusted].
  pose proof (loop_returns _ (length i) _ (false, false) i (constraints_round_stops name t) ltac:(lia)) as Hstop.
  destruct (loop _ _ _ i).2 as [[m mm]|it|]; [|by right|done]. by case_match; [right|left].
Qed.

Lemma conforms_refuses name p x :
  let y := check_presented_id_conforms_to_constraints (Reader := list Z) name p x in y = KeepGoing ∨ refuses y.
Proof.
  unfold check_presented_id_conforms_to_constraints. pose proof (in_subtree_refuses name PermittedSubtrees p) as Hp.
  destruct (check_presented_id_conforms_to_constraints_in_subtree name PermittedSubtrees p);
    [apply in_subtree_refuses|right; by destruct Hp].
Qed.

Lemma general_names_inv l ns :
  l ≠ [] → general_names l ns ↔ ∃ l' n ns', general_name l = (l', Ok n) ∧ general_names l' ns' ∧ ns = n :: ns'.
Proof.
  intros Hl. split; [inversion 1; subst; [done|eauto 6]|]. intros (l' & n & ns' & Hg & Hns & ->). by econstructor.
Qed.

Lemma names_loop_list n f l :
  (∀ x, f x = KeepGoing ∨ refuses (f x)) → (length l <= n)%nat →
  match (loop (S n) (names_round (Reader := list Z) f) () l).2 with
  | Ok _ => ∃ ns, general_names l ns ∧ Forall (λ x, f x = KeepGoing) ns
  | Err x => x ≠ Ok () ∧ ¬ ∃ ns, general_names l ns ∧ Forall (λ x, f x = KeepGoing) ns
  | Panic => False
  end.
Proof.
  intros Hf. revert l. induction n as [|n IH]; intros l Hn; rewrite loop_S; unfold names_round at 1; parse_unfold;
    (destruct l as [|b l]; [exists []; split; constructor|]); cbn [at_end list_untrusted]; [cbn in Hn; lia|].
  pose proof (λ ns, proj1 (general_names_inv (b :: l) ns ltac:(done))) as Hinv.
  pose proof (safe_general_name (b :: l)) as Hs. unfold safe_at in Hs.
  destruct (general_name (b :: l)) as [l' [x|e|]] eqn:Hg; [|split; [done|]|done].
  2:{ intros (ns & (l1 & n1 & ns1 & ? & _)%Hinv & _). done. }
  destruct Hs as [Hs _]. cbn [map_err]. destruct (Hf x) as [Hx|Hx].
  - rewrite Hx. specialize (IH l' ltac:(cbn in *; lia)). destruct (loop (S n) _ _ l').2 as [[]|y|]; [| |done].
    + destruct IH as (ns & Hns & Hall). exists (x :: ns). split; [by econstructor|by constructor].
    + destruct IH as [Hy Hno]. split; [done|]. intros (ns & (l1 & n1 & ns1 & [= <- <-] & Hns & ->)%Hinv & [_ Hall]%Forall_cons).
      apply Hno. eauto.
  - destruct (f x) as [|[]] eqn:Hfx; try done. cbn. split; [done|].
    intros (ns & (l1 & n1 & ns1 & [= <- <-] & Hns & ->)%Hinv & [Hk _]%Forall_cons). congruence.
Qed.

Lemma iterate_names_list c f :
  (∀ x, f x = KeepGoing ∨ refuses (f x)) →
  iterate_names (Reader := list Z) c.(subject) c.(subject_alt_name) (Ok ()) f = Ok () ↔
  ∃ ns, cert_names c ns ∧ Forall (λ x, f x = KeepGoing) ns.
Proof.
  intros Hf. unfold iterate_names, cert_names. cbn zeta.
  set (rest := match f (DirectoryName c.(subject)) with Stop y => y | KeepGoing => Ok () end).
  assert (rest = Ok () ↔ f (DirectoryName c.(subject)) = KeepGoing) as Hrest.
  { subst rest. destruct (Hf (DirectoryName c.(subject))) as [->|Hr]; [done|]. by destruct (f _) as [|[]]. }
  assert ((∃ ns, (∃ alt, match c.(subject_alt_name) with Some i => general_names i alt | None => alt = [] end ∧
         ns = alt ++ [DirectoryName c.(subject)]) ∧ Forall (λ x, f x = KeepGoing) ns) ↔
    (∃ alt, match c.(subject_alt_name) with Some i => general_names i alt | None => alt = [] end ∧
       Forall (λ x, f x = KeepGoing) alt) ∧ rest = Ok ()) as ->.
  { split.
    - intros (ns & (alt & Ha & ->) & [Hall Hd]%Forall_app). rewrite Forall_singleton in Hd. split; [by exists alt|by apply Hrest].
    - intros ((alt & Ha & Hall) & Hd%Hrest). eexists. split; [eauto|]. apply Forall_app. by rewrite Forall_singleton. }
  destruct c.(subject_alt_name) as [i|].
  - pose proof (names_loop_list (length i) f i Hf ltac:(lia)) as Hl. cbn [reader_new list_untrusted].
    destruct (loop _ _ _ i).2 as [[]|y|]; naive_solver.
  - split; [|naive_solver]. intros Hr. split; [|done]. exists []. split; [done|constructor].
Qed.

Lemma check_names_list f c :
  (∀ x, f x = KeepGoing ∨ refuses (f x)) →
  check_names (Reader := list Z) f c = Ok () ↔
  Forall (λ m, ∃ ns, cert_names m ns ∧ Forall (λ x, f x = KeepGoing) ns) (members c).
Proof.
  intros Hf. induction c as [c Hc|c child Hc IH] using cert_chain_ind;
    rewrite check_names_unfold, members_unfold, Hc, Forall_cons, <-(iterate_names_list c f Hf);
    (destruct (iterate_names _ _ _ f) as [[]|e|]; cbn [mbind result_bind]; [|naive_solver..]).
  - split; [split; [done|constructor]|done].
  - rewrite IH. naive_solver.
Qed.

(** The two fields of the extension. *)
Definition subtrees_of (nc : Input) : result Error (option Input * option Input) :=
  read_all (Reader := list Z) nc BadDER (
    p ← parse_subtrees ContextSpecificConstructed0;
    x ← parse_subtrees ContextSpecificConstructed1;
    mret (p, x)).

(** Every name of every certificate of the chain is permitted and not excluded. *)
Definition names_allowed (nc : option Input) (c : Cert) : Prop :=
  match nc with
  | None => True
  | Some nc => ∃ p x, subtrees_of nc = Ok (p, x) ∧
      Forall (λ m, ∃ ns, cert_names m ns ∧ Forall (λ n, permitted p n ∧ not_excluded x n) ns) (members c)
  end.

Lemma names_allowed_list nc c :
  read_all_optional (Reader := list Z) nc BadDER (check_name_constraints c) (Ok ()) = Ok () ↔ names_allowed nc c.
Proof.
  destruct nc as [nc|]; [|done]. unfold names_allowed, subtrees_of, check_name_constraints.
  cbn [read_all_optional read_all list_untrusted]. unfold mbind, Parser_bind, mret, Parser_ret.
  destruct (parse_subtrees ContextSpecificConstructed0 nc) as [l1 [p|e|]]; [|naive_solver..].
  destruct (parse_subtrees ContextSpecificConstructed1 l1) as [l2 [x|e|]]; [|naive_solver..].
  assert (check_names (Reader := list Z) (λ name, check_presented_id_conforms_to_constraints name p x) c = Ok () ↔
    Forall (λ m, ∃ ns, cert_names m ns ∧ Forall (λ n, permitted p n ∧ not_excluded x n) ns) (members c)) as Hc.
  { rewrite check_names_list by (intros n; apply conforms_refuses). by setoid_rewrite conforms_list. }
  unfold lift. destruct (check_names _ c) as [[]|e|]; destruct l2; naive_solver.
Qed.

(** ** Signatures *)

(** The first supported algorithm for the algorithms of the signature and of the key verifies
    the signature. *)
Definition signed_by (algs : list SignatureAlgorithm) (key : Input) (sd : SignedData) : Prop :=
  match parse_spki_value (Reader := list Z) key with
  | Ok info =>
      match filter (λ a, a.(signature_alg_id) = sd.(sd_algorithm) ∧ a.(public_key_alg_id) = info.(algorithm_id_value)) algs with
      | alg :: _ => alg.(verification_alg) info.(key_value) sd.(sd_data) sd.(sd_signature) = Ok ()
      | [] => False
      end
  | _ => False
  end.

Lemma verify_signed_data_list algs k sd :
  verify_signed_data (Reader := list Z) algs k sd = Ok () ↔ signed_by algs k sd.
Proof.
  unfold verify_signed_data, signed_by. generalize false as found.
  induction algs as [|alg algs IH]; intros found; [by destruct (parse_spki_value k)|].
  rewrite filter_cons. unfold matches_algorithm_id_value at 1. case_decide as Hsig; rewrite bool_decide_eq_true in Hsig.
  - cbn [verify_with]. unfold verify_signature at 1, matches_algorithm_id_value at 1.
    destruct (parse_spki_value k) as [info|[]|] eqn:Hk; cbn [mbind result_bind]; try done.
    case_bool_decide as Hkey; cbn [negb].
    + rewrite filter_cons_True by (split; congruence). by destruct (verification_alg alg _ _ _) as [[]|[]|].
    + rewrite filter_cons_False by naive_solver. apply IH.
  - rewrite IH. destruct (parse_spki_value k) as [info|[]|]; [|done..]. by rewrite filter_cons_False by naive_solver.
Qed.

(** The certificate is signed with the key, its child with its own key and so on. *)
Inductive signed_down (algs : list SignatureAlgorithm) : Cert → Input → Prop :=
| signed_end c key : c.(ee_or_ca) = EndEntity → signed_by algs key c.(signed_data) → signed_down algs c key
| signed_ca c key child :
    c.(ee_or_ca) = CA child → signed_by algs key c.(signed_data) → signed_down algs child c.(spki) → signed_down algs c key.

Lemma check_signatures_unfold algs c key :
  check_signatures (Reader := list Z) algs c key =
  (verify_signed_data (Reader := list Z) algs key c.(signed_data) ;;
   match c.(ee_or_ca) with CA child => check_signatures (Reader := list Z) algs child c.(spki) | EndEntity => Ok () end).
Proof. by destruct c as [[]]. Qed.

Lemma check_signatures_list algs c key :
  check_signatures (Reader := list Z) algs c key = Ok () ↔ signed_down algs c key.
Proof.
  revert key. induction c as [c Hc|c child Hc IH] using cert_chain_ind; intros key;
    rewrite check_signatures_unfold, Hc; pose proof (verify_signed_data_list algs key c.(signed_data)) as Hv;
    (destruct (verify_signed_data _ _ _) as [[]|e|]; cbn [mbind result_bind]; [|split; [done|]; inversion 1; subst; by apply Hv..]).
  - split; [|done]. intros _. constructor; [done|by apply Hv].
  - rewrite IH. split; [intros ?; econstructor; [done|by apply Hv|done]|]. inversion 1; subst; congruence.
Qed.

(** ** What a certificate has to satisfy by itself *)

(** The times between which the certificate is valid. *)
Definition validity_of (c : Cert) : result Error (Z * Z) :=
  read_all (Reader := list Z) c.(validity) BadDER (not_before ← time_choice; not_after ← time_choice; mret (not_before, not_after)).

Definition valid_at (time : Z) (c : Cert) : Prop :=
  ∃ not_before not_after, validity_of c = Ok (not_before, not_after) ∧ not_before <= time <= not_after.

(** Is the certificate one of an authority, and how many authorities can be below it? *)
Definition constraints_of (c : Cert) : result Error (bool * option Z) :=
  read_all_optional (Reader := list Z) c.(basic_constraints) BadDER (
    is_ca ← optional_boolean;
    e ← asks at_end;
    path_len ← (if negb e then value ← small_nonnegative_integer; mret (Some value) else mret None);
    mret (is_ca, path_len)) (Ok (false, None)).

(** Authorities are marked as such and have at most as many others below them as they say; an
    end entity is not an authority. *)
Definition role_ok (c : Cert) (below : Z) : Prop :=
  ∃ is_ca path_len, constraints_of c = Ok (is_ca, path_len) ∧
    match c.(ee_or_ca) with
    | EndEntity => is_ca = false
    | CA _ => is_ca = true ∧ below < MAX_SUB_CA_COUNT ∧ ∀ len, path_len = Some len → below <= len
    end.

(** The list of key purposes has the purpose. *)
Inductive lists_purpose (purpose : Input) : Input → Prop :=
| purpose_here l l' : expect_tag_and_get_value (Reader := list Z) OID l = (l', Ok purpose) → lists_purpose purpose l
| purpose_later l l' v :
    expect_tag_and_get_value (Reader := list Z) OID l = (l', Ok v) → v ≠ purpose → lists_purpose purpose l' → lists_purpose purpose l.

Definition purpose_ok (purpose : Input) (c : Cert) : Prop :=
  match c.(eku) with
  | Some l => lists_purpose purpose l
  | None => purpose ≠ EKU_OCSP_SIGNING
  end.

Lemma check_validity_list c t :
  read_all (Reader := list Z) c.(validity) BadDER (check_validity t) = Ok () ↔ valid_at t c.
Proof.
  unfold valid_at, validity_of, check_validity. cbn [read_all list_untrusted]. parse_unfold.
  destruct (time_choice c.(validity)) as [l1 [nb|e|]]; [|split; [done|by intros (? & ? & ? & _)]..].
  destruct (time_choice l1) as [l2 [na|e|]]; [|split; [done|by intros (? & ? & ? & _)]..].
  trans (l2 = [] ∧ nb <= t <= na).
  - destruct (Z.ltb_spec na nb), (Z.ltb_spec t nb), (Z.ltb_spec na t); destruct l2; (split; [done|lia]) || (split; [|naive_solver]; split; [done|lia]) || naive_solver lia.
  - destruct l2; [|naive_solver]. split; [intros [_ ?]; eauto|]. by intros (? & ? & [= <- <-] & ?).
Qed.

Lemma check_basic_constraints_list c n :
  read_all_optional (Reader := list Z) c.(basic_constraints) BadDER (check_basic_constraints (used_as_ca c.(ee_or_ca)) n)
    (basic_constraints_result (used_as_ca c.(ee_or_ca)) false None n) = Ok () ↔
  ∃ is_ca path_len, constraints_of c = Ok (is_ca, path_len) ∧
    basic_constraints_result (used_as_ca c.(ee_or_ca)) is_ca path_len n = Ok ().
Proof.
  unfold constraints_of, check_basic_constraints. destruct c.(basic_constraints) as [i|]; cbn [read_all_optional list_untrusted].
  2:{ split; [eauto|]. by intros (? & ? & [= <- <-] & ?). }
  unfold mbind, Parser_bind, asks, mret, Parser_ret, lift.
  destruct (optional_boolean i) as [l1 [ca|e|]]; [|split; [done|by intros (? & ? & ? & _)]..].
  destruct (if negb (at_end l1) then _ else _) as [l2 [o|e|]]; [|split; [done|by intros (? & ? & ? & _)]..].
  trans (l2 = [] ∧ basic_constraints_result (used_as_ca c.(ee_or_ca)) ca o n = Ok ()).
  - destruct (basic_constraints_result _ ca o n) as [[]|e|], l2; naive_solver.
  - destruct l2; [|naive_solver]. split; [intros [_ ?]; eauto|]. by intros (? & ? & [= <- <-] & ?).
Qed.

Lemma check_eku_loop purpose n l :
  (length l <= n)%nat →
  match check_eku (Reader := list Z) n purpose l with
  | (l', Ok _) => l' = [] ∧ lists_purpose purpose l
  | _ => ¬ lists_purpose purpose l
  end.
Proof.
  unfold check_eku. revert l. induction n as [|n IH]; intros l Hn; rewrite loop_S; unfold eku_round at 1;
    unfold mbind at 1, Parser_bind at 1; pose proof (safe_webpki_expect_tag OID l) as Hs; unfold safe_at in Hs;
    (destruct (expect_tag_and_get_value OID l) as [l1 [v|e|]] eqn:He;
      [|inversion 1; congruence..]); destruct Hs as [Hs _]; [lia|].
  parse_unfold. case_bool_decide as Hv; cbn [skip_to_end list_untrusted].
  { subst. split; [done|]. by eapply purpose_here. }
  cbn [at_end list_untrusted]. destruct l1 as [|b l1].
  { inversion 1 as [? ? H1|? l2 v' H1 ? H2]; rewrite He in H1; [congruence|]. injection H1 as <- <-. by inversion H2. }
  assert (lists_purpose purpose l ↔ lists_purpose purpose (b :: l1)) as Hiff.
  { split; [|intros; by eapply purpose_later]. inversion 1 as [? ? H1|? l2 v' H1 ? H2]; rewrite He in H1; congruence. }
  specialize (IH (b :: l1) ltac:(lia)). by destruct (loop (S n) _ _ (b :: l1)) as [l2 [[]|e|]]; rewrite Hiff.
Qed.

Lemma check_eku_list purpose c :
  read_all_optional (Reader := list Z) c.(eku) BadDER (check_eku (from_option length O c.(eku)) purpose) (check_no_eku purpose) = Ok () ↔
  purpose_ok purpose c.
Proof.
  unfold purpose_ok. destruct c.(eku) as [l|]; cbn [read_all_optional list_untrusted from_option].
  - pose proof (check_eku_loop purpose (length l) l ltac:(lia)) as Hl.
    destruct (check_eku _ purpose l) as [l' [[]|e|]]; [destruct Hl as [-> ?]|..]; naive_solver.
  - unfold check_no_eku. by case_bool_decide.
Qed.

(** Everything that is checked without looking at issuers. *)
Record acceptable (purpose : Input) (time : Z) (c : Cert) (below : Z) : Prop := {
  ac_valid : valid_at time c;
  ac_role : role_ok c below;
  ac_purpose : purpose_ok purpose c
}.

Lemma role_ok_list c n :
  role_ok c n ↔
  (∃ is_ca path_len, constraints_of c = Ok (is_ca, path_len) ∧
    basic_constraints_result (used_as_ca c.(ee_or_ca)) is_ca path_len n = Ok ()) ∧
  (c.(ee_or_ca) ≠ EndEntity → n < MAX_SUB_CA_COUNT).
Proof.
  unfold role_ok. destruct (ee_or_ca c) as [|child]; cbn [used_as_ca].
  - split; [intros (ca & o & Hc & ->); split; [by exists false, o|done]|].
    intros ((ca & o & Hc & Hb) & _). exists ca, o. by destruct ca.
  - split.
    + intros (ca & o & Hc & -> & Hn & Ho). split; [|done]. exists true, o. split; [done|]. cbn. destruct o as [len|]; [|done].
      by rewrite (proj2 (Z.ltb_ge _ _)) by (by apply Ho).
    + intros ((ca & o & Hc & Hb) & Hn). exists ca, o. split; [done|]. destruct ca; [|done]. split; [done|]. split; [by apply Hn|].
      intros len ->. cbn in Hb. destruct (Z.ltb_spec len n); [done|lia].
Qed.

Lemma acceptable_list purpose t c n :
  (c.(ee_or_ca) = EndEntity → n = 0) →
  (check_issuer_independent_properties (Reader := list Z) c t (used_as_ca c.(ee_or_ca)) n purpose ;;
   match used_as_ca c.(ee_or_ca) with
   | UsedAsCA_Yes => if MAX_SUB_CA_COUNT <=? n then Err UnknownIssuer else Ok ()
   | UsedAsCA_No => if n =? 0 then Ok () else Panic
   end) = Ok () ↔ acceptable purpose t c n.
Proof.
  intros Hee. unfold check_issuer_independent_properties.
  trans (valid_at t c ∧ role_ok c n ∧ purpose_ok purpose c); [|split; [intros (? & ? & ?); by constructor|by intros []]].
  rewrite <-check_validity_list, <-check_eku_list, role_ok_list, <-check_basic_constraints_list.
  destruct (read_all c.(validity) _ _) as [[]|e|]; cbn [mbind result_bind]; [|naive_solver..].
  destruct (read_all_optional c.(basic_constraints) _ _ _) as [[]|e|]; cbn [mbind result_bind]; [|naive_solver..].
  destruct (read_all_optional c.(eku) _ _ _) as [[]|e|]; cbn [mbind result_bind]; [|naive_solver..].
  destruct (ee_or_ca c) as [|child]; cbn [used_as_ca].
  - rewrite Hee by done. naive_solver.
  - destruct (Z.leb_spec MAX_SUB_CA_COUNT n); naive_solver lia.
Qed.

(** ** Chains *)

Section chain.
Context (purpose : Input) (algs : list SignatureAlgorithm) (anchors : list TrustAnchor) (intermediates : list Input) (time : Z).

(** An issuer of the certificate, from the intermediate certificates: it is named as the
    issuer, its key and subject are not in the chain yet, and it allows the names in the chain. *)
Record issued_by (c : Cert) (der : Input) (i : Cert) : Prop := {
  ib_offered : der ∈ intermediates;
  ib_parsed : parse_cert (Reader := list Z) der (CA c) = Ok i;
  ib_name : i.(subject) = c.(issuer);
  ib_new : Forall (λ m, ¬ (i.(spki) = m.(spki) ∧ i.(subject) = m.(subject))) (members c);
  ib_names : names_allowed i.(name_constraints) c
}.

(** A trust anchor of the certificate: it is named as the issuer, allows the names in the
    chain, and has signed it; the certificates of the chain have signed each other. *)
Record anchored_by (c : Cert) (ta : TrustAnchor) : Prop := {
  ab_offered : ta ∈ anchors;
  ab_name : c.(issuer) = ta.(ta_subject);
  ab_names : names_allowed ta.(ta_name_constraints) c;
  ab_signed : signed_down algs c ta.(ta_spki)
}.

(** The certificate, with [below] authorities below it, has a chain up to a trust anchor. *)
Inductive trusted : Cert → Z → Prop :=
| trusted_anchor c below ta : acceptable purpose time c below → anchored_by c ta → trusted c below
| trusted_issuer c below der i :
    acceptable purpose time c below → issued_by c der i →
    trusted i (match c.(ee_or_ca) with EndEntity => below | CA _ => below + 1 end) →
    trusted c below.

Lemma in_chain_unfold i c :
  in_chain i c = (bool_decide (i.(spki) = c.(spki)) && bool_decide (i.(subject) = c.(subject))) ||
                 match c.(ee_or_ca) with EndEntity => false | CA child => in_chain i child end.
Proof. destruct c as [[]]; cbn; by case_match. Qed.

Lemma in_chain_list i c :
  in_chain i c = false ↔ Forall (λ m, ¬ (i.(spki) = m.(spki) ∧ i.(subject) = m.(subject))) (members c).
Proof.
  induction c as [c Hc|c child Hc IH] using cert_chain_ind; rewrite in_chain_unfold, members_unfold, Hc, Forall_cons, orb_false_iff, andb_false_iff,
    !bool_decide_eq_false.
  - rewrite Forall_nil. destruct (decide (spki i = spki c)); naive_solver.
  - rewrite IH. destruct (decide (spki i = spki c)); naive_solver.
Qed.

Lemma potential_issuer_list c der i :
  der ∈ intermediates → potential_issuer (Reader := list Z) c der = Ok i ↔ issued_by c der i.
Proof.
  intros Hin. trans (parse_cert (Reader := list Z) der (CA c) = Ok i ∧ i.(subject) = c.(issuer) ∧
    in_chain i c = false ∧ names_allowed i.(name_constraints) c).
  2:{ rewrite in_chain_list. split; [intros (? & ? & ? & ?); by constructor|by intros []]. }
  unfold potential_issuer. destruct (parse_cert der (CA c)) as [j|e|]; cbn [mbind result_bind]; [|naive_solver..].
  trans (j = i ∧ j.(subject) = c.(issuer) ∧ in_chain j c = false ∧ names_allowed j.(name_constraints) c); [|naive_solver].
  rewrite <-names_allowed_list. case_bool_decide; cbn [negb]; [|naive_solver]. destruct (in_chain j c); [naive_solver|].
  destruct (read_all_optional _ _ _ _) as [[]|e|]; cbn [mbind result_bind]; naive_solver.
Qed.

Lemma check_trust_anchor_list c ta :
  ta ∈ anchors → check_trust_anchor (Reader := list Z) algs c ta = Ok () ↔ anchored_by c ta.
Proof.
  intros Hin. trans (c.(issuer) = ta.(ta_subject) ∧ names_allowed ta.(ta_name_constraints) c ∧ signed_down algs c ta.(ta_spki)).
  2:{ split; [intros (? & ? & ?); by constructor|by intros []]. }
  unfold check_trust_anchor. rewrite <-names_allowed_list, <-check_signatures_list. case_bool_decide; cbn [negb]; [|naive_solver].
  destruct (read_all_optional _ _ _ _) as [[]|e|]; cbn [mbind result_bind]; naive_solver.
Qed.

Lemma loop_while_ok {V} (l : list V) f :
  (∀ v, returns (f v)) → loop_while_non_fatal_error l f = Ok () ↔ ∃ v, v ∈ l ∧ f v = Ok ().
Proof.
  intros Hf. induction l as [|v l IH]; cbn; [set_solver|]. specialize (Hf v). destruct (f v) as [[]|e|] eqn:Hv; [|rewrite IH|done].
  - split; [|done]. intros _. exists v. set_solver.
  - split; [set_solver|]. intros (w & [->|Hw]%elem_of_cons & Hfw); [congruence|eauto].
Qed.

Definition next_below (c : Cert) (n : Z) : Z := match c.(ee_or_ca) with EndEntity => n | CA _ => n + 1 end.

(** The certificate is checked, then the trust anchors are tried, then the issuers. *)
Lemma build_chain_step d c n :
  build_chain (Reader := list Z) (S d) purpose algs anchors intermediates c time n = Ok () ↔
  (check_issuer_independent_properties (Reader := list Z) c time (used_as_ca c.(ee_or_ca)) n purpose ;;
   match used_as_ca c.(ee_or_ca) with
   | UsedAsCA_Yes => if MAX_SUB_CA_COUNT <=? n then Err UnknownIssuer else Ok ()
   | UsedAsCA_No => if n =? 0 then Ok () else Panic
   end) = Ok () ∧
  match loop_while_non_fatal_error anchors (check_trust_anchor (Reader := list Z) algs c) with
  | Ok _ => True
  | Panic => False
  | Err _ => loop_while_non_fatal_error intermediates (λ der,
      i ← potential_issuer (Reader := list Z) c der;
      build_chain (Reader := list Z) d purpose algs anchors intermediates i time (next_below c n)) = Ok ()
  end.
Proof.
  cbn [build_chain]. destruct (check_issuer_independent_properties _ _ _ _ _) as [[]|e|]; cbn [mbind result_bind]; [|naive_solver..].
  assert (∀ g x y : result Error unit, (x = Ok () ↔ y = Ok ()) → (g ;; x) = Ok () ↔ g = Ok () ∧ y = Ok ()) as Hseq.
  { intros [[]|e|] x y; cbn [mbind result_bind]; naive_solver. }
  trans ((match used_as_ca c.(ee_or_ca) with
   | UsedAsCA_Yes => if MAX_SUB_CA_COUNT <=? n then Err UnknownIssuer else Ok ()
   | UsedAsCA_No => if n =? 0 then Ok () else Panic
   end) = Ok () ∧ match loop_while_non_fatal_error anchors (check_trust_anchor (Reader := list Z) algs c) with
  | Ok _ => Ok ()
  | Panic => Panic
  | Err _ => loop_while_non_fatal_error intermediates (λ der,
      i ← potential_issuer (Reader := list Z) c der;
      build_chain (Reader := list Z) d purpose algs anchors intermediates i time (next_below c n))
  end = Ok ()); [|destruct (loop_while_non_fatal_error anchors _) as [[]|x|]; naive_solver].
  apply Hseq. unfold next_below. by destruct (loop_while_non_fatal_error anchors _) as [[]|x|], (ee_or_ca c).
Qed.

Lemma build_chain_list d c n :
  algs_return algs → calls_left c n <= Z.of_nat d → 0 <= n <= 6 → (c.(ee_or_ca) = EndEntity → n = 0) →
  build_chain (Reader := list Z) d purpose algs anchors intermediates c time n = Ok () ↔ trusted c n.
Proof.
  intros Ha. revert c n. induction d as [|d IH]; intros c n Hd Hn Hee.
  { unfold calls_left in Hd. destruct (ee_or_ca c); lia. }
  rewrite build_chain_step, acceptable_list by done.
  pose proof (loop_while_ok anchors _ (λ ta, check_trust_anchor_returns algs c ta Ha)) as Hanchor.
  pose proof (loop_while_returns anchors _ (λ ta, check_trust_anchor_returns algs c ta Ha)) as Hret.
  assert (acceptable purpose time c n → ∀ i, i.(ee_or_ca) = CA c →
    calls_left i (next_below c n) <= Z.of_nat d ∧ 0 <= next_below c n <= 6 ∧ (i.(ee_or_ca) = EndEntity → next_below c n = 0)) as Hnext.
  { intros [_ (ca & o & _ & Hr) _] i Hi. unfold calls_left, next_below in *. rewrite Hi. unfold MAX_SUB_CA_COUNT in Hr.
    destruct (ee_or_ca c); [specialize (Hee eq_refl)|]; (split; [lia|]; split; [lia|done]). }
  destruct (loop_while_non_fatal_error anchors _) as [[]|e|]; [| |done].
  - destruct (proj1 Hanchor eq_refl) as (ta & Hta & Hok). apply check_trust_anchor_list in Hok; [|done].
    split; [intros [Hacc _]; by eapply trusted_anchor|]. by inversion 1.
  - assert (acceptable purpose time c n → ∀ der, returns (i ← potential_issuer (Reader := list Z) c der;
      build_chain (Reader := list Z) d purpose algs anchors intermediates i time (next_below c n))) as Hder.
    { intros Hacc der. pose proof (potential_issuer_returns c der) as Hp.
      destruct (potential_issuer c der) as [i|x|] eqn:Hi; [|done..]. apply potential_issuer_ee in Hi. cbn [mbind result_bind].
      destruct (Hnext Hacc i Hi) as (? & ? & ?). by apply build_chain_returns. }
    split.
    + intros (Hacc & (der & Hin & Hok)%(loop_while_ok _ _ (Hder Hacc))). destruct (potential_issuer c der) as [i|x|] eqn:Hi; [|done..].
      pose proof (potential_issuer_ee _ _ _ Hi) as Hi'. specialize (Hnext Hacc i Hi') as (? & ? & ?).
      cbn [mbind result_bind] in Hok. apply IH in Hok; [|done..]. eapply trusted_issuer; [done| |exact Hok]. by apply potential_issuer_list.
    + inversion 1 as [? ? ta Hacc Hab|? ? der i Hacc Hib Ht]; subst.
      * assert (∃ ta, ta ∈ anchors ∧ check_trust_anchor (Reader := list Z) algs c ta = Ok ()) as Hex; [|by apply Hanchor in Hex].
        exists ta. pose proof (ab_offered _ _ Hab). split; [done|]. by apply check_trust_anchor_list.
      * split; [done|]. apply (loop_while_ok _ _ (Hder Hacc)). exists der. pose proof (ib_offered _ _ _ Hib) as Hin. split; [done|].
        apply potential_issuer_list in Hib; [|done]. pose proof (potential_issuer_ee _ _ _ Hib) as Hi'.
        specialize (Hnext Hacc i Hi') as (? & ? & ?). rewrite Hib. cbn [mbind result_bind]. by apply IH.
Qed.
End chain.

(** ** The errors of the parser *)

(** The errors a parser returns. *)
Definition fails_with {E A} (Q : E → Prop) (p : Parser (list Z) E A) : Prop := ∀ l l' e, p l = (l', Err e) → Q e.

Create HintDb fails_with discriminated.

Lemma fails_bind {E A B} Q (p : Parser (list Z) E A) (f : A → Parser (list Z) E B) :
  fails_with Q p → (∀ a, fails_with Q (f a)) → fails_with Q (p ≫= f).
Proof.
  intros Hp Hf l l' e. unfold mbind, Parser_bind. destruct (p l) as [l1 [a|e1|]] eqn:Hl; [apply Hf| |done].
  intros [= <- <-]. by eapply Hp.
Qed.

Lemma fails_ret {E A} (Q : E → Prop) (a : A) : fails_with Q (mret a).
Proof. by intros l l' e. Qed.

Lemma fails_fail {E A} (Q : E → Prop) e : Q e → fails_with Q (fail (A := A) e).
Proof. intros He l l' e'. by intros [= _ <-]. Qed.

Lemma fails_map_err {E E' A} (Q : E → Prop) e (p : Parser (list Z) E' A) : Q e → fails_with Q (pmap_err (λ _, e) p).
Proof. intros He l l' e'. unfold pmap_err. destruct (p l) as [l1 [a|e1|]]; [done| |done]. by intros [= _ <-]. Qed.

Lemma fails_total {E A} (Q : E → Prop) (f : list Z → list Z * A) : fails_with Q (total f).
Proof. intros l l' e. unfold total. by destruct (f l). Qed.

Lemma fails_read_partial {E A} (Q : E → Prop) (p : Parser (list Z) E A) : fails_with Q p → fails_with Q (read_partial p).
Proof.
  intros Hp l l' e. cbn. destruct (p l) as [l1 [a|e1|]] eqn:Hl; [done| |done]. intros [= <- <-]. by eapply Hp.
Qed.

Lemma read_all_fails {E A} (Q : E → Prop) i e (p : Parser (list Z) E A) e' :
  Q e → fails_with Q p → read_all i e p = Err e' → Q e'.
Proof.
  intros He Hp. cbn. destruct (p i) as [l [a|e1|]] eqn:Hl; [destruct l; [done|by intros [= <-]]| |done].
  intros [= <-]. by eapply Hp.
Qed.

Lemma fails_nested {A} (Q : Error → Prop) tag e (p : Parser (list Z) Error A) :
  Q e → fails_with Q p → fails_with Q (nested tag e p).
Proof.
  intros He Hp. apply fails_bind; [by apply fails_map_err|]. intros i l l' e'. unfold lift.
  destruct (read_all i e p) as [a|e1|] eqn:Hr; [done| |done]. intros [= _ <-]. by eapply read_all_fails.
Qed.

Lemma fails_nested_mut {A} (Q : Error → Prop) tag e (p : nat → Parser (list Z) Error A) : Q e → fails_with Q (nested_mut tag e p).
Proof.
  intros He. apply fails_bind; [by apply fails_map_err|]. intros i l l' e'. unfold lift.
  destruct (read_all i e _) as [a|e1|]; [done| |done]. by intros [= _ <-].
Qed.
#[local] Hint Resolve fails_ret fails_fail fails_map_err fails_total fails_read_partial fails_nested fails_nested_mut : fails_with.

(** The errors of the parser of certificates. *)
Definition parse_error (e : Error) : Prop := e ∈ [BadDER; UnsupportedCertVersion; SignatureAlgorithmMismatch].

Lemma parse_error_bad : parse_error BadDER.
Proof. unfold parse_error. set_solver. Qed.
Lemma parse_error_version : parse_error UnsupportedCertVersion.
Proof. unfold parse_error. set_solver. Qed.
Lemma parse_error_mismatch : parse_error SignatureAlgorithmMismatch.
Proof. unfold parse_error. set_solver. Qed.
#[local] Hint Resolve parse_error_bad parse_error_version parse_error_mismatch : fails_with.

Lemma fails_expect_tag tag : fails_with parse_error (expect_tag_and_get_value (Reader := list Z) tag).
Proof. unfold expect_tag_and_get_value. auto with fails_with. Qed.
Lemma fails_positive_integer : fails_with parse_error (positive_integer (Reader := list Z)).
Proof. unfold positive_integer. auto with fails_with. Qed.
Lemma fails_small_integer : fails_with parse_error (small_nonnegative_integer (Reader := list Z)).
Proof. unfold small_nonnegative_integer. auto with fails_with. Qed.
#[local] Hint Resolve fails_expect_tag fails_positive_integer fails_small_integer : fails_with.

Ltac fails := repeat first [solve [auto with fails_with] | apply fails_nested | apply fails_bind; [|intros ?] | case_match].

Lemma fails_parse_signed_data : fails_with parse_error (parse_signed_data (Reader := list Z)).
Proof.
  unfold parse_signed_data, bit_string_with_no_unused_bits. fails.
Qed.

Lemma parse_cert_fails der c e : parse_cert (Reader := list Z) der c = Err e → parse_error e.
Proof.
  unfold parse_cert, parse_cert_internal.
  destruct (read_all der _ _) as [[tbs sd]|e1|] eqn:Hr; cbn [mbind result_bind]; [| |done].
  - apply read_all_fails; [apply parse_error_bad|]. unfold parse_tbs, version3, certificate_serial_number. fails.
  - intros [= <-]. eapply read_all_fails; [apply parse_error_bad| |exact Hr]. apply fails_nested; [apply parse_error_bad|apply fails_parse_signed_data].
Qed.

(** ** The claims *)

Section claims.
Context {Reader : Type} `{!Untrusted Reader} `{!UntrustedLaws Reader}.

(** C17 What the name constraints of an issuer allow.  The check succeeds exactly if every
    alternative name and the subject of every certificate of the chain matches one of the permitted
    subtrees, if there are any, and none of the excluded ones.  A permitted subtree of one
    type so forbids the names of all other types: the comment in the code says that only entries of
    the type of the name count, but every entry that does not match counts, and as
    every certificate has a subject, a permitted DNS subtree alone forbids all certificates. *)
Theorem name_constraints_iff nc cert :
  read_all_optional (Reader := Reader) nc BadDER (check_name_constraints cert) (Ok ()) = Ok () ↔ names_allowed nc cert.
Proof. rewrite (read_all_optional_sim _ _ _ _ _ (sim_check_name_constraints cert)). apply names_allowed_list. Qed.


End claims.

(** ** Examples *)

(** A key for the toy algorithm, and a certificate in DER. *)
Definition sample_key (key : Z) : Input := tlv 48 [5] ++ tlv 3 [0; key].
Definition sample_extension (id : Z) (critical : bool) (value : Input) : Input :=
  tlv 48 (tlv 6 [85; 29; id] ++ (if critical then tlv 1 [255] else []) ++ tlv 4 (tlv 48 value)).
Definition sample_der (issuer subject key signer : Z) (extensions : Input) : Input :=
  tlv 48 (
    tlv 48 (
      tlv 160 (tlv 2 [2]) ++ tlv 2 [1] ++ tlv 48 [6] ++ tlv 48 [issuer]
      ++ tlv 48 (tlv 23 (bytes_of "220101000000Z") ++ tlv 23 (bytes_of "230101000000Z"))
      ++ tlv 48 [subject] ++ tlv 48 (sample_key key) ++ tlv 163 (tlv 48 extensions))
    ++ tlv 48 [6] ++ tlv 3 [0; signer]).

(** A root with key 7, an authority with key 8 and a server with key 9. *)
Definition sample_root : TrustAnchor := mkTrustAnchor [1] (sample_key 7) None.
Definition sample_authority : Input := sample_der 1 2 8 7 (sample_extension 19 true (tlv 1 [255])).
Definition sample_server : Input := sample_der 2 3 9 8 (sample_extension 15 false []).


(** A permitted DNS subtree, and a certificate without alternative names. *)
Lemma name_constraints_iff_witness :
  names_allowed None sample_cert ∧
  ¬ names_allowed (Some (tlv 160 (tlv 48 (tlv 48 (tlv 130 (bytes_of "cess.cloud")))))) sample_cert.
Proof.
  split.
  - refine (proj1 (name_constraints_iff (Reader := list Z) None sample_cert) _). reflexivity.
  - intros H. pose proof (proj2 (name_constraints_iff (Reader := list Z) _ sample_cert) H) as Hv. vm_compute in Hv. discriminate.
Defined.

