(* ===== verification/RingDigest.v ===== *)
(** * Digests

    [src/utils/ring/src/digest.rs] with [digest/sha1.rs] and [digest/sha2.rs]: the
    compression functions of SHA-1 and SHA-2 and the contexts that feed them with input
    of any length in any number of parts.  The Rust compression functions are the ones that
    run in the WebAssembly runtime; on other targets assembly replaces them.  However the input
    is split, the digest is that of the padded message ([digest_parts]). *)
From S2P Require Import Prelude Errors Frame Common Untrusted.

(** ** Bytes and words *)

(** [to_be_bytes] of an integer of [n] bytes *)
Fixpoint to_be_bytes (n : nat) (x : Z) : list Z :=
  match n with
  | O => []
  | S n => (x / 256 ^ Z.of_nat n) mod 256 :: to_be_bytes n x
  end.

Definition from_be_bytes (input : list Z) : Z := foldl (λ acc b, 256 * acc + b) 0 input.

Definition rotate_right (w x count : Z) : Z :=
  Z.lor (Z.shiftr x count) (Z.shiftl x (w - count) mod 2 ^ w).
Definition rotate_left (w x count : Z) : Z :=
  Z.lor (Z.shiftl x count mod 2 ^ w) (Z.shiftr x (w - count)).
Definition not_word (w x : Z) : Z := Z.lxor x (2 ^ w - 1).

(** The words of a block. *)
Fixpoint be_words (size n : nat) (bytes : list Z) : list Z :=
  match n with
  | O => []
  | S n => from_be_bytes (take size bytes) :: be_words size n (drop size bytes)
  end.

(** [word W[t]] of an array that is written from the front. *)
Definition at_ (l : list Z) (t : nat) : Z := nth t l 0.

(** ** [sha2.rs] *)

Definition ch (w x y z : Z) : Z := Z.lor (Z.land x y) (Z.land (not_word w x) z).
Definition maj (x y z : Z) : Z := Z.lor (Z.lor (Z.land x y) (Z.land x z)) (Z.land y z).

(** The trait [Sha2] with the width of the words. *)
Record Sha2 := mkSha2 {
  word_bits : Z;
  BIG_SIGMA_0 : Z * Z * Z;
  BIG_SIGMA_1 : Z * Z * Z;
  SMALL_SIGMA_0 : Z * Z * Z;
  SMALL_SIGMA_1 : Z * Z * Z;
  K : list Z
}.

Section sha2.
Context (S2 : Sha2).
Abbreviation w := (word_bits S2).

Definition SIGMA_0 (x : Z) : Z :=
  let '(a, b, c) := BIG_SIGMA_0 S2 in Z.lxor (Z.lxor (rotate_right w x a) (rotate_right w x b)) (rotate_right w x c).
Definition SIGMA_1 (x : Z) : Z :=
  let '(a, b, c) := BIG_SIGMA_1 S2 in Z.lxor (Z.lxor (rotate_right w x a) (rotate_right w x b)) (rotate_right w x c).
Definition sigma_0 (x : Z) : Z :=
  let '(a, b, c) := SMALL_SIGMA_0 S2 in Z.lxor (Z.lxor (rotate_right w x a) (rotate_right w x b)) (Z.shiftr x c).
Definition sigma_1 (x : Z) : Z :=
  let '(a, b, c) := SMALL_SIGMA_1 S2 in Z.lxor (Z.lxor (rotate_right w x a) (rotate_right w x b)) (Z.shiftr x c).

(** Step 1, the words [W[16..]]: [W] has the words below [t]. *)
Fixpoint schedule (rounds t : nat) (W : list Z) : list Z :=
  match rounds with
  | O => W
  | S rounds =>
      schedule rounds (S t)
        (W ++ [wrapping_add w (wrapping_add w (wrapping_add w (sigma_1 (at_ W (t - 2))) (at_ W (t - 7))) (sigma_0 (at_ W (t - 15)))) (at_ W (t - 16))])
  end.

(** The variables [a] to [h] *)
Definition Vars : Type := Z * Z * Z * Z * Z * Z * Z * Z.

(** Step 3 for one [Kt] and [Wt] *)
Definition sha2_round (v : Vars) (kw : Z * Z) : Vars :=
  let '(a, b, c, d, e, f, g, h) := v in
  let T1 := wrapping_add w (wrapping_add w (wrapping_add w (wrapping_add w h (SIGMA_1 e)) (ch w e f g)) kw.1) kw.2 in
  let T2 := wrapping_add w (SIGMA_0 a) (maj a b c) in
  (wrapping_add w T1 T2, a, b, c, wrapping_add w d T1, e, f, g).

(** The body of the loop over the blocks; [M] is the block. *)
Definition sha2_block (H : list Z) (M : list Z) : list Z :=
  let W := schedule (length (K S2) - 16) 16 (be_words (Z.to_nat (w / 8)) 16 M) in
  let '(a, b, c, d, e, f, g, h) :=
    foldl sha2_round (at_ H 0, at_ H 1, at_ H 2, at_ H 3, at_ H 4, at_ H 5, at_ H 6, at_ H 7) (zip (K S2) W) in
  [wrapping_add w (at_ H 0) a; wrapping_add w (at_ H 1) b; wrapping_add w (at_ H 2) c; wrapping_add w (at_ H 3) d;
   wrapping_add w (at_ H 4) e; wrapping_add w (at_ H 5) f; wrapping_add w (at_ H 6) g; wrapping_add w (at_ H 7) h].
End sha2.

(** The loop over [num] blocks of [len] bytes at the start of [data]. *)
Fixpoint over_blocks {A} (len : nat) (block : A → list Z → A) (H : A) (data : list Z) (num : nat) : A :=
  match num with
  | O => H
  | S num => over_blocks len block (block H (take len data)) (drop len data) num
  end.

Definition block_data_order (S2 : Sha2) (H : list Z) (M : list Z) (num : nat) : list Z :=
  over_blocks (16 * Z.to_nat (word_bits S2 / 8)) (sha2_block S2) H M num.

(** [Self(x)] in the tables is a [Wrapping] word. *)
Definition Wrapping (w x : Z) : Z := x mod 2 ^ w.

Definition Sha2_u32 : Sha2 := {|
  word_bits := 32;
  BIG_SIGMA_0 := (2, 13, 22);
  BIG_SIGMA_1 := (6, 11, 25);
  SMALL_SIGMA_0 := (7, 18, 3);
  SMALL_SIGMA_1 := (17, 19, 10);
  K := let Self := Wrapping 32 in [
    Self 0x428a2f98; Self 0x71374491; Self 0xb5c0fbcf; Self 0xe9b5dba5; Self 0x3956c25b; Self 0x59f111f1;
    Self 0x923f82a4; Self 0xab1c5ed5; Self 0xd807aa98; Self 0x12835b01; Self 0x243185be; Self 0x550c7dc3;
    Self 0x72be5d74; Self 0x80deb1fe; Self 0x9bdc06a7; Self 0xc19bf174; Self 0xe49b69c1; Self 0xefbe4786;
    Self 0x0fc19dc6; Self 0x240ca1cc; Self 0x2de92c6f; Self 0x4a7484aa; Self 0x5cb0a9dc; Self 0x76f988da;
    Self 0x983e5152; Self 0xa831c66d; Self 0xb00327c8; Self 0xbf597fc7; Self 0xc6e00bf3; Self 0xd5a79147;
    Self 0x06ca6351; Self 0x14292967; Self 0x27b70a85; Self 0x2e1b2138; Self 0x4d2c6dfc; Self 0x53380d13;
    Self 0x650a7354; Self 0x766a0abb; Self 0x81c2c92e; Self 0x92722c85; Self 0xa2bfe8a1; Self 0xa81a664b;
    Self 0xc24b8b70; Self 0xc76c51a3; Self 0xd192e819; Self 0xd6990624; Self 0xf40e3585; Self 0x106aa070;
    Self 0x19a4c116; Self 0x1e376c08; Self 0x2748774c; Self 0x34b0bcb5; Self 0x391c0cb3; Self 0x4ed8aa4a;
    Self 0x5b9cca4f; Self 0x682e6ff3; Self 0x748f82ee; Self 0x78a5636f; Self 0x84c87814; Self 0x8cc70208;
    Self 0x90befffa; Self 0xa4506ceb; Self 0xbef9a3f7; Self 0xc67178f2]
|}.

Definition Sha2_u64 : Sha2 := {|
  word_bits := 64;
  BIG_SIGMA_0 := (28, 34, 39);
  BIG_SIGMA_1 := (14, 18, 41);
  SMALL_SIGMA_0 := (1, 8, 7);
  SMALL_SIGMA_1 := (19, 61, 6);
  K := let Self := Wrapping 64 in [
    Self 0x428a2f98d728ae22; Self 0x7137449123ef65cd; Self 0xb5c0fbcfec4d3b2f; Self 0xe9b5dba58189dbbc;
    Self 0x3956c25bf348b538; Self 0x59f111f1b605d019; Self 0x923f82a4af194f9b; Self 0xab1c5ed5da6d8118;
    Self 0xd807aa98a3030242; Self 0x12835b0145706fbe; Self 0x243185be4ee4b28c; Self 0x550c7dc3d5ffb4e2;
    Self 0x72be5d74f27b896f; Self 0x80deb1fe3b1696b1; Self 0x9bdc06a725c71235; Self 0xc19bf174cf692694;
    Self 0xe49b69c19ef14ad2; Self 0xefbe4786384f25e3; Self 0x0fc19dc68b8cd5b5; Self 0x240ca1cc77ac9c65;
    Self 0x2de92c6f592b0275; Self 0x4a7484aa6ea6e483; Self 0x5cb0a9dcbd41fbd4; Self 0x76f988da831153b5;
    Self 0x983e5152ee66dfab; Self 0xa831c66d2db43210; Self 0xb00327c898fb213f; Self 0xbf597fc7beef0ee4;
    Self 0xc6e00bf33da88fc2; Self 0xd5a79147930aa725; Self 0x06ca6351e003826f; Self 0x142929670a0e6e70;
    Self 0x27b70a8546d22ffc; Self 0x2e1b21385c26c926; Self 0x4d2c6dfc5ac42aed; Self 0x53380d139d95b3df;
    Self 0x650a73548baf63de; Self 0x766a0abb3c77b2a8; Self 0x81c2c92e47edaee6; Self 0x92722c851482353b;
    Self 0xa2bfe8a14cf10364; Self 0xa81a664bbc423001; Self 0xc24b8b70d0f89791; Self 0xc76c51a30654be30;
    Self 0xd192e819d6ef5218; Self 0xd69906245565a910; Self 0xf40e35855771202a; Self 0x106aa07032bbd1b8;
    Self 0x19a4c116b8d2d0c8; Self 0x1e376c085141ab53; Self 0x2748774cdf8eeb99; Self 0x34b0bcb5e19b48a8;
    Self 0x391c0cb3c5c95a63; Self 0x4ed8aa4ae3418acb; Self 0x5b9cca4f7763e373; Self 0x682e6ff3d6b2b8a3;
    Self 0x748f82ee5defb2fc; Self 0x78a5636f43172f60; Self 0x84c87814a1f0ab72; Self 0x8cc702081a6439ec;
    Self 0x90befffa23631e28; Self 0xa4506cebde82bde9; Self 0xbef9a3f7b2c67915; Self 0xc67178f2e372532b;
    Self 0xca273eceea26619c; Self 0xd186b8c721c0c207; Self 0xeada7dd6cde0eb1e; Self 0xf57d4f7fee6ed178;
    Self 0x06f067aa72176fba; Self 0x0a637dc5a2c898a6; Self 0x113f9804bef90dae; Self 0x1b710b35131c471b;
    Self 0x28db77f523047d84; Self 0x32caab7b40c72493; Self 0x3c9ebe0a15c9bebc; Self 0x431d67c49c100d4c;
    Self 0x4cc5d4becb3e42b6; Self 0x597f299cfc657e2a; Self 0x5fcb6fab3ad6faec; Self 0x6c44198c4a475817]
|}.

Definition GFp_sha256_block_data_order (state : list Z) (data : list Z) (num : nat) : list Z :=
  block_data_order Sha2_u32 state data num.
Definition GFp_sha512_block_data_order (state : list Z) (data : list Z) (num : nat) : list Z :=
  block_data_order Sha2_u64 state data num.

(** ** [sha1.rs] *)

Module Sha1.
Definition parity (x y z : Z) : Z := Z.lxor (Z.lxor x y) z.
Definition rotl (x n : Z) : Z := rotate_left 32 x n.

Fixpoint schedule (rounds t : nat) (W : list Z) : list Z :=
  match rounds with
  | O => W
  | S rounds =>
      let wt := Z.lxor (Z.lxor (Z.lxor (at_ W (t - 3)) (at_ W (t - 8))) (at_ W (t - 14))) (at_ W (t - 16)) in
      schedule rounds (S t) (W ++ [rotl wt 1])
  end.

(** The [match] on [t]; the last arm is unreachable. *)
Definition round_constant (t : Z) (b c d : Z) : Z * Z :=
  if t <=? 19 then (0x5a827999, ch 32 b c d)
  else if t <=? 39 then (0x6ed9eba1, parity b c d)
  else if t <=? 59 then (0x8f1bbcdc, maj b c d)
  else (0xca62c1d6, parity b c d).

Definition round (v : Z * Z * Z * Z * Z) (tw : nat * Z) : Z * Z * Z * Z * Z :=
  let '(a, b, c, d, e) := v in
  let '(k, f) := round_constant (Z.of_nat tw.1) b c d in
  let T := wrapping_add 32 (wrapping_add 32 (wrapping_add 32 (wrapping_add 32 (rotl a 5) f) e) k) tw.2 in
  (T, a, rotl b 30, c, d).

Definition block (H : list Z) (M : list Z) : list Z :=
  let W := schedule 64 16 (be_words 4 16 M) in
  let '(a, b, c, d, e) := foldl round (at_ H 0, at_ H 1, at_ H 2, at_ H 3, at_ H 4) (imap pair W) in
  [wrapping_add 32 (at_ H 0) a; wrapping_add 32 (at_ H 1) b; wrapping_add 32 (at_ H 2) c;
   wrapping_add 32 (at_ H 3) d; wrapping_add 32 (at_ H 4) e].

Definition block_data_order_ (H : list Z) (M : list Z) (num : nat) : list Z := over_blocks 64 block H M num.

(** The first five of the eight words are the state of SHA-1. *)
Definition block_data_order (state : list Z) (data : list Z) (num : nat) : list Z :=
  block_data_order_ (take 5 state) data num ++ drop 5 state.
End Sha1.

(** ** [digest.rs] *)

Inductive AlgorithmID := ID_SHA1 | ID_SHA256 | ID_SHA384 | ID_SHA512 | ID_SHA512_256.
#[export] Instance AlgorithmID_eq_dec : EqDecision AlgorithmID.
Proof. solve_decision. Defined.

(** The union [State] is the list of the words the algorithm uses. *)
Record Algorithm := mkAlgorithm {
  output_len : nat;
  chaining_len : nat;
  block_len : nat;
  len_len : nat;
  alg_block_data_order : list Z → list Z → nat → list Z;
  format_output : list Z → list Z;
  initial_state : list Z;
  alg_id : AlgorithmID
}.

Definition MAX_BLOCK_LEN : nat := 128.

(** The bytes of the words, as they are in memory. *)
Definition sha256_format_output (input : list Z) : list Z := concat (to_be_bytes 4 <$> take 8 input).
Definition sha512_format_output (input : list Z) : list Z := concat (to_be_bytes 8 <$> take 8 input).

Definition SHA1_FOR_LEGACY_USE_ONLY : Algorithm := {|
  output_len := 20; chaining_len := 20; block_len := 64; len_len := 8;
  alg_block_data_order := Sha1.block_data_order;
  format_output := sha256_format_output;
  initial_state := [
    0x67452301; 0xefcdab89; 0x98badcfe; 0x10325476;
    0xc3d2e1f0; 0; 0; 0];
  alg_id := ID_SHA1
|}.

Definition SHA256 : Algorithm := {|
  output_len := 32; chaining_len := 32; block_len := 64; len_len := 8;
  alg_block_data_order := GFp_sha256_block_data_order;
  format_output := sha256_format_output;
  initial_state := [
    0x6a09e667; 0xbb67ae85; 0x3c6ef372; 0xa54ff53a;
    0x510e527f; 0x9b05688c; 0x1f83d9ab; 0x5be0cd19];
  alg_id := ID_SHA256
|}.

Definition SHA384 : Algorithm := {|
  output_len := 48; chaining_len := 64; block_len := 128; len_len := 16;
  alg_block_data_order := GFp_sha512_block_data_order;
  format_output := sha512_format_output;
  initial_state := [
    0xcbbb9d5dc1059ed8; 0x629a292a367cd507; 0x9159015a3070dd17; 0x152fecd8f70e5939;
    0x67332667ffc00b31; 0x8eb44a8768581511; 0xdb0c2e0d64f98fa7; 0x47b5481dbefa4fa4];
  alg_id := ID_SHA384
|}.

Definition SHA512 : Algorithm := {|
  output_len := 64; chaining_len := 64; block_len := 128; len_len := 16;
  alg_block_data_order := GFp_sha512_block_data_order;
  format_output := sha512_format_output;
  initial_state := [
    0x6a09e667f3bcc908; 0xbb67ae8584caa73b; 0x3c6ef372fe94f82b; 0xa54ff53a5f1d36f1;
    0x510e527fade682d1; 0x9b05688c2b3e6c1f; 0x1f83d9abfb41bd6b; 0x5be0cd19137e2179];
  alg_id := ID_SHA512
|}.

Definition SHA512_256 : Algorithm := {|
  output_len := 32; chaining_len := 64; block_len := 128; len_len := 16;
  alg_block_data_order := GFp_sha512_block_data_order;
  format_output := sha512_format_output;
  initial_state := [
    0x22312194fc2bf72c; 0x9f555fa3c84c64c2; 0x2393b86b6f53b151; 0x963877195940eabd;
    0x96283ee2a88effe3; 0xbe5e1e2553863992; 0x2b0199fc2c85b8aa; 0x0eb72ddc81c52ca2];
  alg_id := ID_SHA512_256
|}.

(** [dst[pos..pos + src.len()].copy_from_slice(src)] *)
Definition copy_at (dst : list Z) (pos : nat) (src : list Z) : result unit (list Z) :=
  if (pos + length src <=? length dst)%nat then Ok (take pos dst ++ src ++ drop (pos + length src) dst) else Panic.

(** [slice::fill(&mut dst[from..to], value)] *)
Definition fill_range (dst : list Z) (from to : nat) (value : Z) : result unit (list Z) :=
  if (to <? from)%nat then Panic else copy_at dst from (replicate (to - from) value).

Definition unwrap_or_panic {E A} (o : option A) : result E A := match o with Some a => Ok a | None => Panic end.

Record BlockContext := mkBlockContext {
  state : list Z;
  completed_data_blocks : Z;
  algorithm : Algorithm
}.

Record Digest := mkDigest {
  value : list Z;
  digest_algorithm : Algorithm
}.

(** [Digest::as_ref] *)
Definition digest_as_ref (d : Digest) : list Z := take d.(digest_algorithm).(output_len) d.(value).

Definition block_new (algorithm : Algorithm) : BlockContext :=
  {| state := algorithm.(initial_state); completed_data_blocks := 0; algorithm := algorithm |}.

Definition block_update (self : BlockContext) (input : list Z) : result unit BlockContext :=
  let num_blocks := (length input / self.(algorithm).(block_len))%nat in
  if negb (num_blocks * self.(algorithm).(block_len) =? length input)%nat then Panic
  else if (0 <? num_blocks)%nat then
    let state := alg_block_data_order self.(algorithm) self.(state) input num_blocks in
    completed ← unwrap_or_panic (checked_add 64 self.(completed_data_blocks) (Z.of_nat num_blocks));
    Ok {| state := state; completed_data_blocks := completed; algorithm := self.(algorithm) |}
  else Ok self.

Definition block_finish (self : BlockContext) (pending : list Z) (num_pending : nat) : result unit Digest :=
  let block_len := self.(algorithm).(block_len) in
  if negb (length pending =? block_len)%nat then Panic
  else if (length pending <? num_pending)%nat then Panic else
  pending ← copy_at pending num_pending [0x80];
  let padding_pos := S num_pending in
  '(state, pending, padding_pos) ←
    (if (block_len - self.(algorithm).(len_len) <? padding_pos)%nat then
       pending ← fill_range pending padding_pos block_len 0;
       Ok (alg_block_data_order self.(algorithm) self.(state) pending 1, pending, O)
     else Ok (self.(state), pending, padding_pos));
  pending ← fill_range pending padding_pos (block_len - 8) 0;
  bytes ← unwrap_or_panic (checked_mul 64 self.(completed_data_blocks) (Z.of_nat block_len));
  bytes ← unwrap_or_panic (checked_add 64 bytes (Z.of_nat num_pending));
  completed_data_bits ← unwrap_or_panic (checked_mul 64 bytes 8);
  pending ← copy_at pending (block_len - 8) (to_be_bytes 8 completed_data_bits);
  let state := alg_block_data_order self.(algorithm) state pending 1 in
  Ok {| value := format_output self.(algorithm) state; digest_algorithm := self.(algorithm) |}.

Record Context_ := mkContext {
  block : BlockContext;
  pending : list Z;
  num_pending : nat
}.

Definition context_new (algorithm : Algorithm) : Context_ :=
  {| block := block_new algorithm; pending := replicate MAX_BLOCK_LEN 0; num_pending := 0 |}.

Definition clone_from (block : BlockContext) : Context_ :=
  {| block := block; pending := replicate MAX_BLOCK_LEN 0; num_pending := 0 |}.

Definition context_update (self : Context_) (data : list Z) : result unit Context_ :=
  let block_len := self.(block).(algorithm).(block_len) in
  if (length data <? block_len - self.(num_pending))%nat then
    pending ← copy_at self.(pending) self.(num_pending) data;
    Ok {| block := self.(block); pending := pending; num_pending := self.(num_pending) + length data |}
  else
    '(block, pending, num_pending, remaining) ←
      (if (0 <? self.(num_pending))%nat then
         let to_copy := (block_len - self.(num_pending))%nat in
         pending ← copy_at self.(pending) self.(num_pending) (take to_copy data);
         block ← block_update self.(block) (take block_len pending);
         Ok (block, pending, O, drop to_copy data)
       else Ok (self.(block), self.(pending), self.(num_pending), data));
    let num_blocks := (length remaining / block_len)%nat in
    let num_to_save_for_later := (length remaining mod block_len)%nat in
    block ← block_update block (take (num_blocks * block_len) remaining);
    if (0 <? num_to_save_for_later)%nat then
      pending ← copy_at pending 0 (drop (length remaining - num_to_save_for_later) remaining);
      Ok {| block := block; pending := pending; num_pending := num_to_save_for_later |}
    else Ok {| block := block; pending := pending; num_pending := num_pending |}.

Definition context_finish (self : Context_) : result unit Digest :=
  block_finish self.(block) (take self.(block).(algorithm).(block_len) self.(pending)) self.(num_pending).

Definition digest (algorithm : Algorithm) (data : list Z) : result unit Digest :=
  ctx ← context_update (context_new algorithm) data;
  context_finish ctx.

(** ** The padded message *)

(** What the padding adds to a message of [n] bytes: a one bit, zeros, and the length in bits; in
    SHA-512 the upper half of the length is zero. *)
Definition padding (alg : Algorithm) (n : nat) : list Z :=
  let total := ((n + 1 + alg.(len_len) + alg.(block_len) - 1) / alg.(block_len) * alg.(block_len))%nat in
  0x80 :: replicate (total - n - 9) 0 ++ to_be_bytes 8 (8 * Z.of_nat n).

Definition hash_blocks (alg : Algorithm) (data : list Z) : list Z :=
  alg_block_data_order alg alg.(initial_state) data (length data / alg.(block_len)).

(** The digest of FIPS 180-4: the blocks of the padded message are compressed one after
    the other. *)
Definition fips_digest (alg : Algorithm) (data : list Z) : list Z :=
  format_output alg (hash_blocks alg (data ++ padding alg (length data))).

(** What the contexts need of an algorithm. *)
Record algorithm_ok (alg : Algorithm) : Prop := {
  ao_max : (alg.(block_len) <= MAX_BLOCK_LEN)%nat;
  ao_len : (8 <= alg.(len_len) < alg.(block_len))%nat;
  ao_none s : alg_block_data_order alg s [] 0 = s;
  ao_app s x y m n : length x = (m * alg.(block_len))%nat →
    alg_block_data_order alg s (x ++ y) (m + n) = alg_block_data_order alg (alg_block_data_order alg s x m) y n
}.

(** ** The algorithms are well formed *)

Lemma over_blocks_app {A} len (f : A → list Z → A) s x y m n :
  length x = (m * len)%nat → over_blocks len f s (x ++ y) (m + n) = over_blocks len f (over_blocks len f s x m) y n.
Proof.
  revert s x. induction m as [|m IH]; intros s x Hx; cbn [over_blocks Nat.add].
  - destruct x; [done|cbn in Hx; lia].
  - rewrite take_app_le, drop_app_le by lia. apply IH. rewrite length_drop. lia.
Qed.

Lemma sha2_ok S2 alg :
  (∀ s x n, alg_block_data_order alg s x n = block_data_order S2 s x n) →
  alg.(block_len) = (16 * Z.to_nat (word_bits S2 / 8))%nat → (alg.(block_len) <= MAX_BLOCK_LEN)%nat →
  (8 <= alg.(len_len) < alg.(block_len))%nat → algorithm_ok alg.
Proof.
  intros Hf Hb Hmax Hlen. split; [done|done|intros s; by rewrite Hf|].
  intros s x y m n Hx. rewrite !Hf. apply over_blocks_app. by rewrite <-Hb.
Qed.

Lemma sha1_over_blocks_length s x n : length (over_blocks 64 Sha1.block s x (S n)) = 5%nat.
Proof.
  revert s x. induction n as [|n IH]; intros s x.
  - cbn [over_blocks]. unfold Sha1.block. destruct (foldl _ _ _) as [[[[]]]]. done.
  - change (over_blocks 64 Sha1.block s x (S (S n))) with (over_blocks 64 Sha1.block (Sha1.block s (take 64 x)) (drop 64 x) (S n)). apply IH.
Qed.

Lemma sha1_ok : algorithm_ok SHA1_FOR_LEGACY_USE_ONLY.
Proof.
  split; [unfold MAX_BLOCK_LEN; cbn; lia|cbn; lia| |].
  - intros s. cbn. unfold Sha1.block_data_order. cbn. apply take_drop.
  - intros s x y m n Hx. cbn [alg_block_data_order SHA1_FOR_LEGACY_USE_ONLY]. unfold Sha1.block_data_order, Sha1.block_data_order_.
    rewrite over_blocks_app by done. destruct m as [|m].
    + cbn [over_blocks]. by rewrite take_drop.
    + pose proof (sha1_over_blocks_length (take 5 s) x m) as Hl. rewrite take_app_length', drop_app_length' by done. done.
Qed.

Lemma sha256_ok : algorithm_ok SHA256.
Proof. apply (sha2_ok Sha2_u32); [done|done|unfold MAX_BLOCK_LEN; cbn; lia|cbn; lia]. Qed.
Lemma sha384_ok : algorithm_ok SHA384.
Proof. apply (sha2_ok Sha2_u64); [done|done|unfold MAX_BLOCK_LEN; cbn; lia|cbn; lia]. Qed.
Lemma sha512_ok : algorithm_ok SHA512.
Proof. apply (sha2_ok Sha2_u64); [done|done|unfold MAX_BLOCK_LEN; cbn; lia|cbn; lia]. Qed.
Lemma sha512_256_ok : algorithm_ok SHA512_256.
Proof. apply (sha2_ok Sha2_u64); [done|done|unfold MAX_BLOCK_LEN; cbn; lia|cbn; lia]. Qed.

(** ** Feeding a context *)

Lemma copy_at_ok dst pos src :
  (pos + length src <= length dst)%nat → copy_at dst pos src = Ok (take pos dst ++ src ++ drop (pos + length src) dst).
Proof. intros H. unfold copy_at. by rewrite (proj2 (Nat.leb_le _ _)). Qed.

Section context.
Context (alg : Algorithm) (Hok : algorithm_ok alg).
Abbreviation bl := (block_len alg).

(** The block context has compressed the blocks [full]. *)
Record compressed (b : BlockContext) (full : list Z) : Prop := {
  co_alg : b.(algorithm) = alg;
  co_count : 0 <= b.(completed_data_blocks) < 2 ^ 64;
  co_full : length full = (Z.to_nat b.(completed_data_blocks) * bl)%nat;
  co_state : b.(state) = alg_block_data_order alg alg.(initial_state) full (Z.to_nat b.(completed_data_blocks))
}.

(** The context has taken in [data]: the full blocks are compressed, the rest is pending. *)
Record taken (ctx : Context_) (data : list Z) : Prop := {
  ta_pending : length ctx.(pending) = MAX_BLOCK_LEN;
  ta_num : (ctx.(num_pending) < bl)%nat;
  ta_data : ∃ full, compressed ctx.(block) full ∧ data = full ++ take ctx.(num_pending) ctx.(pending)
}.

Lemma context_new_taken : taken (context_new alg) [].
Proof.
  destruct Hok. split; cbn; [done|lia|]. exists []. split; [|done]. split; cbn; [done|lia|done|done].
Qed.

(** Whole blocks; the counter has 64 bits. *)
Lemma block_update_spec b full x n :
  compressed b full → length x = (n * bl)%nat →
  if b.(completed_data_blocks) + Z.of_nat n <? 2 ^ 64
  then ∃ b', block_update b x = Ok b' ∧ compressed b' (full ++ x) ∧
    b'.(completed_data_blocks) = b.(completed_data_blocks) + Z.of_nat n
  else block_update b x = Panic.
Proof.
  intros [Halg Hc Hfull Hst] Hx. unfold block_update. rewrite Halg, Hx. pose proof (ao_len _ Hok).
  rewrite Nat.div_mul, Nat.eqb_refl by lia. cbn [negb].
  set (c := completed_data_blocks b + Z.of_nat n).
  assert (Z.to_nat c = Z.to_nat (completed_data_blocks b) + n)%nat as Hcn by lia.
  destruct n as [|n].
  - rewrite (proj2 (Z.ltb_lt _ _)) by lia. exists b. split; [done|]. destruct x; [|cbn in Hx; lia]. rewrite app_nil_r.
    split; [done|lia].
  - rewrite (proj2 (Nat.ltb_lt _ _)) by lia. unfold unwrap_or_panic, checked_add. fold c.
    destruct (Z.ltb_spec c (2 ^ 64)); [|done]. eexists. split; [done|]. split; [|done]. split; cbn; [done|lia| |].
    + rewrite length_app. lia.
    + by rewrite Hcn, (ao_app _ Hok), Hst by done.
Qed.

(** The end of [update]: the blocks of what remains, and the rest is saved. *)
Definition absorb (b : BlockContext) (pending : list Z) (num_pending : nat) (remaining : list Z) : result unit Context_ :=
  let num_blocks := (length remaining / bl)%nat in
  let num_to_save_for_later := (length remaining mod bl)%nat in
  b ← block_update b (take (num_blocks * bl) remaining);
  if (0 <? num_to_save_for_later)%nat then
    pending ← copy_at pending 0 (drop (length remaining - num_to_save_for_later) remaining);
    Ok {| block := b; pending := pending; num_pending := num_to_save_for_later |}
  else Ok {| block := b; pending := pending; num_pending := num_pending |}.

Lemma absorb_spec b full pend rest :
  compressed b full → length pend = MAX_BLOCK_LEN →
  if b.(completed_data_blocks) + Z.of_nat (length rest / bl) <? 2 ^ 64
  then ∃ ctx, absorb b pend 0 rest = Ok ctx ∧ taken ctx (full ++ rest)
  else absorb b pend 0 rest = Panic.
Proof.
  intros Hb Hp. pose proof (ao_len _ Hok). pose proof (ao_max _ Hok).
  pose proof (Nat.div_mod (length rest) bl ltac:(lia)) as Hdm. pose proof (Nat.mod_upper_bound (length rest) bl ltac:(lia)) as Hmod.
  set (n := (length rest / bl)%nat) in *. set (m := (length rest mod bl)%nat) in *.
  pose proof (block_update_spec b full (take (n * bl) rest) n Hb ltac:(rewrite length_take; lia)) as Hu.
  unfold absorb. fold n m. clearbody n m. destruct (_ <? _); [|by rewrite Hu].
  destruct Hu as (b' & -> & Hb' & _). cbn [mbind result_bind].
  assert (full ++ rest = (full ++ take (n * bl) rest) ++ drop (n * bl) rest) as Hsplit.
  { by rewrite <-app_assoc, take_drop. }
  destruct (Nat.ltb_spec 0 m) as [Hm|Hm].
  - replace (length rest - m)%nat with (n * bl)%nat by lia.
    rewrite copy_at_ok by (rewrite length_drop; lia). cbn [mbind result_bind]. rewrite take_0. cbn [app].
    eexists. split; [done|]. split; cbn.
    + rewrite length_app, !length_drop. lia.
    + done.
    + eexists. split; [exact Hb'|]. rewrite take_app_length' by (rewrite length_drop; lia). done.
  - eexists. split; [done|]. split; cbn; [done|lia|]. eexists. split; [exact Hb'|]. rewrite app_nil_r, Hsplit.
    rewrite (drop_ge rest) by lia. by rewrite app_nil_r.
Qed.

Lemma div_blocks c np n : (np + n < bl)%nat → ((c * bl + np + n) / bl = c)%nat.
Proof. intros H. pose proof (ao_len _ Hok). rewrite <-Nat.add_assoc, Nat.div_add_l, Nat.div_small by lia. lia. Qed.

(** [update] with less than a block in all. *)
Lemma context_update_short ctx full d :
  compressed ctx.(block) full → length ctx.(pending) = MAX_BLOCK_LEN → (length d < bl - ctx.(num_pending))%nat →
  ∃ ctx', context_update ctx d = Ok ctx' ∧ taken ctx' ((full ++ take ctx.(num_pending) ctx.(pending)) ++ d).
Proof.
  intros Hb Hp Hd. pose proof (ao_max _ Hok). unfold context_update. rewrite (co_alg _ _ Hb).
  rewrite (proj2 (Nat.ltb_lt _ _)) by done. rewrite copy_at_ok by lia. cbn [mbind result_bind].
  eexists. split; [done|]. split; cbn.
  - rewrite !length_app, length_take, length_drop. lia.
  - lia.
  - exists full. split; [done|]. rewrite <-app_assoc. f_equal.
    rewrite app_assoc, take_app_length' by (rewrite length_app, length_take; lia). done.
Qed.

(** [update] that completes the pending block. *)
Lemma context_update_pending ctx full d :
  compressed ctx.(block) full → length ctx.(pending) = MAX_BLOCK_LEN →
  (0 < ctx.(num_pending) < bl)%nat → (bl - ctx.(num_pending) <= length d)%nat →
  if ctx.(block).(completed_data_blocks) + 1 + Z.of_nat (length (drop (bl - ctx.(num_pending)) d) / bl) <? 2 ^ 64
  then ∃ ctx', context_update ctx d = Ok ctx' ∧ taken ctx' ((full ++ take ctx.(num_pending) ctx.(pending)) ++ d)
  else context_update ctx d = Panic.
Proof.
  intros Hb Hp Hnp Hd. pose proof (ao_max _ Hok). unfold context_update. rewrite (co_alg _ _ Hb).
  set (np := num_pending ctx) in *. rewrite (proj2 (Nat.ltb_ge (length d) _)), (proj2 (Nat.ltb_lt 0 np)) by lia.
  assert (length (take (bl - np) d) = bl - np)%nat as Hlen by (rewrite length_take; lia).
  rewrite copy_at_ok by lia. cbn [mbind result_bind]. rewrite Hlen. replace (np + (bl - np))%nat with bl by lia.
  set (pend := take np (pending ctx) ++ take (bl - np) d ++ drop bl (pending ctx)).
  assert (take bl pend = take np (pending ctx) ++ take (bl - np) d) as ->.
  { unfold pend. rewrite app_assoc, take_app_length' by (rewrite length_app, length_take; lia). done. }
  assert (length pend = MAX_BLOCK_LEN) as Hpend by (unfold pend; rewrite !length_app, length_take, length_drop, Hlen; lia).
  pose proof (block_update_spec (block ctx) full (take np (pending ctx) ++ take (bl - np) d) 1 Hb
    ltac:(rewrite length_app, length_take, Hlen; lia)) as Hu. change (Z.of_nat 1) with 1 in Hu.
  destruct (Z.ltb_spec (completed_data_blocks (block ctx) + 1) (2 ^ 64)).
  2:{ rewrite Hu, (proj2 (Z.ltb_ge _ _)) by lia. done. }
  destruct Hu as (b' & -> & Hb' & Hc'). cbn [mbind result_bind].
  pose proof (absorb_spec b' _ pend (drop (bl - np) d) Hb' Hpend) as Ha. rewrite Hc' in Ha.
  rewrite <-!app_assoc, take_drop in Ha. rewrite <-app_assoc. exact Ha.
Qed.

Lemma context_update_spec ctx data d :
  taken ctx data →
  if Z.of_nat ((length data + length d) / bl) <? 2 ^ 64
  then ∃ ctx', context_update ctx d = Ok ctx' ∧ taken ctx' (data ++ d)
  else context_update ctx d = Panic.
Proof.
  intros [Hp Hn (full & Hb & ->)]. pose proof (ao_len _ Hok). pose proof (ao_max _ Hok). pose proof Hb as [Halg Hc Hfull _].
  set (c := completed_data_blocks (block ctx)) in *.
  assert (length (full ++ take (num_pending ctx) (pending ctx)) = Z.to_nat c * bl + num_pending ctx)%nat as ->
    by (rewrite length_app, length_take; lia).
  destruct (decide (length d < bl - num_pending ctx)%nat) as [Hd|Hd].
  { rewrite div_blocks, (proj2 (Z.ltb_lt _ _)) by lia. by apply context_update_short. }
  destruct (decide (num_pending ctx = 0%nat)) as [Hz|Hz].
  - unfold context_update. rewrite Halg, Hz, Nat.sub_0_r, (proj2 (Nat.ltb_ge (length d) _)) by lia. cbn [mbind result_bind].
    rewrite Nat.add_0_r, Nat.div_add_l by lia. pose proof (absorb_spec (block ctx) full (pending ctx) d Hb Hp) as Ha. fold c in Ha.
    replace (Z.of_nat (Z.to_nat c + length d / bl)) with (c + Z.of_nat (length d / bl)) by lia.
    rewrite take_0, app_nil_r. exact Ha.
  - replace (Z.of_nat ((Z.to_nat c * bl + num_pending ctx + length d) / bl))
      with (c + 1 + Z.of_nat (length (drop (bl - num_pending ctx) d) / bl)).
    + apply context_update_pending; [done|done|lia|lia].
    + rewrite length_drop. replace (Z.to_nat c * bl + num_pending ctx + length d)%nat
        with ((Z.to_nat c + 1) * bl + (length d - (bl - num_pending ctx)))%nat by nia.
      rewrite Nat.div_add_l by lia. lia.
Qed.

(** The length in bits, if it has 64 bits. *)
Lemma data_bits_spec {A} c np (k : Z → result unit A) :
  0 <= c →
  (bytes ← unwrap_or_panic (checked_mul 64 c (Z.of_nat bl));
   bytes ← unwrap_or_panic (checked_add 64 bytes (Z.of_nat np));
   bits ← unwrap_or_panic (checked_mul 64 bytes 8);
   k bits) = if 8 * Z.of_nat (Z.to_nat c * bl + np) <? 2 ^ 64 then k (8 * Z.of_nat (Z.to_nat c * bl + np)) else Panic.
Proof.
  intros Hc. replace (Z.of_nat (Z.to_nat c * bl + np)) with (c * Z.of_nat bl + Z.of_nat np) by lia.
  unfold checked_mul, checked_add, unwrap_or_panic.
  destruct (Z.ltb_spec (c * Z.of_nat bl) (2 ^ 64)); [|by rewrite (proj2 (Z.ltb_ge _ _)) by lia]. cbn [mbind result_bind].
  destruct (Z.ltb_spec (c * Z.of_nat bl + Z.of_nat np) (2 ^ 64)); [|by rewrite (proj2 (Z.ltb_ge _ _)) by lia]. cbn [mbind result_bind].
  rewrite (Z.mul_comm _ 8). by destruct (Z.ltb_spec (8 * (c * Z.of_nat bl + Z.of_nat np)) (2 ^ 64)).
Qed.

Lemma length_to_be_bytes n x : length (to_be_bytes n x) = n.
Proof. induction n as [|n IH]; cbn; congruence. Qed.

(** Zeros behind a prefix, and then the length. *)
Lemma fill_zeros q pos :
  length q = bl → (pos <= bl - 8)%nat →
  fill_range q pos (bl - 8) 0 = Ok ((take pos q ++ replicate (bl - 8 - pos) 0) ++ drop (bl - 8) q).
Proof.
  intros Hq Hpos. unfold fill_range. rewrite (proj2 (Nat.ltb_ge _ _)) by lia.
  rewrite copy_at_ok by (rewrite length_replicate; lia). rewrite length_replicate.
  replace (pos + (bl - 8 - pos))%nat with (bl - 8)%nat by lia. by rewrite app_assoc.
Qed.

Lemma fill_end q pos :
  length q = bl → (pos <= bl)%nat → fill_range q pos bl 0 = Ok (take pos q ++ replicate (bl - pos) 0).
Proof.
  intros Hq Hpos. unfold fill_range. rewrite (proj2 (Nat.ltb_ge _ _)) by lia.
  rewrite copy_at_ok by (rewrite length_replicate; lia). rewrite length_replicate, (drop_ge q) by lia. by rewrite app_nil_r.
Qed.

Lemma copy_length (r t x : list Z) :
  length r = (bl - 8)%nat → length t = 8%nat → length x = 8%nat → copy_at (r ++ t) (bl - 8) x = Ok (r ++ x).
Proof.
  intros Hr Ht Hx. rewrite copy_at_ok by (rewrite length_app; lia). rewrite take_app_length' by done.
  rewrite drop_ge by (rewrite length_app; lia). by rewrite app_nil_r.
Qed.

Lemma padding_zeros c np k :
  (np < bl)%nat → ((k * bl < np + 1 + len_len alg) ∧ (np + 1 + len_len alg <= (k + 1) * bl))%nat →
  padding alg (c * bl + np) = 0x80 :: replicate ((k + 1) * bl - np - 9) 0 ++ to_be_bytes 8 (8 * Z.of_nat (c * bl + np)).
Proof.
  intros Hnp [H1 H2]. unfold padding. do 3 f_equal. pose proof (ao_len _ Hok).
  assert ((c * bl + np + 1 + len_len alg + bl - 1) / bl = c + k + 1)%nat as ->.
  { symmetry. apply (Nat.div_unique _ _ _ (np + len_len alg - k * bl)); nia. }
  nia.
Qed.

Lemma block_finish_spec b full p np :
  compressed b full → length p = bl → (np < bl)%nat →
  let data := full ++ take np p in
  block_finish b p np =
  if 8 * Z.of_nat (length data) <? 2 ^ 64 then Ok {| value := fips_digest alg data; digest_algorithm := alg |} else Panic.
Proof.
  intros [Halg Hc Hfull Hst] Hp Hnp data. pose proof (ao_len _ Hok).
  set (c := completed_data_blocks b) in *.
  assert (length data = Z.to_nat c * bl + np)%nat as Hlen by (unfold data; rewrite length_app, length_take; lia).
  unfold block_finish. fold c. rewrite Halg, Hp, Nat.eqb_refl, (proj2 (Nat.ltb_ge bl np)) by lia. cbn [negb].
  rewrite copy_at_ok by (cbn; lia). cbn [mbind result_bind length].
  set (q := take np p ++ [128] ++ drop (np + 1) p).
  assert (length q = bl) as Hq by (unfold q; rewrite !length_app, length_take, length_drop; cbn; lia).
  assert (take (S np) q = take np p ++ [128]) as Htake.
  { unfold q. rewrite app_assoc, take_app_length' by (rewrite length_app, length_take; cbn; lia). done. }
  destruct (Nat.ltb_spec (bl - len_len alg) (S np)) as [Hmore|Hone].
  - rewrite fill_end by (done || lia). cbn [mbind result_bind]. rewrite Htake.
    set (q' := (take np p ++ [128]) ++ replicate (bl - S np) 0).
    assert (length q' = bl) as Hq' by (unfold q'; rewrite !length_app, length_take, length_replicate; cbn; lia).
    rewrite fill_zeros by (done || lia). cbn [mbind result_bind]. rewrite data_bits_spec by lia. rewrite Hlen.
    destruct (_ <? _); [|done]. rewrite copy_length by (rewrite ?length_app, ?take_0, ?length_replicate, ?length_drop, ?length_to_be_bytes; cbn; lia).
    cbn [mbind result_bind]. do 2 f_equal. unfold fips_digest, hash_blocks. f_equal. rewrite Hst, Hlen.
    rewrite (padding_zeros _ _ 1) by lia. set (e := to_be_bytes 8 _).
    rewrite <-!(ao_app _ Hok) by (rewrite ?length_app; lia).
    replace (replicate ((1 + 1) * bl - np - 9) 0) with (replicate (bl - S np) 0 ++ replicate (bl - 8) 0)
      by (rewrite <-replicate_add; f_equal; lia).
    unfold data, q'. rewrite take_0, Nat.sub_0_r, <-!app_assoc. cbn [app]. f_equal. symmetry.
    rewrite !length_app. cbn [length]. rewrite !length_app, !length_replicate, length_take. unfold e. rewrite length_to_be_bytes.
    symmetry. apply (Nat.div_unique _ _ _ 0); nia.
  - cbn [mbind result_bind]. rewrite fill_zeros by (done || lia). cbn [mbind result_bind]. rewrite data_bits_spec by lia. rewrite Hlen, Htake.
    destruct (_ <? _); [|done].
    rewrite copy_length by (rewrite ?length_app, ?length_take, ?length_replicate, ?length_drop, ?length_to_be_bytes; cbn; lia).
    cbn [mbind result_bind]. do 2 f_equal. unfold fips_digest, hash_blocks. f_equal. rewrite Hst, Hlen.
    rewrite (padding_zeros _ _ 0) by lia. set (e := to_be_bytes 8 _).
    rewrite <-!(ao_app _ Hok) by (rewrite ?length_app; lia).
    replace ((0 + 1) * bl - np - 9)%nat with (bl - 8 - S np)%nat by lia.
    unfold data. rewrite <-!app_assoc. cbn [app]. f_equal. symmetry.
    rewrite !length_app. cbn [length]. rewrite !length_app, !length_replicate, length_take. unfold e. rewrite length_to_be_bytes.
    symmetry. apply (Nat.div_unique _ _ _ 0); nia.
Qed.

Lemma context_finish_spec ctx data :
  taken ctx data →
  context_finish ctx =
  if 8 * Z.of_nat (length data) <? 2 ^ 64 then Ok {| value := fips_digest alg data; digest_algorithm := alg |} else Panic.
Proof.
  intros [Hp Hn (full & Hb & ->)]. pose proof (ao_max _ Hok). unfold context_finish. rewrite (co_alg _ _ Hb).
  rewrite (block_finish_spec _ full) by (done || rewrite length_take; lia). rewrite take_take, Nat.min_l by lia. done.
Qed.

(** A context that is fed with parts. *)
Fixpoint feed (ctx : Context_) (parts : list (list Z)) : result unit Digest :=
  match parts with
  | [] => context_finish ctx
  | part :: parts => ctx ← context_update ctx part; feed ctx parts
  end.

Lemma feed_spec ctx data parts :
  taken ctx data →
  feed ctx parts =
  if 8 * Z.of_nat (length (data ++ concat parts)) <? 2 ^ 64
  then Ok {| value := fips_digest alg (data ++ concat parts); digest_algorithm := alg |} else Panic.
Proof.
  revert ctx data. induction parts as [|part parts IH]; intros ctx data Ht; cbn [feed concat].
  - rewrite app_nil_r. by apply context_finish_spec.
  - pose proof (context_update_spec ctx data part Ht) as Hu. rewrite <-length_app in Hu.
    destruct (Z.ltb_spec (Z.of_nat (length (data ++ part) / bl)) (2 ^ 64)) as [Hlt|Hge].
    + destruct Hu as (ctx' & -> & Ht'). cbn [mbind result_bind]. rewrite (IH ctx' (data ++ part)) by done. by rewrite <-app_assoc.
    + rewrite Hu. cbn [mbind result_bind]. rewrite (proj2 (Z.ltb_ge _ _)); [done|].
      pose proof (ao_len _ Hok). assert (length (data ++ part) / bl <= length (data ++ part))%nat by (apply Nat.Div0.div_le_upper_bound; nia).
      rewrite app_assoc, length_app. lia.
Qed.
End context.

(** The digests of the crate. *)
Definition digest_algorithms : list Algorithm := [SHA1_FOR_LEGACY_USE_ONLY; SHA256; SHA384; SHA512; SHA512_256].

Lemma digest_algorithms_ok alg : In alg digest_algorithms → algorithm_ok alg.
Proof.
  intros H. repeat (destruct H as [<-|H]; [first [exact sha1_ok|exact sha256_ok|exact sha384_ok|exact sha512_ok|exact sha512_256_ok]|]). done.
Qed.

(** C22 A message gets the same digest however it is split into calls of [update]: feeding a
    context with any parts and finishing it compresses the blocks of the padded message of FIPS 180-4,
    as does the function for a message in one piece.  A message of [2^64] bits or more panics. *)
Theorem digest_parts alg parts :
  In alg digest_algorithms →
  feed (context_new alg) parts =
    (if 8 * Z.of_nat (length (concat parts)) <? 2 ^ 64
     then Ok {| value := fips_digest alg (concat parts); digest_algorithm := alg |} else Panic) ∧
  digest alg (concat parts) = feed (context_new alg) parts.
Proof.
  intros Halg%digest_algorithms_ok. pose proof (context_new_taken alg Halg) as Hnew.
  rewrite (feed_spec alg Halg _ [] parts Hnew). split; [done|].
  change (digest alg (concat parts)) with (feed (context_new alg) [concat parts]).
  rewrite (feed_spec alg Halg _ [] _ Hnew). cbn [concat app]. by rewrite app_nil_r.
Qed.

(** The examples of the documentation of [digest]. *)
Lemma digest_parts_witness :
  digest_as_ref <$> (match digest SHA256 (bytes_of "hello, world") with Ok d => Some d | _ => None end)
    = Some (to_be_bytes 32 0x09ca7e4eaa6e8ae9c7d261167129184883644d07dfba7cbfbc4c8a2e08360d5b) ∧
  digest SHA384 (bytes_of "hello, world") = feed (context_new SHA384) [bytes_of "hello"; bytes_of ", "; bytes_of "world"].
Proof.
  split; [vm_compute; reflexivity|].
  refine (proj2 (digest_parts SHA384 [bytes_of "hello"; bytes_of ", "; bytes_of "world"] _)).
  right. right. left. reflexivity.
Defined.
