(* ===== verification/RingLimb.v ===== *)
(** * Limbs

    Large integers of [ring] are arrays of limbs, least significant first:
    [src/utils/ring/crypto/limbs/limbs.c], [limbs.inl], the constant-time selections of
    [crypto/internal.h], and their Rust side [src/utils/ring/src/limb.rs].  A limb has 32 bits
    in the WebAssembly runtime and 64 bits on 64-bit targets; the width is a class.  An array
    is a list of numbers, a C function that writes through a pointer returns the new array. *)
From S2P Require Import Prelude Errors Frame Untrusted RingIo RingDigest.

Class LimbWidth := {
  LIMB_BITS : Z;
  limb_bits_cases : LIMB_BITS = 32 ∨ LIMB_BITS = 64
}.

Definition wasm32 : LimbWidth := {| LIMB_BITS := 32; limb_bits_cases := or_introl eq_refl |}.
Definition width64 : LimbWidth := {| LIMB_BITS := 64; limb_bits_cases := or_intror eq_refl |}.

Section limb.
Context `{!LimbWidth}.

Definition LIMB_BYTES : nat := Z.to_nat ((LIMB_BITS + 7) / 8).

(** [2 ^ LIMB_BITS], and the conversion of a result to a limb. *)
Definition base : Z := 2 ^ LIMB_BITS.
Definition as_limb (x : Z) : Z := x mod base.

(** ** Constant-time selections *)

Definition CONSTTIME_TRUE_W : Z := base - 1.
Definition CONSTTIME_FALSE_W : Z := 0.

Definition constant_time_msb_w (a : Z) : Z := as_limb (0 - Z.shiftr a (LIMB_BITS - 1)).
Definition constant_time_is_zero_w (a : Z) : Z :=
  constant_time_msb_w (Z.land (not_word LIMB_BITS a) (as_limb (a - 1))).
Definition constant_time_is_nonzero_w (a : Z) : Z := not_word LIMB_BITS (constant_time_is_zero_w a).
Definition constant_time_eq_w (a b : Z) : Z := constant_time_is_zero_w (Z.lxor a b).
Definition constant_time_select_w (mask a b : Z) : Z :=
  Z.lor (Z.land mask a) (Z.land (not_word LIMB_BITS mask) b).

(** ** Limbs with carry *)

(** [DoubleLimb] has twice the bits of a limb. *)
Definition limb_adc (a b carry_in : Z) : Z * Z :=
  let x := (a + b + carry_in) mod (base * base) in (as_limb x, as_limb (Z.shiftr x LIMB_BITS)).
Definition limb_add (a b : Z) : Z * Z :=
  let x := (a + b) mod (base * base) in (as_limb x, as_limb (Z.shiftr x LIMB_BITS)).
Definition limb_sbb (a b borrow_in : Z) : Z * Z :=
  let x := (a - b - borrow_in) mod (base * base) in (as_limb x, Z.land (Z.shiftr x LIMB_BITS) 1).
Definition limb_sub (a b : Z) : Z * Z :=
  let x := (a - b) mod (base * base) in (as_limb x, Z.land (Z.shiftr x LIMB_BITS) 1).

(** The loops from the second limb on. *)
Fixpoint adc_loop (a b : list Z) (carry : Z) : list Z * Z :=
  match a, b with
  | x :: a, y :: b =>
      let '(r, carry) := limb_adc x y carry in
      let '(rs, carry) := adc_loop a b carry in (r :: rs, carry)
  | _, _ => ([], carry)
  end.
Fixpoint sbb_loop (a b : list Z) (borrow : Z) : list Z * Z :=
  match a, b with
  | x :: a, y :: b =>
      let '(r, borrow) := limb_sbb x y borrow in
      let '(rs, borrow) := sbb_loop a b borrow in (r :: rs, borrow)
  | _, _ => ([], borrow)
  end.

Definition limbs_add (a b : list Z) : list Z * Z :=
  match a, b with
  | x :: a, y :: b =>
      let '(r, carry) := limb_add x y in
      let '(rs, carry) := adc_loop a b carry in (r :: rs, carry)
  | _, _ => ([], 0)
  end.
Definition limbs_sub (a b : list Z) : list Z * Z :=
  match a, b with
  | x :: a, y :: b =>
      let '(r, borrow) := limb_sub x y in
      let '(rs, borrow) := sbb_loop a b borrow in (r :: rs, borrow)
  | _, _ => ([], 0)
  end.

(** ** Comparisons *)

Definition LIMBS_are_zero (a : list Z) : Z :=
  foldl (λ is_zero x, constant_time_select_w is_zero (constant_time_is_zero_w x) is_zero) CONSTTIME_TRUE_W a.
Definition LIMBS_equal (a b : list Z) : Z :=
  foldl (λ eq p, constant_time_select_w eq (constant_time_eq_w p.1 p.2) eq) CONSTTIME_TRUE_W (zip a b).
Definition LIMBS_equal_limb (a : list Z) (b : Z) : Z :=
  match a with
  | [] => constant_time_is_zero_w b
  | x :: a =>
      let lo_equal := constant_time_eq_w x b in
      let hi_zero := LIMBS_are_zero a in
      constant_time_select_w lo_equal hi_zero 0
  end.
Definition LIMBS_are_even (a : list Z) : Z :=
  let lo := match a with [] => 0 | x :: _ => x end in
  constant_time_is_zero_w (Z.land lo 1).
Definition LIMBS_less_than (a b : list Z) : Z := constant_time_is_nonzero_w (limbs_sub a b).2.
Definition LIMBS_less_than_limb (a : list Z) (b : Z) : Z :=
  match a with
  | [] => 0
  | x :: a =>
      let lo := constant_time_is_nonzero_w (limb_sub x b).2 in
      let hi := LIMBS_are_zero a in
      constant_time_select_w lo hi lo
  end.

(** ** Arithmetic modulo [m] *)

Definition LIMBS_reduce_once (r m : list Z) : list Z :=
  let lt := LIMBS_less_than r m in
  (limbs_sub r ((λ x, constant_time_select_w lt 0 x) <$> m)).1.
Definition LIMBS_add_mod (a b m : list Z) : list Z :=
  let '(r, carry) := limbs_add a b in
  let overflow1 := constant_time_is_nonzero_w carry in
  let overflow2 := not_word LIMB_BITS (LIMBS_less_than r m) in
  let overflow := Z.lor overflow1 overflow2 in
  (limbs_sub r ((λ x, Z.land x overflow) <$> m)).1.
Definition LIMBS_sub_mod (a b m : list Z) : list Z :=
  let '(r, borrow) := limbs_sub a b in
  let underflow := constant_time_is_nonzero_w borrow in
  (limbs_add r ((λ x, Z.land x underflow) <$> m)).1.

Definition LIMB_HIGH_BIT : Z := as_limb (Z.shiftl 1 (LIMB_BITS - 1)).

Fixpoint shl_loop (a : list Z) (carry : Z) : list Z :=
  match a with
  | [] => []
  | limb :: a =>
      let new_carry := Z.shiftr limb (LIMB_BITS - 1) in
      Z.lor (as_limb (Z.shiftl limb 1)) carry :: shl_loop a new_carry
  end.

Definition LIMBS_shl_mod (a m : list Z) : list Z :=
  let overflow1 := constant_time_is_nonzero_w (Z.land (default 0 (last a)) LIMB_HIGH_BIT) in
  let r := shl_loop a 0 in
  let overflow2 := not_word LIMB_BITS (LIMBS_less_than r m) in
  let overflow := Z.lor overflow1 overflow2 in
  (limbs_sub r ((λ x, Z.land x overflow) <$> m)).1.

(** ** Tables and windows *)

(** [table] has [num_entries] rows of [num_limbs] limbs; [e] counts the rows. *)
Fixpoint limbs_select (r table : list Z) (num_limbs : nat) (e : Z) (num_entries : nat) (index : Z) : list Z :=
  match num_entries with
  | O => r
  | S num_entries =>
      let equal := constant_time_eq_w index e in
      let r := zip_with (λ t x, constant_time_select_w equal t x) (take num_limbs table) r in
      limbs_select r (drop num_limbs table) num_limbs (e + 1) num_entries index
  end.

Definition LIMBS_select_512_32 (table : list Z) (num_limbs : nat) (index : Z) : option (list Z) :=
  if Z.of_nat num_limbs mod (512 / LIMB_BITS) =? 0
  then Some (limbs_select (replicate num_limbs 0) table num_limbs 0 32 index)
  else None.

Definition FIVE_BITS_MASK : Z := 0x1f.

Definition LIMBS_window5_split_window (lower_limb higher_limb index_within_word : Z) : Z :=
  let high_bits := Z.land (as_limb (Z.shiftl higher_limb (LIMB_BITS - index_within_word))) FIVE_BITS_MASK in
  let low_bits := Z.shiftr lower_limb index_within_word in
  Z.lor low_bits high_bits.
Definition LIMBS_window5_unsplit_window (limb index_within_word : Z) : Z :=
  Z.land (Z.shiftr limb index_within_word) FIVE_BITS_MASK.
Definition LIMB_shr (a shift : Z) : Z := Z.shiftr a shift.

(** ** The functions of [limb.rs] *)

Definition LimbMask_True : Z := base - 1.
Definition LimbMask_False : Z := 0.

Definition limbs_equal_limbs_consttime (a b : list Z) : result unit Z :=
  if (length a =? length b)%nat then Ok (LIMBS_equal a b) else Panic.
Definition limbs_less_than_limbs_consttime (a b : list Z) : result unit Z :=
  if (length a =? length b)%nat then Ok (LIMBS_less_than a b) else Panic.
Definition limbs_less_than_limbs_vartime (a b : list Z) : result unit bool :=
  lt ← limbs_less_than_limbs_consttime a b; Ok (lt =? LimbMask_True).
Definition limbs_reduce_once_constant_time (r m : list Z) : result unit (list Z) :=
  if (length r =? length m)%nat then Ok (LIMBS_reduce_once r m) else Panic.

(** The inner loop of [limbs_minimal_bits], from [n] bits down. *)
Fixpoint high_limb_num_bits (n : nat) (high_limb : Z) : option nat :=
  match n with
  | O => None
  | S k => if LIMB_shr high_limb (Z.of_nat k) =? 0 then high_limb_num_bits k high_limb else Some n
  end.

(** The outer loop; the list has the high limb first. *)
Fixpoint minimal_bits_loop (a : list Z) : Z :=
  match a with
  | [] => 0
  | high_limb :: a =>
      match high_limb_num_bits (Z.to_nat LIMB_BITS) high_limb with
      | Some n => Z.of_nat (length a) * LIMB_BITS + Z.of_nat n
      | None => minimal_bits_loop a
      end
  end.

Definition limbs_minimal_bits (a : list Z) : Z := minimal_bits_loop (reverse a).

Inductive AllowZero := AllowZero_No | AllowZero_Yes.

Section parse.
Context {Reader : Type} `{!Untrusted Reader}.

Fixpoint read_limb (bytes : nat) (limb : Z) : Parser Reader unit Z :=
  match bytes with
  | O => mret limb
  | S bytes => b ← read_byte; read_limb bytes (Z.lor (as_limb (Z.shiftl limb 8)) b)
  end.

(** The loop over [i], with the [num_encoded_limbs - i] limbs that are left. *)
Fixpoint read_limbs (rest bytes_in_current_limb : nat) (result : list Z) : Parser Reader unit (list Z) :=
  match rest with
  | O => mret result
  | S rest =>
      limb ← read_limb bytes_in_current_limb 0;
      read_limbs rest LIMB_BYTES (<[rest := limb]> result)
  end.

(** [len] is the length of the slice [result]. *)
Definition parse_big_endian_and_pad_consttime (input : Input) (len : nat) : result unit (list Z) :=
  if (length input =? 0)%nat then Err () else
  let bytes_in_current_limb := (length input mod LIMB_BYTES)%nat in
  let bytes_in_current_limb := if (bytes_in_current_limb =? 0)%nat then LIMB_BYTES else bytes_in_current_limb in
  let num_encoded_limbs :=
    (length input / LIMB_BYTES + if (bytes_in_current_limb =? LIMB_BYTES)%nat then 0 else 1)%nat in
  if (len <? num_encoded_limbs)%nat then Err () else
  read_all input () (read_limbs num_encoded_limbs bytes_in_current_limb (replicate len 0)).

Definition check_allow_zero (allow_zero : AllowZero) (limbs : list Z) : result unit (list Z) :=
  match allow_zero with
  | AllowZero_Yes => Ok limbs
  | AllowZero_No => if LIMBS_are_zero limbs =? LimbMask_False then Ok limbs else Err ()
  end.

Definition parse_big_endian_in_range_and_pad_consttime (input : Input) (allow_zero : AllowZero)
    (max_exclusive : list Z) (len : nat) : result unit (list Z) :=
  limbs ← parse_big_endian_and_pad_consttime input len;
  lt ← limbs_less_than_limbs_consttime limbs max_exclusive;
  if lt =? LimbMask_True then check_allow_zero allow_zero limbs else Err ().

Definition parse_big_endian_in_range_partially_reduced_and_pad_consttime (input : Input) (allow_zero : AllowZero)
    (m : list Z) (len : nat) : result unit (list Z) :=
  limbs ← parse_big_endian_and_pad_consttime input len;
  limbs ← limbs_reduce_once_constant_time limbs m;
  check_allow_zero allow_zero limbs.
End parse.

(** The inner loop of [big_endian_from_limbs] writes the bytes of a limb that end at [start + rest]. *)
Fixpoint store_limb (rest start : nat) (limb : Z) (out : list Z) : list Z :=
  match rest with
  | O => out
  | S rest => store_limb rest start (Z.shiftr limb 8) (<[(start + rest)%nat := Z.land limb 0xff]> out)
  end.

Fixpoint store_limbs (limbs : list Z) (out : list Z) : list Z :=
  match limbs with
  | [] => out
  | limb :: limbs => store_limbs limbs (store_limb LIMB_BYTES (length limbs * LIMB_BYTES) limb out)
  end.

Definition big_endian_from_limbs (limbs out : list Z) : result unit (list Z) :=
  if (length out =? length limbs * LIMB_BYTES)%nat then Ok (store_limbs limbs out) else Panic.

(** ** Windows of five bits *)

Section windows.
Context {R : Type} (fold : R → Z → result unit R).

(** The number of rounds of the [while] loop over a limb is less than the number of bits. *)
Fixpoint unsplit_loop (rounds : nat) (low_limb window_low_bit : Z) (acc : R) : result unit (R * Z) :=
  match rounds with
  | O => Panic
  | S rounds =>
      if window_low_bit <? LIMB_BITS then
        let window := LIMBS_window5_unsplit_window low_limb window_low_bit in
        let window_low_bit := as_limb (window_low_bit - 5) in
        acc ← fold acc window;
        unsplit_loop rounds low_limb window_low_bit acc
      else Ok (acc, window_low_bit)
  end.

(** The limbs come from the highest to the lowest. *)
Fixpoint windows_loop (limbs : list Z) (low_limb window_low_bit : Z) (acc : R) : result unit R :=
  match limbs with
  | [] => Ok acc
  | current_limb :: limbs =>
      let higher_limb := low_limb in
      let low_limb := current_limb in
      p ← (if as_limb (LIMB_BITS - 5) <? window_low_bit then
             let window := LIMBS_window5_split_window low_limb higher_limb window_low_bit in
             acc ← fold acc window;
             Ok (acc, as_limb (window_low_bit - 5))
           else Ok (acc, window_low_bit));
      let '(acc, window_low_bit) := p in
      p ← unsplit_loop (Z.to_nat LIMB_BITS) low_limb window_low_bit acc;
      let '(acc, window_low_bit) := p in
      windows_loop limbs low_limb (as_limb (window_low_bit + LIMB_BITS)) acc
  end.

Definition fold_5_bit_windows (limbs : list Z) (init : Z → result unit R) : result unit R :=
  let num_limbs := Z.of_nat (length limbs) in
  let num_whole_windows := num_limbs * LIMB_BITS / 5 in
  let leading_bits := num_limbs * LIMB_BITS - num_whole_windows * 5 in
  let leading_bits := if leading_bits =? 0 then 5 else leading_bits in
  let window_low_bit := LIMB_BITS - leading_bits in
  match last limbs with
  | None => Panic
  | Some high =>
      let leading_partial_window := LIMBS_window5_split_window high 0 window_low_bit in
      let window_low_bit := as_limb (window_low_bit - 5) in
      initial_value ← init leading_partial_window;
      windows_loop (reverse limbs) 0 window_low_bit initial_value
  end.
End windows.
End limb.
