(* ===== verification/RingLimbProofs.v ===== *)
(** * The value of limbs

    What the functions of [RingLimb] compute, in terms of the number [val] that an array of
    limbs stands for: comparisons are masks of the comparison of values, additions and
    subtractions are exact up to the carry, conversions to and from big-endian bytes are
    inverse to each other, and the windows of an exponent are its digits in base 32. *)
From S2P Require Import Prelude Errors Frame Untrusted RingIo RingDigest RingLimb.

Section proofs.
Context `{!LimbWidth}.

Definition is_limb (x : Z) : Prop := 0 <= x < base.
Definition limbs_ok (l : list Z) : Prop := Forall is_limb l.

Fixpoint val (l : list Z) : Z :=
  match l with
  | [] => 0
  | x :: l => x + base * val l
  end.

(** A mask has all bits set or none. *)
Definition mask (b : bool) : Z := if b then base - 1 else 0.

(** ** The base *)

Lemma base_pos : 4 < base.
Proof. unfold base. destruct limb_bits_cases as [-> | ->]; reflexivity. Qed.

Lemma base_half : base = 2 * 2 ^ (LIMB_BITS - 1) ∧ 0 < 2 ^ (LIMB_BITS - 1).
Proof. unfold base. destruct limb_bits_cases as [-> | ->]; done. Qed.

Lemma limb_bits_pos : 32 <= LIMB_BITS.
Proof. destruct limb_bits_cases as [-> | ->]; lia. Qed.

Lemma limb_bytes : LIMB_BITS = 8 * Z.of_nat LIMB_BYTES ∧ (4 <= LIMB_BYTES)%nat.
Proof. unfold LIMB_BYTES. destruct limb_bits_cases as [-> | ->]; (split; [done|]); apply Nat.leb_le; done. Qed.

Lemma base_pow (n : nat) : 0 < base ^ Z.of_nat n.
Proof. pose proof base_pos. apply Z.pow_pos_nonneg; lia. Qed.

Lemma base_pow_S (n : nat) : base ^ Z.of_nat (S n) = base * base ^ Z.of_nat n.
Proof. rewrite Nat2Z.inj_succ, Z.pow_succ_r by lia. done. Qed.

Lemma as_limb_ok x : is_limb (as_limb x).
Proof. pose proof base_pos. apply Z.mod_pos_bound. lia. Qed.

Lemma as_limb_small x : is_limb x → as_limb x = x.
Proof. apply Z.mod_small. Qed.

Lemma mask_ok b : is_limb (mask b).
Proof. pose proof base_pos. destruct b; cbn [mask]; unfold is_limb; lia. Qed.

Lemma mask_inj a b : mask a = mask b → a = b.
Proof. pose proof base_pos. destruct a, b; cbn [mask]; auto; lia. Qed.

Lemma mask_True a : (mask a =? LimbMask_True) = a.
Proof. pose proof base_pos. unfold LimbMask_True. destruct a; cbn [mask negb]; lia. Qed.

Lemma mask_False a : (mask a =? LimbMask_False) = negb a.
Proof. pose proof base_pos. unfold LimbMask_False. destruct a; cbn [mask negb]; lia. Qed.

(** ** Bit operations on limbs *)

Lemma ones_base : base - 1 = Z.ones LIMB_BITS.
Proof. unfold base. by rewrite Z.ones_equiv, <-Z.sub_1_r. Qed.

Lemma limb_and_ones x : is_limb x → Z.land x (base - 1) = x.
Proof.
  intros Hx. pose proof limb_bits_pos. rewrite ones_base, Z.land_ones by lia. by apply Z.mod_small.
Qed.

Lemma limb_and_mask x b : is_limb x → Z.land x (mask b) = if b then x else 0.
Proof. intros Hx. destruct b; cbn [mask]; [by apply limb_and_ones|apply Z.land_0_r]. Qed.

Lemma not_word_sub x : is_limb x → not_word LIMB_BITS x = base - 1 - x.
Proof.
  intros Hx. unfold not_word. change (2 ^ LIMB_BITS) with base.
  assert (Z.land x (Z.lxor x (base - 1)) = 0) as Hl.
  { apply Z.bits_inj'. intros n Hn. rewrite Z.land_spec, Z.lxor_spec, Z.bits_0.
    destruct (Z.testbit x n) eqn:Hb; [|done]. pose proof limb_bits_pos.
    rewrite ones_base, Z.testbit_ones_nonneg by lia.
    destruct (Z.ltb_spec n LIMB_BITS); [done|].
    rewrite <-(Z.mod_small x base) in Hb by done. unfold base in Hb. rewrite Z.mod_pow2_bits_high in Hb; [done|lia]. }
  assert (x + Z.lxor x (base - 1) = base - 1); [|lia].
  rewrite Z.add_nocarry_lxor by done. by rewrite <-Z.lxor_assoc, Z.lxor_nilpotent, Z.lxor_0_l.
Qed.

Lemma not_mask b : not_word LIMB_BITS (mask b) = mask (negb b).
Proof. rewrite not_word_sub by apply mask_ok. destruct b; cbn [mask negb]; lia. Qed.

Lemma select_mask b x y : is_limb x → is_limb y →
  constant_time_select_w (mask b) x y = if b then x else y.
Proof.
  intros Hx Hy. unfold constant_time_select_w.
  rewrite not_mask, !(Z.land_comm (mask _)), !limb_and_mask by done.
  destruct b; cbn [negb]; by rewrite ?Z.lor_0_r.
Qed.

Lemma lor_mask a b : Z.lor (mask a) (mask b) = mask (a || b).
Proof. destruct a, b; cbn [mask orb]; rewrite ?Z.lor_0_r, ?Z.lor_diag; done. Qed.

Lemma limb_high_bits x n : is_limb x → LIMB_BITS <= n → Z.testbit x n = false.
Proof.
  intros [Hx Hb] Hn. pose proof limb_bits_pos. revert n Hn. apply Z.bounded_iff_bits_nonneg; [lia|done|exact Hb].
Qed.

(** ** Constant-time tests *)

Lemma land_le_r a b : 0 <= a → 0 <= b → Z.land a b <= b.
Proof.
  intros Ha Hb. rewrite <-(Z2N.id a), <-(Z2N.id b), <-N2Z.inj_land by done. apply N2Z.inj_le, N.land_le_r.
Qed.

Lemma msb_spec x : is_limb x → constant_time_msb_w x = mask (2 ^ (LIMB_BITS - 1) <=? x).
Proof.
  intros Hx. destruct base_half as [Hb Hp]. unfold constant_time_msb_w, as_limb.
  pose proof limb_bits_pos. rewrite Z.shiftr_div_pow2 by lia. unfold is_limb in *.
  destruct (Z.leb_spec (2 ^ (LIMB_BITS - 1)) x); cbn [mask].
  - replace (x / 2 ^ (LIMB_BITS - 1)) with 1 by (apply (Z.div_unique_pos _ _ _ (x - 2 ^ (LIMB_BITS - 1))); lia).
    symmetry. apply (Z.mod_unique_pos _ _ (-1)); lia.
  - rewrite Z.div_small by lia. apply Z.mod_0_l. lia.
Qed.

Lemma is_zero_w_spec x : is_limb x → constant_time_is_zero_w x = mask (x =? 0).
Proof.
  intros Hx. destruct base_half as [Hb Hp]. pose proof base_pos. unfold constant_time_is_zero_w.
  rewrite not_word_sub by done. unfold is_limb in *. destruct (Z.eqb_spec x 0) as [->|Hne].
  - replace (as_limb (0 - 1)) with (base - 1) by (apply (Z.mod_unique_pos _ _ (-1)); lia).
    rewrite limb_and_ones, msb_spec by (unfold is_limb; lia). f_equal. lia.
  - rewrite as_limb_small by (unfold is_limb; lia).
    set (y := Z.land _ _).
    assert (0 <= y) by (apply Z.land_nonneg; lia).
    assert (y <= x - 1) by (apply land_le_r; lia).
    assert (y <= base - 1 - x) by (subst y; rewrite Z.land_comm; apply land_le_r; lia).
    rewrite msb_spec by (unfold is_limb; lia). f_equal. lia.
Qed.

Lemma is_nonzero_w_spec x : is_limb x → constant_time_is_nonzero_w x = mask (negb (x =? 0)).
Proof. intros Hx. unfold constant_time_is_nonzero_w. by rewrite is_zero_w_spec, not_mask. Qed.

Lemma eq_w_spec x y : is_limb x → is_limb y → constant_time_eq_w x y = mask (x =? y).
Proof.
  intros Hx Hy. unfold constant_time_eq_w. pose proof limb_bits_pos.
  rewrite is_zero_w_spec.
  - f_equal. destruct (Z.eqb_spec x y) as [->|Hne]; [by rewrite Z.lxor_nilpotent|].
    apply Z.eqb_neq. by rewrite Z.lxor_eq_0_iff.
  - assert (0 <= Z.lxor x y) by (apply Z.lxor_nonneg; unfold is_limb in *; tauto). split; [done|].
    apply Z.bounded_iff_bits_nonneg; [lia|done|]. intros l Hl. rewrite Z.lxor_spec. by rewrite !limb_high_bits.
Qed.

(** ** Values *)

Lemma val_bounds l : limbs_ok l → 0 <= val l < base ^ Z.of_nat (length l).
Proof.
  pose proof base_pos. induction 1 as [|x l Hx Hl IH]; cbn [val length]; [done|].
  rewrite base_pow_S. unfold is_limb in Hx. nia.
Qed.

Lemma val_app a b : val (a ++ b) = val a + base ^ Z.of_nat (length a) * val b.
Proof.
  induction a as [|x a IH]; cbn [val app length]; [change (base ^ Z.of_nat 0) with 1; lia|].
  rewrite IH, base_pow_S. lia.
Qed.

Lemma val_replicate_0 n : val (replicate n 0) = 0.
Proof. induction n as [|n IH]; cbn [val replicate]; [done|]. rewrite IH. lia. Qed.

Lemma limbs_ok_replicate_0 n : limbs_ok (replicate n 0).
Proof. pose proof base_pos. apply Forall_replicate. unfold is_limb. lia. Qed.

Lemma val_inj a b : limbs_ok a → limbs_ok b → length a = length b → val a = val b → a = b.
Proof.
  intros Ha. revert b. induction Ha as [|x a Hx Ha IH]; intros [|y b] Hb Hl Hv; try done.
  apply Forall_cons in Hb as [Hy Hb]. cbn [val] in Hv. pose proof base_pos. unfold is_limb in *.
  assert (val a = val b) as Hv' by nia. f_equal; [nia|]. apply IH; auto.
Qed.

(** ** Addition and subtraction *)

Lemma limb_adc_spec x y c : is_limb x → is_limb y → 0 <= c <= 1 →
  let '(r, c') := limb_adc x y c in is_limb r ∧ 0 <= c' <= 1 ∧ r + base * c' = x + y + c.
Proof.
  intros Hx Hy Hc. unfold limb_adc. pose proof base_pos. pose proof limb_bits_pos. unfold is_limb in *.
  rewrite Z.mod_small by nia. rewrite Z.shiftr_div_pow2 by lia. change (2 ^ LIMB_BITS) with base.
  assert (0 <= (x + y + c) / base <= 1) as Hd.
  { split; [apply Z.div_pos; lia|]. apply Z.lt_succ_r, Z.div_lt_upper_bound; lia. }
  rewrite (as_limb_small (_ / _)) by (unfold is_limb; lia). unfold as_limb.
  pose proof (Z.mod_pos_bound (x + y + c) base). split; [lia|]. split; [lia|].
  pose proof (Z_div_mod_eq_full (x + y + c) base). lia.
Qed.

Lemma limb_sbb_spec x y b : is_limb x → is_limb y → 0 <= b <= 1 →
  let '(r, b') := limb_sbb x y b in is_limb r ∧ 0 <= b' <= 1 ∧ r - base * b' = x - y - b.
Proof.
  intros Hx Hy Hb. unfold limb_sbb. pose proof base_pos. pose proof limb_bits_pos. unfold is_limb in *.
  rewrite Z.shiftr_div_pow2 by lia. change (2 ^ LIMB_BITS) with base.
  destruct (Z.le_gt_cases 0 (x - y - b)) as [Hs|Hs].
  - rewrite Z.mod_small by nia. rewrite Z.div_small, Z.land_0_l by lia.
    rewrite as_limb_small by (unfold is_limb; lia). lia.
  - replace ((x - y - b) mod (base * base)) with (base * base + (x - y - b)).
    2: { apply (Z.mod_unique_pos _ _ (-1)); nia. }
    replace ((base * base + (x - y - b)) / base) with (base - 1).
    2: { apply (Z.div_unique_pos _ _ _ (base + (x - y - b))); nia. }
    replace (as_limb _) with (base + (x - y - b)).
    2: { apply (Z.mod_unique_pos _ _ (base - 1)); nia. }
    replace (Z.land (base - 1) 1) with 1; [lia|].
    rewrite Z.land_comm, limb_and_ones; [done|unfold is_limb; lia].
Qed.

Lemma limb_add_adc x y : limb_add x y = limb_adc x y 0.
Proof. unfold limb_add, limb_adc. by rewrite Z.add_0_r. Qed.

Lemma limb_sub_sbb x y : limb_sub x y = limb_sbb x y 0.
Proof. unfold limb_sub, limb_sbb. by rewrite Z.sub_0_r. Qed.

Lemma limbs_add_loop a b : limbs_add a b = adc_loop a b 0.
Proof. destruct a, b; cbn [limbs_add adc_loop]; rewrite ?limb_add_adc; done. Qed.

Lemma limbs_sub_loop a b : limbs_sub a b = sbb_loop a b 0.
Proof. destruct a, b; cbn [limbs_sub sbb_loop]; rewrite ?limb_sub_sbb; done. Qed.

Lemma adc_loop_spec a b c : limbs_ok a → limbs_ok b → length a = length b → 0 <= c <= 1 →
  let '(r, c') := adc_loop a b c in
  limbs_ok r ∧ length r = length a ∧ 0 <= c' <= 1 ∧ val r + base ^ Z.of_nat (length a) * c' = val a + val b + c.
Proof.
  intros Ha. revert b c. induction Ha as [|x a Hx Ha IH]; intros [|y b] c Hb Hl Hc; try done.
  { cbn [adc_loop]. repeat split; try done; try lia; cbn [val length]; change (base ^ Z.of_nat 0) with 1; lia. }
  apply Forall_cons in Hb as [Hy Hb]. cbn [adc_loop].
  pose proof (limb_adc_spec x y c Hx Hy Hc) as Hs. destruct (limb_adc x y c) as [r c1]. destruct Hs as (Hr & Hc1 & Hs).
  specialize (IH b c1 Hb ltac:(cbn in Hl; lia) Hc1). destruct (adc_loop a b c1) as [rs c2].
  destruct IH as (Hrs & Hlr & Hc2 & IH). split; [by apply Forall_cons|]. split; [cbn; lia|]. split; [done|].
  cbn [val length]. rewrite base_pow_S. nia.
Qed.

Lemma sbb_loop_spec a b c : limbs_ok a → limbs_ok b → length a = length b → 0 <= c <= 1 →
  let '(r, c') := sbb_loop a b c in
  limbs_ok r ∧ length r = length a ∧ 0 <= c' <= 1 ∧ val r - base ^ Z.of_nat (length a) * c' = val a - val b - c.
Proof.
  intros Ha. revert b c. induction Ha as [|x a Hx Ha IH]; intros [|y b] c Hb Hl Hc; try done.
  { cbn [sbb_loop]. repeat split; try done; try lia; cbn [val length]; change (base ^ Z.of_nat 0) with 1; lia. }
  apply Forall_cons in Hb as [Hy Hb]. cbn [sbb_loop].
  pose proof (limb_sbb_spec x y c Hx Hy Hc) as Hs. destruct (limb_sbb x y c) as [r c1]. destruct Hs as (Hr & Hc1 & Hs).
  specialize (IH b c1 Hb ltac:(cbn in Hl; lia) Hc1). destruct (sbb_loop a b c1) as [rs c2].
  destruct IH as (Hrs & Hlr & Hc2 & IH). split; [by apply Forall_cons|]. split; [cbn; lia|]. split; [done|].
  cbn [val length]. rewrite base_pow_S. nia.
Qed.

(** ** Comparisons *)

Lemma limbs_sub_spec a b : limbs_ok a → limbs_ok b → length a = length b →
  let '(r, borrow) := limbs_sub a b in
  limbs_ok r ∧ length r = length a ∧ borrow = (if val a <? val b then 1 else 0) ∧
  val r = val a - val b + base ^ Z.of_nat (length a) * borrow.
Proof.
  intros Ha Hb Hl. rewrite limbs_sub_loop.
  pose proof (sbb_loop_spec a b 0 Ha Hb Hl ltac:(lia)) as Hs. destruct (sbb_loop a b 0) as [r c].
  destruct Hs as (Hr & Hlr & Hc & Hs). pose proof (val_bounds r Hr) as Hv. rewrite Hlr in Hv.
  pose proof (val_bounds a Ha). pose proof (val_bounds b Hb) as Hvb. rewrite <-Hl in Hvb.
  split; [done|]. split; [done|]. split; [|lia]. assert (c = 0 ∨ c = 1) as [-> | ->] by lia.
  - destruct (Z.ltb_spec (val a) (val b)); lia.
  - destruct (Z.ltb_spec (val a) (val b)); lia.
Qed.

Lemma limbs_add_spec a b : limbs_ok a → limbs_ok b → length a = length b →
  let '(r, carry) := limbs_add a b in
  limbs_ok r ∧ length r = length a ∧ 0 <= carry <= 1 ∧
  val r + base ^ Z.of_nat (length a) * carry = val a + val b.
Proof.
  intros Ha Hb Hl. rewrite limbs_add_loop. pose proof (adc_loop_spec a b 0 Ha Hb Hl ltac:(lia)) as Hs.
  destruct (adc_loop a b 0) as [r c]. rewrite Z.add_0_r in Hs. done.
Qed.

Lemma bit_ok (b : bool) : is_limb (if b then 1 else 0).
Proof. pose proof base_pos. unfold is_limb. destruct b; lia. Qed.

Lemma LIMBS_less_than_spec a b : limbs_ok a → limbs_ok b → length a = length b →
  LIMBS_less_than a b = mask (val a <? val b).
Proof.
  intros Ha Hb Hl. unfold LIMBS_less_than. pose proof (limbs_sub_spec a b Ha Hb Hl) as Hs.
  destruct (limbs_sub a b) as [r c]. destruct Hs as (_ & _ & -> & _). cbn [snd].
  rewrite is_nonzero_w_spec by apply bit_ok. by destruct (val a <? val b).
Qed.

Lemma val_zero l : limbs_ok l → val l = 0 ↔ Forall (λ x, x = 0) l.
Proof.
  pose proof base_pos. induction 1 as [|x l Hx Hl IH]; cbn [val]; [done|].
  rewrite Forall_cons, <-IH. pose proof (val_bounds l Hl). unfold is_limb in Hx. nia.
Qed.

Lemma fold_mask {A} (test : A → Z) (P : A → bool) b l :
  (∀ x, x ∈ l → test x = mask (P x)) →
  foldl (λ acc x, constant_time_select_w acc (test x) acc) (mask b) l = mask (b && forallb P l).
Proof.
  revert b. induction l as [|x l IH]; intros b Ht; cbn [foldl forallb]; [by rewrite andb_true_r|].
  rewrite (Ht x) by set_solver. rewrite select_mask by apply mask_ok.
  replace (if b then mask (P x) else mask b) with (mask (b && P x)) by by destruct b.
  rewrite IH by set_solver. by rewrite andb_assoc.
Qed.

Lemma LIMBS_are_zero_spec a : limbs_ok a → LIMBS_are_zero a = mask (val a =? 0).
Proof.
  intros Ha. unfold LIMBS_are_zero. change CONSTTIME_TRUE_W with (mask true).
  rewrite (fold_mask _ (λ x, x =? 0)).
  2: { intros x Hx. apply is_zero_w_spec. by apply (proj1 (Forall_forall _ _) Ha). }
  f_equal. apply eq_bool_prop_intro. cbn [andb]. rewrite !Is_true_true, forallb_forall, Z.eqb_eq, val_zero by done.
  rewrite Forall_forall. setoid_rewrite list_elem_of_In. setoid_rewrite Z.eqb_eq. done.
Qed.

Lemma LIMBS_equal_spec a b : limbs_ok a → limbs_ok b → length a = length b →
  LIMBS_equal a b = mask (val a =? val b).
Proof.
  intros Ha Hb Hl. unfold LIMBS_equal. change CONSTTIME_TRUE_W with (mask true).
  rewrite (fold_mask _ (λ p, p.1 =? p.2)).
  2: { intros [x y] Hx. apply eq_w_spec; cbn.
       - apply (proj1 (Forall_forall _ _) Ha). by eapply elem_of_zip_l.
       - apply (proj1 (Forall_forall _ _) Hb). by eapply elem_of_zip_r. }
  f_equal. cbn [andb]. revert b Hb Hl. induction Ha as [|x a Hx Ha IH]; intros [|y b] Hb Hl; try done.
  apply Forall_cons in Hb as [Hy Hb]. cbn [zip zip_with forallb fst snd val]. rewrite IH by (auto; cbn in Hl; lia).
  pose proof base_pos. unfold is_limb in *. destruct (Z.eqb_spec x y), (Z.eqb_spec (val a) (val b)); cbn [andb]; nia.
Qed.

Lemma LIMBS_equal_limb_spec a b : limbs_ok a → is_limb b → LIMBS_equal_limb a b = mask (val a =? b).
Proof.
  intros Ha Hb. pose proof base_pos. destruct Ha as [|x a Hx Ha]; cbn [LIMBS_equal_limb val].
  - rewrite is_zero_w_spec by done. by rewrite Z.eqb_sym.
  - rewrite eq_w_spec, LIMBS_are_zero_spec by done. change 0 with (mask false) at 2.
    rewrite select_mask by apply mask_ok. pose proof (val_bounds a Ha). unfold is_limb in *.
    destruct (Z.eqb_spec x b), (Z.eqb_spec (val a) 0), (Z.eqb_spec (x + base * val a) b); try done; nia.
Qed.

Lemma LIMBS_are_even_spec a : limbs_ok a → LIMBS_are_even a = mask (Z.even (val a)).
Proof.
  intros Ha. unfold LIMBS_are_even. pose proof base_pos. destruct base_half as [Hb _].
  set (lo := match a with [] => 0 | x :: _ => x end).
  assert (Z.land lo 1 = lo mod 2) as -> by apply (Z.land_ones lo 1 ltac:(lia)).
  rewrite is_zero_w_spec by (pose proof (Z.mod_pos_bound lo 2); unfold is_limb; lia).
  rewrite Zeven_mod. assert (lo mod 2 = val a mod 2) as ->; [|done].
  destruct Ha as [|x a Hx Ha]; cbn [val]; [done|]. subst lo.
  rewrite Hb. replace (2 * 2 ^ (LIMB_BITS - 1) * val a) with (2 ^ (LIMB_BITS - 1) * val a * 2) by lia.
  symmetry. apply Z.mod_add. lia.
Qed.

Lemma LIMBS_less_than_limb_spec a b : limbs_ok a → a ≠ [] → is_limb b →
  LIMBS_less_than_limb a b = mask (val a <? b).
Proof.
  intros Ha Hne Hb. destruct Ha as [|x a Hx Ha]; [done|]. cbn [LIMBS_less_than_limb val].
  pose proof (limb_sbb_spec x b 0 Hx Hb ltac:(lia)) as Hs. rewrite <-limb_sub_sbb in Hs.
  destruct (limb_sub x b) as [r c]. destruct Hs as (Hr & Hc & Hs). cbn [snd].
  pose proof base_pos. pose proof (val_bounds a Ha). unfold is_limb in *.
  rewrite is_nonzero_w_spec, LIMBS_are_zero_spec, select_mask by (try apply mask_ok; unfold is_limb; lia || done).
  destruct (Z.eqb_spec c 0), (Z.eqb_spec (val a) 0), (Z.ltb_spec (x + base * val a) b); cbn [negb]; try done; nia.
Qed.

(** ** Arithmetic modulo [m] *)

Lemma fmap_mask (f : Z → Z) (b : bool) m : limbs_ok m → (∀ x, is_limb x → f x = if b then x else 0) →
  limbs_ok (f <$> m) ∧ length (f <$> m) = length m ∧ val (f <$> m) = if b then val m else 0.
Proof.
  intros Hm Hf. pose proof base_pos. rewrite length_fmap.
  induction Hm as [|x m Hx Hm (IHo & _ & IHv)].
  { split; [by apply Forall_nil|]. by destruct b. }
  rewrite fmap_cons. cbn [val]. rewrite (Hf x Hx), IHv. split; [|split; [done|destruct b; lia]].
  apply Forall_cons; split; [|done]. destruct b; [done|]. unfold is_limb. lia.
Qed.

(** Subtracting [m] or nothing, when the result is in range. *)
Lemma sub_masked r m (b : bool) (f : Z → Z) x :
  limbs_ok r → limbs_ok m → length r = length m → (∀ x, is_limb x → f x = if b then x else 0) →
  0 <= x < base ^ Z.of_nat (length r) →
  (x - (val r - if b then val m else 0)) mod base ^ Z.of_nat (length r) = 0 →
  let r' := (limbs_sub r (f <$> m)).1 in limbs_ok r' ∧ length r' = length r ∧ val r' = x.
Proof.
  intros Hr Hm Hl Hf Hx Heq. destruct (fmap_mask f b m Hm Hf) as (Hm' & Hlm & Hv).
  pose proof (limbs_sub_spec r (f <$> m) Hr Hm' ltac:(lia)) as Hs. destruct (limbs_sub r (f <$> m)) as [r' c].
  destruct Hs as (Hr' & Hlr & _ & Hs). cbn [fst]. split; [done|]. split; [done|].
  pose proof (val_bounds r' Hr') as Hb. rewrite Hlr in Hb. rewrite Hv in Hs.
  set (P := base ^ Z.of_nat (length r)) in *. apply Z.mod_divide in Heq as [k Hk]; [|lia].
  assert (x - val r' = (k - c) * P) by lia. assert (k - c = 0) by nia. nia.
Qed.

Lemma LIMBS_reduce_once_spec r m : limbs_ok r → limbs_ok m → length r = length m →
  let r' := LIMBS_reduce_once r m in
  limbs_ok r' ∧ length r' = length r ∧ val r' = if val r <? val m then val r else val r - val m.
Proof.
  intros Hr Hm Hl. unfold LIMBS_reduce_once. rewrite LIMBS_less_than_spec by done.
  pose proof (val_bounds r Hr). pose proof (val_bounds m Hm). pose proof base_pos.
  apply (sub_masked r m (negb (val r <? val m))); try done.
  - intros x Hx. rewrite select_mask by (done || (unfold is_limb; lia)). by destruct (val r <? val m).
  - destruct (Z.ltb_spec (val r) (val m)); lia.
  - destruct (val r <? val m); cbn [negb]; apply Z.mod_divide; try (exists 0); lia.
Qed.

Lemma LIMBS_add_mod_spec a b m : limbs_ok a → limbs_ok b → limbs_ok m → length a = length m → length b = length m →
  val a < val m → val b < val m →
  let r := LIMBS_add_mod a b m in
  limbs_ok r ∧ length r = length m ∧ val r = (val a + val b) mod val m.
Proof.
  intros Ha Hb Hm Hla Hlb Hva Hvb. unfold LIMBS_add_mod.
  pose proof (limbs_add_spec a b Ha Hb ltac:(lia)) as Hs. destruct (limbs_add a b) as [r c].
  destruct Hs as (Hr & Hlr & Hc & Hs). pose proof (val_bounds a Ha). pose proof (val_bounds b Hb).
  pose proof (val_bounds m Hm) as Hvm. pose proof (val_bounds r Hr) as Hvr. rewrite Hlr, Hla in *.
  set (P := base ^ Z.of_nat (length m)) in *. pose proof base_pos.
  rewrite is_nonzero_w_spec by (unfold is_limb; lia). rewrite LIMBS_less_than_spec, not_mask, lor_mask by (done || lia).
  set (o := _ || _).
  assert (o = (val m <=? val a + val b)) as Ho.
  { subst o. assert (c = 0 ∨ c = 1) as [-> | ->] by lia; cbn [Z.eqb negb orb]; [|symmetry; apply Z.leb_le; lia].
    destruct (Z.ltb_spec (val r) (val m)), (Z.leb_spec (val m) (val a + val b)); cbn [negb]; done || lia. }
  assert ((val a + val b) mod val m = val a + val b - if o then val m else 0) as ->.
  { rewrite Ho. destruct (Z.leb_spec (val m) (val a + val b)).
    - symmetry. apply (Z.mod_unique_pos _ _ 1); lia.
    - rewrite Z.mod_small; lia. }
  rewrite <-Hlr. apply (sub_masked r m o); rewrite ?Hlr; try done.
  - intros x Hx. by apply limb_and_mask.
  - fold P. destruct o; symmetry in Ho; [apply Z.leb_le in Ho|apply Z.leb_gt in Ho]; lia.
  - fold P. apply Z.mod_divide; [lia|]. exists c. lia.
Qed.

Lemma LIMBS_sub_mod_spec a b m : limbs_ok a → limbs_ok b → limbs_ok m → length a = length m → length b = length m →
  val a < val m → val b < val m →
  let r := LIMBS_sub_mod a b m in
  limbs_ok r ∧ length r = length m ∧ val r = (val a - val b) mod val m.
Proof.
  intros Ha Hb Hm Hla Hlb Hva Hvb. unfold LIMBS_sub_mod.
  pose proof (limbs_sub_spec a b Ha Hb ltac:(lia)) as Hs. destruct (limbs_sub a b) as [r c].
  destruct Hs as (Hr & Hlr & Hc & Hs). pose proof (val_bounds a Ha). pose proof (val_bounds b Hb).
  pose proof (val_bounds m Hm) as Hvm. pose proof (val_bounds r Hr) as Hvr. rewrite Hlr, Hla in *.
  set (u := val a <? val b) in *. rewrite is_nonzero_w_spec by (rewrite Hc; apply bit_ok).
  replace (negb (c =? 0)) with u by (rewrite Hc; by destruct u).
  destruct (fmap_mask (λ x, Z.land x (mask u)) u m Hm ltac:(intros; by apply limb_and_mask)) as (Hm' & Hlm & Hv).
  pose proof (limbs_add_spec r _ Hr Hm' ltac:(lia)) as Hs'. destruct (limbs_add r _) as [r' c'].
  destruct Hs' as (Hr' & Hlr' & Hc' & Hs'). cbn [fst]. split; [done|]. split; [lia|].
  pose proof (val_bounds r' Hr') as Hb'. rewrite Hlr', Hlr, Hv in *. set (P := base ^ Z.of_nat (length m)) in *.
  assert (u = true ∧ val a < val b ∨ u = false ∧ val b <= val a) as [[Hu ?]|[Hu ?]]
    by (subst u; destruct (Z.ltb_spec (val a) (val b)); auto); rewrite Hu in *; subst c.
  - assert (c' = 0 ∨ c' = 1) as [-> | ->] by lia; [lia|]. apply (Z.mod_unique_pos _ _ (-1)); lia.
  - rewrite Z.mod_small by lia. assert (c' = 0 ∨ c' = 1) as [-> | ->] by lia; lia.
Qed.

Lemma lor_low x y k : 0 <= k → 0 <= y < 2 ^ k → Z.lor (x * 2 ^ k) y = x * 2 ^ k + y.
Proof.
  intros Hk Hy. symmetry. rewrite Z.add_nocarry_lxor, Z.lxor_lor; [done|..];
    apply Z.bits_inj'; intros n Hn; rewrite Z.land_spec, Z.bits_0;
    (destruct (Z.lt_ge_cases n k); [by rewrite Z.mul_pow2_bits_low|]);
    rewrite (proj1 (Z.bounded_iff_bits_nonneg k y Hk ltac:(lia))) by lia; apply andb_false_r.
Qed.

Lemma shl_loop_spec a c : limbs_ok a → 0 <= c <= 1 →
  let r := shl_loop a c in
  limbs_ok r ∧ length r = length a ∧
  ∃ k, 0 <= k <= 1 ∧ val r + base ^ Z.of_nat (length a) * k = 2 * val a + c ∧
       k = from_option (λ x, Z.shiftr x (LIMB_BITS - 1)) c (last a).
Proof.
  intros Ha. revert c. induction Ha as [|x a Hx Ha IH]; intros c Hc; cbn [shl_loop val length].
  { split; [by apply Forall_nil|]. split; [done|]. exists c. cbn [last from_option val]. change (base ^ Z.of_nat 0) with 1. lia. }
  destruct base_half as [Hb Hp]. pose proof limb_bits_pos. unfold is_limb in Hx.
  set (h := Z.shiftr x (LIMB_BITS - 1)).
  assert (0 <= h <= 1) as Hh.
  { subst h. rewrite Z.shiftr_div_pow2 by lia. split; [apply Z.div_pos; lia|]. apply Z.lt_succ_r, Z.div_lt_upper_bound; lia. }
  assert (Z.lor (as_limb (Z.shiftl x 1)) c = 2 * x + c - base * h) as ->.
  { assert (as_limb (Z.shiftl x 1) = (x - 2 ^ (LIMB_BITS - 1) * h) * 2 ^ 1) as ->.
    - rewrite Z.shiftl_mul_pow2 by lia. symmetry. subst h. rewrite Z.shiftr_div_pow2 by lia.
      pose proof (Z_div_mod_eq_full x (2 ^ (LIMB_BITS - 1))). pose proof (Z.mod_pos_bound x (2 ^ (LIMB_BITS - 1)) Hp).
      apply (Z.mod_unique_pos _ _ (x / 2 ^ (LIMB_BITS - 1))); lia.
    - rewrite lor_low by lia. lia. }
  destruct (IH h Hh) as (Hr & Hl & k & Hk & Hv & Hkl). split; [|split; [cbn; lia|]].
  - apply Forall_cons. split; [|done]. unfold is_limb. subst h. rewrite Z.shiftr_div_pow2 in * by lia.
    pose proof (Z_div_mod_eq_full x (2 ^ (LIMB_BITS - 1))). pose proof (Z.mod_pos_bound x (2 ^ (LIMB_BITS - 1)) Hp). lia.
  - exists k. split; [done|]. cbn [val length]. rewrite base_pow_S. split; [nia|]. rewrite Hkl, last_cons. by destruct (last a).
Qed.

Lemma high_bit_spec x : is_limb x →
  constant_time_is_nonzero_w (Z.land x LIMB_HIGH_BIT) = mask (negb (Z.shiftr x (LIMB_BITS - 1) =? 0)).
Proof.
  intros Hx. pose proof limb_bits_pos. destruct base_half as [Hb Hp]. pose proof Hx as [Hx0 Hx1].
  assert (LIMB_HIGH_BIT = 2 ^ (LIMB_BITS - 1)) as ->.
  { unfold LIMB_HIGH_BIT. rewrite Z.shiftl_1_l, as_limb_small; [done|]. unfold is_limb. lia. }
  assert (Z.land x (2 ^ (LIMB_BITS - 1)) = Z.shiftl (Z.shiftr x (LIMB_BITS - 1)) (LIMB_BITS - 1)) as ->.
  { apply Z.bits_inj'. intros n Hn. rewrite Z.land_spec, Z.pow2_bits_eqb, Z.shiftl_spec by lia.
    destruct (Z.lt_ge_cases n (LIMB_BITS - 1)).
    - rewrite (Z.testbit_neg_r _ (n - _)) by lia. destruct (Z.eqb_spec (LIMB_BITS - 1) n); [lia|]. apply andb_false_r.
    - rewrite Z.shiftr_spec by lia. rewrite Z.sub_add.
      destruct (Z.eqb_spec (LIMB_BITS - 1) n); [by rewrite andb_true_r|]. by rewrite (limb_high_bits x n Hx) by lia. }
  rewrite Z.shiftl_mul_pow2, Z.shiftr_div_pow2 by lia.
  pose proof (Z_div_mod_eq_full x (2 ^ (LIMB_BITS - 1))). pose proof (Z.mod_pos_bound x (2 ^ (LIMB_BITS - 1)) Hp).
  assert (0 <= x / 2 ^ (LIMB_BITS - 1)) by (apply Z.div_pos; lia).
  set (q := x / 2 ^ (LIMB_BITS - 1)) in *. set (p := 2 ^ (LIMB_BITS - 1)) in *.
  assert (0 <= q * p) by (apply Z.mul_nonneg_nonneg; lia).
  rewrite is_nonzero_w_spec by (unfold is_limb; lia). f_equal. f_equal. clearbody q p.
  destruct (Z.eqb_spec q 0) as [->|]; [done|]. apply Z.eqb_neq. nia.
Qed.

Lemma LIMBS_shl_mod_spec a m : limbs_ok a → limbs_ok m → length a = length m → val a < val m →
  let r := LIMBS_shl_mod a m in
  limbs_ok r ∧ length r = length m ∧ val r = (2 * val a) mod val m.
Proof.
  intros Ha Hm Hl Hv. unfold LIMBS_shl_mod.
  destruct (shl_loop_spec a 0 Ha ltac:(lia)) as (Hr & Hlr & k & Hk & Hs & Hkl). set (r := shl_loop a 0) in *.
  pose proof (val_bounds a Ha). pose proof (val_bounds m Hm) as Hvm. pose proof (val_bounds r Hr) as Hvr.
  rewrite Hlr, Hl in *. set (P := base ^ Z.of_nat (length m)) in *. pose proof base_pos as Hbp.
  assert (constant_time_is_nonzero_w (Z.land (default 0 (last a)) LIMB_HIGH_BIT) = mask (negb (k =? 0))) as ->.
  { rewrite high_bit_spec.
    - replace (Z.shiftr (default 0 (last a)) (LIMB_BITS - 1)) with k; [done|].
      rewrite Hkl. destruct (last a); cbn; [done|by rewrite Z.shiftr_0_l].
    - destruct (last a) eqn:E; cbn; [|unfold is_limb; lia].
      apply (proj1 (Forall_forall _ _) Ha). by apply last_Some_elem_of. }
  rewrite LIMBS_less_than_spec, not_mask, lor_mask by (done || lia).
  set (o := _ || _).
  assert (o = (val m <=? 2 * val a)) as Ho.
  { subst o. assert (k = 0 ∨ k = 1) as [-> | ->] by lia; cbn [Z.eqb negb orb]; [|symmetry; apply Z.leb_le; lia].
    destruct (Z.ltb_spec (val r) (val m)), (Z.leb_spec (val m) (2 * val a)); cbn [negb]; done || lia. }
  assert ((2 * val a) mod val m = 2 * val a - if o then val m else 0) as ->.
  { rewrite Ho. destruct (Z.leb_spec (val m) (2 * val a)).
    - symmetry. apply (Z.mod_unique_pos _ _ 1); lia.
    - rewrite Z.mod_small; lia. }
  rewrite <-Hlr. apply (sub_masked r m o); rewrite ?Hlr; try done.
  - intros x Hx. by apply limb_and_mask.
  - fold P. destruct o; symmetry in Ho; [apply Z.leb_le in Ho|apply Z.leb_gt in Ho]; lia.
  - fold P. apply Z.mod_divide; [lia|]. exists k. lia.
Qed.

(** ** Bit lengths *)

Lemma high_limb_num_bits_spec n h : 0 <= h < 2 ^ Z.of_nat n →
  high_limb_num_bits n h = if h =? 0 then None else Some (Z.to_nat (Z.log2 h + 1)).
Proof.
  induction n as [|n IH]; intros Hh; cbn [high_limb_num_bits].
  { change (2 ^ Z.of_nat 0) with 1 in Hh. by replace h with 0 by lia. }
  unfold LIMB_shr. rewrite Z.shiftr_div_pow2 by lia. rewrite Nat2Z.inj_succ, Z.pow_succ_r in Hh by lia.
  pose proof (Z.pow_pos_nonneg 2 (Z.of_nat n)).
  destruct (Z.lt_ge_cases h (2 ^ Z.of_nat n)).
  - rewrite Z.div_small by lia. apply IH. lia.
  - replace (h / 2 ^ Z.of_nat n) with 1 by (apply (Z.div_unique_pos _ _ _ (h - 2 ^ Z.of_nat n)); lia).
    rewrite (proj2 (Z.eqb_neq h 0)) by lia. rewrite (Z.log2_unique h (Z.of_nat n)); [f_equal; lia|lia|].
    rewrite Z.pow_succ_r by lia. lia.
Qed.

Lemma limbs_minimal_bits_spec a : limbs_ok a →
  limbs_minimal_bits a = if val a =? 0 then 0 else Z.log2 (val a) + 1.
Proof.
  unfold limbs_minimal_bits. induction a as [|x a IH] using rev_ind; intros Ha; [done|].
  apply Forall_app in Ha as [Ha Hx]. apply Forall_cons in Hx as [Hx _]. rewrite reverse_snoc. cbn [minimal_bits_loop].
  pose proof limb_bits_pos. rewrite high_limb_num_bits_spec by (rewrite Z2Nat.id by lia; exact Hx).
  rewrite val_app. cbn [val]. rewrite Z.mul_0_r, Z.add_0_r. unfold is_limb in Hx.
  destruct (Z.eqb_spec x 0) as [->|Hne]; [by rewrite Z.mul_0_r, Z.add_0_r, IH|].
  pose proof (val_bounds a Ha). rewrite length_reverse.
  assert (base ^ Z.of_nat (length a) = 2 ^ (LIMB_BITS * Z.of_nat (length a))) as Hp.
  { unfold base. by rewrite <-Z.pow_mul_r by lia. }
  rewrite (proj2 (Z.eqb_neq _ 0)) by nia. pose proof (Z.log2_nonneg x). rewrite Z2Nat.id by lia.
  destruct (Z.log2_spec x) as [Hl1 Hl2]; [lia|]. symmetry.
  rewrite (Z.log2_unique _ (LIMB_BITS * Z.of_nat (length a) + Z.log2 x)); [lia|lia|].
  rewrite Z.pow_succ_r, Z.pow_add_r, <-Hp by lia. rewrite Z.pow_succ_r in Hl2 by lia. nia.
Qed.

(** ** Big-endian bytes *)

Lemma from_be_bytes_acc acc l : foldl (λ acc b, 256 * acc + b) acc l = acc * 256 ^ Z.of_nat (length l) + from_be_bytes l.
Proof.
  unfold from_be_bytes. revert acc. induction l as [|b l IH]; intros acc; cbn [foldl length]; [change (256 ^ Z.of_nat 0) with 1; lia|].
  rewrite IH, (IH (256 * 0 + b)), Nat2Z.inj_succ, Z.pow_succ_r by lia. lia.
Qed.

Lemma from_be_bytes_app a b : from_be_bytes (a ++ b) = from_be_bytes a * 256 ^ Z.of_nat (length b) + from_be_bytes b.
Proof. unfold from_be_bytes at 1. rewrite foldl_app. apply from_be_bytes_acc. Qed.

Lemma from_be_bytes_bounds l : bytes_ok l → 0 <= from_be_bytes l < 256 ^ Z.of_nat (length l).
Proof.
  induction l as [|b l IH] using rev_ind; intros Hl; [done|]. apply Forall_app in Hl as [Hl Hb]. apply Forall_cons in Hb as [Hb _].
  rewrite from_be_bytes_app, length_app, Nat2Z.inj_add, Z.pow_add_r by lia. specialize (IH Hl).
  cbn [length]. change (256 ^ Z.of_nat 1) with 256. change (from_be_bytes [b]) with (256 * 0 + b).
  unfold in_width in Hb. change (2 ^ 8) with 256 in Hb. lia.
Qed.

Lemma to_be_bytes_S n x : 0 <= x → to_be_bytes (S n) x = to_be_bytes n (x / 256) ++ [x mod 256].
Proof.
  revert x. induction n as [|n IH]; intros x Hx; [cbn; by rewrite Z.div_1_r|].
  change (to_be_bytes (S (S n)) x) with ((x / 256 ^ Z.of_nat (S n)) mod 256 :: to_be_bytes (S n) x).
  rewrite IH by done. cbn [to_be_bytes app]. f_equal.
  rewrite Z.div_div, <-Z.pow_succ_r, Nat2Z.inj_succ by (try apply Z.pow_pos_nonneg; lia). done.
Qed.

Lemma to_be_bytes_app m n x : 0 <= x →
  to_be_bytes (m + n) x = to_be_bytes m (x / 256 ^ Z.of_nat n) ++ to_be_bytes n x.
Proof.
  intros Hx. induction m as [|m IH]; [done|]. cbn [Nat.add to_be_bytes app]. rewrite IH. f_equal.
  rewrite Z.div_div by (try apply Z.pow_pos_nonneg; lia). rewrite <-Z.pow_add_r by lia. do 3 f_equal. lia.
Qed.

Lemma to_be_bytes_mod n x y : 0 <= x → 0 <= y → x mod 256 ^ Z.of_nat n = y mod 256 ^ Z.of_nat n →
  to_be_bytes n x = to_be_bytes n y.
Proof.
  revert x y. induction n as [|n IH]; intros x y Hx Hy Heq; [done|]. rewrite !to_be_bytes_S by done.
  rewrite Nat2Z.inj_succ, Z.pow_succ_r, !Z.rem_mul_r in Heq by lia.
  pose proof (Z.mod_pos_bound x 256). pose proof (Z.mod_pos_bound y 256).
  f_equal; [|f_equal; lia]. apply IH; [apply Z.div_pos; lia..|lia].
Qed.

Lemma from_to_be_bytes n x : 0 <= x → from_be_bytes (to_be_bytes n x) = x mod 256 ^ Z.of_nat n.
Proof.
  revert x. induction n as [|n IH]; intros x Hx; [by rewrite Z.mod_1_r|].
  rewrite to_be_bytes_S, from_be_bytes_app, IH by (try apply Z.div_pos; lia). cbn [length].
  change (256 ^ Z.of_nat 1) with 256. change (from_be_bytes [x mod 256]) with (256 * 0 + x mod 256).
  rewrite Nat2Z.inj_succ, Z.pow_succ_r, Z.rem_mul_r by lia. lia.
Qed.

Lemma to_from_be_bytes l : bytes_ok l → to_be_bytes (length l) (from_be_bytes l) = l.
Proof.
  induction l as [|b l IH] using rev_ind; intros Hl; [done|].
  pose proof (from_be_bytes_bounds _ Hl) as Hb0. apply Forall_app in Hl as [Hl Hb]. apply Forall_cons in Hb as [Hb _].
  rewrite length_app, Nat.add_1_r, to_be_bytes_S by lia.
  rewrite from_be_bytes_app in *. cbn [length] in *. change (256 ^ Z.of_nat 1) with 256.
  change (from_be_bytes [b]) with (256 * 0 + b). unfold in_width in Hb. change (2 ^ 8) with 256 in Hb.
  replace ((from_be_bytes l * 256 + (256 * 0 + b)) / 256) with (from_be_bytes l) by (apply (Z.div_unique_pos _ _ _ b); lia).
  replace ((from_be_bytes l * 256 + (256 * 0 + b)) mod 256) with b by (apply (Z.mod_unique_pos _ _ (from_be_bytes l)); lia).
  by rewrite IH.
Qed.

Lemma to_be_bytes_ok n x : bytes_ok (to_be_bytes n x).
Proof.
  induction n as [|n IH]; cbn [to_be_bytes]; [by apply Forall_nil|]. apply Forall_cons. split; [|done].
  apply (Z.mod_pos_bound _ 256). lia.
Qed.

Lemma to_be_bytes_inj n x y : 0 <= x < 256 ^ Z.of_nat n → 0 <= y < 256 ^ Z.of_nat n →
  to_be_bytes n x = to_be_bytes n y → x = y.
Proof.
  intros Hx Hy Heq. apply (f_equal from_be_bytes) in Heq. rewrite !from_to_be_bytes, !Z.mod_small in Heq by lia. done.
Qed.

Lemma base_bytes : base = 256 ^ Z.of_nat LIMB_BYTES.
Proof. destruct limb_bytes as [Hb _]. unfold base. rewrite Hb, Z.pow_mul_r by lia. done. Qed.

Lemma base_pow_bytes (n : nat) : base ^ Z.of_nat n = 256 ^ Z.of_nat (n * LIMB_BYTES).
Proof. rewrite base_bytes, <-Z.pow_mul_r by lia. f_equal. lia. Qed.

Lemma read_limb_spec n limb l : bytes_ok l → (n <= length l)%nat → 0 <= limb → limb * 256 ^ Z.of_nat n + 256 ^ Z.of_nat n <= base →
  read_limb n limb l = (drop n l, Ok (limb * 256 ^ Z.of_nat n + from_be_bytes (take n l))).
Proof.
  revert limb l. induction n as [|n IH]; intros limb l Hl Hn Hp Hb.
  { cbn [read_limb]. rewrite take_0. change (256 ^ Z.of_nat 0) with 1. change (from_be_bytes []) with 0. unfold mret, Parser_ret. do 2 f_equal. lia. }
  destruct l as [|b l]; [cbn in Hn; lia|]. apply Forall_cons in Hl as [Hb0 Hl].
  cbn [read_limb]. unfold mbind, Parser_bind. cbn [read_byte list_untrusted].
  rewrite Nat2Z.inj_succ, Z.pow_succ_r in Hb by lia. pose proof (Z.pow_pos_nonneg 256 (Z.of_nat n)) as Hpos.
  unfold in_width in Hb0. change (2 ^ 8) with 256 in Hb0.
  rewrite Z.shiftl_mul_pow2 by lia. change (2 ^ 8) with 256.
  rewrite as_limb_small by (unfold is_limb; nia).
  change (limb * 256) with (limb * 2 ^ 8). rewrite lor_low by (cbn; lia). change (2 ^ 8) with 256.
  rewrite IH; [|done|cbn in Hn; lia|lia|nia]. cbn [drop take firstn skipn]. do 2 f_equal.
  change (from_be_bytes (b :: take n l)) with (from_be_bytes ([b] ++ take n l)). rewrite from_be_bytes_app.
  rewrite length_take, Nat.min_l by (cbn in Hn; lia). change (from_be_bytes [b]) with (256 * 0 + b).
  rewrite Nat2Z.inj_succ, Z.pow_succ_r by lia. lia.
Qed.

Lemma read_limbs_S k b res :
  read_limbs (Reader := list Z) (S k) b res = (limb ← read_limb b 0; read_limbs k LIMB_BYTES (<[k := limb]> res)).
Proof. done. Qed.

Lemma read_limbs_spec k b res l :
  bytes_ok l → length l = (b + k * LIMB_BYTES)%nat → (b <= LIMB_BYTES)%nat → (S k <= length res)%nat →
  ∃ ls, read_limbs (S k) b res l = ([], Ok (ls ++ drop (S k) res)) ∧
    length ls = S k ∧ limbs_ok ls ∧ val ls = from_be_bytes l.
Proof.
  revert b res l. induction k as [|k IH]; intros b res l Hl Hlen Hb Hres;
    assert (256 ^ Z.of_nat b <= base) as Hpb by (rewrite base_bytes; apply Z.pow_le_mono_r; lia);
    pose proof (from_be_bytes_bounds (take b l) ltac:(by apply Forall_take)) as Hx;
    rewrite length_take, Nat.min_l in Hx by lia;
    rewrite read_limbs_S; unfold mbind, Parser_bind; rewrite read_limb_spec by (done || lia);
    change (0 * 256 ^ Z.of_nat b + from_be_bytes (take b l)) with (from_be_bytes (take b l));
    set (x := from_be_bytes (take b l)) in *.
  - rewrite drop_ge by lia. destruct res as [|y res]; [cbn in Hres; lia|]. exists [x]. split; [done|]. split; [done|].
    split; [apply Forall_singleton; unfold is_limb; lia|]. cbn [val]. subst x. rewrite take_ge by lia. lia.
  - destruct (IH LIMB_BYTES (<[S k := x]> res) (drop b l)) as (ls & Hr & Hll & Hok & Hv);
      [by apply Forall_drop|rewrite length_drop; lia|lia|rewrite length_insert; lia|].
    exists (ls ++ [x]). rewrite Hr. split; [|split; [|split]].
    + rewrite <-(assoc_L (++)). do 3 f_equal.
      rewrite (drop_S _ x (S k)) by (apply list_lookup_insert_eq; lia). by rewrite drop_insert_lt by lia.
    + rewrite length_app. cbn. lia.
    + apply Forall_app. split; [done|]. apply Forall_singleton. unfold is_limb. lia.
    + rewrite val_app, Hll. cbn [val]. rewrite Hv, Z.mul_0_r, Z.add_0_r.
      rewrite <-(take_drop b l) at 2. rewrite from_be_bytes_app, base_pow_bytes, length_drop. subst x.
      replace (length l - b)%nat with (S k * LIMB_BYTES)%nat by lia. lia.
Qed.

Lemma parse_big_endian_spec input len : bytes_ok input →
  match parse_big_endian_and_pad_consttime input len with
  | Ok ls => limbs_ok ls ∧ length ls = len ∧ val ls = from_be_bytes input ∧ input ≠ [] ∧ (length input <= len * LIMB_BYTES)%nat
  | Err _ => input = [] ∨ (len * LIMB_BYTES < length input)%nat
  | Panic => False
  end.
Proof.
  intros Hi. unfold parse_big_endian_and_pad_consttime. destruct limb_bytes as [_ HL].
  destruct (Nat.eqb_spec (length input) 0) as [H0|H0]; [left; by apply nil_length_inv|].
  pose proof (Nat.div_mod_eq (length input) LIMB_BYTES) as Hdm.
  pose proof (Nat.mod_upper_bound (length input) LIMB_BYTES ltac:(lia)) as Hm.
  set (q := (length input / LIMB_BYTES)%nat) in *. set (m := (length input mod LIMB_BYTES)%nat) in *.
  set (b := if (m =? 0)%nat then LIMB_BYTES else m).
  set (n := (q + if (b =? LIMB_BYTES)%nat then 0 else 1)%nat).
  assert (∃ k, n = S k ∧ length input = (b + k * LIMB_BYTES)%nat ∧ (0 < b <= LIMB_BYTES)%nat) as (k & Hn & Hk & Hb).
  { subst n b. destruct (Nat.eqb_spec m 0) as [Hm0|Hm0].
    - rewrite Nat.eqb_refl. destruct q as [|q']; [lia|]. exists q'. nia.
    - rewrite (proj2 (Nat.eqb_neq m LIMB_BYTES)) by lia. exists q. lia. }
  rewrite Hn. destruct (Nat.ltb_spec len (S k)) as [Hlt|Hge]; [right; nia|].
  destruct (read_limbs_spec k b (replicate len 0) input) as (ls & Hr & Hll & Hok & Hv);
    [done|done|lia|rewrite length_replicate; lia|].
  cbn [read_all list_untrusted]. rewrite Hr. cbn. rewrite drop_replicate.
  split; [apply Forall_app; split; [done|apply limbs_ok_replicate_0]|].
  split; [rewrite length_app, length_replicate; lia|].
  split; [rewrite val_app, val_replicate_0; lia|]. split; [intros ->; done|nia].
Qed.

(** ** Storing limbs *)

Lemma store_limb_spec n start limb pre mid post : 0 <= limb → length pre = start → length mid = n →
  store_limb n start limb (pre ++ mid ++ post) = pre ++ to_be_bytes n limb ++ post.
Proof.
  intros Hl Hs. revert limb mid post Hl. induction n as [|n IH]; intros limb mid post Hl Hm; cbn [store_limb].
  { by destruct mid. }
  destruct mid as [|y mid' _] using rev_ind; [done|]. rewrite length_app in Hm. cbn in Hm.
  rewrite insert_app_r_alt by lia. replace (start + n - length pre)%nat with n by lia.
  rewrite <-(assoc_L (++)). rewrite insert_app_r_alt by lia. replace (n - length mid')%nat with 0%nat by lia. cbn [app].
  change (<[0%nat := _]> (y :: post)) with (Z.land limb 255 :: post).
  rewrite IH; [|by apply Z.shiftr_nonneg|lia]. rewrite to_be_bytes_S, <-(assoc_L (++)) by done.
  rewrite Z.shiftr_div_pow2 by lia. change (2 ^ 8) with 256. do 3 f_equal. cbn [app]. f_equal.
  apply (Z.land_ones limb 8). lia.
Qed.

Lemma store_limbs_spec ls out : limbs_ok ls → (length ls * LIMB_BYTES <= length out)%nat →
  store_limbs ls out = to_be_bytes (length ls * LIMB_BYTES) (val ls) ++ drop (length ls * LIMB_BYTES) out.
Proof.
  intros Hok. revert out. induction Hok as [|x ls Hx Hok IH]; intros out Hlen; cbn [store_limbs length]; [done|].
  set (n := (length ls * LIMB_BYTES)%nat) in *. cbn [length Nat.mul] in Hlen. fold n in Hlen.
  assert (out = take n out ++ take LIMB_BYTES (drop n out) ++ drop (n + LIMB_BYTES) out) as Hout.
  { rewrite <-drop_drop, !take_drop. done. }
  rewrite Hout at 1. unfold is_limb in Hx.
  rewrite store_limb_spec by (rewrite ?length_take, ?length_drop; lia).
  rewrite IH by (rewrite !length_app, length_to_be_bytes, length_take, length_drop; lia).
  rewrite drop_app_length' by (rewrite length_take; lia).
  cbn [Nat.mul]. fold n. rewrite (assoc_L (++)). rewrite (Nat.add_comm LIMB_BYTES n). f_equal.
  pose proof (val_bounds ls Hok) as Hv. cbn [val]. pose proof base_pos. assert (0 <= base * val ls) by (apply Z.mul_nonneg_nonneg; lia).
  rewrite to_be_bytes_app by lia.
  rewrite <-base_bytes. f_equal; [|].
  - f_equal. apply (Z.div_unique_pos _ _ _ x); lia.
  - apply to_be_bytes_mod; [lia..|]. rewrite <-base_bytes, (Z.mod_small x) by lia. apply (Z.mod_unique_pos _ _ (val ls)); lia.
Qed.

Lemma big_endian_from_limbs_spec ls out : limbs_ok ls →
  big_endian_from_limbs ls out =
  if (length out =? length ls * LIMB_BYTES)%nat then Ok (to_be_bytes (length out) (val ls)) else Panic.
Proof.
  intros Hok. unfold big_endian_from_limbs. destruct (Nat.eqb_spec (length out) (length ls * LIMB_BYTES)) as [Heq|]; [|done].
  rewrite store_limbs_spec by (done || lia). by rewrite <-Heq, drop_all, app_nil_r.
Qed.
End proofs.
