(* ===== verification/RingMont.v ===== *)
(** * Montgomery multiplication

    The C code that multiplies limbs when there is no assembly, as in the WebAssembly build of
    the runtime: [GFp_bn_mul_add_words], [GFp_bn_mul_words] and the unrolled products of eight
    limbs ([src/utils/ring/crypto/fipsmodule/bn/generic.c]), [bn_mul_normal] and
    [GFp_bn_mul_mont] ([mul.c]), Montgomery reduction ([montgomery.c]) and the inverse it uses
    ([montgomery_inv.c]).

    A pointer that advances over an array is the list of the limbs from where it points. *)
From S2P Require Import Prelude Errors Frame Untrusted RingIo RingDigest RingLimb RingLimbProofs.

Section mont.
Context `{!LimbWidth}.

(** ** Products with a limb *)

(** [BN_ULLONG] has twice the bits of a limb. *)
Definition bn_umult_lohi (a b : Z) : Z * Z :=
  let result := (a * b) mod (base * base) in (as_limb result, as_limb (Z.shiftr result LIMB_BITS)).

(** The macro [mul_add(r, a, w, c)]: the new [r] and [c]. *)
Definition mul_add (r a w c : Z) : Z * Z :=
  let '(low, high) := bn_umult_lohi w a in
  let ret := as_limb (r + c) in
  let c := if ret <? c then 1 else 0 in
  let c := as_limb (c + high) in
  let ret := as_limb (ret + low) in
  let c := as_limb (c + if ret <? low then 1 else 0) in
  (ret, c).

(** The macro [mul(r, a, w, c)] *)
Definition mul (a w c : Z) : Z * Z :=
  let t := (w * a + c) mod (base * base) in (as_limb t, as_limb (Z.shiftr t LIMB_BITS)).

(** The second loops, a limb at a time, and the first, four limbs at a time. *)
Fixpoint mul_add_loop (rp ap : list Z) (w c1 : Z) : list Z * Z :=
  match rp, ap with
  | r0 :: rp, a0 :: ap =>
      let '(r0, c1) := mul_add r0 a0 w c1 in
      let '(rp, c1) := mul_add_loop rp ap w c1 in (r0 :: rp, c1)
  | _, _ => ([], c1)
  end.
Fixpoint mul_add_loop4 (rp ap : list Z) (w c1 : Z) : list Z * Z :=
  match rp, ap with
  | r0 :: r1 :: r2 :: r3 :: rp, a0 :: a1 :: a2 :: a3 :: ap =>
      let '(r0, c1) := mul_add r0 a0 w c1 in
      let '(r1, c1) := mul_add r1 a1 w c1 in
      let '(r2, c1) := mul_add r2 a2 w c1 in
      let '(r3, c1) := mul_add r3 a3 w c1 in
      let '(rp, c1) := mul_add_loop4 rp ap w c1 in (r0 :: r1 :: r2 :: r3 :: rp, c1)
  | _, _ => mul_add_loop rp ap w c1
  end.

(** [rp] and [ap] have [num] limbs. *)
Definition GFp_bn_mul_add_words (rp ap : list Z) (w : Z) : list Z * Z := mul_add_loop4 rp ap w 0.

Fixpoint mul_loop (ap : list Z) (w c1 : Z) : list Z * Z :=
  match ap with
  | a0 :: ap =>
      let '(r0, c1) := mul a0 w c1 in
      let '(rp, c1) := mul_loop ap w c1 in (r0 :: rp, c1)
  | _ => ([], c1)
  end.
Fixpoint mul_loop4 (ap : list Z) (w c1 : Z) : list Z * Z :=
  match ap with
  | a0 :: a1 :: a2 :: a3 :: ap =>
      let '(r0, c1) := mul a0 w c1 in
      let '(r1, c1) := mul a1 w c1 in
      let '(r2, c1) := mul a2 w c1 in
      let '(r3, c1) := mul a3 w c1 in
      let '(rp, c1) := mul_loop4 ap w c1 in (r0 :: r1 :: r2 :: r3 :: rp, c1)
  | _ => mul_loop ap w c1
  end.
Definition GFp_bn_mul_words (ap : list Z) (w : Z) : list Z * Z := mul_loop4 ap w 0.

(** ** Products of limbs *)

(** The rounds of the loop of [bn_mul_normal], which is unrolled four times: [r] points to the
    limb where the row of [b0] starts, [rr] to the limb after the row. *)
Fixpoint mul_rows (r a b : list Z) : list Z :=
  match b with
  | [] => r
  | b0 :: b =>
      let '(row, c) := GFp_bn_mul_add_words (take (length a) r) a b0 in
      match row ++ c :: drop (S (length a)) r with
      | r0 :: r => r0 :: mul_rows r a b
      | [] => []
      end
  end.

Definition bn_mul_normal (r a b : list Z) : list Z :=
  let '(a, b) := if (length a <? length b)%nat then (b, a) else (a, b) in
  match b with
  | [] => replicate (length a) 0 ++ drop (length a) r
  | b0 :: b =>
      let '(row, c) := GFp_bn_mul_words a b0 in
      match row ++ c :: drop (S (length a)) r with
      | r0 :: r => r0 :: mul_rows r a b
      | [] => []
      end
  end.

(** ** Unrolled products of eight limbs *)

(** The three accumulators, the lowest first. *)
Definition Acc : Type := Z * Z * Z.

(** The macro [mul_add_c], and [sqr_add_c], which is the same on [a[i]] twice. *)
Definition mul_add_c (a b : Z) (acc : Acc) : Acc :=
  let '(c0, c1, c2) := acc in
  let t := (a * b) mod (base * base) in
  let t := (t + c0) mod (base * base) in
  let c0 := as_limb t in
  let hi := as_limb (Z.shiftr t LIMB_BITS) in
  let c1 := as_limb (c1 + hi) in
  let c2 := if c1 <? hi then as_limb (c2 + 1) else c2 in
  (c0, c1, c2).

(** The macro [mul_add_c2] *)
Definition mul_add_c2 (a b : Z) (acc : Acc) : Acc :=
  let '(c0, c1, c2) := acc in
  let t := (a * b) mod (base * base) in
  let tt := (t + c0) mod (base * base) in
  let c0 := as_limb tt in
  let hi := as_limb (Z.shiftr tt LIMB_BITS) in
  let c1 := as_limb (c1 + hi) in
  let c2 := if c1 <? hi then as_limb (c2 + 1) else c2 in
  let t := (t + c0) mod (base * base) in
  let c0 := as_limb t in
  let hi := as_limb (Z.shiftr t LIMB_BITS) in
  let c1 := as_limb (c1 + hi) in
  let c2 := if c1 <? hi then as_limb (c2 + 1) else c2 in
  (c0, c1, c2).

(** A line of an unrolled product with the indices it reads. *)
Inductive CombaStep :=
| MulAddC (i j : nat)
| SqrAddC (i : nat)
| SqrAddC2 (i j : nat).

Definition comba_step (a b : list Z) (acc : Acc) (s : CombaStep) : Acc :=
  match s with
  | MulAddC i j => mul_add_c (nth i a 0) (nth j b 0) acc
  | SqrAddC i => mul_add_c (nth i a 0) (nth i a 0) acc
  | SqrAddC2 i j => mul_add_c2 (nth i a 0) (nth j a 0) acc
  end.

(** After a column its lowest accumulator is stored and reset; it is the highest one of the next
    column.  After the last column the next accumulator is stored too. *)
Fixpoint comba_columns (a b : list Z) (columns : list (list CombaStep)) (acc : Acc) : list Z :=
  match columns with
  | [] => let '(c0, _, _) := acc in [c0]
  | column :: columns =>
      let '(c0, c1, c2) := foldl (comba_step a b) acc column in
      c0 :: comba_columns a b columns (c1, c2, 0)
  end.

Definition mul_comba8 : list (list CombaStep) := [
  [MulAddC 0 0];
  [MulAddC 0 1; MulAddC 1 0];
  [MulAddC 2 0; MulAddC 1 1; MulAddC 0 2];
  [MulAddC 0 3; MulAddC 1 2; MulAddC 2 1; MulAddC 3 0];
  [MulAddC 4 0; MulAddC 3 1; MulAddC 2 2; MulAddC 1 3; MulAddC 0 4];
  [MulAddC 0 5; MulAddC 1 4; MulAddC 2 3; MulAddC 3 2; MulAddC 4 1; MulAddC 5 0];
  [MulAddC 6 0; MulAddC 5 1; MulAddC 4 2; MulAddC 3 3; MulAddC 2 4; MulAddC 1 5; MulAddC 0 6];
  [MulAddC 0 7; MulAddC 1 6; MulAddC 2 5; MulAddC 3 4; MulAddC 4 3; MulAddC 5 2; MulAddC 6 1; MulAddC 7 0];
  [MulAddC 7 1; MulAddC 6 2; MulAddC 5 3; MulAddC 4 4; MulAddC 3 5; MulAddC 2 6; MulAddC 1 7];
  [MulAddC 2 7; MulAddC 3 6; MulAddC 4 5; MulAddC 5 4; MulAddC 6 3; MulAddC 7 2];
  [MulAddC 7 3; MulAddC 6 4; MulAddC 5 5; MulAddC 4 6; MulAddC 3 7];
  [MulAddC 4 7; MulAddC 5 6; MulAddC 6 5; MulAddC 7 4];
  [MulAddC 7 5; MulAddC 6 6; MulAddC 5 7];
  [MulAddC 6 7; MulAddC 7 6];
  [MulAddC 7 7]].

Definition sqr_comba8 : list (list CombaStep) := [
  [SqrAddC 0];
  [SqrAddC2 1 0];
  [SqrAddC 1; SqrAddC2 2 0];
  [SqrAddC2 3 0; SqrAddC2 2 1];
  [SqrAddC 2; SqrAddC2 3 1; SqrAddC2 4 0];
  [SqrAddC2 5 0; SqrAddC2 4 1; SqrAddC2 3 2];
  [SqrAddC 3; SqrAddC2 4 2; SqrAddC2 5 1; SqrAddC2 6 0];
  [SqrAddC2 7 0; SqrAddC2 6 1; SqrAddC2 5 2; SqrAddC2 4 3];
  [SqrAddC 4; SqrAddC2 5 3; SqrAddC2 6 2; SqrAddC2 7 1];
  [SqrAddC2 7 2; SqrAddC2 6 3; SqrAddC2 5 4];
  [SqrAddC 5; SqrAddC2 6 4; SqrAddC2 7 3];
  [SqrAddC2 7 4; SqrAddC2 6 5];
  [SqrAddC 6; SqrAddC2 7 5];
  [SqrAddC2 7 6];
  [SqrAddC 7]].

Definition GFp_bn_mul_comba8 (a b : list Z) : list Z := comba_columns a b mul_comba8 (0, 0, 0).
Definition GFp_bn_sqr_comba8 (a : list Z) : list Z := comba_columns a a sqr_comba8 (0, 0, 0).

(** ** Montgomery reduction *)

(** The loop over [i]; [a] points to [a[i]]. *)
Fixpoint montgomery_loop (rounds : nat) (a n : list Z) (n0 carry : Z) : list Z * Z :=
  match rounds with
  | O => (a, carry)
  | S rounds =>
      let num_n := length n in
      let '(row, v) := GFp_bn_mul_add_words (take num_n a) n (as_limb (hd 0 a * n0)) in
      let top := nth num_n a 0 in
      let v := as_limb (v + as_limb (carry + top)) in
      let carry := Z.lor carry (if v =? top then 0 else 1) in
      let carry := Z.land carry (if v <=? top then 1 else 0) in
      montgomery_loop rounds (tl (row ++ v :: drop (S num_n) a)) n n0 carry
  end.

(** [None] is the return value 0. *)
Definition GFp_bn_from_montgomery_in_place (num_r : nat) (a n : list Z) (n0_ : Z * Z) : option (list Z) :=
  let num_n := length n in
  if negb (num_r =? num_n)%nat || negb (length a =? 2 * num_n)%nat then None else
  let '(a, carry) := montgomery_loop num_n a n n0_.1 0 in
  let '(r, borrow) := limbs_sub a n in
  let v := as_limb (borrow - carry) in
  let v := as_limb (0 - v) in
  Some (zip_with (λ ai ri, constant_time_select_w v ai ri) a r).

(** [same] says that the pointers [ap] and [bp] are equal. *)
Definition GFp_bn_mul_mont (rp ap bp np : list Z) (n0 : Z * Z) (same : bool) : list Z :=
  let num := length np in
  let rr := replicate (num * 2) 0 in
  let rr :=
    if (num =? 8)%nat then if same then GFp_bn_sqr_comba8 ap else GFp_bn_mul_comba8 ap bp
    else bn_mul_normal rr ap bp in
  default rp (GFp_bn_from_montgomery_in_place num rr np n0).

(** ** The inverse modulo [2 ^ 64] *)

(** The loop over [i]; [LG_LITTLE_R] is 64. *)
Fixpoint neg_inv_loop (rounds : nat) (beta u v : Z) : Z :=
  match rounds with
  | O => v
  | S rounds =>
      let alpha := Z.shiftl 1 63 in
      let u_is_odd := wrapping_sub 64 0 (Z.land u 1) in
      let beta_if_u_is_odd := Z.land beta u_is_odd in
      let u := wrapping_add 64 (Z.shiftr (Z.lxor u beta_if_u_is_odd) 1) (Z.land u beta_if_u_is_odd) in
      let alpha_if_u_is_odd := Z.land alpha u_is_odd in
      let v := wrapping_add 64 (Z.shiftr v 1) alpha_if_u_is_odd in
      neg_inv_loop rounds beta u v
  end.

Definition GFp_bn_neg_inv_mod_r_u64 (n : Z) : Z := neg_inv_loop 64 n 1 0.

(** [From<u64> for N0]; [N0_LIMBS_USED] is one or two. *)
Definition n0_from (n0 : Z) : Z * Z :=
  if LIMB_BITS =? 64 then (n0, 0) else (as_limb n0, as_limb (Z.shiftr n0 LIMB_BITS)).
End mont.
