(* ===== verification/RingMontProofs.v ===== *)
(** * Montgomery multiplication is correct

    The products of limbs are exact, the inverse modulo [2 ^ 64] is one, and Montgomery
    multiplication returns the product divided by [R] modulo [n], reduced. *)
From S2P Require Import Prelude Errors Frame Untrusted RingIo RingDigest RingLimb RingLimbProofs RingMont.

Section proofs.
Context `{!LimbWidth}.

(** ** Products with a limb *)

Lemma split_double x : 0 <= x < base * base →
  is_limb (as_limb x) ∧ is_limb (as_limb (Z.shiftr x LIMB_BITS)) ∧
  as_limb x + base * as_limb (Z.shiftr x LIMB_BITS) = x.
Proof.
  intros Hx. pose proof base_pos. pose proof limb_bits_pos. split; [apply as_limb_ok|]. split; [apply as_limb_ok|].
  rewrite Z.shiftr_div_pow2 by lia. change (2 ^ LIMB_BITS) with base.
  rewrite (as_limb_small (_ / _)).
  - unfold as_limb. pose proof (Z_div_mod_eq_full x base). lia.
  - split; [apply Z.div_pos; lia|]. apply Z.div_lt_upper_bound; lia.
Qed.

Lemma add_carry x y : is_limb x → is_limb y →
  as_limb (x + y) + base * (if as_limb (x + y) <? y then 1 else 0) = x + y.
Proof.
  intros Hx Hy. unfold is_limb in *. destruct (Z.lt_ge_cases (x + y) base).
  - rewrite as_limb_small by (unfold is_limb; lia). destruct (Z.ltb_spec (x + y) y); lia.
  - replace (as_limb (x + y)) with (x + y - base) by (apply (Z.mod_unique_pos _ _ 1); lia).
    destruct (Z.ltb_spec (x + y - base) y); lia.
Qed.

Lemma mul_add_spec r a w c : is_limb r → is_limb a → is_limb w → is_limb c →
  let '(r', c') := mul_add r a w c in is_limb r' ∧ is_limb c' ∧ r' + base * c' = r + a * w + c.
Proof.
  intros Hr Ha Hw Hc. unfold mul_add, bn_umult_lohi. pose proof base_pos as Hb.
  assert (0 <= w * a <= (base - 1) * (base - 1)) as Hp by (unfold is_limb in *; nia).
  rewrite (Z.mod_small (w * a)) by nia. destruct (split_double (w * a)) as (Hl & Hh & Hs); [nia|].
  set (low := as_limb (w * a)) in *. set (high := as_limb (Z.shiftr (w * a) LIMB_BITS)) in *.
  pose proof (add_carry r c Hr Hc) as H1. set (ret := as_limb (r + c)) in *.
  assert (is_limb ret) as Hret by apply as_limb_ok.
  pose proof (add_carry ret low Hret Hl) as H2. set (ret' := as_limb (ret + low)) in *.
  assert (is_limb ret') as Hret' by apply as_limb_ok. clearbody ret ret' low high.
  set (k1 := if ret <? c then 1 else 0) in *. set (k2 := if ret' <? low then 1 else 0) in *.
  assert (0 <= k1 <= 1 ∧ 0 <= k2 <= 1) as [Hk1 Hk2] by (subst k1 k2; destruct (_ <? _), (_ <? _); lia).
  clearbody k1 k2. unfold is_limb in *.
  assert (base * (high + k1 + k2) <= base * (base - 1) + (base - 1)) by nia.
  assert (high + k1 + k2 < base) by nia.
  rewrite (as_limb_small (k1 + high)) by (unfold is_limb; lia). rewrite as_limb_small by (unfold is_limb; lia). nia.
Qed.

Lemma mul_spec a w c : is_limb a → is_limb w → is_limb c →
  let '(r, c') := mul a w c in is_limb r ∧ is_limb c' ∧ r + base * c' = a * w + c.
Proof.
  intros Ha Hw Hc. unfold mul. pose proof base_pos. unfold is_limb in *.
  rewrite Z.mod_small by nia. destruct (split_double (w * a + c)) as (Hl & Hh & Hs); [nia|].
  split; [done|]. split; [done|]. lia.
Qed.

Lemma mul_add_loop_spec rp ap w c : limbs_ok rp → limbs_ok ap → length rp = length ap → is_limb w → is_limb c →
  let '(r, c') := mul_add_loop rp ap w c in
  limbs_ok r ∧ length r = length ap ∧ is_limb c' ∧
  val r + base ^ Z.of_nat (length ap) * c' = val rp + val ap * w + c.
Proof.
  intros Hr. revert ap c. induction Hr as [|r0 rp Hr0 Hr IH]; intros [|a0 ap] c Ha Hl Hw Hc; try done.
  { cbn [mul_add_loop val length]. change (base ^ Z.of_nat 0) with 1. repeat split; try done; unfold is_limb in *; lia. }
  apply Forall_cons in Ha as [Ha0 Ha]. cbn [mul_add_loop].
  pose proof (mul_add_spec r0 a0 w c Hr0 Ha0 Hw Hc) as Hs. destruct (mul_add r0 a0 w c) as [r1 c1]. destruct Hs as (Hr1 & Hc1 & Hs).
  specialize (IH ap c1 Ha ltac:(cbn in Hl; lia) Hw Hc1). destruct (mul_add_loop rp ap w c1) as [rs c2].
  destruct IH as (Hrs & Hlr & Hc2 & IH). split; [by apply Forall_cons|]. split; [cbn; lia|]. split; [done|].
  cbn [val length]. rewrite base_pow_S. nia.
Qed.

Lemma mul_loop_spec ap w c : limbs_ok ap → is_limb w → is_limb c →
  let '(r, c') := mul_loop ap w c in
  limbs_ok r ∧ length r = length ap ∧ is_limb c' ∧ val r + base ^ Z.of_nat (length ap) * c' = val ap * w + c.
Proof.
  intros Ha. revert c. induction Ha as [|a0 ap Ha0 Ha IH]; intros c Hw Hc.
  { split; [by apply Forall_nil|]. split; [done|]. split; [done|]. cbn [val length]. change (base ^ Z.of_nat 0) with 1. lia. }
  cbn [mul_loop]. pose proof (mul_spec a0 w c Ha0 Hw Hc) as Hs. destruct (mul a0 w c) as [r1 c1]. destruct Hs as (Hr1 & Hc1 & Hs).
  specialize (IH c1 Hw Hc1). destruct (mul_loop ap w c1) as [rs c2].
  destruct IH as (Hrs & Hlr & Hc2 & IH). split; [by apply Forall_cons|]. split; [cbn; lia|]. split; [done|].
  cbn [val length]. rewrite base_pow_S. nia.
Qed.

(** Unrolling four rounds changes nothing. *)
Lemma mul_add_loop4_eq rp ap w c : mul_add_loop4 rp ap w c = mul_add_loop rp ap w c.
Proof.
  revert rp ap c. fix IH 1. intros rp ap c.
  destruct rp as [|r0 [|r1 [|r2 [|r3 rp]]]], ap as [|a0 [|a1 [|a2 [|a3 ap]]]]; try reflexivity.
  cbn [mul_add_loop4 mul_add_loop]. destruct (mul_add r0 a0 w c) as [x0 c0], (mul_add r1 a1 w c0) as [x1 c1],
    (mul_add r2 a2 w c1) as [x2 c2], (mul_add r3 a3 w c2) as [x3 c3]. rewrite IH. by destruct (mul_add_loop rp ap w c3).
Qed.

Lemma mul_loop4_eq ap w c : mul_loop4 ap w c = mul_loop ap w c.
Proof.
  revert ap c. fix IH 1. intros ap c. destruct ap as [|a0 [|a1 [|a2 [|a3 ap]]]]; try reflexivity.
  cbn [mul_loop4 mul_loop]. destruct (mul a0 w c) as [x0 c0], (mul a1 w c0) as [x1 c1],
    (mul a2 w c1) as [x2 c2], (mul a3 w c2) as [x3 c3]. rewrite IH. by destruct (mul_loop ap w c3).
Qed.

Lemma zero_ok : is_limb 0.
Proof. pose proof base_pos. unfold is_limb. lia. Qed.

Lemma mul_add_words_spec rp ap w : limbs_ok rp → limbs_ok ap → length rp = length ap → is_limb w →
  let '(r, c') := GFp_bn_mul_add_words rp ap w in
  limbs_ok r ∧ length r = length ap ∧ is_limb c' ∧ val r + base ^ Z.of_nat (length ap) * c' = val rp + val ap * w.
Proof.
  intros Hr Ha Hl Hw. unfold GFp_bn_mul_add_words. rewrite mul_add_loop4_eq.
  pose proof (mul_add_loop_spec rp ap w 0 Hr Ha Hl Hw zero_ok) as Hs. by rewrite Z.add_0_r in Hs.
Qed.

Lemma mul_words_spec ap w : limbs_ok ap → is_limb w →
  let '(r, c') := GFp_bn_mul_words ap w in
  limbs_ok r ∧ length r = length ap ∧ is_limb c' ∧ val r + base ^ Z.of_nat (length ap) * c' = val ap * w.
Proof.
  intros Ha Hw. unfold GFp_bn_mul_words. rewrite mul_loop4_eq.
  pose proof (mul_loop_spec ap w 0 Ha Hw zero_ok) as Hs. by rewrite Z.add_0_r in Hs.
Qed.

(** ** Products of limbs *)

(** The row of a limb of [b] with the carry after it. *)
Lemma mul_rows_step a b row c rest : limbs_ok row → is_limb c → length row = length a → length rest = length b →
  (∀ lo, limbs_ok lo → length lo = length a →
     let r := mul_rows (lo ++ rest) a b in
     limbs_ok r ∧ length r = (length a + length b)%nat ∧ val r = val lo + val a * val b) →
  let r := match row ++ c :: rest with r0 :: r => r0 :: mul_rows r a b | [] => [] end in
  limbs_ok r ∧ length r = S (length a + length b) ∧
  val r = val row + base ^ Z.of_nat (length a) * c + base * (val a * val b).
Proof.
  intros Hrow Hc Hl Hrest IH. rewrite cons_middle, (assoc_L (++)).
  assert (limbs_ok (row ++ [c])) as Hok by (apply Forall_app; split; [done|by apply Forall_singleton]).
  assert (val (row ++ [c]) = val row + base ^ Z.of_nat (length a) * c) as Hv by (rewrite val_app, Hl; cbn [val]; lia).
  assert (length (row ++ [c]) = S (length a)) as Hlen by (rewrite length_app; cbn; lia).
  destruct (row ++ [c]) as [|r0 lo]; [done|]. cbn [app]. apply Forall_cons in Hok as [Hr0 Hlo].
  destruct (IH lo Hlo ltac:(cbn in Hlen; lia)) as (Hr & Hlr & Hvr).
  split; [by apply Forall_cons|]. split; [cbn [length]; lia|]. cbn [val] in *. rewrite Hvr, <-Hv. lia.
Qed.

Lemma mul_rows_spec a b lo rest : limbs_ok a → limbs_ok b → limbs_ok lo → length lo = length a → length rest = length b →
  let r := mul_rows (lo ++ rest) a b in
  limbs_ok r ∧ length r = (length a + length b)%nat ∧ val r = val lo + val a * val b.
Proof.
  intros Ha Hb. revert lo rest. induction Hb as [|b0 b Hb0 Hb IH]; intros lo rest Hlo Hl Hr; cbn [mul_rows].
  { destruct rest; [|done]. rewrite app_nil_r. split; [done|]. split; [cbn; lia|]. cbn [val]. lia. }
  destruct rest as [|y rest]; [done|]. rewrite take_app_length' by done.
  replace (drop (S (length a)) (lo ++ y :: rest)) with rest
    by (rewrite cons_middle, (assoc_L (++)), drop_app_length'; [done|rewrite length_app; cbn; lia]).
  pose proof (mul_add_words_spec lo a b0 Hlo Ha Hl Hb0) as Hs. destruct (GFp_bn_mul_add_words lo a b0) as [row c].
  destruct Hs as (Hrow & Hlr & Hc & Hs).
  destruct (mul_rows_step a b row c rest) as (H1 & H2 & H3); [done|done|done|cbn in Hr; lia|intros; apply IH; auto; cbn in Hr; lia|].
  split; [done|]. split; [cbn [length]; lia|]. rewrite H3, Hs. cbn [val]. lia.
Qed.

Lemma bn_mul_normal_spec r a b : limbs_ok a → limbs_ok b → length a = length b → b ≠ [] → length r = (2 * length a)%nat →
  let r' := bn_mul_normal r a b in
  limbs_ok r' ∧ length r' = (2 * length a)%nat ∧ val r' = val a * val b.
Proof.
  intros Ha Hb Hl Hne Hr. unfold bn_mul_normal. rewrite (proj2 (Nat.ltb_ge _ _)) by lia.
  destruct Hb as [|b0 b Hb0 Hb]; [done|]. pose proof (mul_words_spec a b0 Ha Hb0) as Hs.
  destruct (GFp_bn_mul_words a b0) as [row c]. destruct Hs as (Hrow & Hlr & Hc & Hs).
  cbn [length] in Hl.
  destruct (mul_rows_step a b row c (drop (S (length a)) r)) as (H1 & H2 & H3); [done|done|done|rewrite length_drop; lia| |].
  { intros lo Hlo Hll. apply mul_rows_spec; try done. rewrite length_drop. lia. }
  split; [done|]. split; [lia|]. rewrite H3, Hs. cbn [val]. lia.
Qed.

(** ** Unrolled products *)

Definition acc_val (acc : Acc) : Z := let '(c0, c1, c2) := acc in c0 + base * (c1 + base * c2).
Definition acc_ok (acc : Acc) : Prop := let '(c0, c1, c2) := acc in is_limb c0 ∧ is_limb c1 ∧ is_limb c2.

Lemma mul_add_c_spec a b acc : is_limb a → is_limb b → acc_ok acc → acc_val acc + a * b < base * base * base →
  acc_ok (mul_add_c a b acc) ∧ acc_val (mul_add_c a b acc) = acc_val acc + a * b.
Proof.
  destruct acc as [[c0 c1] c2]. cbn [acc_ok acc_val]. intros Ha Hb (H0 & H1 & H2) Hlt. unfold mul_add_c.
  pose proof base_pos. assert (0 <= a * b <= (base - 1) * (base - 1)) by (unfold is_limb in *; nia).
  rewrite (Z.mod_small (a * b)) by nia. rewrite (Z.mod_small (a * b + c0)) by (unfold is_limb in *; nia).
  destruct (split_double (a * b + c0)) as (Hl & Hh & Hs); [unfold is_limb in *; nia|].
  set (low := as_limb (a * b + c0)) in *. set (hi := as_limb (Z.shiftr (a * b + c0) LIMB_BITS)) in *.
  pose proof (add_carry c1 hi H1 Hh) as Hc. assert (is_limb (as_limb (c1 + hi))) as Hn by apply as_limb_ok.
  set (n1 := as_limb (c1 + hi)) in *. clearbody low hi n1. unfold acc_ok, acc_val.
  destruct (n1 <? hi).
  - assert (is_limb (c2 + 1)) by (unfold is_limb in *; nia). rewrite as_limb_small by done. split; [done|]. nia.
  - split; [done|]. nia.
Qed.

Lemma mul_add_c2_twice a b acc : mul_add_c2 a b acc = mul_add_c a b (mul_add_c a b acc).
Proof. by destruct acc as [[c0 c1] c2]. Qed.

Definition step_val (a b : list Z) (s : CombaStep) : Z :=
  match s with
  | MulAddC i j => nth i a 0 * nth j b 0
  | SqrAddC i => nth i a 0 * nth i a 0
  | SqrAddC2 i j => 2 * (nth i a 0 * nth j a 0)
  end.
Definition step_weight (s : CombaStep) : Z := match s with SqrAddC2 _ _ => 2 | _ => 1 end.
Definition column_val (a b : list Z) (c : list CombaStep) : Z := sum_list_with_Z (step_val a b) c.
Fixpoint columns_val (a b : list Z) (cs : list (list CombaStep)) : Z :=
  match cs with
  | [] => 0
  | c :: cs => column_val a b c + base * columns_val a b cs
  end.

Section comba.
Context (a b : list Z) (Ha : limbs_ok a) (Hb : limbs_ok b).

Lemma nth_ok l i : limbs_ok l → is_limb (nth i l 0).
Proof.
  intros Hl. destruct (nth_in_or_default i l 0) as [Hin | ->]; [|apply zero_ok].
  apply (proj1 (Forall_forall _ _) Hl). by apply list_elem_of_In.
Qed.

Abbreviation square := ((base - 1) * (base - 1)).

Lemma nth_product l l' i j : limbs_ok l → limbs_ok l' → 0 <= nth i l 0 * nth j l' 0 <= square.
Proof. intros Hl Hl'. pose proof (nth_ok l i Hl) as H1. pose proof (nth_ok l' j Hl') as H2. unfold is_limb in *. nia. Qed.

Lemma step_bound s : 0 <= step_val a b s <= step_weight s * square.
Proof.
  destruct s as [i j|i|i j]; cbn [step_val step_weight].
  - pose proof (nth_product a b i j Ha Hb). lia.
  - pose proof (nth_product a a i i Ha Ha). lia.
  - pose proof (nth_product a a i j Ha Ha). lia.
Qed.

Lemma comba_step_spec acc s : acc_ok acc → acc_val acc + step_val a b s < base * base * base →
  acc_ok (comba_step a b acc s) ∧ acc_val (comba_step a b acc s) = acc_val acc + step_val a b s.
Proof.
  intros Hacc Hlt. pose proof (step_bound s) as Hs. destruct s as [i j|i|i j]; cbn [comba_step step_val] in *.
  - apply mul_add_c_spec; auto using nth_ok.
  - apply mul_add_c_spec; auto using nth_ok.
  - rewrite mul_add_c2_twice.
    destruct (mul_add_c_spec (nth i a 0) (nth j a 0) acc) as [Hok Hv]; [auto using nth_ok..|lia|].
    destruct (mul_add_c_spec (nth i a 0) (nth j a 0) (mul_add_c (nth i a 0) (nth j a 0) acc)) as [Hok' Hv']; [auto using nth_ok..|lia|].
    split; [done|lia].
Qed.

Lemma column_spec c acc : acc_ok acc → acc_val acc + sum_list_with_Z step_weight c * square < base * base * base →
  acc_ok (foldl (comba_step a b) acc c) ∧ acc_val (foldl (comba_step a b) acc c) = acc_val acc + column_val a b c.
Proof.
  unfold column_val. revert acc. induction c as [|s c IH]; intros acc Hacc Hlt; cbn [foldl].
  { split; [done|]. cbn. lia. }
  rewrite !sum_list_cons in *. pose proof (step_bound s) as Hs.
  assert (0 <= sum_list_with_Z step_weight c) by (apply sum_list_nonneg; intros []; cbn; lia).
  assert (0 <= sum_list_with_Z step_weight c * square) by (apply Z.mul_nonneg_nonneg; [done|apply Z.square_nonneg]).
  destruct (comba_step_spec acc s) as [Hok Hv]; [done|lia|].
  destruct (IH (comba_step a b acc s)) as [Hok' Hv']; [done|lia|]. split; [done|lia].
Qed.

Lemma columns_spec cs c0 c1 : Forall (λ c, sum_list_with_Z step_weight c <= 8) cs → is_limb c0 → is_limb c1 →
  let r := comba_columns a b cs (c0, c1, 0) in
  limbs_ok r ∧ length r = S (length cs) ∧
  ∃ top, 0 <= top ∧ val r + base ^ Z.of_nat (S (length cs)) * top = c0 + base * c1 + columns_val a b cs.
Proof.
  intros Hcs. revert c0 c1. induction Hcs as [|c cs Hc Hcs IH]; intros c0 c1 H0 H1; cbn [comba_columns columns_val length].
  { split; [by apply Forall_singleton|]. split; [done|]. exists c1. rewrite base_pow_S. change (base ^ Z.of_nat 0) with 1.
    cbn [val]. unfold is_limb in *. lia. }
  assert (16 < base) as Hb16 by (unfold base; destruct limb_bits_cases as [-> | ->]; reflexivity).
  destruct (column_spec c (c0, c1, 0)) as [Hok Hv].
  { split; [done|]. split; [done|apply zero_ok]. }
  { cbn [acc_val]. assert (sum_list_with_Z step_weight c * square <= 8 * square) by (apply Z.mul_le_mono_nonneg_r; [apply Z.square_nonneg|done]).
    assert (c0 + base * (c1 + base * 0) <= base * base) by (unfold is_limb in *; nia).
    assert (base * base + 8 * square < base * base * base) by nia. lia. }
  destruct (foldl _ _ c) as [[d0 d1] d2]. destruct Hok as (Hd0 & Hd1 & Hd2). cbn [acc_val] in Hv.
  destruct (IH d1 d2 Hd1 Hd2) as (Hr & Hl & top & Htop & Hvr).
  split; [by apply Forall_cons|]. split; [cbn [length]; lia|]. exists top. split; [done|].
  cbn [val]. rewrite (base_pow_S (S _)). lia.
Qed.
End comba.

Lemma comba8 a b cs : limbs_ok a → limbs_ok b → length a = 8%nat → length b = 8%nat →
  Forall (λ c, sum_list_with_Z step_weight c <= 8) cs → length cs = 15%nat → columns_val a b cs = val a * val b →
  let r := comba_columns a b cs (0, 0, 0) in limbs_ok r ∧ length r = 16%nat ∧ val r = val a * val b.
Proof.
  intros Ha Hb Hla Hlb Hcs Hl Hv. destruct (columns_spec a b Ha Hb cs 0 0 Hcs zero_ok zero_ok) as (Hr & Hlr & top & Htop & Hvr).
  split; [done|]. split; [lia|]. pose proof (val_bounds _ Ha) as Hva. pose proof (val_bounds _ Hb) as Hvb. pose proof (val_bounds _ Hr) as Hvr'.
  rewrite Hla in Hva. rewrite Hlb in Hvb. rewrite Hl in Hvr. rewrite Hv in Hvr.
  assert (base ^ Z.of_nat 16 = base ^ Z.of_nat 8 * base ^ Z.of_nat 8) as Hp by (rewrite <-Z.pow_add_r by lia; done).
  pose proof (base_pow 8). rewrite Hp in Hvr. set (P := base ^ Z.of_nat 8) in *.
  assert (val a * val b < P * P) by nia. assert (top = 0) as -> by nia. lia.
Qed.

Ltac eight l := destruct l as [|? [|? [|? [|? [|? [|? [|? [|? [|]]]]]]]]]; try discriminate.

Lemma mul_comba8_spec a b : limbs_ok a → limbs_ok b → length a = 8%nat → length b = 8%nat →
  let r := GFp_bn_mul_comba8 a b in limbs_ok r ∧ length r = 16%nat ∧ val r = val a * val b.
Proof.
  intros Ha Hb Hla Hlb. apply comba8; try done; [repeat constructor; done|].
  clear Ha Hb. eight a; eight b. cbn -[base Z.mul Z.add]. ring.
Qed.

Lemma sqr_comba8_spec a : limbs_ok a → length a = 8%nat →
  let r := GFp_bn_sqr_comba8 a in limbs_ok r ∧ length r = 16%nat ∧ val r = val a * val a.
Proof.
  intros Ha Hla. apply comba8; try done; [repeat constructor; done|].
  clear Ha. eight a. cbn -[base Z.mul Z.add]. ring.
Qed.

(** ** Montgomery reduction *)

Lemma carry_bits c (p q : bool) : 0 <= c <= 1 →
  Z.land (Z.lor c (if p then 0 else 1)) (if q then 1 else 0) = if q && ((c =? 1) || negb p) then 1 else 0.
Proof. intros Hc. assert (c = 0 ∨ c = 1) as [-> | ->] by lia; by destruct p, q. Qed.

(** The carry of [v + carry + top], computed from the sum only. *)
Lemma montgomery_carry v c top : is_limb v → 0 <= c <= 1 → is_limb top →
  let s := as_limb (v + as_limb (c + top)) in
  let c' := Z.land (Z.lor c (if s =? top then 0 else 1)) (if s <=? top then 1 else 0) in
  is_limb s ∧ 0 <= c' <= 1 ∧ s + base * c' = v + c + top.
Proof.
  intros Hv Hc Ht. cbn zeta. rewrite carry_bits by done. pose proof base_pos.
  assert (as_limb (v + as_limb (c + top)) = as_limb (v + c + top)) as ->.
  { unfold as_limb. rewrite Z.add_mod_idemp_r by lia. f_equal. lia. }
  split; [apply as_limb_ok|]. unfold is_limb in *.
  assert (as_limb (v + c + top) = v + c + top ∧ v + c + top < base ∨
          as_limb (v + c + top) = v + c + top - base ∧ base <= v + c + top) as [[-> Hb] | [-> Hb]].
  { destruct (Z.lt_ge_cases (v + c + top) base); [left|right]; (split; [|done]).
    - apply as_limb_small. unfold is_limb. lia.
    - symmetry. apply (Z.mod_unique_pos _ _ 1); lia. }
  - destruct (Z.leb_spec (v + c + top) top), (Z.eqb_spec (v + c + top) top), (Z.eqb_spec c 1); cbn [andb orb negb]; lia.
  - destruct (Z.leb_spec (v + c + top - base) top), (Z.eqb_spec (v + c + top - base) top), (Z.eqb_spec c 1); cbn [andb orb negb]; lia.
Qed.

Lemma select_list (b : bool) x y : limbs_ok x → limbs_ok y → length x = length y →
  zip_with (λ ai ri, constant_time_select_w (mask b) ai ri) x y = if b then x else y.
Proof.
  intros Hx. revert y. induction Hx as [|x0 x Hx0 Hx IH]; intros [|y0 y] Hy Hl; try done; [by destruct b|].
  apply Forall_cons in Hy as [Hy0 Hy]. cbn [zip_with]. rewrite select_mask, IH by (done || (cbn in Hl; lia)). by destruct b.
Qed.

Section reduction.
Context (n : list Z) (n0 : Z) (Hn : limbs_ok n) (Hn1 : n ≠ []) (Hn0 : is_limb n0)
  (Hinv : (n0 * val n + 1) mod base = 0).

Abbreviation num := (length n).
Abbreviation R := (base ^ Z.of_nat num).

(** A round adds a multiple of [n] and divides by the base. *)
Lemma montgomery_round a carry : limbs_ok a → (num < length a)%nat → 0 <= carry <= 1 →
  let '(row, v) := GFp_bn_mul_add_words (take num a) n (as_limb (hd 0 a * n0)) in
  let top := nth num a 0 in
  let s := as_limb (v + as_limb (carry + top)) in
  let c' := Z.land (Z.lor carry (if s =? top then 0 else 1)) (if s <=? top then 1 else 0) in
  let a' := tl (row ++ s :: drop (S num) a) in
  limbs_ok a' ∧ S (length a') = length a ∧ 0 <= c' <= 1 ∧
  ∃ m, 0 <= m < base ∧ base * (val a' + R * c') = val a + R * carry + m * val n.
Proof.
  intros Ha Hl Hc. set (m := as_limb (hd 0 a * n0)). assert (is_limb m) as Hm by apply as_limb_ok.
  assert (limbs_ok (take num a)) as Htake by by apply Forall_take.
  pose proof (mul_add_words_spec (take num a) n m Htake Hn ltac:(rewrite length_take; lia) Hm) as Hs.
  destruct (GFp_bn_mul_add_words (take num a) n m) as [row v]. destruct Hs as (Hrow & Hlr & Hv & Hs).
  destruct (lookup_lt_is_Some_2 a num Hl) as [top Htop].
  assert (nth num a 0 = top) as -> by (by rewrite nth_lookup, Htop).
  assert (is_limb top) as Ht by (apply (proj1 (Forall_forall _ _) Ha); by eapply list_elem_of_lookup_2).
  destruct (montgomery_carry v carry top Hv Hc Ht) as (Hsum & Hc' & Hcs).
  cbn zeta. set (s := as_limb (v + as_limb (carry + top))) in *.
  set (c' := Z.land _ _) in *. clearbody s c'.
  assert (a = take num a ++ top :: drop (S num) a) as Hsplit by (by rewrite <-drop_S, take_drop by done).
  assert (limbs_ok (drop (S num) a)) as Hdrop by by apply Forall_drop.
  assert (val a = val (take num a) + R * (top + base * val (drop (S num) a))) as Hva.
  { rewrite Hsplit at 1. rewrite val_app, length_take, Nat.min_l by lia. done. }
  destruct row as [|r0 row]; [destruct n; done|]. cbn [app tl]. apply Forall_cons in Hrow as [Hr0 Hrow].
  assert (r0 = 0) as ->.
  { cbn [val] in Hs. assert (R = base * base ^ Z.of_nat (length row)) as HR by (rewrite <-base_pow_S; f_equal; cbn in Hlr; lia).
    rewrite HR in Hs. apply Z.mod_divide in Hinv as [k Hk]; [|pose proof base_pos; lia].
    assert (∃ h, val (take num a) = hd 0 a + base * h) as [h Hh].
    { destruct a as [|x a']; [cbn in Hl; lia|]. destruct n as [|y n']; [done|]. exists (val (take (length n') a')). done. }
    assert (∃ q, m = hd 0 a * n0 + base * q) as [q Hq].
    { exists (- (hd 0 a * n0 / base)). unfold m, as_limb. pose proof (Z_div_mod_eq_full (hd 0 a * n0) base). lia. }
    assert (hd 0 a * (n0 * val n + 1) = hd 0 a * (k * base)) as Hk' by by rewrite Hk.
    assert (∃ z, r0 = base * z) as [z Hz].
    { exists (h + hd 0 a * k + val n * q - base ^ Z.of_nat (length row) * v - val row). rewrite Hh, Hq in Hs. lia. }
    clear -Hr0 Hz. unfold is_limb in Hr0. assert (z = 0) by nia. lia. }
  split; [apply Forall_app; split; [done|by apply Forall_cons]|].
  split; [rewrite length_app; cbn [length] in *; rewrite length_drop; lia|]. split; [done|].
  exists m. split; [done|]. rewrite val_app. cbn [val]. cbn [val length] in Hs, Hlr. rewrite Hva.
  assert (R = base * base ^ Z.of_nat (length row)) as HR by (rewrite <-base_pow_S; f_equal; lia).
  rewrite HR in *. set (Q := base ^ Z.of_nat (length row)) in *. set (D := val (drop (S num) a)). nia.
Qed.

Lemma montgomery_loop_spec k a carry : limbs_ok a → length a = (num + k)%nat → 0 <= carry <= 1 →
  let '(a', c') := montgomery_loop k a n n0 carry in
  limbs_ok a' ∧ length a' = num ∧ 0 <= c' <= 1 ∧
  ∃ m, 0 <= m < base ^ Z.of_nat k ∧ base ^ Z.of_nat k * (val a' + R * c') = val a + R * carry + m * val n.
Proof.
  revert a carry. induction k as [|k IH]; intros a carry Ha Hl Hc; cbn [montgomery_loop].
  { split; [done|]. split; [lia|]. split; [done|]. exists 0. change (base ^ Z.of_nat 0) with 1. lia. }
  pose proof (montgomery_round a carry Ha ltac:(lia) Hc) as Hr.
  destruct (GFp_bn_mul_add_words _ _ _) as [row v]. cbn zeta in Hr. destruct Hr as (Ha' & Hla' & Hc' & m & Hm & Hv).
  set (a1 := tl _) in *. set (c1 := Z.land _ _) in *. specialize (IH a1 c1 Ha' ltac:(lia) Hc').
  destruct (montgomery_loop k a1 n n0 c1) as [a2 c2]. destruct IH as (Ha2 & Hl2 & Hc2 & m2 & Hm2 & Hv2).
  split; [done|]. split; [done|]. split; [done|]. exists (m + base * m2). rewrite base_pow_S. pose proof base_pos. split; [nia|].
  transitivity (base * (base ^ Z.of_nat k * (val a2 + R * c2))); [lia|]. rewrite Hv2. lia.
Qed.

Lemma from_montgomery_spec a hi : limbs_ok a → length a = (2 * num)%nat → val a < val n * R →
  ∃ r, GFp_bn_from_montgomery_in_place num a n (n0, hi) = Some r ∧
    limbs_ok r ∧ length r = num ∧ 0 <= val r < val n ∧ (val r * R) mod val n = val a mod val n.
Proof.
  intros Ha Hl Hlt. unfold GFp_bn_from_montgomery_in_place. rewrite Nat.eqb_refl, (proj2 (Nat.eqb_eq _ _)) by lia. cbn [negb orb fst].
  pose proof (montgomery_loop_spec num a 0 Ha ltac:(lia) ltac:(lia)) as Hs.
  destruct (montgomery_loop num a n n0 0) as [t c]. destruct Hs as (Ht & Hlt' & Hc & m & Hm & Hv).
  pose proof (val_bounds a Ha) as Hva. pose proof (val_bounds t Ht) as Hvt. pose proof (val_bounds n Hn) as Hvn. rewrite Hlt' in Hvt.
  pose proof (base_pow num) as HR. set (P := base ^ Z.of_nat num) in *.
  assert (0 < val n) by nia.
  assert (val t + P * c < 2 * val n) as Hlt2 by nia.
  pose proof (limbs_sub_spec t n Ht Hn Hlt') as Hs. destruct (limbs_sub t n) as [r b]. destruct Hs as (Hr & Hlr & Hb & Hs).
  rewrite Hlt' in *. fold P in Hs. pose proof (val_bounds r Hr) as Hvr. rewrite Hlr in Hvr. fold P in Hvr.
  set (take_t := (val t <? val n) && (c =? 0)).
  assert (as_limb (0 - as_limb (b - c)) = mask take_t) as ->.
  { pose proof base_pos. assert (as_limb 0 = 0) as H00 by (apply as_limb_small, zero_ok).
    assert (as_limb 1 = 1) as H11 by (apply as_limb_small; unfold is_limb; lia).
    assert (as_limb (-1) = base - 1) as H1m by (symmetry; apply (Z.mod_unique_pos _ _ (-1)); lia).
    subst b take_t. assert (c = 0 ∨ c = 1) as [-> | ->] by lia; destruct (Z.ltb_spec (val t) (val n)); try lia;
      cbn [andb Z.eqb mask]; change (1 - 0) with 1; change (0 - 0) with 0; change (1 - 1) with 0;
      rewrite ?H00, ?H11; change (0 - 1) with (-1); change (0 - 0) with 0; done. }
  assert (zip_with (λ ai ri, constant_time_select_w (mask take_t) ai ri) t r = if take_t then t else r) as ->.
  { apply select_list; done || lia. }
  exists (if take_t then t else r). split; [done|].
  assert (val (if take_t then t else r) = val t + P * c ∨ val (if take_t then t else r) = val t + P * c - val n) as Hval.
  { subst take_t b. assert (c = 0 ∨ c = 1) as [-> | ->] by lia; destruct (Z.ltb_spec (val t) (val n)); cbn [andb Z.eqb]; lia. }
  assert (0 <= val (if take_t then t else r) < val n) as Hbound.
  { subst take_t b. assert (c = 0 ∨ c = 1) as [-> | ->] by lia; destruct (Z.ltb_spec (val t) (val n)); cbn [andb Z.eqb]; lia. }
  split; [by destruct take_t|]. split; [destruct take_t; lia|]. split; [done|].
  rewrite Z.mul_0_r, Z.add_0_r in Hv. destruct Hval as [-> | ->].
  - replace ((val t + P * c) * P) with (val a + m * val n) by lia. apply Z.mod_add. lia.
  - replace ((val t + P * c - val n) * P) with (val a + (m - P) * val n) by lia. apply Z.mod_add. lia.
Qed.
End reduction.

(** ** Montgomery multiplication *)

(** [C] is the product divided by [R]. *)
Lemma mul_mont_spec rp a b n n0 hi same : limbs_ok a → limbs_ok b → limbs_ok n → n ≠ [] →
  length a = length n → length b = length n → is_limb n0 → (n0 * val n + 1) mod base = 0 →
  (same = true → a = b) → val a * val b < val n * base ^ Z.of_nat (length n) →
  let r := GFp_bn_mul_mont rp a b n (n0, hi) same in
  limbs_ok r ∧ length r = length n ∧ 0 <= val r < val n ∧
  (val r * base ^ Z.of_nat (length n)) mod val n = (val a * val b) mod val n.
Proof.
  intros Ha Hb Hn Hne Hla Hlb Hn0 Hinv Hsame Hlt. unfold GFp_bn_mul_mont.
  set (rr := if (length n =? 8)%nat then _ else _).
  assert (limbs_ok rr ∧ length rr = (2 * length n)%nat ∧ val rr = val a * val b) as (Hrr & Hlrr & Hvrr).
  { subst rr. destruct (Nat.eqb_spec (length n) 8) as [H8|H8]; [destruct same|].
    - rewrite <-(Hsame eq_refl). destruct (sqr_comba8_spec a Ha ltac:(lia)) as (? & ? & ?). split; [done|]. split; [lia|done].
    - destruct (mul_comba8_spec a b Ha Hb ltac:(lia) ltac:(lia)) as (? & ? & ?). split; [done|]. split; [lia|done].
    - rewrite <-Hla. apply bn_mul_normal_spec; try done; [lia|by destruct b, n|rewrite length_replicate; lia]. }
  destruct (from_montgomery_spec n n0 Hn Hne Hinv rr hi Hrr Hlrr) as (r & Hr & Hok & Hl & Hv & Hm); [lia|].
  rewrite Hr. cbn [default]. rewrite <-Hvrr. done.
Qed.

(** ** The inverse *)

Lemma land_1_mod u : Z.land u 1 = u mod 2.
Proof. apply (Z.land_ones u 1). lia. Qed.

(** Dietz's average of two numbers does not overflow. *)
Lemma dietz x y : 0 <= x < 2 ^ 64 → 0 <= y < 2 ^ 64 →
  wrapping_add 64 (Z.shiftr (Z.lxor x y) 1) (Z.land x y) = (x + y) / 2.
Proof.
  intros Hx Hy. assert (Z.shiftr (Z.lxor x y) 1 + Z.land x y = (x + y) / 2) as Heq.
  { rewrite Z.shiftr_div_pow2 by lia. change (2 ^ 1) with 2. rewrite <-(Z.add_lxor_2land x y).
    rewrite (Z.mul_comm 2), Z.div_add by lia. done. }
  unfold wrapping_add. rewrite Heq. apply Z.mod_small. split; [apply Z.div_pos; lia|]. apply Z.div_lt_upper_bound; lia.
Qed.

Lemma and_parity x u : 0 <= x < 2 ^ 64 → Z.land x (wrapping_sub 64 0 (Z.land u 1)) = if Z.odd u then x else 0.
Proof.
  intros Hx. rewrite land_1_mod, Zmod_odd. unfold wrapping_sub. destruct (Z.odd u); [|apply Z.land_0_r].
  change ((0 - 1) mod 2 ^ 64) with (Z.ones 64). rewrite Z.land_ones by lia. by apply Z.mod_small.
Qed.

Lemma neg_inv_loop_spec k beta u v : Z.odd beta = true → 0 < beta < 2 ^ 64 → 0 < u <= beta → 0 <= v → (k <= 64)%nat →
  2 ^ Z.of_nat k = u * 2 ^ 64 - v * beta →
  ∃ u', 1 = u' * 2 ^ 64 - neg_inv_loop k beta u v * beta ∧ 0 < u' <= beta.
Proof.
  intros Hodd Hbeta. revert u v. induction k as [|k IH]; intros u v Hu Hv Hk Hinv; cbn [neg_inv_loop]; [by exists u|].
  rewrite !and_parity by (change (Z.shiftl 1 63) with (2 ^ 63); lia). change (Z.shiftl 1 63) with (2 ^ 63).
  rewrite Nat2Z.inj_succ, Z.pow_succ_r in Hinv by lia.
  assert (v * beta < beta * 2 ^ 64) as Hvb by (pose proof (Z.pow_pos_nonneg 2 (Z.of_nat k)); nia).
  assert (v < 2 ^ 64) as Hv64 by nia.
  assert (Z.even v = true) as Hev.
  { assert (Z.even (v * beta) = true) as He.
    - rewrite Zeven_mod. apply Z.eqb_eq. replace (v * beta) with ((u * 2 ^ 63 - 2 ^ Z.of_nat k) * 2) by lia. apply Z.mod_mul. lia.
    - rewrite Z.even_mul, <-(Z.negb_odd beta), Hodd in He. by rewrite orb_false_r in He. }
  apply Z.even_spec in Hev as [w ->]. rewrite (Z.shiftr_div_pow2 (2 * w)) by lia. change (2 ^ 1) with 2.
  rewrite (Z.mul_comm 2 w), Z.div_mul by lia.
  destruct (Z.odd u) eqn:Hou.
  - rewrite dietz by lia. apply Z.odd_spec in Hou as [x ->]. apply Z.odd_spec in Hodd as [y ->].
    replace (2 * x + 1 + (2 * y + 1)) with ((x + y + 1) * 2) by lia. rewrite Z.div_mul by lia.
    unfold wrapping_add. rewrite Z.mod_small by lia. apply IH; lia.
  - rewrite dietz by lia. rewrite Z.add_0_r. unfold wrapping_add. rewrite Z.add_0_r, Z.mod_small by lia.
    rewrite <-Z.negb_even in Hou. apply negb_false_iff, Z.even_spec in Hou as [x ->].
    rewrite (Z.mul_comm 2 x), Z.div_mul by lia. apply IH; lia.
Qed.

Lemma neg_inv_spec n : Z.odd n = true → 0 < n < 2 ^ 64 →
  let v := GFp_bn_neg_inv_mod_r_u64 n in 0 <= v < 2 ^ 64 ∧ (v * n + 1) mod 2 ^ 64 = 0.
Proof.
  intros Hodd Hn. destruct (neg_inv_loop_spec 64 n 1 0 Hodd Hn ltac:(lia) ltac:(lia) ltac:(lia) eq_refl) as (u & Hu & Hub).
  cbn zeta. unfold GFp_bn_neg_inv_mod_r_u64. set (v := neg_inv_loop 64 n 1 0) in *. clearbody v. split; [nia|].
  replace (v * n + 1) with (u * 2 ^ 64) by lia. apply Z.mod_mul. lia.
Qed.

Lemma n0_from_spec n v : 0 <= v < 2 ^ 64 → (v * n + 1) mod 2 ^ 64 = 0 →
  let '(n0, _) := n0_from v in is_limb n0 ∧ (n0 * n + 1) mod base = 0.
Proof.
  intros Hv Hinv. unfold n0_from, is_limb, as_limb, base. destruct limb_bits_cases as [-> | ->]; cbn [Z.eqb Pos.eqb]; [|done].
  split; [apply Z.mod_pos_bound; lia|]. rewrite <-Z.add_mod_idemp_l, Z.mul_mod_idemp_l, Z.add_mod_idemp_l by lia.
  apply Z.mod_divide in Hinv as [k Hk]; [|lia]. rewrite Hk. apply Z.mod_divide; [lia|]. exists (k * 2 ^ 32). lia.
Qed.
End proofs.
