(* ===== verification/RingBigint.v ===== *)
(** * Modular arithmetic

    [src/utils/ring/src/arithmetic/bigint.rs] with the bit lengths of [bits.rs] and the errors of
    [error.rs]: moduli, elements in Montgomery form, exponentiation with public and private
    exponents, and nonnegative integers.  The type parameters [M] and [E] of the source, which
    say which modulus and how many factors [R] an element has, are phantom types; an element
    is its limbs. *)
From S2P Require Import Prelude Errors Frame Untrusted RingIo RingDigest RingLimb RingMont.

Inductive KeyRejected :=
| InconsistentComponents
| InvalidComponent
| InvalidEncoding
| PublicKeyIsMissing
| TooSmall
| TooLarge
| VersionNotSupported
| WrongAlgorithm
| PrivateModulusLenNotMultipleOf512Bits
| UnexpectedError.

(** ** Bit lengths *)

Definition as_usize_bytes_rounded_up (bits : Z) : Z :=
  let round_up := Z.land (Z.lor (Z.lor (Z.shiftr bits 2) (Z.shiftr bits 1)) bits) 1 in
  bits / 8 + round_up.
Definition half_rounded_up (bits : Z) : Z := bits / 2 + Z.land bits 1.
Definition try_sub_1 (bits : Z) : result unit Z := some_or (checked_sub bits 1) ().

Section bigint.
Context `{!LimbWidth} {Reader : Type} `{!Untrusted Reader}.

(** [usize] has the width of a limb. *)
Definition from_usize_bytes (bytes : Z) : result unit Z := some_or (checked_mul LIMB_BITS bytes 8) ().

Definition MODULUS_MIN_LIMBS : nat := 4.
Definition MODULUS_MAX_LIMBS : nat := Z.to_nat (8192 / LIMB_BITS).

Abbreviation Elem := (list Z).

Record Modulus := mkModulus {
  m_limbs : list Z;
  m_n0 : Z * Z;
  oneRR : Elem
}.

(** A modulus before [oneRR] is known. *)
Record PartialModulus := mkPartialModulus {
  p_limbs : list Z;
  p_n0 : Z * Z
}.

Definition as_partial (m : Modulus) : PartialModulus := mkPartialModulus m.(m_limbs) m.(m_n0).

(** ** Parsing *)

Definition positive_minimal_width_from_be_bytes (input : Input) : result KeyRejected (list Z) :=
  if peek 0 (reader_new (Reader := Reader) input) then Err InvalidEncoding else
  let num_limbs := ((length input + LIMB_BYTES - 1) / LIMB_BYTES)%nat in
  map_err (λ _, UnexpectedError) (parse_big_endian_and_pad_consttime (Reader := Reader) input num_limbs).

Definition from_be_bytes_padded_less_than (input : Input) (m : Modulus) : result unit (list Z) :=
  r ← parse_big_endian_and_pad_consttime (Reader := Reader) input (length m.(m_limbs));
  lt ← limbs_less_than_limbs_consttime r m.(m_limbs);
  if lt =? LimbMask_True then Ok r else Err ().

(** ** Multiplication *)

(** [r *= a]; the slices do not overlap. *)
Definition limbs_mont_mul (r a m : list Z) (n0 : Z * Z) : list Z := GFp_bn_mul_mont r r a m n0 false.
(** [r = a * b]; [same] says that [a] and [b] are one slice. *)
Definition limbs_mont_product (r a b m : list Z) (n0 : Z * Z) (same : bool) : list Z :=
  GFp_bn_mul_mont r a b m n0 same.
(** [r = r ** 2] *)
Definition limbs_mont_square (r m : list Z) (n0 : Z * Z) : list Z := GFp_bn_mul_mont r r r m n0 true.

Definition elem_mul_ (a b : Elem) (m : PartialModulus) : Elem := limbs_mont_mul b a m.(p_limbs) m.(p_n0).
Definition elem_mul (a b : Elem) (m : Modulus) : Elem := elem_mul_ a b (as_partial m).
Definition elem_squared (a : Elem) (m : PartialModulus) : Elem := limbs_mont_square a m.(p_limbs) m.(p_n0).
Definition elem_mul_by_2 (a : Elem) (m : PartialModulus) : Elem := LIMBS_shl_mod a m.(p_limbs).

Definition zero (m : Modulus) : Elem := replicate (length m.(m_limbs)) 0.
Definition one (m : Modulus) : Elem := <[0%nat := 1]> (zero m).

Definition decode_once (a : Elem) (m : Modulus) : result unit Elem :=
  let num_limbs := length m.(m_limbs) in
  let one := <[0%nat := 1]> (replicate MODULUS_MAX_LIMBS 0) in
  if (length one <? num_limbs)%nat then Panic else
  Ok (limbs_mont_mul a (take num_limbs one) m.(m_limbs) m.(m_n0)).
Definition into_unencoded (a : Elem) (m : Modulus) : result unit Elem := decode_once a m.

(** ** Public exponents *)

Definition PUBLIC_EXPONENT_MAX_VALUE : Z := Z.shiftl 1 33 - 1.

Definition exponent_round (value : Z) : Parser Reader KeyRejected (Z + Z) :=
  byte ← pmap_err (λ _, InvalidEncoding) read_byte;
  let value := Z.lor (Z.shiftl value 8 mod 2 ^ 64) byte in
  e ← asks at_end;
  mret (if e : bool then inr value else inl value).

Definition public_exponent_from_be_bytes (input : Input) (min_value : Z) : result KeyRejected Z :=
  if (5 <? length input)%nat then Err TooLarge else
  value ← read_all input InvalidEncoding (
    p ← asks (peek (Reader := Reader) 0);
    if p : bool then fail InvalidEncoding else loop (length input + 1) exponent_round 0);
  if negb (Z.land value 1 =? 1) then Err InvalidComponent else
  if min_value <? 3 then Err InvalidComponent else
  if value <? min_value then Err TooSmall else
  if PUBLIC_EXPONENT_MAX_VALUE <? value then Err TooLarge else
  Ok value.

(** The [while] loop, from [bit] down to one; it has one round for each bit of a [u64] after the first. *)
Fixpoint exp_loop (rounds : nat) (base : Elem) (exponent bit : Z) (m : PartialModulus) (acc : Elem) : result unit Elem :=
  match rounds with
  | O => Panic
  | S rounds =>
      if 1 <? bit then
        let bit := Z.shiftr bit 1 in
        let acc := elem_squared acc m in
        let acc := if Z.land exponent bit =? 0 then acc else elem_mul_ base acc m in
        exp_loop rounds base exponent bit m acc
      else Ok acc
  end.

Definition elem_exp_vartime_ (base : Elem) (exponent : Z) (m : PartialModulus) : result unit Elem :=
  if exponent <? 1 then Panic else
  if PUBLIC_EXPONENT_MAX_VALUE <? exponent then Panic else
  exp_loop 64 base exponent (Z.shiftl 1 (Z.log2 exponent)) m base.

Definition elem_exp_vartime (base : Elem) (exponent : Z) (m : Modulus) : result unit Elem :=
  let base := elem_mul m.(oneRR) base m in
  elem_exp_vartime_ base exponent (as_partial m).

(** ** Moduli *)

Definition newRR (m : PartialModulus) (m_bits : Z) : result unit Elem :=
  let r := (m_bits + (LIMB_BITS - 1)) / LIMB_BITS * LIMB_BITS in
  let bit := m_bits - 1 in
  let base := replicate (length m.(p_limbs)) 0 in
  if Z.of_nat (length base) <=? bit / LIMB_BITS then Panic else
  let base := <[Z.to_nat (bit / LIMB_BITS) := Z.shiftl 1 (bit mod LIMB_BITS)]> base in
  let lg_base := 2 in
  let shifts := r - bit + lg_base in
  let exponent := r / lg_base in
  let base := Nat.iter (Z.to_nat shifts) (λ base, elem_mul_by_2 base m) base in
  elem_exp_vartime_ base exponent m.

(** [n] modulo [2 ^ 64]: the lowest [N0_LIMBS_USED] limbs. *)
Definition n_mod_r (n : list Z) : Z :=
  if LIMB_BITS =? 32 then Z.lor (nth 0 n 0) (Z.shiftl (nth 1 n 0) 32 mod 2 ^ 64) else nth 0 n 0.

(** The errors of a part that returns none of its own. *)
Definition no_err {E A} (x : result unit A) : result E A :=
  match x with Ok a => Ok a | _ => Panic end.

Definition from_boxed_limbs (n : list Z) : result KeyRejected (Modulus * Z) :=
  if (MODULUS_MAX_LIMBS <? length n)%nat then Err TooLarge else
  if (length n <? MODULUS_MIN_LIMBS)%nat then Err UnexpectedError else
  if negb (LIMBS_are_even n =? LimbMask_False) then Err InvalidComponent else
  if negb (LIMBS_less_than_limb n 3 =? LimbMask_False) then Err UnexpectedError else
  let n0 := n0_from (GFp_bn_neg_inv_mod_r_u64 (n_mod_r n)) in
  let bits := limbs_minimal_bits n in
  oneRR ← no_err (newRR (mkPartialModulus n n0) bits);
  Ok (mkModulus n n0 oneRR, bits).

Definition from_be_bytes_with_bit_length (input : Input) : result KeyRejected (Modulus * Z) :=
  limbs ← positive_minimal_width_from_be_bytes input;
  from_boxed_limbs limbs.

Definition to_elem (self l : Modulus) : result unit Elem :=
  if (length self.(m_limbs) =? length l.(m_limbs))%nat then Ok self.(m_limbs) else Panic.

(** ** Elements *)

Definition elem_is_zero (a : Elem) : bool := LIMBS_are_zero a =? LimbMask_True.
Definition elem_is_one (a : Elem) : bool := LIMBS_equal_limb a 1 =? LimbMask_True.

Definition elem_from_be_bytes_padded (input : Input) (m : Modulus) : result unit Elem :=
  from_be_bytes_padded_less_than input m.
Definition fill_be_bytes (a : Elem) (out : list Z) : result unit (list Z) := big_endian_from_limbs a out.
Definition into_modulus (a : Elem) : result KeyRejected Modulus := p ← from_boxed_limbs a; Ok p.1.

Definition elem_reduced_once (a : Elem) (m : Modulus) : result unit Elem :=
  if (length a <=? length m.(m_limbs))%nat then limbs_reduce_once_constant_time a m.(m_limbs) else Panic.

Definition elem_reduced (a : Elem) (m : Modulus) : result unit Elem :=
  if (MODULUS_MAX_LIMBS <? length a)%nat then Panic else
  some_or (GFp_bn_from_montgomery_in_place (length m.(m_limbs)) a m.(m_limbs) m.(m_n0)) ().

Definition elem_widen (a : Elem) (m : Modulus) : result unit Elem :=
  if (length m.(m_limbs) <? length a)%nat then Panic else
  Ok (a ++ drop (length a) (zero m)).

Definition elem_add (a b : Elem) (m : Modulus) : Elem := LIMBS_add_mod a b m.(m_limbs).
Definition elem_sub (a b : Elem) (m : Modulus) : Elem := LIMBS_sub_mod a b m.(m_limbs).

Definition verify_inverses_consttime (a b : Elem) (m : Modulus) : result unit unit :=
  if elem_is_one (elem_mul a b m) then Ok () else Err ().
Definition elem_verify_equal_consttime (a b : Elem) : result unit unit :=
  eq ← limbs_equal_limbs_consttime a b;
  if eq =? LimbMask_True then Ok () else Err ().

(** ** Private exponents *)

Definition private_exponent_from_be_bytes_padded (input : Input) (p : Modulus) : result unit (list Z) :=
  dP ← from_be_bytes_padded_less_than input p;
  if LIMBS_are_even dP =? LimbMask_False then Ok dP else Err ().

Definition for_flt (p : Modulus) : list Z :=
  let two := elem_add (one p) (one p) p in
  elem_sub (zero p) two p.

Definition WINDOW_BITS : nat := 5.
Definition TABLE_ENTRIES : nat := 32.

Definition entry (table : list Z) (i num_limbs : nat) : list Z := take num_limbs (drop (i * num_limbs) table).

Definition gather (table : list Z) (num_limbs : nat) (i : Z) : result unit Elem :=
  match LIMBS_select_512_32 table num_limbs i with
  | Some r => Ok r
  | None => Panic
  end.

Definition power (table : list Z) (m : Modulus) (acc : Elem) (i : Z) : result unit Elem :=
  let acc := Nat.iter WINDOW_BITS (λ acc, elem_squared acc (as_partial m)) acc in
  tmp ← gather table (length m.(m_limbs)) i;
  Ok (elem_mul tmp acc m).

(** The loop that fills the table; [table] has the entries before [i]. *)
Fixpoint fill_table (rounds i : nat) (table : list Z) (m : Modulus) : list Z :=
  match rounds with
  | O => table
  | S rounds =>
      let num_limbs := length m.(m_limbs) in
      let '(src1, src2) := if Nat.even i then (i / 2, i / 2)%nat else ((i - 1)%nat, 1%nat) in
      let dst := limbs_mont_product (replicate num_limbs 0) (entry table src1 num_limbs) (entry table src2 num_limbs)
        m.(m_limbs) m.(m_n0) (src1 =? src2)%nat in
      fill_table rounds (S i) (table ++ dst) m
  end.

(** The version for targets other than x86-64. *)
Definition elem_exp_consttime (base : Elem) (exponent : list Z) (m : Modulus) : result unit Elem :=
  let num_limbs := length m.(m_limbs) in
  let tmp := elem_mul m.(oneRR) (one m) m in
  if negb (length tmp =? num_limbs)%nat || negb (length base =? num_limbs)%nat then Panic else
  let table := fill_table (TABLE_ENTRIES - 2) 2 (tmp ++ base) m in
  r ← fold_5_bit_windows (λ acc window, power table m acc window) exponent (λ initial_window, gather table num_limbs initial_window);
  into_unencoded r m.

Definition elem_inverse_consttime (a : Elem) (m : Modulus) : result unit Elem := elem_exp_consttime a (for_flt m) m.

(** ** Nonnegative integers *)

(** [while limbs.last() == Some(&0) { limbs.pop(); }] on the reversed list. *)
Fixpoint pop_zeros (limbs : list Z) : list Z :=
  match limbs with
  | 0 :: limbs => pop_zeros limbs
  | _ => limbs
  end.

Definition nonnegative_from_be_bytes_with_bit_length (input : Input) : result unit (list Z * Z) :=
  limbs ← parse_big_endian_and_pad_consttime (Reader := Reader) input ((length input + LIMB_BYTES - 1) / LIMB_BYTES)%nat;
  let limbs := reverse (pop_zeros (reverse limbs)) in
  Ok (limbs, limbs_minimal_bits limbs).

Definition from_nonnegative_with_bit_length (n : list Z) : result KeyRejected (Modulus * Z) := from_boxed_limbs n.

Definition is_odd (self : list Z) : bool := negb (LIMBS_are_even self =? LimbMask_True).

Definition greater_than (a b : list Z) : result unit bool :=
  if (length a =? length b)%nat then limbs_less_than_limbs_vartime b a
  else Ok (length b <? length a)%nat.

Definition verify_less_than (self other : list Z) : result unit unit :=
  gt ← greater_than other self;
  if gt : bool then Ok () else Err ().

Definition verify_less_than_modulus (self : list Z) (m : Modulus) : result unit unit :=
  if (length m.(m_limbs) <? length self)%nat then Err () else
  if (length self =? length m.(m_limbs))%nat then
    lt ← limbs_less_than_limbs_consttime self m.(m_limbs);
    if lt =? LimbMask_True then Ok () else Err ()
  else Ok ().

Definition nonnegative_to_elem (self : list Z) (m : Modulus) : result unit Elem :=
  verify_less_than_modulus self m ;;
  Ok (self ++ drop (length self) (zero m)).
End bigint.
