(* ===== verification/RingBigintProofs.v ===== *)
(** * Modular arithmetic is correct

    Congruence modulo the modulus is a setoid.  An element [encodes] a number when it is that
    number times [R] modulo [n]; products, squares and powers of elements encode the products,
    squares and powers.  A modulus that the constructors accept is well formed, in
    particular its precomputed [oneRR] is [R ^ 2], and they accept exactly the odd numbers of the
    right size. *)
From S2P Require Import Prelude Errors Frame Untrusted RingIo RingDigest RingLimb RingLimbProofs RingMont RingMontProofs RingBigint.

(** ** Congruence *)

Definition cong (n a b : Z) : Prop := ∃ k, a = b + k * n.

#[export] Instance cong_equiv n : Equivalence (cong n).
Proof.
  split.
  - intros a. exists 0. lia.
  - intros a b [k ->]. exists (- k). lia.
  - intros a b c [k ->] [l ->]. exists (l + k). lia.
Qed.

#[export] Instance cong_add n : Proper (cong n ==> cong n ==> cong n) Z.add.
Proof. intros a a' [k ->] b b' [l ->]. exists (k + l). lia. Qed.

#[export] Instance cong_mul n : Proper (cong n ==> cong n ==> cong n) Z.mul.
Proof. intros a a' [k ->] b b' [l ->]. exists (a' * l + b' * k + k * l * n). lia. Qed.

Lemma cong_iff n a b : n ≠ 0 → cong n a b ↔ a mod n = b mod n.
Proof.
  intros Hn. split.
  - intros [k ->]. by apply Z.mod_add.
  - intros Heq. exists (a / n - b / n). pose proof (Z_div_mod_eq_full a n). pose proof (Z_div_mod_eq_full b n). lia.
Qed.

Lemma cong_mod n a : n ≠ 0 → cong n (a mod n) a.
Proof. intros Hn. apply cong_iff; [done|]. by apply Z.mod_mod. Qed.

Lemma cong_small n a b : 0 <= a < n → 0 <= b < n → cong n a b → a = b.
Proof. intros Ha Hb Hab%cong_iff; [|lia]. by rewrite !Z.mod_small in Hab by done. Qed.

Lemma cong_eq n a b : a = b → cong n a b.
Proof. by intros ->. Qed.

Lemma cong_pow n a b k : 0 <= k → cong n a b → cong n (a ^ k) (b ^ k).
Proof.
  intros Hk Hab. revert k Hk. apply (natlike_ind (λ k, cong n (a ^ k) (b ^ k))); [done|].
  intros k Hk IH. rewrite !Z.pow_succ_r by done. by apply cong_mul.
Qed.

Lemma cong_cancel n k a b : Z.odd n = true → 0 < n → 0 <= k → cong n (a * 2 ^ k) (b * 2 ^ k) → cong n a b.
Proof.
  intros [h ->]%Z.odd_spec Hn Hk Hab.
  assert (cong (2 * h + 1) (2 ^ k * (h + 1) ^ k) 1) as Hinv.
  { rewrite <-Z.pow_mul_l. transitivity (1 ^ k); [|by apply cong_eq, Z.pow_1_l]. apply cong_pow; [done|]. exists 1. lia. }
  transitivity (a * 2 ^ k * (h + 1) ^ k); [rewrite <-Z.mul_assoc, Hinv; apply cong_eq; lia|].
  rewrite Hab, <-Z.mul_assoc, Hinv. apply cong_eq. lia.
Qed.

(** ** Bit lengths *)

Lemma land_1 x : Z.land x 1 = if Z.odd x then 1 else 0.
Proof. rewrite <-Zmod_odd. apply (Z.land_ones x 1). lia. Qed.

Lemma rounded_up_spec bits : 0 <= bits → as_usize_bytes_rounded_up bits = (bits + 7) / 8.
Proof.
  intros Hb. unfold as_usize_bytes_rounded_up. set (r := Z.land _ 1).
  assert (r = if bits mod 8 =? 0 then 0 else 1) as ->.
  { subst r. rewrite land_1, <-!Z.bit0_odd.
    rewrite !Z.lor_spec, !Z.shiftr_spec by lia. change (0 + 2) with 2. change (0 + 1) with 1.
    pose proof (Z.testbit_spec' bits 0 ltac:(lia)) as H0. pose proof (Z.testbit_spec' bits 1 ltac:(lia)) as H1.
    pose proof (Z.testbit_spec' bits 2 ltac:(lia)) as H2. change (2 ^ 0) with 1 in H0. change (2 ^ 1) with 2 in H1. change (2 ^ 2) with 4 in H2.
    rewrite Z.div_1_r in H0.
    destruct (Z.testbit bits 0), (Z.testbit bits 1), (Z.testbit bits 2), (Z.eqb_spec (bits mod 8) 0); cbn in *; try done;
      exfalso; Z.to_euclidean_division_equations; lia. }
  destruct (Z.eqb_spec (bits mod 8) 0); Z.to_euclidean_division_equations; lia.
Qed.

(** ** Elements of a modulus *)

Section elems.
Context `{!LimbWidth}.

(** What [GFp_bn_mul_mont] relies on. *)
Record partial_ok (p : PartialModulus) : Prop := {
  pk_limbs : limbs_ok p.(p_limbs);
  pk_some : p.(p_limbs) ≠ [];
  pk_odd : Z.odd (val p.(p_limbs)) = true;
  pk_three : 3 <= val p.(p_limbs);
  pk_n0 : is_limb p.(p_n0).1;
  pk_inverse : (p.(p_n0).1 * val p.(p_limbs) + 1) mod base = 0
}.

Section partial.
Context (p : PartialModulus) (Hp : partial_ok p).
Abbreviation n := (val p.(p_limbs)).
Abbreviation num := (length p.(p_limbs)).
Abbreviation R := (base ^ Z.of_nat num).

Record reduced (a : list Z) : Prop := {
  rd_limbs : limbs_ok a;
  rd_length : length a = num;
  rd_val : 0 <= val a < n
}.

Definition encodes (x : Z) (a : list Z) : Prop := reduced a ∧ cong n (val a) (x * R).

Lemma R_pow2 : R = 2 ^ (LIMB_BITS * Z.of_nat num).
Proof. unfold base. pose proof limb_bits_pos. by rewrite <-Z.pow_mul_r by lia. Qed.

Lemma cancel_R a b : cong n (a * R) (b * R) → cong n a b.
Proof.
  rewrite R_pow2. pose proof (pk_three p Hp). pose proof limb_bits_pos. apply cong_cancel; [by apply pk_odd|lia|lia].
Qed.

Lemma R_bound : n < R.
Proof. pose proof (val_bounds _ (pk_limbs p Hp)). lia. Qed.

Lemma mont_mul rp a b same : limbs_ok a → length a = num → 0 <= val a < R → reduced b → (same = true → a = b) →
  let r := GFp_bn_mul_mont rp a b p.(p_limbs) p.(p_n0) same in
  reduced r ∧ cong n (val r * R) (val a * val b).
Proof.
  intros Ha Hla Hva [Hb Hlb Hvb] Hsame. pose proof R_bound. destruct (p_n0 p) as [n0 hi] eqn:En.
  pose proof (pk_n0 p Hp) as Hn0. pose proof (pk_inverse p Hp) as Hi. rewrite En in Hn0, Hi.
  destruct (mul_mont_spec rp a b (p_limbs p) n0 hi same) as (Hr & Hl & Hv & Hm); try done;
    [by apply pk_limbs|by apply pk_some|nia|]. split; [by split|]. apply cong_iff; [lia|done].
Qed.

Lemma mul_encodes x y a b : encodes x a → encodes y b → encodes (x * y) (elem_mul_ a b p).
Proof.
  intros [Ha Hx] [Hb Hy]. pose proof R_bound. pose proof Ha as [Ha1 Ha2 Ha3]. pose proof Hb as [Hb1 Hb2 Hb3].
  destruct (mont_mul b b a false) as [Hr Hm]; [done|done|lia|done|done|]. split; [done|].
  apply cancel_R. unfold elem_mul_, limbs_mont_mul. rewrite Hm, Hx, Hy. apply cong_eq. lia.
Qed.

Lemma squared_encodes x a : encodes x a → encodes (x * x) (elem_squared a p).
Proof.
  intros [Ha Hx]. pose proof R_bound. pose proof Ha as [Ha1 Ha2 Ha3].
  destruct (mont_mul a a a true) as [Hr Hm]; [done|done|lia|done|done|]. split; [done|].
  apply cancel_R. unfold elem_squared, limbs_mont_square. rewrite Hm, Hx. apply cong_eq. lia.
Qed.

Lemma mul_by_2_reduced a : reduced a → reduced (elem_mul_by_2 a p) ∧ cong n (val (elem_mul_by_2 a p)) (2 * val a).
Proof.
  intros [Ha Hl Hv]. pose proof (pk_limbs p Hp). destruct (LIMBS_shl_mod_spec a (p_limbs p)) as (Hr & Hlr & Hvr); [done|done|done|lia|].
  unfold elem_mul_by_2. split; [split; [done|done|]|]; rewrite Hvr; [apply Z.mod_pos_bound; lia|apply cong_mod; lia].
Qed.

Lemma iter_mul_by_2 k a : reduced a →
  let r := Nat.iter k (λ b, elem_mul_by_2 b p) a in reduced r ∧ cong n (val r) (2 ^ Z.of_nat k * val a).
Proof.
  intros Ha. induction k as [|k [Hr IH]]; cbn [Nat.iter]; [split; [done|]; apply cong_eq; cbn; lia|].
  destruct (mul_by_2_reduced _ Hr) as [Hr' Hv]. split; [done|]. rewrite Hv, IH, Nat2Z.inj_succ, Z.pow_succ_r by lia. apply cong_eq. lia.
Qed.

(** ** Powers *)

Lemma land_pow2 e k : 0 <= e → 0 <= k → (Z.land e (2 ^ k) =? 0) = negb (Z.testbit e k).
Proof.
  intros He Hk. destruct (Z.testbit e k) eqn:Hb; cbn [negb].
  - apply Z.eqb_neq. intros H0. assert (Z.testbit (Z.land e (2 ^ k)) k = true) as Ht; [|by rewrite H0, Z.bits_0 in Ht].
    by rewrite Z.land_spec, Hb, Z.pow2_bits_true by done.
  - apply Z.eqb_eq, Z.bits_inj'. intros m Hm. rewrite Z.land_spec, Z.bits_0, Z.pow2_bits_eqb by done.
    destruct (Z.eqb_spec k m) as [->|]; [by rewrite Hb|apply andb_false_r].
Qed.

Lemma exp_loop_spec rounds k x b e acc : 0 <= e → (k < rounds)%nat → encodes x b → encodes (x ^ (e / 2 ^ Z.of_nat k)) acc →
  ∃ r, exp_loop rounds b e (2 ^ Z.of_nat k) p acc = Ok r ∧ encodes (x ^ e) r.
Proof.
  intros He. revert rounds acc. induction k as [|k IH]; intros [|rounds] acc Hk Hb Hacc; try lia; cbn [exp_loop].
  { exists acc. split; [done|]. change (2 ^ Z.of_nat 0) with 1 in Hacc. by rewrite Z.div_1_r in Hacc. }
  rewrite Nat2Z.inj_succ, Z.pow_succ_r in * by lia. pose proof (Z.pow_pos_nonneg 2 (Z.of_nat k)) as Hpos.
  rewrite (proj2 (Z.ltb_lt 1 _)) by lia. rewrite Z.shiftr_div_pow2 by lia. change (2 ^ 1) with 2.
  rewrite (Z.mul_comm 2), Z.div_mul, land_pow2 by lia.
  apply IH; [lia|done|]. set (q := e / (2 * 2 ^ Z.of_nat k)) in *.
  assert (0 <= q) by (apply Z.div_pos; lia).
  assert (e / 2 ^ Z.of_nat k = q + q + Z.b2z (Z.testbit e (Z.of_nat k))) as ->.
  { subst q. rewrite (Z.mul_comm 2 (2 ^ _)), <-Z.div_div by lia. rewrite Z.testbit_spec' by lia.
    pose proof (Z_div_mod_eq_full (e / 2 ^ Z.of_nat k) 2). lia. }
  apply squared_encodes in Hacc. destruct (Z.testbit e (Z.of_nat k)); cbn [negb Z.b2z].
  - rewrite !Z.pow_add_r, Z.pow_1_r, (Z.mul_comm _ x) by lia. by apply mul_encodes.
  - rewrite Z.add_0_r, Z.pow_add_r by lia. done.
Qed.

Lemma elem_exp_vartime_spec x b e : 1 <= e <= PUBLIC_EXPONENT_MAX_VALUE → encodes x b →
  ∃ r, elem_exp_vartime_ b e p = Ok r ∧ encodes (x ^ e) r.
Proof.
  intros He Hb. unfold elem_exp_vartime_. rewrite (proj2 (Z.ltb_ge e 1)), (proj2 (Z.ltb_ge _ e)) by lia.
  pose proof (Z.log2_nonneg e). rewrite Z.shiftl_1_l, <-(Z2Nat.id (Z.log2 e)) by lia.
  assert (Z.log2 e < 64) by (apply Z.log2_lt_pow2; [lia|]; change PUBLIC_EXPONENT_MAX_VALUE with (2 ^ 33 - 1) in He; lia).
  apply exp_loop_spec; [lia|lia|done|]. rewrite Z2Nat.id by lia.
  replace (e / 2 ^ Z.log2 e) with 1; [by rewrite Z.pow_1_r|].
  destruct (Z.log2_spec e) as [Hlo Hhi]; [lia|]. rewrite Z.pow_succ_r in Hhi by lia.
  apply (Z.div_unique_pos _ _ _ (e - 2 ^ Z.log2 e)); lia.
Qed.

(** ** [R ^ 2] *)

Lemma val_single i x k : (i < k)%nat → val (<[i := x]> (replicate k 0)) = base ^ Z.of_nat i * x.
Proof.
  intros Hi. rewrite insert_replicate_lt by done. rewrite val_app, val_replicate_0, length_replicate. cbn [val].
  rewrite val_replicate_0. lia.
Qed.

(** The modulus has no leading zero limb. *)
Context (Hmin : base ^ Z.of_nat (num - 1) <= n) (Hlen : (MODULUS_MIN_LIMBS <= num <= MODULUS_MAX_LIMBS)%nat).

Lemma log2_bounds : LIMB_BITS * Z.of_nat (num - 1) <= Z.log2 n < LIMB_BITS * Z.of_nat num.
Proof.
  pose proof R_bound as HR. pose proof (pk_three p Hp). pose proof limb_bits_pos. rewrite R_pow2 in HR.
  split; [|by apply Z.log2_lt_pow2; lia]. apply Z.log2_le_pow2; [lia|].
  etransitivity; [|exact Hmin]. unfold base. rewrite <-Z.pow_mul_r by lia. done.
Qed.

Lemma max_limbs : LIMB_BITS * Z.of_nat MODULUS_MAX_LIMBS = 8192.
Proof. unfold MODULUS_MAX_LIMBS. by destruct limb_bits_cases as [-> | ->]. Qed.

Lemma first_power : 2 ^ Z.log2 n < n.
Proof.
  pose proof (pk_three p Hp). destruct (Z.log2_spec n) as [Hlo _]; [lia|].
  destruct (Z.eq_dec (2 ^ Z.log2 n) n) as [Heq|]; [|lia]. pose proof (pk_odd p Hp) as Ho. rewrite <-Heq in Ho.
  assert (0 < Z.log2 n) by (apply Z.log2_pos; lia).
  replace (Z.log2 n) with (Z.succ (Z.pred (Z.log2 n))) in Ho by lia. rewrite Z.pow_succ_r, Z.odd_mul in Ho by lia. done.
Qed.

Lemma newRR_spec : ∃ r, newRR p (Z.log2 n + 1) = Ok r ∧ encodes R r.
Proof.
  pose proof log2_bounds as Hlog. pose proof (Z.log2_nonneg n) as Hg0. pose proof limb_bits_pos as HL. unfold newRR.
  set (L := LIMB_BITS) in *. set (g := Z.log2 n) in *. unfold MODULUS_MIN_LIMBS in Hlen.
  replace ((g + 1 + (L - 1)) / L) with (Z.of_nat num) by (apply (Z.div_unique_pos _ _ _ (g - L * Z.of_nat (num - 1))); lia).
  replace (g + 1 - 1) with g by lia. rewrite length_replicate.
  assert (0 <= g / L < Z.of_nat num) as Hi by (split; [apply Z.div_pos; lia|apply Z.div_lt_upper_bound; lia]).
  rewrite (proj2 (Z.leb_gt _ _)) by lia. pose proof (Z.mod_pos_bound g L ltac:(lia)) as Hm.
  set (b0 := <[_ := _]> _).
  assert (val b0 = 2 ^ g) as Hb0.
  { subst b0. rewrite val_single, Z2Nat.id, Z.shiftl_1_l by lia. unfold base. fold L.
    rewrite <-Z.pow_mul_r, <-Z.pow_add_r by lia. f_equal. pose proof (Z_div_mod_eq_full g L). lia. }
  assert (reduced b0) as Hr0.
  { split; [|subst b0; by rewrite length_insert, length_replicate|].
    - apply Forall_insert; [apply limbs_ok_replicate_0|]. rewrite Z.shiftl_1_l. unfold is_limb, base. fold L.
      split; [apply Z.pow_nonneg; lia|]. apply Z.pow_lt_mono_r; lia.
    - rewrite Hb0. pose proof first_power. fold g in H0. pose proof (Z.pow_pos_nonneg 2 g). lia. }
  destruct (iter_mul_by_2 (Z.to_nat (Z.of_nat num * L - g + 2)) b0 Hr0) as [Hr1 Hv1].
  set (b1 := Nat.iter _ _ b0) in *. pose proof max_limbs as Hmax. fold L in Hmax.
  destruct (elem_exp_vartime_spec 4 b1 (Z.of_nat num * L / 2)) as (r & Hr & Henc).
  { assert (L = 2 * (L / 2)) as HL2 by (subst L; by destruct limb_bits_cases as [-> | ->]).
    change PUBLIC_EXPONENT_MAX_VALUE with (2 ^ 33 - 1). split; [apply Z.div_le_lower_bound; nia|].
    apply Z.lt_le_incl, Z.div_lt_upper_bound; nia. }
  { split; [done|]. rewrite Hv1, Hb0, Z2Nat.id, <-Z.pow_add_r by lia. rewrite R_pow2. fold L.
    apply cong_eq. change 4 with (2 ^ 2). rewrite <-Z.pow_add_r by lia. f_equal. lia. }
  exists r. split; [done|]. replace R with (4 ^ (Z.of_nat num * L / 2)) at 1; [done|].
  change 4 with (2 ^ 2). rewrite <-Z.pow_mul_r, R_pow2 by (try apply Z.div_pos; lia). f_equal. fold L.
  assert (L = 2 * (L / 2)) as HLe by (subst L; by destruct limb_bits_cases as [-> | ->]).
  assert (Z.of_nat num * L = Z.of_nat num * (L / 2) * 2) as HL2 by lia.
  rewrite HL2, Z.div_mul by lia. lia.
Qed.
End partial.

(** ** Moduli *)

Lemma max_bytes : (MODULUS_MAX_LIMBS * LIMB_BYTES = 1024)%nat.
Proof. unfold MODULUS_MAX_LIMBS, LIMB_BYTES. by destruct limb_bits_cases as [-> | ->]. Qed.

Record modulus_ok (m : Modulus) : Prop := {
  mo_partial : partial_ok (as_partial m);
  mo_len : (MODULUS_MIN_LIMBS <= length m.(m_limbs) <= MODULUS_MAX_LIMBS)%nat;
  mo_min : base ^ Z.of_nat (length m.(m_limbs) - 1) <= val m.(m_limbs);
  mo_RR : encodes (as_partial m) (base ^ Z.of_nat (length m.(m_limbs))) m.(oneRR)
}.

Lemma n_mod_r_spec n : limbs_ok n → (2 <= length n)%nat → n_mod_r n = val n mod 2 ^ 64.
Proof.
  intros Hn Hl. destruct Hn as [|x n Hx [|y n' Hy Hn]]; [cbn in Hl; lia..|]. unfold n_mod_r. cbn [nth val].
  unfold is_limb, base in *. destruct limb_bits_cases as [HL|HL]; rewrite HL in *; cbn [Z.eqb Pos.eqb].
  - rewrite Z.shiftl_mul_pow2 by lia. rewrite (Z.mod_small (y * 2 ^ 32)) by lia. rewrite Z.lor_comm, lor_low by lia.
    apply (Z.mod_unique_pos _ _ (val n')); lia.
  - apply (Z.mod_unique_pos _ _ (y + 2 ^ 64 * val n')); lia.
Qed.

Lemma n0_spec n : limbs_ok n → (2 <= length n)%nat → Z.odd (val n) = true →
  let n0 := n0_from (GFp_bn_neg_inv_mod_r_u64 (n_mod_r n)) in is_limb n0.1 ∧ (n0.1 * val n + 1) mod base = 0.
Proof.
  intros Hn Hl Hodd. rewrite n_mod_r_spec by done. set (k := val n mod 2 ^ 64).
  assert (Z.odd k = true) as Hk.
  { subst k. rewrite (Z_div_mod_eq_full (val n) (2 ^ 64)) in Hodd. rewrite Z.odd_add, Z.odd_mul in Hodd. exact Hodd. }
  pose proof (Z.mod_pos_bound (val n) (2 ^ 64) ltac:(lia)). fold k in H0.
  assert (k ≠ 0) by (intros ->; done). destruct (neg_inv_spec k Hk ltac:(lia)) as [Hv Hinv].
  set (v := GFp_bn_neg_inv_mod_r_u64 k) in *. clearbody v.
  pose proof (n0_from_spec (val n) v Hv) as Hs. destruct (n0_from v) as [n0 hi]. apply Hs.
  subst k. by rewrite <-Z.add_mod_idemp_l, Z.mul_mod_idemp_r, Z.add_mod_idemp_l in Hinv by lia.
Qed.

Lemma from_boxed_limbs_spec n : limbs_ok n → (n ≠ [] → base ^ Z.of_nat (length n - 1) <= val n) →
  match from_boxed_limbs n with
  | Ok (m, bits) => m.(m_limbs) = n ∧ bits = Z.log2 (val n) + 1 ∧ modulus_ok m
  | Err _ => ¬ ((MODULUS_MIN_LIMBS <= length n <= MODULUS_MAX_LIMBS)%nat ∧ Z.odd (val n) = true)
  | Panic => False
  end.
Proof.
  intros Hn Hmin. unfold from_boxed_limbs. destruct (Nat.ltb_spec MODULUS_MAX_LIMBS (length n)); [lia|].
  destruct (Nat.ltb_spec (length n) MODULUS_MIN_LIMBS); [lia|]. unfold MODULUS_MIN_LIMBS in *.
  rewrite LIMBS_are_even_spec, mask_False, negb_involutive by done.
  destruct (Z.even (val n)) eqn:He; [rewrite <-Z.negb_odd in He; intros [_ Ho]; by rewrite Ho in He|].
  assert (Z.odd (val n) = true) as Ho by by rewrite <-Z.negb_even, He.
  assert (n ≠ []) as Hne by (intros ->; cbn in *; lia).
  assert (3 < val n) as H3.
  { specialize (Hmin Hne). pose proof base_pos. assert (base ^ 1 <= base ^ Z.of_nat (length n - 1)) by (apply Z.pow_le_mono_r; lia). lia. }
  rewrite LIMBS_less_than_limb_spec, mask_False, negb_involutive by (done || (pose proof base_pos; unfold is_limb; lia)).
  rewrite (proj2 (Z.ltb_ge _ _)) by lia. destruct (n0_spec n Hn ltac:(lia) Ho) as [Hn0 Hinv].
  set (n0 := n0_from _) in *. rewrite limbs_minimal_bits_spec, (proj2 (Z.eqb_neq _ 0)) by (done || lia).
  assert (partial_ok (mkPartialModulus n n0)) as Hp by (split; cbn; done || lia).
  destruct (newRR_spec _ Hp) as (r & Hr & Henc); [by apply Hmin|unfold MODULUS_MIN_LIMBS; cbn; lia|]. cbn [p_limbs] in Hr. rewrite Hr.
  cbn [no_err mbind result_bind]. split; [done|]. split; [done|]. split; [done|unfold MODULUS_MIN_LIMBS; cbn; lia|by apply Hmin|done].
Qed.

(** ** Powers of elements that are not encoded *)

Section modulus.
Context (m : Modulus) (Hm : modulus_ok m).
Abbreviation n := (val m.(m_limbs)).
Abbreviation num := (length m.(m_limbs)).

Lemma encode_spec a : reduced (as_partial m) a → encodes (as_partial m) (val a) (elem_mul m.(oneRR) a m).
Proof.
  intros Ha. pose proof (mo_partial m Hm) as Hp. pose proof (mo_RR m Hm) as [HR HRv]. pose proof (R_bound _ Hp). pose proof Ha as [Ha1 Ha2 Ha3].
  destruct (mont_mul _ Hp a a m.(oneRR) false) as [Hr Hv]; [done|done|lia|done|done|]. split; [done|].
  apply (cancel_R _ Hp). unfold elem_mul, elem_mul_, limbs_mont_mul. rewrite Hv, HRv. apply cong_eq. cbn. lia.
Qed.

Lemma decode_spec x a : encodes (as_partial m) x a →
  ∃ r, into_unencoded a m = Ok r ∧ reduced (as_partial m) r ∧ val r = x mod n.
Proof.
  intros [Ha Hx]. pose proof (mo_partial m Hm) as Hp. pose proof (mo_len m Hm). pose proof (R_bound _ Hp). pose proof (pk_three _ Hp).
  pose proof Ha as [Ha1 Ha2 Ha3]. cbn [p_limbs as_partial] in *. unfold MODULUS_MIN_LIMBS in *.
  unfold into_unencoded, decode_once. rewrite length_insert, length_replicate, (proj2 (Nat.ltb_ge _ _)) by lia.
  assert (take num (<[0%nat := 1]> (replicate MODULUS_MAX_LIMBS 0)) = <[0%nat := 1]> (replicate num 0)) as ->.
  { rewrite !insert_replicate_lt by lia. destruct num as [|k]; [lia|]. cbn [replicate app firstn take Nat.sub]. f_equal.
    rewrite take_replicate. f_equal. lia. }
  set (one := <[0%nat := 1]> (replicate num 0)).
  assert (val one = 1) as Hone by (subst one; rewrite val_single by lia; done).
  assert (reduced (as_partial m) one) as Hred.
  { split; [|subst one; by rewrite length_insert, length_replicate|cbn; lia].
    apply Forall_insert; [apply limbs_ok_replicate_0|]. pose proof base_pos. unfold is_limb. lia. }
  destruct (mont_mul _ Hp a a one false) as [Hr Hv]; [done|done|cbn; lia|done|done|]. cbn [p_limbs p_n0 as_partial] in *.
  exists (GFp_bn_mul_mont a a one (m_limbs m) (m_n0 m) false). split; [done|]. split; [done|].
  apply (cong_small n); [apply Hr|apply Z.mod_pos_bound; lia|]. rewrite cong_mod by lia.
  apply (cancel_R _ Hp). cbn [p_limbs as_partial]. by rewrite Hv, Hx, Hone, Z.mul_1_r.
Qed.

(** Exponentiation with a public exponent. *)
Lemma exp_vartime_spec a e : reduced (as_partial m) a → 1 <= e <= PUBLIC_EXPONENT_MAX_VALUE →
  ∃ b r, elem_exp_vartime a e m = Ok b ∧ into_unencoded b m = Ok r ∧
    reduced (as_partial m) r ∧ val r = (val a ^ e) mod n.
Proof.
  intros Ha He. unfold elem_exp_vartime. pose proof (encode_spec a Ha) as Henc.
  destruct (elem_exp_vartime_spec _ (mo_partial m Hm) (val a) _ e He Henc) as (b & Hb & Hbe).
  destruct (decode_spec _ _ Hbe) as (r & Hr & Hred & Hv). by exists b, r.
Qed.
End modulus.
End elems.
