(* ===== verification/RingRsa.v ===== *)
(** * RSA signatures

    [src/utils/ring/src/rsa]: the paddings of PKCS#1 1.5 and PSS ([padding.rs]) and the
    verification of signatures ([verification.rs], [rsa.rs]).  A padding is a value of
    [Padding], the trait objects of the source; the random bytes of [SecureRandom] are an argument
    of the encoders.  The paddings write into slices: [mgf1] and [encode] return what
    the slice holds when they return. *)
From S2P Require Import Prelude Errors Frame Untrusted RingIo RingDigest RingLimb RingMont RingBigint.

(** ** [padding.rs] *)

Record PKCS1 := mkPKCS1 {
  pkcs1_digest_alg : Algorithm;
  digestinfo_prefix : list Z
}.
Record PSS := mkPSS { pss_digest_alg : Algorithm }.

(** The types that implement the traits [Padding], [RsaEncoding] and [Verification]. *)
Inductive Padding :=
| PaddingPKCS1 (pkcs1 : PKCS1)
| PaddingPSS (pss : PSS).

Definition digest_alg (self : Padding) : Algorithm :=
  match self with
  | PaddingPKCS1 pkcs1 => pkcs1.(pkcs1_digest_alg)
  | PaddingPSS pss => pss.(pss_digest_alg)
  end.

(** [dst[i] = value] *)
Definition set_at (dst : list Z) (i : nat) (value : Z) : result unit (list Z) :=
  if (i <? length dst)%nat then Ok (<[i := value]> dst) else Panic.

Definition pkcs1_encode (pkcs1 : PKCS1) (m_hash : Digest) (m_out : list Z) : result unit (list Z) :=
  let em := m_out in
  let digest_len := (length pkcs1.(digestinfo_prefix) + pkcs1.(pkcs1_digest_alg).(output_len))%nat in
  if (length em <? digest_len + 11)%nat then Panic else
  let pad_len := (length em - digest_len - 3)%nat in
  em ← set_at em 0 0;
  em ← set_at em 1 1;
  let em := foldl (λ em i, <[(2 + i)%nat := 0xff]> em) em (seq 0 pad_len) in
  em ← set_at em (2 + pad_len) 0;
  em ← copy_at em (3 + pad_len) pkcs1.(digestinfo_prefix);
  let digest_dst := (3 + pad_len + length pkcs1.(digestinfo_prefix))%nat in
  if negb (length em - digest_dst =? length (digest_as_ref m_hash))%nat then Panic else
  copy_at em digest_dst (digest_as_ref m_hash).

(** The macro [pkcs1_digestinfo_prefix]. *)
Definition pkcs1_digestinfo_prefix (digest_len digest_oid_len : Z) (digest_oid : list Z) : list Z :=
  [tag_byte Sequence; 8 + digest_oid_len + digest_len;
     tag_byte Sequence; 2 + digest_oid_len + 2;
       tag_byte OID; digest_oid_len] ++ digest_oid ++
      [tag_byte Null; 0;
     tag_byte OctetString; digest_len].

Definition SHA1_PKCS1_DIGESTINFO_PREFIX : list Z := pkcs1_digestinfo_prefix 20 5 [0x2b; 0x0e; 0x03; 0x02; 0x1a].
Definition SHA256_PKCS1_DIGESTINFO_PREFIX : list Z :=
  pkcs1_digestinfo_prefix 32 9 [0x60; 0x86; 0x48; 0x01; 0x65; 0x03; 0x04; 0x02; 0x01].
Definition SHA384_PKCS1_DIGESTINFO_PREFIX : list Z :=
  pkcs1_digestinfo_prefix 48 9 [0x60; 0x86; 0x48; 0x01; 0x65; 0x03; 0x04; 0x02; 0x02].
Definition SHA512_PKCS1_DIGESTINFO_PREFIX : list Z :=
  pkcs1_digestinfo_prefix 64 9 [0x60; 0x86; 0x48; 0x01; 0x65; 0x03; 0x04; 0x02; 0x03].

Definition RSA_PKCS1_SHA1_FOR_LEGACY_USE_ONLY : PKCS1 := mkPKCS1 SHA1_FOR_LEGACY_USE_ONLY SHA1_PKCS1_DIGESTINFO_PREFIX.
Definition RSA_PKCS1_SHA256 : PKCS1 := mkPKCS1 SHA256 SHA256_PKCS1_DIGESTINFO_PREFIX.
Definition RSA_PKCS1_SHA384 : PKCS1 := mkPKCS1 SHA384 SHA384_PKCS1_DIGESTINFO_PREFIX.
Definition RSA_PKCS1_SHA512 : PKCS1 := mkPKCS1 SHA512 SHA512_PKCS1_DIGESTINFO_PREFIX.

Definition RSA_PSS_SHA256 : PSS := mkPSS SHA256.
Definition RSA_PSS_SHA384 : PSS := mkPSS SHA384.
Definition RSA_PSS_SHA512 : PSS := mkPSS SHA512.

Definition MAX_SALT_LEN : nat := 512 / 8.

Record PSSMetrics := mkPSSMetrics {
  em_len : nat;
  db_len : nat;
  ps_len : nat;
  s_len : nat;
  h_len : nat;
  top_byte_mask : Z
}.

(** [usize::checked_sub] *)
Definition checked_sub_nat (a b : nat) : option nat := if (b <=? a)%nat then Some (a - b)%nat else None.

Definition PSSMetrics_new (digest_alg : Algorithm) (mod_bits : Z) : result unit PSSMetrics :=
  em_bits ← try_sub_1 mod_bits;
  let em_len := as_usize_bytes_rounded_up em_bits in
  let leading_zero_bits := 8 * em_len - em_bits in
  let em_len := Z.to_nat em_len in
  let top_byte_mask := Z.shiftr 0xff leading_zero_bits in
  let h_len := digest_alg.(output_len) in
  let s_len := h_len in
  db_len ← some_or (checked_sub_nat em_len (1 + s_len)) ();
  ps_len ← some_or (checked_sub_nat db_len (h_len + 1)) ();
  Ok (mkPSSMetrics em_len db_len ps_len s_len h_len top_byte_mask).

(** The chunks of the mask from the [i]th on; [rest] bytes are left. *)
Fixpoint mgf1_chunks (rounds i : nat) (digest_alg : Algorithm) (seed : list Z) (rest : nat) : result unit (list Z) :=
  match rounds with
  | O => Ok []
  | S rounds =>
      ctx ← context_update (context_new digest_alg) seed;
      ctx ← context_update ctx (to_be_bytes 4 (Z.of_nat i mod 2 ^ 32));
      digest ← context_finish ctx;
      let mask_chunk_len := Nat.min digest_alg.(output_len) rest in
      if (length (digest_as_ref digest) <? mask_chunk_len)%nat then Panic else
      chunks ← mgf1_chunks rounds (S i) digest_alg seed (rest - mask_chunk_len);
      Ok (take mask_chunk_len (digest_as_ref digest) ++ chunks)
  end.

(** The callers give a mask that is not empty. *)
Definition mgf1 (digest_alg : Algorithm) (seed : list Z) (mask : list Z) : result unit (list Z) :=
  let digest_len := digest_alg.(output_len) in
  if (length mask =? 0)%nat then Panic else
  let ctr_max := ((length mask - 1) / digest_len)%nat in
  if 2 ^ 32 - 1 <? Z.of_nat ctr_max then Panic else
  mgf1_chunks (S ctr_max) 0 digest_alg seed (length mask).

Definition pss_digest (digest_alg : Algorithm) (m_hash : Digest) (salt : list Z) : result unit Digest :=
  ctx ← context_update (context_new digest_alg) (replicate 8 0);
  ctx ← context_update ctx (digest_as_ref m_hash);
  ctx ← context_update ctx salt;
  context_finish ctx.

(** [for (a, b) in xs.zip(ys) { *a ^= *b }] *)
Fixpoint xor_zip (xs ys : list Z) : list Z :=
  match xs, ys with
  | x :: xs, y :: ys => Z.lxor x y :: xor_zip xs ys
  | _, _ => xs
  end.

(** [xs[0] &= mask] *)
Definition and_first (xs : list Z) (mask : Z) : result unit (list Z) :=
  match xs with
  | [] => Panic
  | x :: xs => Ok (Z.land x mask :: xs)
  end.

Section padding.
(** [SecureRandom::fill] *)
Context (fill : list Z → result unit (list Z)).

Definition pss_encode (self : PSS) (m_hash : Digest) (m_out : list Z) (mod_bits : Z) : result unit (list Z) :=
  metrics ← PSSMetrics_new self.(pss_digest_alg) mod_bits;
  '(first, em) ←
    (if metrics.(top_byte_mask) =? 0xff
     then m_out ← set_at m_out 0 0; Ok (take 1 m_out, drop 1 m_out)
     else Ok ([], m_out));
  if negb (length em =? metrics.(em_len))%nat then Panic else
  if (MAX_SALT_LEN <? metrics.(s_len))%nat then Panic else
  salt ← fill (replicate metrics.(s_len) 0);
  h_hash ← pss_digest self.(pss_digest_alg) m_hash salt;
  let '(masked_db, digest_terminator) := (take metrics.(db_len) em, drop metrics.(db_len) em) in
  masked_db ← mgf1 self.(pss_digest_alg) (digest_as_ref h_hash) masked_db;
  masked_db ←
    match drop metrics.(ps_len) masked_db with
    | [] => Err ()
    | b :: rest => Ok (take metrics.(ps_len) masked_db ++ Z.lxor b 0x01 :: xor_zip rest salt)
    end;
  masked_db ← and_first masked_db metrics.(top_byte_mask);
  if negb (length (digest_as_ref h_hash) =? metrics.(h_len))%nat then Panic else
  digest_terminator ← copy_at digest_terminator 0 (digest_as_ref h_hash);
  digest_terminator ← set_at digest_terminator metrics.(h_len) 0xbc;
  Ok (first ++ masked_db ++ digest_terminator).

(** [RsaEncoding::encode] *)
Definition encode (self : Padding) (m_hash : Digest) (m_out : list Z) (mod_bits : Z) : result unit (list Z) :=
  match self with
  | PaddingPKCS1 pkcs1 => pkcs1_encode pkcs1 m_hash m_out
  | PaddingPSS pss => pss_encode pss m_hash m_out mod_bits
  end.
End padding.

Section verification.
Context `{!LimbWidth} {Reader : Type} `{!Untrusted Reader}.

Definition PUBLIC_KEY_PUBLIC_MODULUS_MAX_LEN : nat := MODULUS_MAX_LIMBS * LIMB_BYTES.

(** The first [len] bytes of an array of [PUBLIC_KEY_PUBLIC_MODULUS_MAX_LEN] zeros. *)
Definition zeros_slice (len : Z) : result unit (list Z) :=
  if Z.of_nat PUBLIC_KEY_PUBLIC_MODULUS_MAX_LEN <? len then Panic else Ok (replicate (Z.to_nat len) 0).

Definition pkcs1_verify (self : PKCS1) (m_hash : Digest) (mod_bits : Z) : Parser Reader unit unit :=
  calculated ← lift (zeros_slice (as_usize_bytes_rounded_up mod_bits));
  calculated ← lift (pkcs1_encode self m_hash calculated);
  m ← total read_bytes_to_end;
  if bool_decide (m = calculated) then mret () else fail ().

(** [for i in 1..db.len() { db[i] ^= masked_bytes.read_byte()?; }] *)
Fixpoint unmask_rest (db : list Z) : Parser Reader unit (list Z) :=
  match db with
  | [] => mret []
  | d :: db =>
      b ← read_byte;
      db ← unmask_rest db;
      mret (Z.lxor d b :: db)
  end.

(** The closure that reads the masked bytes. *)
Definition unmask (metrics : PSSMetrics) (db : list Z) : Parser Reader unit (list Z) :=
  b ← read_byte;
  if negb (Z.land b (0xff - metrics.(top_byte_mask)) =? 0) then fail () else
  match db with
  | [] => abort
  | d :: db => db ← unmask_rest db; mret (Z.lxor d b :: db)
  end.

Definition pss_verify (self : PSS) (m_hash : Digest) (mod_bits : Z) : Parser Reader unit unit :=
  metrics ← lift (PSSMetrics_new self.(pss_digest_alg) mod_bits);
  (if metrics.(top_byte_mask) =? 0xff
   then b ← read_byte; if b =? 0 then mret () else fail ()
   else mret ()) ;;
  masked_db ← read_bytes metrics.(db_len);
  h_hash ← read_bytes metrics.(h_len);
  b ← read_byte;
  if negb (b =? 0xbc) then fail () else
  db ← lift (zeros_slice (Z.of_nat metrics.(db_len)));
  db ← lift (mgf1 self.(pss_digest_alg) h_hash db);
  db ← lift (read_all masked_db () (unmask metrics db));
  db ← lift (and_first db metrics.(top_byte_mask));
  if existsb (λ i, negb (nth i db 0 =? 0)) (seq 0 metrics.(ps_len)) then fail () else
  if negb (nth metrics.(ps_len) db 0 =? 1) then fail () else
  let salt := drop (length db - metrics.(s_len)) db in
  h_prime ← lift (pss_digest self.(pss_digest_alg) m_hash salt);
  if bool_decide (h_hash = digest_as_ref h_prime) then mret () else fail ().

(** [Verification::verify] *)
Definition padding_verify (self : Padding) (m_hash : Digest) (mod_bits : Z) : Parser Reader unit unit :=
  match self with
  | PaddingPKCS1 pkcs1 => pkcs1_verify pkcs1 m_hash mod_bits
  | PaddingPSS pss => pss_verify pss m_hash mod_bits
  end.

(** ** [verification.rs] *)

Record Key := mkKey {
  k_n : Modulus;
  k_e : Z;
  k_n_bits : Z
}.

Definition N_MIN_BITS : Z := 2048.

Definition from_modulus_and_exponent (n e : Input) (n_min_bits n_max_bits e_min_value : Z) : result KeyRejected Key :=
  '(n, n_bits) ← from_be_bytes_with_bit_length (Reader := Reader) n;
  if n_min_bits <? N_MIN_BITS then Panic else
  n_bits_rounded_up ← map_err (λ _, UnexpectedError) (from_usize_bytes (as_usize_bytes_rounded_up n_bits));
  if n_bits_rounded_up <? n_min_bits then Err TooSmall else
  if n_max_bits <? n_bits then Err TooLarge else
  e ← public_exponent_from_be_bytes (Reader := Reader) e e_min_value;
  Ok (mkKey n e n_bits).

Record RsaParameters := mkRsaParameters {
  padding_alg : Padding;
  min_bits : Z
}.

(** [From<KeyRejected> for Unspecified] *)
Definition unspecified {A} (x : result KeyRejected A) : result unit A := map_err (λ _, ()) x.

Definition verify_rsa_ (params : RsaParameters) (n e msg signature : Input) : result unit unit :=
  max_bits ← from_usize_bytes (Z.of_nat PUBLIC_KEY_PUBLIC_MODULUS_MAX_LEN);
  '(mkKey n e n_bits) ← unspecified (from_modulus_and_exponent n e params.(min_bits) max_bits 3);
  if negb (Z.of_nat (length signature) =? as_usize_bytes_rounded_up n_bits) then Err () else
  s ← elem_from_be_bytes_padded (Reader := Reader) signature n;
  if elem_is_zero s then Err () else
  m ← elem_exp_vartime s e n;
  m ← into_unencoded m n;
  decoded ← zeros_slice (as_usize_bytes_rounded_up n_bits);
  decoded ← fill_be_bytes m decoded;
  m_hash ← digest (digest_alg params.(padding_alg)) msg;
  read_all decoded () (padding_verify params.(padding_alg) m_hash n_bits).

(** [VerificationAlgorithm::verify] *)
Definition rsa_verify (self : RsaParameters) (public_key msg signature : Input) : result unit unit :=
  '(n, e) ← parse_public_key (Reader := Reader) public_key;
  verify_rsa_ self n.(big_endian_without_leading_zero) e.(big_endian_without_leading_zero) msg signature.

Record RsaPublicKeyComponents := mkRsaPublicKeyComponents { pkc_n : Input; pkc_e : Input }.

Definition components_verify (self : RsaPublicKeyComponents) (params : RsaParameters) (message signature : Input)
  : result unit unit :=
  verify_rsa_ params self.(pkc_n) self.(pkc_e) message signature.

(** The macro [rsa_params]. *)
Definition RSA_PKCS1_2048_8192_SHA1_FOR_LEGACY_USE_ONLY : RsaParameters :=
  mkRsaParameters (PaddingPKCS1 RSA_PKCS1_SHA1_FOR_LEGACY_USE_ONLY) 2048.
Definition RSA_PKCS1_2048_8192_SHA256 : RsaParameters := mkRsaParameters (PaddingPKCS1 RSA_PKCS1_SHA256) 2048.
Definition RSA_PKCS1_2048_8192_SHA384 : RsaParameters := mkRsaParameters (PaddingPKCS1 RSA_PKCS1_SHA384) 2048.
Definition RSA_PKCS1_2048_8192_SHA512 : RsaParameters := mkRsaParameters (PaddingPKCS1 RSA_PKCS1_SHA512) 2048.
Definition RSA_PKCS1_3072_8192_SHA384 : RsaParameters := mkRsaParameters (PaddingPKCS1 RSA_PKCS1_SHA384) 3072.
Definition RSA_PSS_2048_8192_SHA256 : RsaParameters := mkRsaParameters (PaddingPSS RSA_PSS_SHA256) 2048.
Definition RSA_PSS_2048_8192_SHA384 : RsaParameters := mkRsaParameters (PaddingPSS RSA_PSS_SHA384) 2048.
Definition RSA_PSS_2048_8192_SHA512 : RsaParameters := mkRsaParameters (PaddingPSS RSA_PSS_SHA512) 2048.
End verification.
