(* ===== verification/RingPaddingProofs.v ===== *)
(** * The paddings of RSA signatures are those of RFC 8017

    [emsa_pkcs1] and [emsa_pss] are the encodings of RFC 8017, sections 9.2 and 9.1, for a digest
    and, in PSS, a salt.  The encoders compute them; the verifiers accept exactly them. *)
From S2P Require Import Prelude Errors Frame Untrusted RingIo RingDigest RingLimb RingLimbProofs RingMont RingMontProofs RingBigint RingBigintProofs RingRsa.

(** ** Digests *)

Definition digest_of (alg : Algorithm) (data : list Z) : Digest :=
  {| value := fips_digest alg data; digest_algorithm := alg |}.
(** The bytes of the digest. *)
Definition hash (alg : Algorithm) (data : list Z) : list Z := take alg.(output_len) (fips_digest alg data).

Lemma feed_new alg parts : In alg digest_algorithms → 8 * Z.of_nat (length (concat parts)) < 2 ^ 64 →
  feed (context_new alg) parts = Ok (digest_of alg (concat parts)).
Proof.
  intros Halg%digest_algorithms_ok Hlen.
  rewrite (feed_spec alg Halg _ [] parts (context_new_taken alg Halg)). cbn [app]. by rewrite (proj2 (Z.ltb_lt _ _) Hlen).
Qed.

Lemma over_blocks_length {A} len (f : list A → list Z → list A) s x n k :
  (∀ s x, length (f s x) = k) → length s = k → length (over_blocks len f s x n) = k.
Proof. intros Hf. revert s x. induction n as [|n IH]; intros s x Hs; cbn [over_blocks]; [done|]. apply IH, Hf. Qed.

Lemma concat_bytes_length k l : length (concat (to_be_bytes k <$> l)) = (length l * k)%nat.
Proof. induction l as [|x l IH]; [done|]. cbn [fmap list_fmap concat length]. rewrite length_app, length_to_be_bytes, IH. lia. Qed.

Lemma sha2_block_length S2 s x : length (sha2_block S2 s x) = 8%nat.
Proof. unfold sha2_block. by destruct (foldl _ _ _) as [[[[[[[? ?] ?] ?] ?] ?] ?] ?]. Qed.

Lemma sha2_output S2 s x n : length s = 8%nat → length (block_data_order S2 s x n) = 8%nat.
Proof. apply over_blocks_length, sha2_block_length. Qed.

Lemma sha1_output s x n : length s = 8%nat → length (Sha1.block_data_order s x n) = 8%nat.
Proof.
  intros Hs. unfold Sha1.block_data_order, Sha1.block_data_order_. rewrite length_app, length_drop, (over_blocks_length _ _ _ _ _ 5); [lia| |rewrite length_take; lia].
  intros. unfold Sha1.block. by destruct (foldl _ _ _) as [[[[? ?] ?] ?] ?].
Qed.

Lemma hash_length alg data : In alg digest_algorithms → length (hash alg data) = alg.(output_len).
Proof.
  intros Halg. unfold hash, fips_digest, hash_blocks. set (d := data ++ _). set (n := (length d / _)%nat). clearbody d n.
  rewrite length_take, Nat.min_l; [done|]. destruct Halg as [<-|[<-|[<-|[<-|[<-|[]]]]]].
  all: cbn [alg_block_data_order format_output SHA1_FOR_LEGACY_USE_ONLY SHA256 SHA384 SHA512 SHA512_256].
  all: unfold sha256_format_output, sha512_format_output, GFp_sha256_block_data_order, GFp_sha512_block_data_order.
  all: rewrite concat_bytes_length, length_take.
  1: rewrite sha1_output by reflexivity. 2-5: rewrite sha2_output by reflexivity.
  all: cbn [output_len SHA1_FOR_LEGACY_USE_ONLY SHA256 SHA384 SHA512 SHA512_256]; cbn; lia.
Qed.

Lemma concat_bytes_ok k l : bytes_ok (concat (to_be_bytes k <$> l)).
Proof. induction l as [|x l IH]; [by apply Forall_nil|]. cbn [fmap list_fmap concat]. apply Forall_app. split; [apply to_be_bytes_ok|done]. Qed.

Lemma hash_ok alg data : In alg digest_algorithms → bytes_ok (hash alg data).
Proof.
  intros Halg. apply Forall_take. unfold fips_digest.
  repeat (destruct Halg as [<-|Halg]; [apply concat_bytes_ok|]). done.
Qed.

Lemma output_len_bounds alg : In alg digest_algorithms → (20 <= alg.(output_len) <= 64)%nat.
Proof. intros Halg. repeat (destruct Halg as [<-|Halg]; [cbn; lia|]). done. Qed.

(** ** PKCS#1 1.5 *)

Definition emsa_pkcs1 (prefix h : list Z) (k : nat) : list Z :=
  0 :: 1 :: replicate (k - length prefix - length h - 3) 0xff ++ 0 :: prefix ++ h.

Lemma fold_insert (x : Z) s pre mid post : length pre = (2 + s)%nat →
  foldl (λ em i, <[(2 + i)%nat := x]> em) (pre ++ mid ++ post) (seq s (length mid)) = pre ++ replicate (length mid) x ++ post.
Proof.
  revert s pre. induction mid as [|y mid IH]; intros s pre Hs; [done|]. cbn [length seq foldl replicate app].
  rewrite insert_app_r_alt by lia. replace (2 + s - length pre)%nat with 0%nat by lia.
  change (<[0%nat := x]> (y :: mid ++ post)) with ([x] ++ mid ++ post). rewrite (assoc_L (++)), IH by (rewrite length_app; cbn; lia).
  by rewrite <-(assoc_L (++)).
Qed.

Lemma split_at (l : list Z) k : (k <= length l)%nat → ∃ a b, l = a ++ b ∧ length a = k.
Proof. intros Hk. exists (take k l), (drop k l). rewrite take_drop, length_take. split; [done|lia]. Qed.

Lemma set_at_ok dst i v : (i < length dst)%nat → set_at dst i v = Ok (<[i := v]> dst).
Proof. intros Hi. unfold set_at. by rewrite (proj2 (Nat.ltb_lt _ _) Hi). Qed.

Lemma pkcs1_encode_spec p d m_out : length (digest_as_ref d) = p.(pkcs1_digest_alg).(output_len) →
  pkcs1_encode p d m_out =
  if (length m_out <? length p.(digestinfo_prefix) + p.(pkcs1_digest_alg).(output_len) + 11)%nat then Panic
  else Ok (emsa_pkcs1 p.(digestinfo_prefix) (digest_as_ref d) (length m_out)).
Proof.
  intros Hd. unfold pkcs1_encode, emsa_pkcs1. rewrite Hd. set (prefix := digestinfo_prefix p). set (h := output_len _).
  destruct (Nat.ltb_spec (length m_out) (length prefix + h + 11)) as [|Hlen]; [done|].
  set (pad := (length m_out - (length prefix + h) - 3)%nat).
  replace (length m_out - length prefix - h - 3)%nat with pad by lia.
  assert (pad + length prefix + h + 3 = length m_out)%nat as Hpad by lia. clearbody pad.
  destruct m_out as [|a [|b rest]]; [cbn in Hlen; lia..|]. cbn [length] in *.
  destruct (split_at rest pad) as (mid & rest' & -> & Hmid); [lia|]. rewrite length_app in *.
  destruct rest' as [|z rest']; [cbn in *; lia|]. cbn [length] in *.
  destruct (split_at rest' (length prefix)) as (pre & dg & -> & Hpre); [lia|]. rewrite length_app in *.
  do 2 (rewrite set_at_ok by (cbn; lia); cbn [mbind result_bind]).
  change (<[1%nat := 1]> (<[0%nat := 0]> (a :: b :: mid ++ z :: pre ++ dg))) with ([0; 1] ++ mid ++ z :: pre ++ dg).
  subst pad. rewrite (fold_insert 255 0 [0; 1]) by done. set (pad := length mid) in *. set (ff := replicate pad 255).
  assert (length ff = pad) as Hff by apply length_replicate.
  rewrite set_at_ok by (rewrite !length_app; cbn; lia). cbn [mbind result_bind].
  rewrite (assoc_L (++)), insert_app_r_alt by (rewrite length_app; cbn; lia).
  replace (2 + pad - length ([0; 1]%Z ++ ff))%nat with 0%nat by (rewrite length_app; cbn; lia).
  change (<[0%nat := 0]> (z :: pre ++ dg)) with ([0] ++ pre ++ dg). rewrite (assoc_L (++)).
  set (front := (([0; 1] ++ ff) ++ [0])). assert (length front = (3 + pad)%nat) as Hfr by (subst front; rewrite !length_app; cbn; lia).
  rewrite copy_at_ok by (rewrite !length_app; lia). cbn [mbind result_bind].
  rewrite take_app_length', <-(drop_drop _ (length prefix)), drop_app_length', drop_app_length' by done.
  rewrite !length_app, (proj2 (Nat.eqb_eq _ _)) by lia. cbn [negb].
  rewrite copy_at_ok by (rewrite !length_app; lia).
  rewrite drop_ge by (rewrite !length_app; lia). rewrite app_nil_r, (assoc_L (++)), take_app_length' by (rewrite length_app; lia).
  subst front. by rewrite <-!(assoc_L (++)).
Qed.

(** ** Mask generation *)

(** The block of the mask for a counter. *)
Definition mgf_block (alg : Algorithm) (seed : list Z) (i : nat) : list Z := hash alg (seed ++ to_be_bytes 4 (Z.of_nat i)).

(** [MGF1(seed, len)] of RFC 8017. *)
Definition mgf (alg : Algorithm) (seed : list Z) (len : nat) : list Z :=
  take len (concat (mgf_block alg seed <$> seq 0 (S ((len - 1) / alg.(output_len))))).

Section pss.
Context (alg : Algorithm) (Halg : In alg digest_algorithms).
Abbreviation hLen := (output_len alg).

Lemma mgf1_chunks_spec rounds i seed rest :
  8 * Z.of_nat (length seed + 4) < 2 ^ 64 → Z.of_nat (i + rounds) <= 2 ^ 32 → (rest <= rounds * hLen)%nat →
  mgf1_chunks rounds i alg seed rest = Ok (take rest (concat (mgf_block alg seed <$> seq i rounds))).
Proof.
  intros Hs. revert i rest. induction rounds as [|rounds IH]; intros i rest Hi Hr; [cbn; by rewrite take_nil|].
  cbn [mgf1_chunks seq fmap list_fmap concat]. rewrite Z.mod_small by lia.
  set (b := to_be_bytes 4 (Z.of_nat i)). pose proof (length_to_be_bytes 4 (Z.of_nat i)) as Hb. fold b in Hb.
  pose proof (feed_new alg [seed; b] Halg) as Hf. cbn [feed concat] in Hf. rewrite app_nil_r, length_app, Hb in Hf. specialize (Hf ltac:(lia)).
  destruct (context_update (context_new alg) seed) as [ctx| |]; [|done..]. cbn [mbind result_bind] in *.
  destruct (context_update ctx b) as [ctx'| |]; [|done..]. cbn [mbind result_bind] in *. rewrite Hf. cbn [mbind result_bind].
  change (digest_as_ref (digest_of alg (seed ++ b))) with (hash alg (seed ++ b)).
  change (mgf_block alg seed i) with (hash alg (seed ++ b)).
  pose proof (hash_length alg (seed ++ b) Halg) as Hl. rewrite Hl, (proj2 (Nat.ltb_ge _ _)) by lia.
  rewrite IH by lia. cbn [mbind result_bind]. rewrite take_app, Hl. do 2 f_equal.
  - destruct (Nat.le_ge_cases hLen rest); [rewrite Nat.min_l by done; by rewrite !take_ge by lia|by rewrite Nat.min_r].
  - f_equal. lia.
Qed.

Lemma mgf1_spec seed mask : 8 * Z.of_nat (length seed + 4) < 2 ^ 64 → (0 < length mask)%nat → Z.of_nat (length mask) < 2 ^ 32 →
  mgf1 alg seed mask = Ok (mgf alg seed (length mask)).
Proof.
  intros Hs H0 Hm. unfold mgf1, mgf. rewrite (proj2 (Nat.eqb_neq _ _)) by lia.
  pose proof (output_len_bounds alg Halg). pose proof (Nat.div_mod_eq (length mask - 1) hLen).
  pose proof (Nat.mod_upper_bound (length mask - 1) hLen ltac:(lia)). set (q := ((length mask - 1) / hLen)%nat) in *.
  assert (q <= length mask)%nat by nia. rewrite (proj2 (Z.ltb_ge _ _)) by lia. apply mgf1_chunks_spec; [done|lia|]. nia.
Qed.

Lemma concat_blocks_length seed i n : length (concat (mgf_block alg seed <$> seq i n)) = (n * hLen)%nat.
Proof.
  revert i. induction n as [|n IH]; intros i; [done|]. cbn [seq fmap list_fmap concat]. rewrite length_app, IH.
  unfold mgf_block at 1. rewrite hash_length by done. lia.
Qed.

Lemma mgf_length seed len : (0 < len)%nat → length (mgf alg seed len) = len.
Proof.
  intros H0. unfold mgf. rewrite length_take, concat_blocks_length. pose proof (output_len_bounds alg Halg).
  pose proof (Nat.div_mod_eq (len - 1) hLen). pose proof (Nat.mod_upper_bound (len - 1) hLen ltac:(lia)).
  set (q := ((len - 1) / hLen)%nat) in *. nia.
Qed.

Lemma mgf_ok seed len : bytes_ok (mgf alg seed len).
Proof.
  apply Forall_take. generalize 0%nat, (S ((len - 1) / hLen)). intros i n. revert i. induction n as [|n IH]; intros i; [by apply Forall_nil|].
  cbn [seq fmap list_fmap concat]. apply Forall_app. split; [by apply hash_ok|apply IH].
Qed.

(** ** PSS *)

(** [EMSA-PSS-ENCODE] of RFC 8017, with a salt as long as the digest, for a modulus of [mod_bits]
    bits; the result is padded to the length of the modulus. *)
Definition pss_db (emLen : nat) (salt : list Z) : list Z := replicate (emLen - 2 * hLen - 2) 0 ++ 1 :: salt.
Definition clear_top (bits : Z) (l : list Z) : list Z :=
  match l with [] => [] | x :: l => x mod 2 ^ (8 - bits) :: l end.
Definition emsa_pss (mod_bits : Z) (m_hash salt : list Z) : list Z :=
  let emBits := mod_bits - 1 in
  let emLen := Z.to_nat ((emBits + 7) / 8) in
  let H := hash alg (replicate 8 0 ++ m_hash ++ salt) in
  let maskedDB := zip_with Z.lxor (mgf alg H (emLen - hLen - 1)) (pss_db emLen salt) in
  replicate (Z.to_nat ((mod_bits + 7) / 8) - emLen) 0 ++
  clear_top (8 * Z.of_nat emLen - emBits) maskedDB ++ H ++ [0xbc].

Context (mod_bits : Z) (Hbits : 2041 <= mod_bits <= 8192).
Abbreviation emBits := (mod_bits - 1).
Abbreviation emLen := (Z.to_nat ((emBits + 7) / 8)).
Abbreviation k := (Z.to_nat ((mod_bits + 7) / 8)).
Abbreviation zbits := (8 * Z.of_nat emLen - emBits).

Lemma em_bounds : (255 <= emLen <= 1024)%nat ∧ 0 <= zbits < 8 ∧ (k = emLen + if (zbits =? 0)%Z then 1 else 0)%nat.
Proof.
  assert (0 <= zbits < 8 ∧ 255 <= (emBits + 7) / 8 <= 1024) as [Hz He] by (Z.to_euclidean_division_equations; lia).
  split; [lia|]. split; [done|]. destruct (Z.eqb_spec zbits 0) as [H0|H0]; Z.to_euclidean_division_equations; lia.
Qed.

Lemma byte_mask z : 0 <= z < 8 → Z.shiftr 255 z = 2 ^ (8 - z) - 1.
Proof.
  intros Hz. assert (z = 0 ∨ z = 1 ∨ z = 2 ∨ z = 3 ∨ z = 4 ∨ z = 5 ∨ z = 6 ∨ z = 7) as Hc by lia.
  by destruct Hc as [->|[->|[->|[->|[->|[->|[->| ->]]]]]]].
Qed.

Lemma metrics_spec : PSSMetrics_new alg mod_bits =
  Ok (mkPSSMetrics emLen (emLen - hLen - 1) (emLen - 2 * hLen - 2) hLen hLen (2 ^ (8 - zbits) - 1)).
Proof.
  pose proof em_bounds as (He & Hz & _). pose proof (output_len_bounds alg Halg) as Ho.
  unfold PSSMetrics_new, try_sub_1, checked_sub. rewrite (proj2 (Z.leb_le 1 mod_bits)) by lia. cbn [some_or mbind result_bind].
  rewrite rounded_up_spec by lia. set (q := (emBits + 7) / 8) in *.
  replace (8 * q) with (8 * Z.of_nat (Z.to_nat q)) by lia. rewrite byte_mask by exact Hz.
  unfold checked_sub_nat. rewrite (proj2 (Nat.leb_le (1 + hLen) _)) by lia. cbn [some_or mbind result_bind].
  rewrite (proj2 (Nat.leb_le _ _)) by lia. cbn [some_or mbind result_bind]. do 2 f_equal; lia.
Qed.

Lemma mask_255 : (2 ^ (8 - zbits) - 1 =? 0xff) = (zbits =? 0).
Proof.
  pose proof em_bounds as (_ & Hz & _). set (z := zbits) in *. clearbody z.
  assert (z = 0 ∨ z = 1 ∨ z = 2 ∨ z = 3 ∨ z = 4 ∨ z = 5 ∨ z = 6 ∨ z = 7) as Hc by lia.
  by destruct Hc as [->|[->|[->|[->|[->|[->|[->| ->]]]]]]].
Qed.

Lemma and_first_spec x l : and_first (x :: l) (2 ^ (8 - zbits) - 1) = Ok (clear_top zbits (x :: l)).
Proof.
  pose proof em_bounds as (_ & Hz & _). unfold and_first, clear_top. do 2 f_equal.
  replace (2 ^ (8 - zbits) - 1) with (Z.ones (8 - zbits)) by (rewrite Z.ones_equiv; lia).
  apply Z.land_ones. lia.
Qed.

Lemma pss_digest_spec d salt : length (digest_as_ref d) = hLen → length salt = hLen →
  pss_digest alg d salt = Ok (digest_of alg (replicate 8 0 ++ digest_as_ref d ++ salt)).
Proof.
  intros Hd Hs. pose proof (output_len_bounds alg Halg). change (pss_digest alg d salt) with (feed (context_new alg) [replicate 8 0; digest_as_ref d; salt]).
  rewrite feed_new by (try done; cbn [concat]; rewrite !length_app, length_replicate; cbn [length]; lia).
  cbn [concat]. by rewrite app_nil_r.
Qed.

(** *** Encoding *)

Lemma xor_zip_spec xs ys : length xs = length ys → xor_zip xs ys = zip_with Z.lxor xs ys.
Proof. revert ys. induction xs as [|x xs IH]; intros [|y ys] Hl; [done..|]. cbn in *. by rewrite IH by lia. Qed.

Lemma xor_db_spec ps M salt : length M = (ps + 1 + length salt)%nat →
  ∃ b rest, drop ps M = b :: rest ∧
    take ps M ++ Z.lxor b 1 :: xor_zip rest salt = zip_with Z.lxor M (replicate ps 0 ++ 1 :: salt).
Proof.
  revert M. induction ps as [|ps IH]; intros M HM.
  - destruct M as [|b M]; [done|]. exists b, M. split; [done|]. cbn [take app replicate zip_with]. by rewrite xor_zip_spec by (cbn in HM; lia).
  - destruct M as [|m M]; [done|]. destruct (IH M) as (b & rest & Hd & Ht); [cbn in HM; lia|].
    exists b, rest. split; [done|]. cbn [take firstn app replicate zip_with]. by rewrite Z.lxor_0_r, <-Ht.
Qed.

Lemma pss_db_length n salt : length (pss_db n salt) = (n - 2 * hLen - 2 + 1 + length salt)%nat.
Proof. unfold pss_db. rewrite length_app, length_replicate. cbn. lia. Qed.

Lemma pss_encode_spec fill d m_out : length (digest_as_ref d) = hLen → length m_out = k →
  (∀ salt, fill (replicate hLen 0) = Ok salt → length salt = hLen) →
  pss_encode fill (mkPSS alg) d m_out mod_bits =
    (salt ← fill (replicate hLen 0); Ok (emsa_pss mod_bits (digest_as_ref d) salt)).
Proof.
  intros Hd Hm Hfill. pose proof em_bounds as (He & Hz & Hk). pose proof (output_len_bounds alg Halg) as Ho.
  unfold pss_encode. cbn [pss_digest_alg]. rewrite metrics_spec. cbn [mbind result_bind top_byte_mask em_len s_len db_len ps_len h_len].
  rewrite mask_255. set (x := if zbits =? 0 then _ else _).
  assert (∃ em, x = Ok (replicate (k - emLen) 0, em) ∧ length em = emLen) as (em & -> & Hem).
  { subst x. destruct (Z.eqb_spec zbits 0).
    - rewrite set_at_ok by lia. destruct m_out as [|y m_out]; [cbn in Hm; lia|]. exists m_out. cbn in Hm. split; [|lia].
      cbn [mbind result_bind]. replace (k - emLen)%nat with 1%nat by lia. done.
    - exists m_out. split; [|lia]. replace (k - emLen)%nat with 0%nat by lia. done. }
  cbn [mbind result_bind]. rewrite Hem, Nat.eqb_refl. cbn [negb]. unfold MAX_SALT_LEN. rewrite (proj2 (Nat.ltb_ge _ hLen)) by (cbn; lia).
  destruct (fill (replicate hLen 0)) as [salt|e|]; [|done..]. specialize (Hfill salt eq_refl). cbn [mbind result_bind].
  rewrite pss_digest_spec by done. cbn [mbind result_bind]. set (data := replicate 8 0 ++ _ ++ _).
  change (digest_as_ref (digest_of alg data)) with (hash alg data). pose proof (hash_length alg data Halg) as HH.
  set (db := (emLen - hLen - 1)%nat). assert (length (take db em) = db) as Hdb by (rewrite length_take; lia).
  rewrite mgf1_spec by (rewrite ?HH, ?Hdb; lia). rewrite Hdb. cbn [mbind result_bind].
  assert (length (mgf alg (hash alg data) db) = db) as HM by (apply mgf_length; lia).
  destruct (xor_db_spec (emLen - 2 * hLen - 2) (mgf alg (hash alg data) db) salt) as (b & rest & -> & ->); [lia|].
  cbn [mbind result_bind]. fold (pss_db emLen salt). set (mdb := zip_with _ _ _).
  assert (∃ y l, mdb = y :: l) as (y & l & Hyl).
  { assert (length mdb = db) by (subst mdb; rewrite length_zip_with, HM, pss_db_length; lia). destruct mdb as [|y l]; [cbn in *; lia|by exists y, l]. }
  rewrite Hyl, and_first_spec, <-Hyl. cbn [mbind result_bind]. rewrite HH, Nat.eqb_refl. cbn [negb].
  assert (length (drop db em) = S hLen) as Hterm by (rewrite length_drop; lia).
  rewrite copy_at_ok by (rewrite HH; lia). cbn [mbind result_bind]. rewrite HH, take_0. cbn [Nat.add app].
  destruct (drop hLen (drop db em)) as [|t [|]] eqn:Ht; apply (f_equal length) in Ht; rewrite length_drop, Hterm in Ht; cbn in Ht; try lia.
  rewrite set_at_ok by (rewrite length_app, HH; cbn [length]; lia). cbn [mbind result_bind].
  rewrite insert_app_r_alt, HH, Nat.sub_diag by lia. done.
Qed.

(** *** Verification *)

Lemma all_bytes (P : Z → bool) : forallb P (Z.of_nat <$> seq 0 256) = true → ∀ x, 0 <= x < 2 ^ 8 → P x = true.
Proof.
  intros H x Hx. rewrite forallb_forall in H. apply H. apply list_elem_of_In. rewrite <-(Z2Nat.id x) by lia.
  apply list_elem_of_fmap_2. apply elem_of_seq. change (2 ^ 8) with 256 in Hx. lia.
Qed.

(** The bits above the mask are zero. *)
Lemma top_bits_zero z x : 0 <= z < 8 → 0 <= x < 2 ^ 8 → Z.land x (0xff - (2 ^ (8 - z) - 1)) = 0 ↔ x mod 2 ^ (8 - z) = x.
Proof.
  intros Hz Hx. assert (z = 0 ∨ z = 1 ∨ z = 2 ∨ z = 3 ∨ z = 4 ∨ z = 5 ∨ z = 6 ∨ z = 7) as Hc by lia. rewrite <-!Z.eqb_eq, <-eq_iff_eq_true.
  apply eqb_prop. revert x Hx. destruct Hc as [->|[->|[->|[->|[->|[->|[->| ->]]]]]]]; refine (all_bytes _ _); vm_compute; reflexivity.
Qed.

Lemma lxor_mod j a b : 0 <= j → Z.lxor a b mod 2 ^ j = Z.lxor (a mod 2 ^ j) (b mod 2 ^ j).
Proof.
  intros Hj. rewrite <-!Z.land_ones by done. apply Z.bits_inj'. intros n Hn. rewrite !Z.land_spec, !Z.lxor_spec, !Z.land_spec.
  by destruct (Z.testbit a n), (Z.testbit b n), (Z.testbit (Z.ones j) n).
Qed.

Lemma zip_lxor_swap a b c : length a = length b → length a = length c → b = zip_with Z.lxor a c ↔ zip_with Z.lxor a b = c.
Proof.
  revert b c. induction a as [|x a IH]; intros [|y b] [|z c] Hb Hc; try done. cbn in *. specialize (IH b c ltac:(lia) ltac:(lia)).
  split; intros [= H1 H2]; f_equal; try tauto; subst; rewrite <-?Z.lxor_assoc, ?Z.lxor_nilpotent, ?Z.lxor_0_l; done.
Qed.

(** Masked data is that of a salt when its top bits are zero and unmasking gives the data. *)
Lemma unmask_iff x mdb M salt : 0 <= x < 2 ^ 8 → length salt = hLen →
  length (x :: mdb) = (emLen - hLen - 1)%nat → length M = (emLen - hLen - 1)%nat →
  x :: mdb = clear_top zbits (zip_with Z.lxor M (pss_db emLen salt)) ↔
  Z.land x (0xff - (2 ^ (8 - zbits) - 1)) = 0 ∧ clear_top zbits (zip_with Z.lxor M (x :: mdb)) = pss_db emLen salt.
Proof.
  intros Hx Hs Hmdb HM. pose proof em_bounds as (He & Hz & _). pose proof (output_len_bounds alg Halg). rewrite top_bits_zero by done.
  pose proof (pss_db_length emLen salt) as Hdb. unfold pss_db in *. destruct (emLen - 2 * hLen - 2)%nat as [|ps] eqn:Hps; [lia|].
  cbn [replicate app] in *. set (db := replicate ps 0 ++ 1 :: salt) in *. destruct M as [|m M]; [cbn in HM; lia|]. cbn [zip_with clear_top].
  rewrite Z.lxor_0_r. cbn [length] in *. pose proof (zip_lxor_swap M mdb db ltac:(lia) ltac:(lia)) as Hsw.
  rewrite lxor_mod by lia. set (j := 8 - zbits) in *. split.
  - intros [= -> Hl]. apply Hsw in Hl. rewrite Z.mod_mod, Z.lxor_nilpotent, Hl by lia. done.
  - intros [Htop [= H0 Hl]]. apply Hsw in Hl. rewrite Htop in H0. apply Z.lxor_eq in H0. by rewrite <-H0, <-Hl.
Qed.

Lemma nth_seq (l : list Z) n : (n <= length l)%nat → (λ i, nth i l 0) <$> seq 0 n = take n l.
Proof.
  revert n. induction l as [|x l IH]; intros [|n] Hn; cbn [length] in Hn; try done; [lia|].
  cbn [seq fmap list_fmap take firstn]. cbn [nth]. f_equal. rewrite <-seq_shift. rewrite <-IH by lia.
  rewrite <-list_fmap_compose. done.
Qed.

Lemma zeros_iff (l : list Z) ps : (ps < length l)%nat →
  existsb (λ i, negb (nth i l 0 =? 0)) (seq 0 ps) = false ∧ nth ps l 0 = 1 ↔ l = replicate ps 0 ++ 1 :: drop (S ps) l.
Proof.
  intros Hps. destruct (split_at l ps) as (a & b & -> & Ha); [lia|]. rewrite length_app in Hps. destruct b as [|y b]; [cbn in *; lia|].
  rewrite app_nth2, Ha, Nat.sub_diag by lia. cbn [nth]. change (S ps) with (1 + ps)%nat. rewrite (Nat.add_comm 1 ps), <-drop_drop.
  rewrite drop_app_length' by done. cbn [drop skipn].
  assert (existsb (λ i, negb (nth i (a ++ y :: b) 0 =? 0)) (seq 0 ps) = existsb (λ x, negb (x =? 0)) a) as ->.
  { transitivity (existsb (λ x, negb (x =? 0)) ((λ i, nth i (a ++ y :: b) 0) <$> seq 0 ps)).
    - induction (seq 0 ps) as [|i l' IH]; [done|]. cbn [existsb fmap list_fmap]. by rewrite IH.
    - by rewrite nth_seq, take_app_length' by (rewrite ?length_app; cbn; lia). }
  rewrite <-not_true_iff_false, existsb_exists. split.
  - intros [Hz ->]. f_equal. symmetry. apply replicate_as_elem_of. split; [done|]. intros x Hx%list_elem_of_In. destruct (Z.eqb_spec x 0) as [|Hn]; [done|].
    exfalso. apply Hz. exists x. split; [done|]. by rewrite (proj2 (Z.eqb_neq x 0) Hn).
  - intros Heq. apply app_inj_1 in Heq as [-> [= ->]]; [|by rewrite length_replicate]. split; [|done].
    intros (x & Hx%list_elem_of_In%elem_of_replicate & Hn). destruct Hx as [-> _]. done.
Qed.

Context {LW : LimbWidth}.

Lemma zeros_slice_spec len : 0 <= len <= 1024 → zeros_slice len = Ok (replicate (Z.to_nat len) 0).
Proof.
  intros Hl. unfold zeros_slice, PUBLIC_KEY_PUBLIC_MODULUS_MAX_LEN. rewrite max_bytes. by rewrite (proj2 (Z.ltb_ge _ _)) by (cbn; lia).
Qed.

Lemma read_bytes_app (a b : list Z) n : length a = n → read_bytes n (a ++ b) = (b, Ok a).
Proof.
  intros <-. cbn [read_bytes list_untrusted]. rewrite decide_True by (rewrite length_app; lia).
  by rewrite drop_app_length, take_app_length.
Qed.

Lemma parser_bind {Reader E A B} (p : Parser Reader E A) (f : A → Parser Reader E B) r :
  (p ≫= f) r = match p r with (r', Ok a) => f a r' | (r', Err e) => (r', Err e) | (r', Panic) => (r', Panic) end.
Proof. done. Qed.

Lemma unmask_rest_spec M l : length l = length M → unmask_rest (Reader := list Z) M l = ([], Ok (zip_with Z.lxor M l)).
Proof.
  revert l. induction M as [|m M IH]; intros [|x l] Hl; try done. cbn [unmask_rest]. unfold mbind, Parser_bind. cbn [read_byte list_untrusted].
  rewrite IH by (cbn in Hl; lia). done.
Qed.

(** The rest of [pss_verify] when it has read [mdb], [H] and the last byte. *)
Lemma pss_verify_read d lead mdb H t : (length lead = k - emLen)%nat → (length mdb = emLen - hLen - 1)%nat → length H = hLen →
  read_all (lead ++ mdb ++ H ++ [t]) () (pss_verify (mkPSS alg) d mod_bits) =
  if bool_decide (lead = replicate (k - emLen) 0) && (t =? 0xbc) then
    db ← read_all mdb () (unmask (mkPSSMetrics emLen (emLen - hLen - 1) (emLen - 2 * hLen - 2) hLen hLen (2 ^ (8 - zbits) - 1)) (mgf alg H (emLen - hLen - 1)));
    db ← and_first db (2 ^ (8 - zbits) - 1);
    if existsb (λ i, negb (nth i db 0 =? 0)) (seq 0 (emLen - 2 * hLen - 2)) then Err () else
    if negb (nth (emLen - 2 * hLen - 2) db 0 =? 1) then Err () else
    h_prime ← pss_digest alg d (drop (length db - hLen) db);
    if bool_decide (H = digest_as_ref h_prime) then Ok () else Err ()
  else Err ().
Proof.
  intros Hlead Hmdb HH. pose proof em_bounds as (He & Hz & Hk). pose proof (output_len_bounds alg Halg) as Ho.
  cbn [read_all list_untrusted]. unfold pss_verify. cbn [pss_digest_alg]. rewrite parser_bind, metrics_spec. cbn [lift].
  set (metrics := mkPSSMetrics _ _ _ _ _ _). cbn [db_len ps_len s_len h_len top_byte_mask metrics]. rewrite mask_255.
  rewrite parser_bind. match goal with |- context [(if zbits =? 0 then ?a else ?b) ?c] => set (x := (if zbits =? 0 then a else b) c) end.
  assert (x = (mdb ++ H ++ [t], if bool_decide (lead = replicate (k - emLen) 0) then Ok () else Err ()) ∨
    ∃ r, x = (r, Err ()) ∧ lead ≠ replicate (k - emLen) 0) as Hx.
  { subst x. destruct (Z.eqb_spec zbits 0).
    - replace (k - emLen)%nat with 1%nat in * by lia. destruct lead as [|b [|]]; try done. cbn [replicate app].
      rewrite parser_bind. cbn [read_byte list_untrusted]. destruct (Z.eqb_spec b 0) as [->|Hb].
      + left. by rewrite bool_decide_true by done.
      + right. eexists. split; [done|]. congruence.
    - replace (k - emLen)%nat with 0%nat in * by lia. destruct lead; [|done]. left. by rewrite bool_decide_true by done. }
  destruct Hx as [->|(r & -> & Hne)]; [|by rewrite bool_decide_false].
  destruct (bool_decide _); [|done]. cbn [andb].
  do 2 rewrite parser_bind, read_bytes_app by done.
  rewrite parser_bind. cbn [read_byte list_untrusted]. destruct (t =? 188); [|done]. cbn [negb].
  rewrite parser_bind. cbn [lift]. rewrite zeros_slice_spec, Nat2Z.id by lia.
  rewrite parser_bind. cbn [lift]. rewrite mgf1_spec, length_replicate by (rewrite ?length_replicate; lia).
  rewrite parser_bind. cbn [lift read_all list_untrusted]. fold metrics.
  destruct (unmask metrics _ mdb) as [r' [db|[]|]]; [|done..]. destruct r'; [|done].
  rewrite parser_bind. cbn [lift mbind result_bind]. destruct (and_first db _) as [db'|[]|]; [|done..]. cbn [mbind result_bind].
  destruct (existsb _ _); [done|]. destruct (nth _ db' 0 =? 1); [|done]. cbn [negb].
  rewrite parser_bind. cbn [lift]. destruct (pss_digest alg d _) as [h|[]|]; [|done..]. cbn [mbind result_bind].
  by destruct (bool_decide _).
Qed.

Lemma lxor_byte a b : 0 <= a < 2 ^ 8 → 0 <= b < 2 ^ 8 → 0 <= Z.lxor a b < 2 ^ 8.
Proof.
  intros Ha Hb. rewrite <-(Z.mod_small a (2 ^ 8)), <-(Z.mod_small b (2 ^ 8)), <-lxor_mod by lia. apply Z.mod_pos_bound. lia.
Qed.

Lemma zip_lxor_ok a b : bytes_ok a → bytes_ok b → bytes_ok (zip_with Z.lxor a b).
Proof. intros Ha. revert b. induction Ha as [|x a Hx Ha IH]; intros b [|y b' Hy Hb]; constructor; [by apply lxor_byte|by apply IH]. Qed.

Lemma clear_top_ok z l : bytes_ok l → bytes_ok (clear_top z l).
Proof.
  intros [|x l' Hx Hl]; constructor; [|done]. unfold in_width in *. destruct (Z.le_gt_cases 0 (8 - z)) as [Hz|Hz].
  - pose proof (Z.mod_pos_bound x (2 ^ (8 - z)) ltac:(apply Z.pow_pos_nonneg; lia)). pose proof (Z.mod_le x (2 ^ (8 - z)) ltac:(lia) ltac:(apply Z.pow_pos_nonneg; lia)). lia.
  - rewrite Z.pow_neg_r, Z.mod_0_r by lia. done.
Qed.

Lemma clear_top_length z l : length (clear_top z l) = length l.
Proof. by destruct l. Qed.

(** The parts of an encoding. *)
Lemma emsa_pss_iff lead mdb H t m_hash salt :
  (length lead = k - emLen)%nat → (length mdb = emLen - hLen - 1)%nat → length H = hLen → length salt = hLen →
  lead ++ mdb ++ H ++ [t] = emsa_pss mod_bits m_hash salt ↔
  lead = replicate (k - emLen) 0 ∧ t = 0xbc ∧ H = hash alg (replicate 8 0 ++ m_hash ++ salt) ∧
  mdb = clear_top zbits (zip_with Z.lxor (mgf alg H (emLen - hLen - 1)) (pss_db emLen salt)).
Proof.
  intros Hlead Hmdb HH Hs. pose proof em_bounds as (He & _ & _). pose proof (output_len_bounds alg Halg) as Ho. unfold emsa_pss.
  set (H' := hash alg _). assert (length H' = hLen) as HH' by by apply hash_length. split.
  - intros Heq. apply app_inj_1 in Heq as [-> Heq]; [|by rewrite length_replicate].
    apply app_inj_1 in Heq as [Hm Heq]; [|rewrite clear_top_length, length_zip_with, mgf_length, pss_db_length, Hmdb by lia; lia].
    apply app_inj_1 in Heq as [-> [= ->]]; [|by rewrite HH']. done.
  - intros (-> & -> & -> & ->). done.
Qed.

(** The checks of the unmasked data. *)
Lemma pss_checks D H d : bytes_ok D → length D = (emLen - hLen - 1)%nat → length (digest_as_ref d) = hLen →
  match
    (if existsb (λ i, negb (nth i D 0 =? 0)) (seq 0 (emLen - 2 * hLen - 2)) then Err () else
     if negb (nth (emLen - 2 * hLen - 2) D 0 =? 1) then Err () else
     h_prime ← pss_digest alg d (drop (length D - hLen) D);
     if bool_decide (H = digest_as_ref h_prime) then Ok () else Err ())
  with
  | Ok _ => ∃ salt, bytes_ok salt ∧ length salt = hLen ∧ H = hash alg (replicate 8 0 ++ digest_as_ref d ++ salt) ∧ D = pss_db emLen salt
  | Err _ => ¬ ∃ salt, length salt = hLen ∧ H = hash alg (replicate 8 0 ++ digest_as_ref d ++ salt) ∧ D = pss_db emLen salt
  | Panic => False
  end.
Proof.
  intros HDok HD Hd. pose proof em_bounds as (He & _ & _). pose proof (output_len_bounds alg Halg) as Ho. unfold pss_db.
  set (ps := (emLen - 2 * hLen - 2)%nat) in *. pose proof (zeros_iff D ps ltac:(lia)) as Hzeros.
  assert (∀ salt, D = replicate ps 0 ++ 1 :: salt → salt = drop (S ps) D) as Hdb.
  { intros salt ->. change (1 :: salt) with ([1] ++ salt).
    rewrite (assoc_L (++)), drop_app_length'; [done|]. rewrite length_app, length_replicate. cbn. lia. }
  destruct (existsb _ _).
  { intros (salt & Hs & _ & Heq). pose proof Heq as Hsalt%Hdb. rewrite Hsalt in Heq. by apply Hzeros in Heq as [? _]. }
  destruct (Z.eqb_spec (nth ps D 0) 1) as [H1|H1]; cbn [negb].
  2:{ intros (salt & Hs & _ & Heq). pose proof Heq as Hsalt%Hdb. rewrite Hsalt in Heq. by apply Hzeros in Heq as [_ ?]. }
  replace (length D - hLen)%nat with (S ps) by lia. assert (length (drop (S ps) D) = hLen) as Hsalt by (rewrite length_drop; lia).
  rewrite pss_digest_spec by done. cbn [mbind result_bind].
  change (digest_as_ref (digest_of alg ?x)) with (hash alg x). case_bool_decide as Hhash.
  - exists (drop (S ps) D). split; [by apply Forall_drop|]. split; [done|]. split; [done|]. by apply Hzeros.
  - intros (salt & Hs & HH & ->%Hdb). done.
Qed.

Definition is_pss (m_hash m : list Z) : Prop :=
  ∃ salt, bytes_ok salt ∧ length salt = hLen ∧ m = emsa_pss mod_bits m_hash salt.

Lemma pss_verify_spec d m : length (digest_as_ref d) = hLen → bytes_ok m → length m = k →
  match read_all m () (pss_verify (mkPSS alg) d mod_bits) with
  | Ok _ => is_pss (digest_as_ref d) m
  | Err _ => ¬ is_pss (digest_as_ref d) m
  | Panic => False
  end.
Proof.
  intros Hd Hm Hlen. pose proof em_bounds as (He & Hz & Hk). pose proof (output_len_bounds alg Halg) as Ho. unfold is_pss.
  destruct (split_at m (k - emLen)) as (lead & m1 & -> & Hlead); [lia|]. rewrite length_app in Hlen.
  destruct (split_at m1 (emLen - hLen - 1)) as (mdb & m2 & -> & Hmdb); [destruct (zbits =? 0); lia|]. rewrite length_app in Hlen.
  destruct (split_at m2 hLen) as (H & m3 & -> & HH); [destruct (zbits =? 0); lia|]. rewrite length_app in Hlen.
  destruct m3 as [|t [|]]; [cbn in Hlen; destruct (zbits =? 0); lia| |cbn in Hlen; destruct (zbits =? 0); lia].
  apply Forall_app in Hm as [_ Hm]. apply Forall_app in Hm as [Hmok _]. rewrite pss_verify_read by done.
  pose proof (λ salt, emsa_pss_iff lead mdb H t (digest_as_ref d) salt Hlead Hmdb HH) as Hiff.
  destruct (decide (lead = replicate (k - emLen) 0)) as [Hl|Hl]; [rewrite bool_decide_true by done|rewrite bool_decide_false by done; intros (salt & _ & Hs & Heq); by apply Hiff in Heq as [? _]].
  destruct (Z.eqb_spec t 188) as [Ht|Ht]; [|intros (salt & _ & Hs & Heq); by apply Hiff in Heq as (_ & ? & _)]. cbn [andb].
  set (M := mgf alg H (emLen - hLen - 1)) in *. assert (length M = (emLen - hLen - 1)%nat) as HM by (apply mgf_length; lia).
  destruct mdb as [|x mdb]; [cbn in Hmdb; lia|]. apply Forall_cons in Hmok as [Hx Hmok].
  pose proof (λ salt Hs, unmask_iff x mdb M salt Hx Hs Hmdb HM) as Hun. assert (bytes_ok M) as HMok by apply mgf_ok. clearbody M.
  destruct M as [|m0 M]; [cbn in HM; lia|]. cbn [read_all list_untrusted].
  unfold unmask. rewrite parser_bind. cbn [read_byte list_untrusted top_byte_mask].
  destruct (Z.eqb_spec (Z.land x (255 - (2 ^ (8 - zbits) - 1))) 0) as [Htop|Htop]; cbn [negb].
  2:{ cbn [mbind result_bind]. intros (salt & _ & Hs & Heq). apply Hiff in Heq as (_ & _ & _ & Heq); [|done]. apply Hun in Heq as [? _]; done. }
  rewrite parser_bind, unmask_rest_spec by (cbn in *; lia). cbn [mret Parser_ret mbind result_bind]. rewrite and_first_spec.
  change (Z.lxor m0 x :: zip_with Z.lxor M mdb) with (zip_with Z.lxor (m0 :: M) (x :: mdb)). cbn [mbind result_bind].
  set (D := clear_top zbits _) in *. assert (bytes_ok D) as HDok by (apply clear_top_ok, zip_lxor_ok; [done|by constructor]).
  assert (length D = (emLen - hLen - 1)%nat) as HD by (subst D; rewrite clear_top_length, length_zip_with; lia).
  pose proof (pss_checks D H d HDok HD Hd) as Hc. destruct (if existsb _ _ then _ else _); [|intros (salt & Hsok & Hs & Heq)|done].
  - destruct Hc as (salt & Hsok & Hs & Hhash & HDs). exists salt. split; [done|]. split; [done|]. apply Hiff; [done|].
    split; [done|]. split; [done|]. split; [done|]. by apply Hun.
  - apply Hc. exists salt. apply Hiff in Heq as (_ & _ & Hhash & Heq); [|done]. by apply Hun in Heq as [_ Heq].
Qed.
End pss.
