(* ===== verification/RingRsaProofs.v ===== *)
(** * RSA verification is correct

    Which keys are accepted ([acceptable], [exponent_ok]), what is recovered from a signature
    ([recovered]: the power computed by Montgomery multiplication is the power modulo [n]), and from
    both what [rsa_verify] accepts: the signatures that [signs] describes by numbers alone. *)
From S2P Require Import Prelude Errors Frame Untrusted RingIo WebpkiSafe RingDigest RingLimb RingLimbProofs RingMont RingMontProofs RingBigint RingBigintProofs RingRsa RingPaddingProofs.

(** ** Bytes without leading zeros *)

Definition minimal (l : list Z) : bool := match l with x :: _ => negb (x =? 0) | [] => false end.

Lemma minimal_bounds l : bytes_ok l → minimal l = true →
  (0 < length l)%nat ∧ 256 ^ Z.of_nat (length l - 1) <= from_be_bytes l < 256 ^ Z.of_nat (length l).
Proof.
  intros Hl Hm. pose proof (from_be_bytes_bounds l Hl) as Hb. destruct l as [|x l]; [done|]. cbn [minimal] in Hm.
  apply Forall_cons in Hl as [Hx Hl]. unfold in_width in Hx. split; [cbn; lia|]. split; [|lia].
  change (x :: l) with ([x] ++ l). rewrite from_be_bytes_app. change (from_be_bytes [x]) with (256 * 0 + x).
  cbn [app length]. rewrite Nat.sub_succ, Nat.sub_0_r. pose proof (from_be_bytes_bounds l Hl). nia.
Qed.

Lemma pow256 k : 0 <= k → 256 ^ k = 2 ^ (8 * k).
Proof. intros Hk. by rewrite Z.pow_mul_r by lia. Qed.

Lemma minimal_bits l : bytes_ok l → minimal l = true →
  8 * Z.of_nat (length l - 1) <= Z.log2 (from_be_bytes l) < 8 * Z.of_nat (length l).
Proof.
  intros Hl Hm. destruct (minimal_bounds l Hl Hm) as (Hlen & Hlo & Hhi). rewrite !pow256 in * by lia.
  assert (0 < from_be_bytes l) by (pose proof (Z.pow_pos_nonneg 2 (8 * Z.of_nat (length l - 1))); lia).
  split; [by apply Z.log2_le_pow2; lia|by apply Z.log2_lt_pow2; lia].
Qed.

Lemma minimal_bytes l : bytes_ok l → minimal l = true →
  as_usize_bytes_rounded_up (Z.log2 (from_be_bytes l) + 1) = Z.of_nat (length l).
Proof.
  intros Hl Hm. pose proof (minimal_bits l Hl Hm). destruct (minimal_bounds l Hl Hm) as [Hlen _].
  rewrite rounded_up_spec by (pose proof (Z.log2_nonneg (from_be_bytes l)); lia).
  symmetry. apply (Z.div_unique_pos _ _ _ (Z.log2 (from_be_bytes l) + 8 - 8 * Z.of_nat (length l))); lia.
Qed.

(** A check of bytes by evaluation. *)
Definition bytes_okb (l : list Z) : bool := forallb (λ x, (0 <=? x) && (x <? 2 ^ 8)) l.

Lemma bytes_okb_ok l : bytes_okb l = true → bytes_ok l.
Proof.
  intros Hl. apply Forall_forall. intros x Hx%list_elem_of_In. unfold bytes_okb in Hl. rewrite forallb_forall in Hl. specialize (Hl x Hx).
  unfold in_width. lia.
Qed.

Section keys.
Context `{!LimbWidth}.

Lemma ceil_limbs (k : nat) : (0 < k)%nat →
  let num := ((k + LIMB_BYTES - 1) / LIMB_BYTES)%nat in (0 < num)%nat ∧ ((num - 1) * LIMB_BYTES < k <= num * LIMB_BYTES)%nat.
Proof.
  intros Hk num. destruct limb_bytes as [_ HL]. subst num. pose proof (Nat.div_mod_eq (k + LIMB_BYTES - 1) LIMB_BYTES).
  pose proof (Nat.mod_upper_bound (k + LIMB_BYTES - 1) LIMB_BYTES ltac:(lia)). set (q := ((k + LIMB_BYTES - 1) / LIMB_BYTES)%nat) in *.
  destruct q; [lia|]. split; nia.
Qed.

Lemma ceil_exact (k : nat) : (0 < k)%nat →
  (k =? (k + LIMB_BYTES - 1) / LIMB_BYTES * LIMB_BYTES)%nat = (k mod LIMB_BYTES =? 0)%nat.
Proof.
  intros Hk. destruct (ceil_limbs k Hk) as [Hn Hc]. destruct limb_bytes as [_ HL]. set (num := ((k + LIMB_BYTES - 1) / LIMB_BYTES)%nat) in *.
  destruct (Nat.eqb_spec (k mod LIMB_BYTES) 0) as [H0|H0].
  - apply Nat.eqb_eq. apply Nat.Div0.div_exact in H0. set (q := (k / LIMB_BYTES)%nat) in *. assert (q = num) by nia. lia.
  - apply Nat.eqb_neq. intros Heq. apply H0. rewrite Heq. by apply Nat.Div0.mod_mul.
Qed.

(** What [Modulus::from_be_bytes_with_bit_length] returns. *)
Record modulus_of (n : list Z) (m : Modulus) : Prop := {
  mf_ok : modulus_ok m;
  mf_val : val m.(m_limbs) = from_be_bytes n;
  mf_len : length m.(m_limbs) = ((length n + LIMB_BYTES - 1) / LIMB_BYTES)%nat
}.

Lemma from_be_bytes_with_bit_length_spec n : bytes_ok n →
  match from_be_bytes_with_bit_length (Reader := list Z) n with
  | Ok (m, bits) => minimal n = true ∧ Z.odd (from_be_bytes n) = true ∧ bits = Z.log2 (from_be_bytes n) + 1 ∧ modulus_of n m
  | Err _ => ¬ (minimal n = true ∧ (24 < length n)%nat ∧ (length n <= 1024)%nat ∧ Z.odd (from_be_bytes n) = true)
  | Panic => False
  end.
Proof.
  intros Hn. unfold from_be_bytes_with_bit_length, positive_minimal_width_from_be_bytes. cbn [peek reader_new list_untrusted].
  destruct n as [|x n']; [by intros [? _]|]. set (n := x :: n') in *. destruct (Z.eqb_spec x 0) as [Hx|Hx].
  { cbn [mbind result_bind]. intros [Hm _]. cbn in Hm. lia. }
  assert (minimal n = true) as Hm by (cbn; lia). destruct (minimal_bounds n Hn Hm) as (Hlen & Hlo & Hhi).
  set (num := ((length n + LIMB_BYTES - 1) / LIMB_BYTES)%nat). destruct (ceil_limbs (length n) Hlen) as [Hnum Hceil]. fold num in Hnum, Hceil.
  pose proof (parse_big_endian_spec n num Hn) as Hp.
  destruct (parse_big_endian_and_pad_consttime n num) as [ls|e|]; cbn [map_err mbind result_bind]; [|destruct Hp; [done|lia]|done].
  destruct Hp as (Hok & Hl & Hv & _ & _). pose proof max_bytes. pose proof (proj2 limb_bytes).
  assert (base ^ Z.of_nat (num - 1) <= from_be_bytes n) as Hlow.
  { rewrite base_pow_bytes. etransitivity; [|exact Hlo]. apply Z.pow_le_mono_r; lia. }
  pose proof (from_boxed_limbs_spec ls Hok) as Hf. rewrite Hv, Hl in Hf. specialize (Hf (λ _, Hlow)).
  destruct (from_boxed_limbs ls) as [[m bits]|e|]; cbn [mbind result_bind]; [| |done].
  - destruct Hf as (Hml & -> & Hmo). pose proof (pk_odd _ (mo_partial _ Hmo)) as Hodd. cbn in Hodd. rewrite Hml, Hv in Hodd.
    split; [done|]. split; [done|]. split; [done|]. split; [done|by rewrite Hml|by rewrite Hml].
  - intros (_ & H24 & H1024 & Hodd). apply Hf. split; [|done]. unfold MODULUS_MIN_LIMBS.
    assert (LIMB_BYTES <= 8)%nat by (unfold LIMB_BYTES; destruct limb_bits_cases as [-> | ->]; vm_compute; lia). split.
    + assert (num * LIMB_BYTES <= num * 8)%nat by nia. lia.
    + assert (num - 1 < MODULUS_MAX_LIMBS)%nat by (apply (Nat.mul_lt_mono_pos_r LIMB_BYTES); lia). lia.
Qed.

(** ** Public exponents *)

Lemma exponent_loop rounds v l : bytes_ok l → (0 < length l <= rounds)%nat → 0 <= v →
  v * 256 ^ Z.of_nat (length l) + 256 ^ Z.of_nat (length l) <= 2 ^ 64 →
  loop rounds (exponent_round (Reader := list Z)) v l = ([], Ok (v * 256 ^ Z.of_nat (length l) + from_be_bytes l)).
Proof.
  revert rounds v. induction l as [|b l IH]; intros [|rounds] v Hl Hr Hv Hb; cbn [length] in *; try lia.
  apply Forall_cons in Hl as [Hb0 Hl]. unfold in_width in Hb0. change (2 ^ 8) with 256 in Hb0.
  rewrite Nat2Z.inj_succ, Z.pow_succ_r in * by lia. pose proof (Z.pow_pos_nonneg 256 (Z.of_nat (length l))) as Hpos.
  rewrite loop_S. unfold exponent_round, pmap_err, asks, mbind, Parser_bind, mret, Parser_ret. cbn [read_byte list_untrusted map_err at_end].
  rewrite Z.shiftl_mul_pow2 by lia. change (2 ^ 8) with 256. rewrite Z.mod_small by nia.
  change (v * 256) with (v * 2 ^ 8). rewrite lor_low by (cbn; lia). change (2 ^ 8) with 256.
  change (from_be_bytes (b :: l)) with (from_be_bytes ([b] ++ l)). rewrite from_be_bytes_app.
  change (from_be_bytes [b]) with (256 * 0 + b).
  destruct l as [|c l]; [cbn; do 2 f_equal; lia|]. set (l' := c :: l) in *.
  change (loop rounds (exponent_round (Reader := list Z)) (v * 256 + b) l' = ([], Ok (v * (256 * 256 ^ Z.of_nat (length l')) + ((256 * 0 + b) * 256 ^ Z.of_nat (length l') + from_be_bytes l')))).
  rewrite IH; [|done|subst l'; cbn in *; lia|lia|nia]. do 2 f_equal. lia.
Qed.

Definition exponent_ok (e_min : Z) (e : list Z) : bool :=
  minimal e && Z.odd (from_be_bytes e) && (e_min <=? from_be_bytes e) && (from_be_bytes e <=? 2 ^ 33 - 1).

Lemma public_exponent_spec e e_min : bytes_ok e → 3 <= e_min →
  public_exponent_from_be_bytes (Reader := list Z) e e_min =
    if exponent_ok e_min e then Ok (from_be_bytes e)
    else Err (if (5 <? length e)%nat then TooLarge else if negb (minimal e) then InvalidEncoding
              else if negb (Z.odd (from_be_bytes e)) then InvalidComponent
              else if from_be_bytes e <? e_min then TooSmall else TooLarge).
Proof.
  intros He Hmin. unfold public_exponent_from_be_bytes, exponent_ok.
  destruct (Nat.ltb_spec 5 (length e)) as [H5|H5].
  { destruct (minimal e) eqn:Hm; [|done]. destruct (minimal_bounds e He Hm) as (_ & Hlo & _).
    assert (256 ^ 5 <= 256 ^ Z.of_nat (length e - 1)) by (apply Z.pow_le_mono_r; lia). change (256 ^ 5) with (2 ^ 40) in *.
    rewrite (proj2 (Z.leb_gt (from_be_bytes e) (2 ^ 33 - 1))) by lia. by rewrite andb_false_r. }
  cbn [read_all list_untrusted]. unfold asks, mbind at 1 2, Parser_bind. cbn [peek list_untrusted].
  destruct e as [|x e']; [done|]. set (e := x :: e') in *. cbn [minimal].
  destruct (Z.eqb_spec x 0) as [Hx|Hx]; [by subst e; cbn; rewrite (proj2 (Z.eqb_eq x 0) Hx)|].
  assert (minimal e = true) as Hm by (cbn; lia). rewrite Hm.
  rewrite exponent_loop; [|done|subst e; cbn; lia|lia|].
  2:{ assert (256 ^ Z.of_nat (length e) <= 256 ^ 5) by (apply Z.pow_le_mono_r; lia). change (256 ^ 5) with (2 ^ 40) in *. lia. }
  cbn [mbind result_bind]. replace (0 * 256 ^ Z.of_nat (length e) + from_be_bytes e) with (from_be_bytes e) by lia.
  set (v := from_be_bytes e). change PUBLIC_EXPONENT_MAX_VALUE with (2 ^ 33 - 1). cbn [andb negb].
  rewrite land_1.
  rewrite (proj2 (Z.ltb_ge e_min 3)) by lia. rewrite (Z.ltb_antisym e_min v), (Z.ltb_antisym v).
  destruct (Z.odd v), (Z.leb_spec e_min v), (Z.leb_spec v (2 ^ 33 - 1)); done.
Qed.

(** ** Keys *)

Definition acceptable (n_min_bits n_max_bits e_min : Z) (n e : list Z) : bool :=
  minimal n && Z.odd (from_be_bytes n) && (n_min_bits <=? 8 * Z.of_nat (length n)) &&
  (Z.log2 (from_be_bytes n) + 1 <=? n_max_bits) && exponent_ok e_min e.

Lemma from_modulus_and_exponent_spec n e n_min_bits n_max_bits e_min :
  bytes_ok n → bytes_ok e → N_MIN_BITS <= n_min_bits → n_max_bits <= 8192 → 3 <= e_min →
  match from_modulus_and_exponent (Reader := list Z) n e n_min_bits n_max_bits e_min with
  | Ok key => acceptable n_min_bits n_max_bits e_min n e = true ∧ modulus_of n key.(k_n) ∧ key.(k_e) = from_be_bytes e ∧
      key.(k_n_bits) = Z.log2 (from_be_bytes n) + 1
  | Err _ => acceptable n_min_bits n_max_bits e_min n e = false
  | Panic => False
  end.
Proof.
  intros Hn He Hmin Hmax Hemin. unfold from_modulus_and_exponent, acceptable. unfold N_MIN_BITS in *.
  pose proof (from_be_bytes_with_bit_length_spec n Hn) as Hf.
  destruct (from_be_bytes_with_bit_length n) as [[m bits]|err|]; cbn [mbind result_bind]; [|clear He|done].
  2:{ destruct (minimal n) eqn:Hm; [|done]. pose proof (minimal_bits n Hn Hm).
      destruct (Z.odd (from_be_bytes n)), (Z.leb_spec n_min_bits (8 * Z.of_nat (length n))), (Z.leb_spec (Z.log2 (from_be_bytes n) + 1) n_max_bits); try done.
      exfalso. apply Hf. split; [done|]. split; [lia|]. split; [lia|done]. }
  destruct Hf as (Hm & -> & -> & Hmo). rewrite Hm. cbn [andb]. rewrite (proj2 (Z.ltb_ge n_min_bits 2048)) by lia.
  rewrite minimal_bytes by done. pose proof (mo_len _ (mf_ok _ _ Hmo)) as Hl. pose proof (mf_len _ _ Hmo) as Hl'.
  destruct (minimal_bounds n Hn Hm) as (Hlen & _). destruct (ceil_limbs (length n) Hlen) as [_ Hceil]. rewrite <-Hl' in Hceil.
  pose proof max_bytes. assert (length n <= 1024)%nat by nia.
  unfold from_usize_bytes. destruct (checked_mul LIMB_BITS (Z.of_nat (length n)) 8) as [bits|] eqn:Hc; [|exfalso].
  2:{ apply checked_mul_None in Hc. assert (2 ^ 32 <= 2 ^ LIMB_BITS) by (destruct limb_bits_cases as [-> | ->]; lia). lia. }
  apply checked_mul_Some in Hc as [-> _]. cbn [some_or map_err mbind result_bind].
  rewrite (Z.ltb_antisym n_min_bits), (Z.ltb_antisym _ n_max_bits), (Z.mul_comm _ 8).
  destruct (n_min_bits <=? 8 * Z.of_nat (length n)); [|done].
  destruct (Z.log2 (from_be_bytes n) + 1 <=? n_max_bits); [|done]. cbn [negb andb].
  rewrite public_exponent_spec by done. destruct (exponent_ok e_min e); cbn [mbind result_bind]; done.
Qed.

(** ** Signatures as elements *)

Lemma from_be_bytes_padded_less_than_spec n m sig : modulus_of n m → bytes_ok sig → length sig = length n → (0 < length n)%nat →
  if from_be_bytes sig <? from_be_bytes n then
    ∃ s, elem_from_be_bytes_padded (Reader := list Z) sig m = Ok s ∧ reduced (as_partial m) s ∧ val s = from_be_bytes sig
  else elem_from_be_bytes_padded (Reader := list Z) sig m = Err ().
Proof.
  intros Hm Hs Hlen H0. unfold elem_from_be_bytes_padded, from_be_bytes_padded_less_than.
  pose proof (mf_len _ _ Hm) as Hl. pose proof (mf_val _ _ Hm) as Hv. pose proof (mo_partial _ (mf_ok _ _ Hm)) as Hp.
  destruct (ceil_limbs (length n) H0) as [_ Hc]. rewrite <-Hl in Hc.
  pose proof (parse_big_endian_spec sig (length m.(m_limbs)) Hs) as Hparse.
  destruct (parse_big_endian_and_pad_consttime sig _) as [r|[]|]; [|destruct Hparse as [->|]; cbn in *; lia|done].
  destruct Hparse as (Hok & Hrl & Hrv & _ & _). cbn [mbind result_bind]. unfold limbs_less_than_limbs_consttime.
  rewrite Hrl, Nat.eqb_refl. cbn [mbind result_bind].
  rewrite LIMBS_less_than_spec, mask_True, Hrv, Hv by (done || apply (pk_limbs _ Hp)).
  destruct (Z.ltb_spec (from_be_bytes sig) (from_be_bytes n)); [|done]. exists r. split; [done|]. split; [|done].
  split; [done|done|]. cbn. rewrite Hrv, Hv. pose proof (from_be_bytes_bounds sig Hs). lia.
Qed.

Lemma elem_is_zero_spec s : limbs_ok s → elem_is_zero s = (val s =? 0).
Proof. intros Hs. unfold elem_is_zero. by rewrite LIMBS_are_zero_spec, mask_True. Qed.

(** ** Encoded messages *)

(** The digest algorithms of the paddings of the crate. *)
Definition known_paddings : list Padding :=
  [PaddingPKCS1 RSA_PKCS1_SHA1_FOR_LEGACY_USE_ONLY; PaddingPKCS1 RSA_PKCS1_SHA256; PaddingPKCS1 RSA_PKCS1_SHA384; PaddingPKCS1 RSA_PKCS1_SHA512;
   PaddingPSS RSA_PSS_SHA256; PaddingPSS RSA_PSS_SHA384; PaddingPSS RSA_PSS_SHA512].

(** [em] is an encoding of the digest [m_hash] for a modulus of [mod_bits] bits. *)
Definition encoding_of (padding : Padding) (mod_bits : Z) (m_hash em : list Z) : Prop :=
  match padding with
  | PaddingPKCS1 pkcs1 => em = emsa_pkcs1 pkcs1.(digestinfo_prefix) m_hash (length em)
  | PaddingPSS pss => is_pss pss.(pss_digest_alg) mod_bits m_hash em
  end.

Lemma known_alg padding : In padding known_paddings → In (digest_alg padding) digest_algorithms.
Proof. intros Hk. repeat (destruct Hk as [<-|Hk]; [cbn; tauto|]). done. Qed.

Lemma known_prefix pkcs1 : In (PaddingPKCS1 pkcs1) known_paddings →
  (length pkcs1.(digestinfo_prefix) + pkcs1.(pkcs1_digest_alg).(output_len) <= 83)%nat.
Proof. intros Hk. repeat (destruct Hk as [[= <-]|Hk]; [cbn; lia|]). repeat (destruct Hk as [[=]|Hk]). done. Qed.

Lemma padding_verify_spec padding mod_bits m_hash em :
  In padding known_paddings → 2041 <= mod_bits <= 8192 → bytes_ok em → Z.of_nat (length em) = (mod_bits + 7) / 8 →
  length (digest_as_ref m_hash) = (digest_alg padding).(output_len) →
  match read_all em () (padding_verify (Reader := list Z) padding m_hash mod_bits) with
  | Ok _ => encoding_of padding mod_bits (digest_as_ref m_hash) em
  | Err _ => ¬ encoding_of padding mod_bits (digest_as_ref m_hash) em
  | Panic => False
  end.
Proof.
  intros Hk Hb Hem Hlen Hd. pose proof (known_alg padding Hk) as Halg. destruct padding as [pkcs1|[alg]]; cbn [padding_verify encoding_of digest_alg] in *.
  - pose proof (known_prefix pkcs1 Hk). assert (256 <= (mod_bits + 7) / 8 <= 1024) by (Z.to_euclidean_division_equations; lia).
    cbn [read_all list_untrusted]. unfold pkcs1_verify. rewrite rounded_up_spec, parser_bind by lia. cbn [lift]. rewrite <-Hlen.
    rewrite zeros_slice_spec, Nat2Z.id, parser_bind by lia. cbn [lift].
    rewrite pkcs1_encode_spec, length_replicate, (proj2 (Nat.ltb_ge _ _)) by (done || lia). rewrite parser_bind. cbn [total read_bytes_to_end list_untrusted].
    case_bool_decide; done.
  - apply (pss_verify_spec alg Halg mod_bits Hb m_hash em); [done|done|lia].
Qed.
End keys.

(** ** Every lawful reader *)

Section transport.
Context {LW : LimbWidth} {Reader : Type} `{!Untrusted Reader} `{!UntrustedLaws Reader}.

Lemma sim_read_limb n limb : sim (read_limb (Reader := Reader) n limb) (read_limb n limb).
Proof. revert limb. induction n as [|n IH]; intros limb; cbn [read_limb]; sim. Qed.
#[local] Hint Resolve sim_read_limb : sim.

Lemma sim_read_limbs n b r : sim (read_limbs (Reader := Reader) n b r) (read_limbs n b r).
Proof. revert b r. induction n as [|n IH]; intros b r; cbn [read_limbs]; sim. Qed.
#[local] Hint Resolve sim_read_limbs : sim.

Lemma parse_big_endian_transport i len :
  parse_big_endian_and_pad_consttime (Reader := Reader) i len = parse_big_endian_and_pad_consttime (Reader := list Z) i len.
Proof. unfold parse_big_endian_and_pad_consttime. by rewrite (read_all_sim _ _ _ _ (sim_read_limbs _ _ _)). Qed.

Lemma padded_less_than_transport i m :
  from_be_bytes_padded_less_than (Reader := Reader) i m = from_be_bytes_padded_less_than (Reader := list Z) i m.
Proof. unfold from_be_bytes_padded_less_than. by rewrite parse_big_endian_transport. Qed.

Lemma from_be_bytes_with_bit_length_transport i :
  from_be_bytes_with_bit_length (Reader := Reader) i = from_be_bytes_with_bit_length (Reader := list Z) i.
Proof.
  unfold from_be_bytes_with_bit_length, positive_minimal_width_from_be_bytes. rewrite parse_big_endian_transport.
  rewrite peek_remaining, remaining_new. done.
Qed.

Lemma public_exponent_transport i e_min :
  public_exponent_from_be_bytes (Reader := Reader) i e_min = public_exponent_from_be_bytes (Reader := list Z) i e_min.
Proof.
  unfold public_exponent_from_be_bytes. case_match; [done|]. f_equal. apply read_all_sim. unfold exponent_round. sim.
Qed.

Lemma from_modulus_and_exponent_transport n e a b c :
  from_modulus_and_exponent (Reader := Reader) n e a b c = from_modulus_and_exponent (Reader := list Z) n e a b c.
Proof.
  unfold from_modulus_and_exponent. rewrite from_be_bytes_with_bit_length_transport, public_exponent_transport. done.
Qed.

Lemma sim_unmask_rest db : sim (unmask_rest (Reader := Reader) db) (unmask_rest db).
Proof. induction db as [|d db IH]; cbn [unmask_rest]; sim. Qed.
#[local] Hint Resolve sim_unmask_rest : sim.

Lemma sim_padding_verify p h b : sim (padding_verify (Reader := Reader) p h b) (padding_verify p h b).
Proof.
  destruct p as [pkcs1|pss]; cbn [padding_verify]; [unfold pkcs1_verify; sim|]. unfold pss_verify, unmask. sim.
Qed.

Lemma verify_rsa_transport params n e msg sig :
  verify_rsa_ (Reader := Reader) params n e msg sig = verify_rsa_ (Reader := list Z) params n e msg sig.
Proof.
  unfold verify_rsa_. destruct (from_usize_bytes _) as [max| |]; [|done..]. cbn [mbind result_bind].
  rewrite from_modulus_and_exponent_transport.
  destruct (unspecified _) as [[n' e' n_bits]| |]; [|done..]. cbn [mbind result_bind]. case_match; [done|].
  unfold elem_from_be_bytes_padded. rewrite padded_less_than_transport.
  destruct (from_be_bytes_padded_less_than _ _) as [s| |]; [|done..]. cbn [mbind result_bind]. case_match; [done|].
  destruct (elem_exp_vartime _ _ _) as [m| |]; [|done..]. cbn [mbind result_bind].
  destruct (into_unencoded _ _) as [m'| |]; [|done..]. cbn [mbind result_bind].
  destruct (zeros_slice _) as [z| |]; [|done..]. cbn [mbind result_bind].
  destruct (fill_be_bytes _ _) as [em| |]; [|done..]. cbn [mbind result_bind].
  destruct (digest _ _) as [h| |]; [|done..]. cbn [mbind result_bind]. apply read_all_sim, sim_padding_verify.
Qed.

Lemma rsa_verify_transport params key msg sig :
  rsa_verify (Reader := Reader) params key msg sig = rsa_verify (Reader := list Z) params key msg sig.
Proof.
  unfold rsa_verify. rewrite parse_public_key_transport. destruct (parse_public_key _) as [[n e]| |]; [|done..].
  cbn [mbind result_bind]. apply verify_rsa_transport.
Qed.
End transport.

(** ** Verification *)

Section verify.
Context {LW : LimbWidth} {Reader : Type} `{!Untrusted Reader} `{!UntrustedLaws Reader}.

(** The key is acceptable and the signature a nonzero number below the modulus, with as many bytes. *)
Definition in_range (params : RsaParameters) (n e sig : list Z) : bool :=
  acceptable params.(min_bits) 8192 3 n e && (length sig =? length n)%nat &&
  (0 <? from_be_bytes sig) && (from_be_bytes sig <? from_be_bytes n).

(** [RSAVP1] and [I2OSP] of RFC 8017 *)
Definition recovered (n e sig : list Z) : list Z :=
  to_be_bytes (length n) ((from_be_bytes sig ^ from_be_bytes e) mod from_be_bytes n).

Lemma max_bits : from_usize_bytes (Z.of_nat PUBLIC_KEY_PUBLIC_MODULUS_MAX_LEN) = Ok 8192.
Proof. unfold from_usize_bytes, PUBLIC_KEY_PUBLIC_MODULUS_MAX_LEN. rewrite max_bytes. by destruct limb_bits_cases as [-> | ->]. Qed.

Lemma verify_rsa_list params n e msg sig :
  In params.(padding_alg) known_paddings → 2048 <= params.(min_bits) → bytes_ok n → bytes_ok e → bytes_ok sig →
  8 * Z.of_nat (length msg) < 2 ^ 64 →
  if in_range params n e sig then
    if (length n mod LIMB_BYTES =? 0)%nat then
      match verify_rsa_ (Reader := list Z) params n e msg sig with
      | Ok _ => encoding_of params.(padding_alg) (Z.log2 (from_be_bytes n) + 1) (hash (digest_alg params.(padding_alg)) msg) (recovered n e sig)
      | Err _ => ¬ encoding_of params.(padding_alg) (Z.log2 (from_be_bytes n) + 1) (hash (digest_alg params.(padding_alg)) msg) (recovered n e sig)
      | Panic => False
      end
    else verify_rsa_ (Reader := list Z) params n e msg sig = Panic
  else verify_rsa_ (Reader := list Z) params n e msg sig = Err ().
Proof.
  intros Hpad Hmin Hn He Hs Hmsg. unfold in_range, verify_rsa_. rewrite max_bits. cbn [mbind result_bind].
  pose proof (from_modulus_and_exponent_spec n e params.(min_bits) 8192 3 Hn He ltac:(done) ltac:(lia) ltac:(lia)) as Hkey.
  destruct (from_modulus_and_exponent n e _ _ _) as [[m ev bits]|err|]; cbn [unspecified map_err mbind result_bind k_n k_e k_n_bits] in *; [|by rewrite Hkey|done].
  destruct Hkey as (Hacc & Hm & -> & ->). rewrite Hacc. unfold acceptable, exponent_ok in Hacc. rewrite !andb_true_iff in Hacc.
  destruct Hacc as ((((Hmn & Hodd) & Hb1) & Hb2) & ((Hme & Heodd) & He1) & He2).
  pose proof (minimal_bits n Hn Hmn) as Hlog. destruct (minimal_bounds n Hn Hmn) as [Hn0 [Hnpos _]].
  rewrite minimal_bytes by done.
  destruct (Nat.eqb_spec (length sig) (length n)) as [Hlen|Hlen]; [rewrite Hlen, Z.eqb_refl|by rewrite (proj2 (Z.eqb_neq _ _)) by lia].
  cbn [negb andb].
  pose proof (from_be_bytes_padded_less_than_spec n m sig Hm Hs ltac:(done) Hn0) as Hel. pose proof (from_be_bytes_bounds sig Hs) as Hsb.
  destruct (Z.ltb_spec (from_be_bytes sig) (from_be_bytes n)) as [Hlt|Hge]; [|by rewrite Hel, andb_false_r].
  destruct Hel as (s & -> & Hred & Hsv). cbn [mbind result_bind]. rewrite elem_is_zero_spec, Hsv, andb_true_r by apply Hred.
  destruct (Z.eqb_spec (from_be_bytes sig) 0) as [->|Hs0]; [done|]. rewrite (proj2 (Z.ltb_lt 0 _)) by lia.
  destruct (exp_vartime_spec m (mf_ok _ _ Hm) s (from_be_bytes e) Hred) as (b & r & -> & Hb & Hr & Hrv).
  { change PUBLIC_EXPONENT_MAX_VALUE with (2 ^ 33 - 1). lia. }
  cbn [mbind result_bind]. rewrite Hb. cbn [mbind result_bind]. rewrite zeros_slice_spec, Nat2Z.id by lia. cbn [mbind result_bind].
  unfold fill_be_bytes. rewrite big_endian_from_limbs_spec, length_replicate by apply Hr. rewrite Hrv, Hsv, (mf_val _ _ Hm), (rd_length _ _ Hr).
  cbn [p_limbs as_partial]. rewrite (mf_len _ _ Hm), (ceil_exact (length n) Hn0).
  destruct (length n mod LIMB_BYTES =? 0)%nat; [|done]. cbn [mbind result_bind]. fold (recovered n e sig).
  pose proof (known_alg _ Hpad) as Halg. change (digest ?a msg) with (feed (context_new a) [msg]).
  rewrite feed_new by (try done; cbn [concat]; by rewrite app_nil_r). cbn [mbind result_bind concat]. rewrite app_nil_r.
  apply (padding_verify_spec _ _ (digest_of _ msg)); [done| | | |by apply hash_length].
  - pose proof (Z.log2_nonneg (from_be_bytes n)). lia.
  - apply to_be_bytes_ok.
  - unfold recovered. rewrite length_to_be_bytes, <-(minimal_bytes n), rounded_up_spec by (done || lia). done.
Qed.

Lemma parse_public_key_returns key : returns (parse_public_key (Reader := list Z) key).
Proof. unfold parse_public_key. safe. Qed.

(** The algorithms of [verification.rs]. *)
Definition rsa_parameters : list RsaParameters :=
  [RSA_PKCS1_2048_8192_SHA1_FOR_LEGACY_USE_ONLY; RSA_PKCS1_2048_8192_SHA256; RSA_PKCS1_2048_8192_SHA384; RSA_PKCS1_2048_8192_SHA512;
   RSA_PKCS1_3072_8192_SHA384; RSA_PSS_2048_8192_SHA256; RSA_PSS_2048_8192_SHA384; RSA_PSS_2048_8192_SHA512].

Lemma rsa_parameters_ok params : In params rsa_parameters → In params.(padding_alg) known_paddings ∧ 2048 <= params.(min_bits).
Proof. intros Hp. repeat (destruct Hp as [<-|Hp]; [split; [cbn; tauto|cbn; lia]|]). done. Qed.

(** The signature decodes to an encoding of the digest of the message. *)
Definition signs (params : RsaParameters) (n e msg sig : list Z) : Prop :=
  encoding_of params.(padding_alg) (Z.log2 (from_be_bytes n) + 1) (hash (digest_alg params.(padding_alg)) msg) (recovered n e sig).

Lemma parsed_iff (n e : Positive) (P : Positive → Positive → Prop) :
  (∃ n' e', Ok (E := unit) (n, e) = Ok (n', e') ∧ P n' e') ↔ P n e.
Proof. split; [by intros (? & ? & [= <- <-] & ?)|by exists n, e]. Qed.

Abbreviation num_bytes := big_endian_without_leading_zero.

Lemma rsa_verify_correct params key msg sig :
  In params rsa_parameters → bytes_ok key → bytes_ok sig → 8 * Z.of_nat (length msg) < 2 ^ 64 →
  (rsa_verify (Reader := Reader) params key msg sig = Ok () ↔
     ∃ n e, parse_public_key (Reader := Reader) key = Ok (n, e) ∧ in_range params (num_bytes n) (num_bytes e) sig = true ∧
       (length (num_bytes n) mod LIMB_BYTES = 0)%nat ∧ signs params (num_bytes n) (num_bytes e) msg sig) ∧
  (rsa_verify (Reader := Reader) params key msg sig = Panic ↔
     ∃ n e, parse_public_key (Reader := Reader) key = Ok (n, e) ∧ in_range params (num_bytes n) (num_bytes e) sig = true ∧
       (length (num_bytes n) mod LIMB_BYTES ≠ 0)%nat).
Proof.
  intros [Hpad Hmin]%rsa_parameters_ok Hkey Hs Hmsg. rewrite rsa_verify_transport, parse_public_key_transport. unfold rsa_verify.
  pose proof (parse_public_key_returns key) as Hret.
  destruct (parse_public_key key) as [[n e]|err|] eqn:Hparse;
    cbn [mbind result_bind]; [|split; (split; [done|]); by intros (? & ? & ? & _)|done].
  apply parse_public_key_decode in Hparse as (_ & [Hn _] & [He _] & _); [|done].
  pose proof (verify_rsa_list params (num_bytes n) (num_bytes e) msg sig Hpad Hmin Hn He Hs Hmsg) as Hv. unfold signs.
  rewrite !parsed_iff. destruct (in_range params (num_bytes n) (num_bytes e) sig) eqn:Hr; [|rewrite Hv; split; split; (done || by intros [? _])].
  destruct (Nat.eqb_spec (length (num_bytes n) mod LIMB_BYTES) 0) as [Hl|Hl]; [|rewrite Hv; split; split; (done || by intros (_ & ? & _))].
  destruct (verify_rsa_ _ _ _ _ _) as [[]|[]|]; [| |done]; split; split; intros; destruct_and?; done.
Qed.

(** C8 A signature is accepted exactly when it is an RSA signature of RFC 8017: the key parses, its
    modulus is odd and its size between the minimum of the algorithm and 8192 bits, its exponent is odd and
    between 3 and [2^33 - 1]; the signature has as many bytes as the modulus and is a nonzero number [s]
    below it; the bytes of the modulus are whole limbs; and [s ^ e mod n] is the PKCS#1 1.5 encoding of
    the digest of the message, or a PSS encoding of it for some salt.  When everything but
    the last two holds and the length of the modulus is not a multiple of the size of a limb, the
    verification panics; in all other cases it returns an error. *)
Theorem rsa_verify_iff params key msg sig :
  In params rsa_parameters → bytes_ok key → bytes_ok sig → 8 * Z.of_nat (length msg) < 2 ^ 64 →
  (rsa_verify (Reader := Reader) params key msg sig = Ok () ↔
     ∃ n e, parse_public_key (Reader := Reader) key = Ok (n, e) ∧ in_range params (num_bytes n) (num_bytes e) sig = true ∧
       (length (num_bytes n) mod LIMB_BYTES = 0)%nat ∧ signs params (num_bytes n) (num_bytes e) msg sig) ∧
  (rsa_verify (Reader := Reader) params key msg sig = Panic ↔
     ∃ n e, parse_public_key (Reader := Reader) key = Ok (n, e) ∧ in_range params (num_bytes n) (num_bytes e) sig = true ∧
       (length (num_bytes n) mod LIMB_BYTES ≠ 0)%nat).
Proof. apply rsa_verify_correct. Qed.
End verify.

(** A signature of the empty message.  It is a cube root of the encoded message in the integers, and the
    modulus is the difference of its cube and the encoded message, so checking it is quick. *)
Definition test_key : list Z :=
  [0x30; 0x82; 0x01; 0x08; 0x02; 0x82; 0x01; 0x01; 0x00; 0x80] ++
  replicate 84 0 ++
  [0x1e; 0xe0; 0xed; 0xae; 0x19; 0x1a; 0x72; 0x11; 0x7f; 0xa9; 0x7a; 0x6e; 0x37; 0x7a; 0x5d; 0x50; 0xb0; 0xef; 0x13;
   0x9a; 0xd8; 0x88; 0x6a; 0xc7; 0x12; 0xd9; 0x31; 0xee; 0xa5; 0x22; 0xb2; 0xc8; 0x22; 0xa1; 0x36; 0x18; 0x1c; 0x26;
   0x3d; 0x10; 0xc7; 0xdd; 0x0a; 0xd6; 0x9b; 0xd2; 0xca; 0xd1; 0x90; 0x91; 0x21; 0x25; 0x71; 0x75; 0x74; 0xc4; 0xda;
   0x0b; 0xfb; 0x62; 0x3d; 0xef; 0x04; 0x4b; 0xda; 0x56; 0x5f; 0xf0; 0x05; 0xa7; 0x40; 0x24; 0x03; 0x80; 0xaf; 0x5e;
   0xd9; 0xda; 0x60; 0x25; 0xe1; 0xe1; 0x49; 0xdf; 0xac; 0xe3; 0x16; 0x7a; 0x3a; 0x9a; 0x4f; 0x71; 0x21; 0x8e; 0xe1;
   0x87; 0x35; 0xbe; 0xb1; 0x11; 0x03; 0x5c; 0x67; 0xf8; 0x3e; 0xfe; 0xc2; 0x96; 0x15; 0x00; 0xc3; 0x93; 0x3e; 0xc1;
   0x9c; 0xc7; 0xaf; 0xbf; 0x90; 0xe0; 0xe8; 0x0f; 0x76; 0x2e; 0x0f; 0x28; 0xc9; 0x95; 0x00; 0x1a; 0x23; 0x16; 0x4b;
   0x72; 0x49; 0x24; 0x1c; 0xe9; 0xac; 0x30; 0x51; 0x86; 0x2a; 0x76; 0x4b; 0xc6; 0xa1; 0x8b; 0xa7; 0xa5; 0x73; 0xb8;
   0x1c; 0x02; 0xaa; 0x9c; 0xb5; 0x1e; 0x0b; 0xe1; 0x73; 0x5b; 0x2c; 0x39; 0x8b; 0xf5; 0xfb; 0xd6; 0x11; 0x15; 0xab;
   0x02; 0x01; 0x03].
Definition test_signature : list Z :=
  replicate 170 0 ++
  [0x05; 0x0a; 0x2f; 0x76; 0x90; 0xba; 0x48; 0x03; 0x30; 0x1e; 0x93; 0xaf; 0x27; 0x83; 0x89; 0x41; 0x11; 0xec; 0xd0;
   0x0e; 0x3d; 0xbc; 0x91; 0xe9; 0xd1; 0xce; 0x21; 0xd9; 0xba; 0xfb; 0x42; 0x63; 0x34; 0x17; 0xf9; 0xe5; 0x2f; 0x99;
   0x05; 0x13; 0x3d; 0xf8; 0x14; 0x61; 0x37; 0x72; 0xbb; 0xc7; 0x82; 0x79; 0x35; 0x9f; 0x5b; 0xe9; 0x98; 0x7a; 0xf9;
   0x5e; 0x00; 0x99; 0x53; 0x91; 0x4e; 0x7a; 0x73; 0x36; 0x23; 0x12; 0x7f; 0x33; 0x6d; 0xc2; 0x01; 0x23; 0xf0; 0x5f;
   0xcb; 0x1a; 0x0b; 0x38; 0x7f; 0xc7; 0x07; 0x75; 0xc1; 0xb8].
Definition test_digest : list Z :=
  [0xe3; 0xb0; 0xc4; 0x42; 0x98; 0xfc; 0x1c; 0x14; 0x9a; 0xfb; 0xf4; 0xc8; 0x99; 0x6f; 0xb9; 0x24;
   0x27; 0xae; 0x41; 0xe4; 0x64; 0x9b; 0x93; 0x4c; 0xa4; 0x95; 0x99; 0x1b; 0x78; 0x52; 0xb8; 0x55].

Lemma rsa_verify_iff_witness :
  rsa_verify (H := wasm32) (Reader := list Z) RSA_PKCS1_2048_8192_SHA256 test_key [] test_signature = Ok ().
Proof.
  refine (proj2 (proj1 (rsa_verify_iff (LW := wasm32) (Reader := list Z) RSA_PKCS1_2048_8192_SHA256 test_key [] test_signature _ _ _ _)) _);
    [right; left; reflexivity|apply bytes_okb_ok; vm_compute; reflexivity|apply bytes_okb_ok; vm_compute; reflexivity|done|].
  exists (Positive_new (take 256 (drop 9 test_key))), (Positive_new [3]).
  split; [vm_compute; reflexivity|]. split; [vm_compute; reflexivity|]. split; [vm_compute; reflexivity|].
  unfold signs, encoding_of, recovered. cbn [big_endian_without_leading_zero padding_alg digest_alg RSA_PKCS1_2048_8192_SHA256 RSA_PKCS1_SHA256 pkcs1_digest_alg digestinfo_prefix].
  assert (hash SHA256 [] = test_digest) as -> by (vm_compute; reflexivity).
  set (em := emsa_pkcs1 SHA256_PKCS1_DIGESTINFO_PREFIX test_digest 256).
  assert (from_be_bytes test_signature ^ from_be_bytes [3] mod from_be_bytes (take 256 (drop 9 test_key)) = from_be_bytes em) as Hem by (vm_compute; reflexivity).
  rewrite Hem, length_to_be_bytes. change (length (take 256 (drop 9 test_key))) with (length em).
  rewrite to_from_be_bytes; [done|]. apply bytes_okb_ok. vm_compute. reflexivity.
Defined.
