(* ===== verification/RingExpProofs.v ===== *)
(** * Exponentiation with a private exponent is correct

    [fold_5_bit_windows] feeds its closures the digits of the exponent in base 32, the table
    has the first 32 powers, selecting from it without branches returns the right one, and so
    [elem_exp_consttime] computes the power. *)
From S2P Require Import Prelude Errors Frame Untrusted RingIo RingDigest RingLimb RingLimbProofs RingMont RingMontProofs RingBigint RingBigintProofs.

(** ** Windows of five bits *)

Section windows.
Context {LW : LimbWidth} {R : Type} (fold : R → Z → result unit R) (init : Z → result unit R).
(** [inv x acc]: the accumulator [acc] is right when the digits so far make [x]. *)
Context (inv : Z → R → Prop).
Context (Hinit : ∀ w, 0 <= w < 32 → ∃ r, init w = Ok r ∧ inv w r).
Context (Hfold : ∀ x acc w, 0 <= x → 0 <= w < 32 → inv x acc → ∃ r, fold acc w = Ok r ∧ inv (32 * x + w) r).

Lemma fold_window x acc w : 0 <= x → w = x mod 32 → inv (x / 32) acc → ∃ r, fold acc w = Ok r ∧ inv x r.
Proof.
  intros Hx -> Hi. destruct (Hfold (x / 32) acc (x mod 32)) as (r & Hr & Hr'); [by apply Z.div_pos|by apply Z.mod_pos_bound|done|].
  exists r. split; [done|]. by rewrite (Z.div_mod x 32) by lia.
Qed.

Lemma pow2_div x w : 0 <= w → x / 2 ^ (w + 5) = x / 2 ^ w / 32.
Proof. intros Hw. rewrite Z.pow_add_r, <-Z.div_div by lia. done. Qed.

(** The bits of a limb [c] and of the number [P] above it. *)
Lemma shift_limb P c w : is_limb c → 0 <= w <= LIMB_BITS →
  (P * base + c) / 2 ^ w = c / 2 ^ w + P * 2 ^ (LIMB_BITS - w).
Proof.
  intros Hc Hw. unfold base. replace (P * 2 ^ LIMB_BITS + c) with (c + P * 2 ^ (LIMB_BITS - w) * 2 ^ w).
  - by rewrite Z.div_add by (apply Z.pow_nonzero; lia).
  - rewrite <-Z.mul_assoc, <-Z.pow_add_r by lia. replace (LIMB_BITS - w + w) with LIMB_BITS by lia. lia.
Qed.

Lemma unsplit_window P c w : is_limb c → 0 <= w <= LIMB_BITS - 5 →
  LIMBS_window5_unsplit_window c w = ((P * base + c) / 2 ^ w) mod 32.
Proof.
  intros Hc Hw. unfold LIMBS_window5_unsplit_window, FIVE_BITS_MASK.
  change 0x1f with (Z.ones 5). rewrite Z.land_ones, Z.shiftr_div_pow2 by lia. change (2 ^ 5) with 32.
  rewrite shift_limb by (done || lia). replace (LIMB_BITS - w) with (LIMB_BITS - w - 5 + 5) by lia.
  rewrite Z.pow_add_r by lia. change (2 ^ 5) with 32. by rewrite Z.mul_assoc, Z.mod_add by lia.
Qed.

Lemma split_window P c w : is_limb c → 0 <= P → LIMB_BITS - 5 < w < LIMB_BITS →
  LIMBS_window5_split_window c (P mod base) w = ((P * base + c) / 2 ^ w) mod 32.
Proof.
  intros Hc HP Hw. pose proof limb_bits_pos. unfold LIMBS_window5_split_window, FIVE_BITS_MASK, as_limb.
  change 0x1f with (Z.ones 5). rewrite Z.land_ones, Z.shiftr_div_pow2, Z.shiftl_mul_pow2 by lia. change (2 ^ 5) with 32.
  rewrite shift_limb by (done || lia). set (j := LIMB_BITS - w) in *. assert (1 <= j < 5) as Hj by lia.
  assert (0 <= c / 2 ^ w < 2 ^ j) as Hlow.
  { split; [apply Z.div_pos; [apply Hc|apply Z.pow_pos_nonneg; lia]|]. apply Z.div_lt_upper_bound; [apply Z.pow_pos_nonneg; lia|].
    rewrite <-Z.pow_add_r by lia. replace (w + j) with LIMB_BITS by lia. apply Hc. }
  assert ((P mod base * 2 ^ j) mod base mod 32 = (P * 2 ^ j) mod 32) as ->.
  { assert (∃ k, base = k * 32) as [k Hk].
    { exists (2 ^ (LIMB_BITS - 5)). unfold base. change 32 with (2 ^ 5). rewrite <-Z.pow_add_r by lia. f_equal. lia. }
    pose proof base_pos. rewrite Z.mul_mod_idemp_l by lia. apply cong_iff; [lia|]. rewrite Hk.
    exists (- ((P * 2 ^ j) / (k * 32)) * k). rewrite Z.mod_eq by lia. lia. }
  assert (32 = 2 ^ (5 - j) * 2 ^ j) as H32 by (rewrite <-Z.pow_add_r by lia; by replace (5 - j + j) with 5 by lia).
  assert ((P * 2 ^ j) mod 32 = P mod 2 ^ (5 - j) * 2 ^ j) as ->.
  { rewrite H32. apply Z.mul_mod_distr_r; apply Z.pow_nonzero; lia. }
  rewrite Z.lor_comm, lor_low by lia. symmetry.
  assert (0 < 2 ^ (5 - j)) by (apply Z.pow_pos_nonneg; lia).
  pose proof (Z.mod_pos_bound P (2 ^ (5 - j)) ltac:(done)). symmetry.
  apply Z.mod_unique with (P / 2 ^ (5 - j)); [left|rewrite H32, (Z.div_mod P (2 ^ (5 - j))) at 1 by lia; ring]. nia.
Qed.

Lemma bits_base : LIMB_BITS + 5 < base.
Proof. unfold base. destruct limb_bits_cases as [-> | ->]; done. Qed.

Lemma unsplit_loop_spec rounds P c w acc : is_limb c → 0 <= P → -5 <= w <= LIMB_BITS - 5 → w + 5 < 5 * Z.of_nat rounds →
  inv ((P * base + c) / 2 ^ (w + 5)) acc →
  ∃ acc' k, unsplit_loop fold rounds c (as_limb w) acc = Ok (acc', as_limb (- k)) ∧ 1 <= k <= 5 ∧ (w + k) mod 5 = 0 ∧
    inv ((P * base + c) / 2 ^ (5 - k)) acc'.
Proof.
  intros Hc HP. pose proof bits_base. revert w acc. induction rounds as [|rounds IH]; intros w acc Hw Hr Hi; [lia|]. cbn [unsplit_loop].
  destruct (Z.ltb_spec w 0).
  - assert (as_limb w = w + base) as Hl by (unfold as_limb; symmetry; apply Z.mod_unique with (-1); [left; lia|lia]).
    rewrite (proj2 (Z.ltb_ge _ _)) by lia. exists acc, (- w). split; [do 3 f_equal; lia|]. split; [lia|].
    split; [by replace (w + - w) with 0 by lia|]. by replace (5 - - w) with (w + 5) by lia.
  - rewrite (as_limb_small w), (proj2 (Z.ltb_lt _ _)) by (unfold is_limb; lia).
    rewrite pow2_div in Hi by lia.
    destruct (fold_window ((P * base + c) / 2 ^ w) acc (LIMBS_window5_unsplit_window c w)) as (acc1 & -> & Hi1); [|apply unsplit_window; [done|lia]|done|].
    { apply Z.div_pos; [destruct Hc; nia|apply Z.pow_pos_nonneg; lia]. }
    cbn [mbind result_bind].
    destruct (IH (w - 5) acc1) as (acc' & k & Hk & Hk1 & Hk2 & Hk3); [lia|lia|by replace (w - 5 + 5) with w by lia|].
    exists acc', k. split; [done|]. split; [done|]. split; [|done].
    rewrite <-Hk2. replace (w + k) with (w - 5 + k + 1 * 5) by lia. by rewrite Z.mod_add by lia.
Qed.

(** The part of a round before the inner loop. *)
Lemma split_step P c w acc : is_limb c → 0 <= P → 0 <= w < LIMB_BITS → inv ((P * base + c) / 2 ^ (w + 5)) acc →
  ∃ acc' w', (if as_limb (LIMB_BITS - 5) <? w then
       acc ← fold acc (LIMBS_window5_split_window c (P mod base) w);
       Ok (acc, as_limb (w - 5))
     else Ok (acc, w)) = Ok (acc', as_limb w') ∧ 0 <= w' <= LIMB_BITS - 5 ∧ w' mod 5 = w mod 5 ∧
    inv ((P * base + c) / 2 ^ (w' + 5)) acc'.
Proof.
  intros Hc HP Hw Hi. pose proof bits_base. pose proof limb_bits_pos. rewrite (as_limb_small (LIMB_BITS - 5)) by (unfold is_limb; lia).
  destruct (Z.ltb_spec (LIMB_BITS - 5) w).
  - rewrite pow2_div in Hi by lia.
    destruct (fold_window ((P * base + c) / 2 ^ w) acc (LIMBS_window5_split_window c (P mod base) w)) as (acc1 & -> & Hi1); [|apply split_window; [done|done|lia]|done|].
    { apply Z.div_pos; [destruct Hc; nia|apply Z.pow_pos_nonneg; lia]. }
    exists acc1, (w - 5). split; [done|]. split; [lia|]. replace (w - 5 + 5) with w by lia. split; [|done].
    replace w with (w - 5 + 1 * 5) at 2 by lia. by rewrite Z.mod_add by lia.
  - exists acc, w. rewrite (as_limb_small w) by (unfold is_limb; lia). split; [done|]. split; [lia|done].
Qed.

Lemma windows_loop_spec limbs P w acc : limbs_ok limbs → 0 <= P →
  match limbs with
  | [] => inv P acc
  | c :: limbs => 0 <= w < LIMB_BITS ∧ (Z.of_nat (length limbs) * LIMB_BITS + w) mod 5 = 0 ∧ inv ((P * base + c) / 2 ^ (w + 5)) acc
  end →
  ∃ r, windows_loop fold limbs (P mod base) w acc = Ok r ∧ inv (P * base ^ Z.of_nat (length limbs) + val (reverse limbs)) r.
Proof.
  intros Hl HP. pose proof bits_base. pose proof limb_bits_pos. revert P w acc HP. induction Hl as [|c limbs Hc Hl IH]; intros P w acc HP Hi.
  { exists acc. split; [done|]. rewrite reverse_nil. cbn [length val Z.of_nat]. by rewrite Z.pow_0_r, Z.mul_1_r, Z.add_0_r. }
  destruct Hi as (Hw & Hmod & Hi). cbn [windows_loop].
  destruct (split_step P c w acc) as (acc1 & w1 & -> & Hw1 & Hm1 & Hi1); [done..|]. cbn [mbind result_bind].
  destruct (unsplit_loop_spec (Z.to_nat LIMB_BITS) P c w1 acc1) as (acc2 & k & -> & Hk & Hm2 & Hi2); [done|done|lia|lia|done|]. cbn [mbind result_bind].
  assert (as_limb (as_limb (- k) + LIMB_BITS) = LIMB_BITS - k) as ->.
  { unfold as_limb. rewrite Z.add_mod_idemp_l by lia. rewrite Z.mod_small; lia. }
  assert ((P * base + c) mod base = c) as Hlow by (rewrite Z.add_comm, Z.mod_add, Z.mod_small by (unfold is_limb in Hc; lia); done).
  destruct (IH (P * base + c) (LIMB_BITS - k) acc2) as (r & Hrun & Hr); [destruct Hc; nia| |rewrite Hlow in Hrun; rewrite Hrun].
  - destruct limbs as [|c' limbs].
    + assert (k = 5) as -> by (cbn in Hmod; Z.to_euclidean_division_equations; lia). by rewrite Z.div_1_r in Hi2.
    + apply Forall_cons in Hl as [Hc' _]. split; [lia|]. split.
      { clear IH Hi Hi1 Hi2. cbn [length] in Hmod. rewrite Nat2Z.inj_succ in Hmod. 
        apply Z.mod_divide in Hmod as [x Hx]; [|lia]. apply Z.mod_divide in Hm2 as [y Hy]; [|lia].
        apply cong_iff in Hm1 as [z Hz]; [|lia]. apply Z.mod_divide; [lia|]. exists (x - y + z). lia. }
      replace (LIMB_BITS - k + 5) with (LIMB_BITS + (5 - k)) by lia. rewrite Z.pow_add_r, <-Z.div_div by lia.
      fold base. rewrite Z.div_add_l, (Z.div_small c') by (unfold is_limb in Hc'; lia). by rewrite Z.add_0_r.
  - exists r. split; [done|]. rewrite reverse_cons, val_app, length_reverse. cbn [length val]. rewrite base_pow_S.
    replace (P * (base * base ^ Z.of_nat (length limbs)) + (val (reverse limbs) + base ^ Z.of_nat (length limbs) * (c + base * 0)))
      with ((P * base + c) * base ^ Z.of_nat (length limbs) + val (reverse limbs)) by ring. done.
Qed.

Lemma fold_5_bit_windows_spec limbs : limbs_ok limbs → limbs ≠ [] →
  ∃ r, fold_5_bit_windows fold limbs init = Ok r ∧ inv (val limbs) r.
Proof.
  intros Hl Hne. pose proof bits_base. pose proof limb_bits_pos. unfold fold_5_bit_windows.
  destruct limbs as [|high low _] using rev_ind; [done|]. apply Forall_app in Hl as [Hlow [Hhigh _]%Forall_cons].
  rewrite last_snoc, length_app. cbn [length]. set (T := Z.of_nat (length low + 1) * LIMB_BITS).
  set (lead := if _ =? 0 then 5 else _). assert (1 <= lead <= 5 ∧ (T - lead) mod 5 = 0) as [Hlead Hmod].
  { subst lead. destruct (Z.eqb_spec (T - T / 5 * 5) 0); Z.to_euclidean_division_equations; lia. }
  clearbody lead. cbv zeta.
  assert (LIMBS_window5_split_window high 0 (LIMB_BITS - lead) = high / 2 ^ (LIMB_BITS - lead)) as ->.
  { unfold LIMBS_window5_split_window. rewrite Z.shiftl_0_l, Z.shiftr_div_pow2 by lia. apply Z.lor_0_r. }
  rewrite as_limb_small by (unfold is_limb; lia).
  destruct (Hinit (high / 2 ^ (LIMB_BITS - lead))) as (r0 & -> & Hi).
  { split; [apply Z.div_pos; [apply Hhigh|apply Z.pow_pos_nonneg; lia]|]. apply Z.div_lt_upper_bound; [apply Z.pow_pos_nonneg; lia|].
    apply Z.lt_le_trans with base; [apply Hhigh|]. unfold base. change 32 with (2 ^ 5). rewrite <-Z.pow_add_r by lia.
    apply Z.pow_le_mono_r; lia. }
  cbn [mbind result_bind].
  destruct (windows_loop_spec (reverse (low ++ [high])) 0 (LIMB_BITS - lead - 5) r0) as (r & Hr & Hr'); [|done| |].
  - apply Forall_reverse, Forall_app. auto.
  - rewrite reverse_snoc, length_reverse. split; [lia|]. replace (LIMB_BITS - lead - 5 + 5) with (LIMB_BITS - lead) by lia. split; [|done].
    apply Z.mod_divide in Hmod as [x Hx]; [|lia]. apply Z.mod_divide; [lia|]. exists (x - 1). lia.
  - rewrite Z.mod_0_l in Hr by lia. exists r. split; [done|]. by rewrite reverse_involutive in Hr'.
Qed.
End windows.

(** ** Tables *)

Section tables.
Context {LW : LimbWidth}.

Lemma entry_ok table i num : limbs_ok table → limbs_ok (entry table i num).
Proof. intros H. by apply Forall_take, Forall_drop. Qed.
Lemma entry_length table i num : ((i + 1) * num <= length table)%nat → length (entry table i num) = num.
Proof. intros H. unfold entry. rewrite length_take, length_drop. lia. Qed.
Lemma entry_app table dst i num : ((i + 1) * num <= length table)%nat → entry (table ++ dst) i num = entry table i num.
Proof. intros H. unfold entry. rewrite drop_app_le, take_app_le; [done|rewrite length_drop; lia|lia]. Qed.
Lemma entry_last table dst i num : length table = (i * num)%nat → length dst = num → entry (table ++ dst) i num = dst.
Proof. intros Ht Hd. unfold entry. rewrite <-Ht, drop_app_length. by apply take_ge; lia. Qed.
Lemma entry_drop table i num : entry (drop num table) i num = entry table (S i) num.
Proof. unfold entry. by rewrite drop_drop. Qed.

Lemma limbs_select_spec k r table num e index : limbs_ok r → limbs_ok table → length r = num → length table = (k * num)%nat →
  0 <= e → e + Z.of_nat k <= base → 0 <= index < base →
  limbs_select r table num e k index =
    if (e <=? index) && (index <? e + Z.of_nat k) then entry table (Z.to_nat (index - e)) num else r.
Proof.
  revert r table e. induction k as [|k IH]; intros r table e Hr Ht Hlr Hlt He Hk Hi; cbn [limbs_select].
  { replace (e + Z.of_nat 0) with e by lia. by destruct (Z.leb_spec e index), (Z.ltb_spec index e); [lia| | |]. }
  rewrite eq_w_spec by (unfold is_limb; lia).
  rewrite select_list; [|by apply Forall_take|done|rewrite length_take; lia].
  rewrite IH; [|case_match; [by apply Forall_take|done]|by apply Forall_drop|case_match; [rewrite length_take; lia|done]|rewrite length_drop; lia|lia..].
  rewrite entry_drop. destruct (Z.eqb_spec index e) as [->|Hne].
  - rewrite (proj2 (Z.leb_gt _ _)), (proj2 (Z.leb_le e e)), (proj2 (Z.ltb_lt e (e + Z.of_nat (S k)))) by lia. cbn [andb].
    rewrite Z.sub_diag. unfold entry. change (Z.to_nat 0) with 0%nat. by rewrite Nat.mul_0_l, drop_0.
  - assert (((e + 1 <=? index) && (index <? e + 1 + Z.of_nat k)) = ((e <=? index) && (index <? e + Z.of_nat (S k)))) as ->.
    { apply eq_true_iff_eq. rewrite !andb_true_iff, !Z.leb_le, !Z.ltb_lt. lia. }
    destruct ((e <=? index) && _) eqn:Hb; [|done]. apply andb_true_iff in Hb as [Hb _]. apply Z.leb_le in Hb.
    f_equal. lia.
Qed.

Lemma gather_spec table num i : limbs_ok table → length table = (TABLE_ENTRIES * num)%nat → (Z.of_nat num * LIMB_BITS) mod 512 = 0 →
  0 <= i < 32 → gather table num i = Ok (entry table (Z.to_nat i) num).
Proof.
  intros Ht Hl Hm Hi. unfold gather, LIMBS_select_512_32. pose proof bits_base. pose proof limb_bits_pos.
  assert (Z.of_nat num mod (512 / LIMB_BITS) = 0) as ->.
  { destruct limb_bits_cases as [E|E]; rewrite E in *; [change (512 / 32) with 16|change (512 / 64) with 8]; Z.to_euclidean_division_equations; lia. }
  rewrite Z.eqb_refl, limbs_select_spec; [|apply limbs_ok_replicate_0|done|by rewrite length_replicate|done|lia..].
  rewrite (proj2 (Z.leb_le _ _)), (proj2 (Z.ltb_lt _ _)) by lia. cbn [andb]. by rewrite Z.sub_0_r.
Qed.

Context (m : Modulus) (Hm : modulus_ok m).
Abbreviation n := (val m.(m_limbs)).
Abbreviation num := (length m.(m_limbs)).
Abbreviation p := (as_partial m).

(** The table has the powers of [x] up to [i]. *)
Record powers (x : Z) (i : nat) (table : list Z) : Prop := {
  pw_limbs : limbs_ok table;
  pw_length : length table = (i * num)%nat;
  pw_entries : ∀ j, (j < i)%nat → encodes p (x ^ Z.of_nat j) (entry table j num)
}.

Lemma powers_snoc x i table dst : powers x i table → encodes p (x ^ Z.of_nat i) dst → powers x (S i) (table ++ dst).
Proof.
  intros [Hl Hn He] Hd. assert (length dst = num) as Hdl by apply Hd. split.
  - apply Forall_app. split; [done|apply Hd].
  - rewrite length_app. lia.
  - intros j Hj. destruct (decide (j = i)) as [->|].
    + by rewrite entry_last.
    + rewrite entry_app by nia. apply He. lia.
Qed.

Lemma fill_table_spec x rounds i table : (2 <= i)%nat → powers x i table → powers x (i + rounds) (fill_table rounds i table m).
Proof.
  revert i table. induction rounds as [|rounds IH]; intros i table Hi Hp; cbn [fill_table]; [by rewrite Nat.add_0_r|].
  replace (i + S rounds)%nat with (S i + rounds)%nat by lia.
  set (s := if Nat.even i then _ else _). assert ((s.1 < i ∧ s.2 < i ∧ s.1 + s.2 = i)%nat) as (H1 & H2 & H3).
  { subst s. destruct (Nat.even i) eqn:He; cbn [fst snd]; [|lia]. apply Nat.even_spec in He as [k Hk].
    assert (i / 2 = k)%nat as -> by (rewrite Hk, Nat.mul_comm; apply Nat.div_mul; lia). lia. }
  destruct s as [s1 s2]. cbn [fst snd] in *. apply IH; [lia|]. apply powers_snoc; [done|].
  pose proof (pw_entries _ _ _ Hp s1 H1) as Ha. pose proof (pw_entries _ _ _ Hp s2 H2) as Hb.
  unfold limbs_mont_product.
  destruct (mont_mul p (mo_partial m Hm) (replicate num 0) (entry table s1 num) (entry table s2 num) (s1 =? s2)%nat) as [Hr Hc];
    [apply Ha|apply Ha|pose proof (R_bound p (mo_partial m Hm)); destruct (proj1 Ha); lia|apply Hb|by intros ->%Nat.eqb_eq|].
  split; [done|]. apply (cancel_R p (mo_partial m Hm)). rewrite Hc, (proj2 Ha), (proj2 Hb). apply cong_eq. cbn [m_limbs p_limbs as_partial].
  rewrite <-H3, Nat2Z.inj_add, Z.pow_add_r by lia. ring.
Qed.

Lemma one_spec : reduced p (one m) ∧ val (one m) = 1.
Proof.
  destruct (mo_partial m Hm) as [_ Hne _ H3 _ _]. cbn in Hne, H3. pose proof base_pos. assert (0 < num)%nat.
  { destruct (m_limbs m); [done|cbn; lia]. }
  assert (val (one m) = 1) as Hv by (unfold one, zero; rewrite val_single by done; cbn; lia).
  split; [|done]. split; [|unfold one, zero; by rewrite length_insert, length_replicate|rewrite Hv; cbn; lia].
  unfold one, zero. apply Forall_insert; [apply limbs_ok_replicate_0|unfold is_limb; lia].
Qed.

Lemma squares x acc k : encodes p x acc → encodes p (x ^ 2 ^ Z.of_nat k) (Nat.iter k (λ acc, elem_squared acc p) acc).
Proof.
  intros Ha. induction k as [|k IH]; cbn [Nat.iter]; [by rewrite Z.pow_1_r|].
  replace (x ^ 2 ^ Z.of_nat (S k)) with (x ^ 2 ^ Z.of_nat k * x ^ 2 ^ Z.of_nat k).
  - by apply (squared_encodes p (mo_partial m Hm)).
  - rewrite <-Z.pow_add_r by (apply Z.pow_nonneg; lia). f_equal. rewrite Nat2Z.inj_succ, Z.pow_succ_r by lia. lia.
Qed.

Lemma power_spec x table acc y w : powers x 32 table → (Z.of_nat num * LIMB_BITS) mod 512 = 0 → 0 <= y → 0 <= w < 32 →
  encodes p (x ^ y) acc → ∃ r, power table m acc w = Ok r ∧ encodes p (x ^ (32 * y + w)) r.
Proof.
  intros Ht H512 Hy Hw Ha. unfold power. rewrite gather_spec by (apply Ht || done). cbn [mbind result_bind].
  eexists. split; [done|]. unfold elem_mul.
  replace (x ^ (32 * y + w)) with (x ^ Z.of_nat (Z.to_nat w) * (x ^ y) ^ 2 ^ Z.of_nat 5).
  - apply (mul_encodes p (mo_partial m Hm)); [apply Ht; lia|by apply squares].
  - rewrite <-Z.pow_mul_r, <-Z.pow_add_r by lia. f_equal. change (2 ^ Z.of_nat 5) with 32. lia.
Qed.

(** [base ** exponent], for an encoded base and with the result decoded. *)
Lemma elem_exp_consttime_spec x b exponent : encodes p x b → limbs_ok exponent → exponent ≠ [] →
  (Z.of_nat num * LIMB_BITS) mod 512 = 0 →
  ∃ r, elem_exp_consttime b exponent m = Ok r ∧ reduced p r ∧ val r = (x ^ val exponent) mod n.
Proof.
  intros Hb He Hne H512. unfold elem_exp_consttime. destruct one_spec as [Hone Hv].
  pose proof (encode_spec m Hm (one m) Hone) as H1. rewrite Hv in H1.
  rewrite (rd_length _ _ (proj1 H1)), (rd_length _ _ (proj1 Hb)). cbn [p_limbs as_partial]. rewrite Nat.eqb_refl. cbn [negb orb].
  assert (powers x 32 (fill_table (TABLE_ENTRIES - 2) 2 (elem_mul (oneRR m) (one m) m ++ b) m)) as Ht.
  { apply (fill_table_spec x 30 2); [done|].
    apply (powers_snoc x 1); [|by rewrite Z.pow_1_r]. apply (powers_snoc x 0 [] _); [|by rewrite Z.pow_0_r].
    split; [constructor|done|lia]. }
  set (table := fill_table _ _ _ _) in *. clearbody table.
  destruct (fold_5_bit_windows_spec (λ acc window, power table m acc window) (λ w, gather table num w) (λ y acc, encodes p (x ^ y) acc)) with (limbs := exponent) as (r & -> & Hr); [..|done|done|].
  - intros w Hw. rewrite gather_spec by (apply Ht || done). eexists. split; [done|].
    pose proof (pw_entries _ _ _ Ht (Z.to_nat w) ltac:(lia)) as H. by rewrite Z2Nat.id in H by lia.
  - intros y acc w Hy Hw Ha. by apply power_spec.
  - cbn [mbind result_bind]. by apply decode_spec.
Qed.
End tables.
