(* ===== verification/RingCrt.v ===== *)
(** * The numbers of RSA

    Exponents that are inverse to each other modulo a number, which by Fermat's little theorem
    those of a textbook RSA key are, and Garner's recombination of a power modulo [p] and modulo
    [q]. *)
From Stdlib Require Import Zdivisibility.
From Stdlib Require ZmodInv.
From S2P Require Import Prelude Errors Frame Untrusted RingIo RingDigest RingLimb RingLimbProofs RingMont RingMontProofs RingBigint RingBigintProofs.

Lemma cong_divide n a b : cong n a b ↔ (n | a - b).
Proof. split; intros [k Hk]; exists k; lia. Qed.

(** ** Inverse exponents *)

(** Raising to the power [k] does nothing modulo [n]. *)
Definition fixes (n k : Z) : Prop := ∀ x, 0 <= x → cong n (x ^ k) x.

Lemma prime_fixes p k : Z.prime p → 0 < k → (p - 1 | k - 1) → fixes p k.
Proof.
  intros Hp Hk [j Hj] x Hx. pose proof (Z.prime_ge_2 p Hp). assert (0 <= j) as Hj0 by nia.
  replace k with (1 + j * (p - 1)) by lia. clear Hk Hj k. revert j Hj0. apply natlike_ind; [by rewrite Z.pow_1_r|].
  intros j Hj IH. replace (1 + Z.succ j * (p - 1)) with (1 + j * (p - 1) + (p - 1)) by lia.
  rewrite Z.pow_add_r by nia. rewrite IH, <-Z.pow_succ_r by lia. replace (Z.succ (p - 1)) with p by lia.
  apply cong_iff; [lia|]. by apply ZmodInv.Z.fermat.
Qed.

Lemma coprime_cong p q a b : Z.coprime p q → cong p a b → cong q a b → cong (p * q) a b.
Proof.
  rewrite !cong_divide. intros Hpq Hp [z Hz]. rewrite Hz in *. destruct (Z.gauss p q z) as [y Hy]; [by rewrite Z.mul_comm|done|].
  exists y. rewrite Hy. ring.
Qed.

Lemma fixes_mul p q k : Z.coprime p q → fixes p k → fixes q k → fixes (p * q) k.
Proof. intros Hpq Hp Hq x Hx. apply coprime_cong; auto. Qed.

(** A check by evaluation for products of distinct primes. *)
Definition prime_check (p : Z) : bool := (1 <? p) && forallb (λ d, negb (p mod d =? 0)) (seqZ 2 (p - 2)).
Lemma prime_check_ok p : prime_check p = true → Z.prime p.
Proof.
  unfold prime_check. rewrite andb_true_iff, forallb_forall. intros [H1%Z.ltb_lt Hd]. split; [done|].
  intros d Hr Hdiv. specialize (Hd d). rewrite negb_true_iff in Hd. apply Z.mod_divide in Hdiv; [|lia].
  apply Z.eqb_neq in Hd; [done|]. apply list_elem_of_In, elem_of_seqZ. lia.
Qed.

Definition product (l : list Z) : Z := foldr Z.mul 1 l.
Fixpoint fixes_check (k : Z) (l : list Z) : bool :=
  match l with
  | [] => true
  | p :: l => prime_check p && ((k - 1) mod (p - 1) =? 0) && negb (product l mod p =? 0) && fixes_check k l
  end.

Lemma fixes_check_ok k l : 0 < k → fixes_check k l = true → fixes (product l) k.
Proof.
  intros Hk. induction l as [|p l IH]; cbn [fixes_check product foldr].
  { intros _ x Hx. exists (x ^ k - x). lia. }
  rewrite !andb_true_iff. intros [[[Hp%prime_check_ok Hd%Z.eqb_eq] Hm%negb_true_iff%Z.eqb_neq] Hl].
  pose proof (Z.prime_ge_2 p Hp). fold (product l). apply fixes_mul; [|apply prime_fixes; [done..|]|by apply IH].
  - apply Z.coprime_prime_l; [done|]. intros Hdiv. apply Hm, Z.mod_divide; [lia|done].
  - destruct (decide (p = 2)) as [->|]; [apply Z.divide_1_l|]. apply Z.mod_divide; [lia|done].
Qed.

(** ** Garner's algorithm *)

Lemma inverse_coprime p q i : cong p (q * i) 1 → Z.coprime p q.
Proof. intros [k Hk]. apply Z.coprime_Bezout. exists (- k), i. lia. Qed.

Lemma garner p q e dP dQ i c m1 m2 h :
  0 < p → 0 < q → 0 <= e → 0 <= dP → 0 <= dQ → cong p (q * i) 1 → fixes p (dP * e) → fixes q (dQ * e) → 0 <= c < p * q →
  cong p m1 (c ^ dP) → 0 <= m2 < q → cong q m2 (c ^ dQ) → 0 <= h < p → cong p h (i * (m1 - m2)) →
  let m := m2 + q * h in 0 <= m < p * q ∧ m ^ e mod (p * q) = c.
Proof.
  intros Hp Hq He HdP HdQ Hi HfP HfQ Hc H1 Hm2 H2 Hh Hch m. split; [unfold m; nia|].
  assert (cong (p * q) (m ^ e) c) as Hm.
  { apply coprime_cong; [by apply inverse_coprime with i|..].
    - rewrite <-(HfP c) by lia. rewrite Z.pow_mul_r by lia. apply cong_pow; [lia|]. rewrite <-H1. unfold m. rewrite Hch.
      replace (m2 + q * (i * (m1 - m2))) with (m2 + q * i * (m1 - m2)) by ring. rewrite Hi. apply cong_eq. ring.
    - rewrite <-(HfQ c) by lia. rewrite Z.pow_mul_r by lia. apply cong_pow; [lia|]. rewrite <-H2. exists h. unfold m. ring. }
  apply cong_iff in Hm; [|nia]. rewrite Hm. by apply Z.mod_small.
Qed.
