(* ===== verification/RingSigning.v ===== *)
(** * RSA key pairs and signing

    [src/utils/ring/src/rsa/signing.rs]: the parsing and checking of private keys, from the
    DER encoding [RSAPrivateKey] or a PKCS#8 document ([pkcs8.rs]), and signing by the Chinese
    remainder theorem.  [sign] returns what the slice [signature] holds when it returns. *)
From S2P Require Import Prelude Errors Frame Untrusted RingIo RingDigest RingLimb RingMont RingBigint RingRsa.

(** ** [pkcs8.rs] *)

Module Pkcs8.
Inductive Version := V1Only | V1OrV2 | V2Only.

Section pkcs8.
Context {Reader : Type} `{!Untrusted Reader}.

(** [der::bit_string_with_no_unused_bits] *)
Definition bit_string_with_no_unused_bits : Parser Reader unit Input :=
  nested BitString () (
    unused_bits_at_end ← read_byte;
    if negb (unused_bits_at_end =? 0) then fail () else
    total read_bytes_to_end).

Definition require_public_key (actual_version : Z) (version : Version) : result KeyRejected bool :=
  match version with
  | V1Only => if actual_version =? 0 then Ok false else Err VersionNotSupported
  | V1OrV2 => if actual_version =? 0 then Ok false else if actual_version =? 1 then Ok true else Err VersionNotSupported
  | V2Only => if actual_version =? 1 then Ok true else Err VersionNotSupported
  end.

Definition unwrap_key__ (alg_id : Input) (version : Version) : Parser Reader KeyRejected (Input * option Input) :=
  actual_version ← pmap_err (λ _, InvalidEncoding) small_nonnegative_integer;
  if 1 <? actual_version then fail VersionNotSupported else
  actual_alg_id ← pmap_err (λ _, InvalidEncoding) (expect_tag_and_get_value Sequence);
  if bool_decide (actual_alg_id ≠ alg_id) then fail WrongAlgorithm else
  require_public_key ← lift (require_public_key actual_version version);
  private_key ← pmap_err (λ _, InvalidEncoding) (expect_tag_and_get_value OctetString);
  attributes ← asks (peek (tag_byte ContextSpecificConstructed0));
  (if attributes : bool
   then pmap_err (λ _, InvalidEncoding) (expect_tag_and_get_value ContextSpecificConstructed0) ;; mret ()
   else mret ()) ;;
  public_key ←
    (if require_public_key : bool then
       e ← asks at_end;
       if e : bool then fail PublicKeyIsMissing else
       public_key ← pmap_err (λ _, InvalidEncoding) (nested ContextSpecificConstructed1 () bit_string_with_no_unused_bits);
       mret (Some public_key)
     else mret None);
  mret (private_key, public_key).

Definition unwrap_key_ (alg_id : Input) (version : Version) (input : Input) : result KeyRejected (Input * option Input) :=
  read_all input InvalidEncoding (nested Sequence InvalidEncoding (unwrap_key__ alg_id version)).
End pkcs8.
End Pkcs8.

(** ** [rsa/signing.rs] *)

Module Signing.
Abbreviation Elem := (list Z).

(** [../data/alg-rsa-encryption.der] *)
Definition RSA_ENCRYPTION : Input :=
  [0x06; 0x09; 0x2a; 0x86; 0x48; 0x86; 0xf7; 0x0d; 0x01; 0x01; 0x01; 0x05; 0x00].

Definition PRIVATE_KEY_PUBLIC_MODULUS_MAX_BITS : Z := 4096.

Record PrivatePrime := mkPrivatePrime {
  prime_modulus : Modulus;
  prime_exponent : list Z
}.

Record RsaKeyPair := mkRsaKeyPair {
  kp_p : PrivatePrime;
  kp_q : PrivatePrime;
  kp_qInv : Elem;
  kp_qq : Modulus;
  kp_q_mod_n : Elem;
  kp_public : Key;
  kp_public_key : list Z
}.

Section signing.
Context {LW : LimbWidth} {Reader : Type} `{!Untrusted Reader}.

(** [PrivatePrime::new] *)
Definition prime_new (p : list Z) (dP : Input) : result KeyRejected PrivatePrime :=
  '(p, p_bits) ← from_nonnegative_with_bit_length p;
  if negb (p_bits mod 512 =? 0) then Err PrivateModulusLenNotMultipleOf512Bits else
  dP ← map_err (λ _, InconsistentComponents) (private_exponent_from_be_bytes_padded (Reader := Reader) dP p);
  Ok (mkPrivatePrime p dP).

Definition positive_integer : Parser Reader KeyRejected Positive :=
  pmap_err (λ _, InvalidEncoding) RingIo.positive_integer.

(** Steps 5 and 3.a: the sizes of the primes and [p * q = 0] modulo [n]; returns [q] as an element, without and with
    the factor [R]. *)
Definition check_primes (public_key : Key) (p : list Z) (p_bits : Z) (q : list Z) (q_bits : Z)
  : result KeyRejected (Elem * Elem) :=
  let half_n_bits := half_rounded_up public_key.(k_n_bits) in
  if negb (p_bits =? half_n_bits) then Err InconsistentComponents else
  if negb (p_bits =? q_bits) then Err InconsistentComponents else
  q_mod_n_decoded ← map_err (λ _, InconsistentComponents) (nonnegative_to_elem q public_key.(k_n));
  let q_mod_n := elem_mul public_key.(k_n).(oneRR) q_mod_n_decoded public_key.(k_n) in
  p_mod_n ← map_err (λ _, InconsistentComponents) (nonnegative_to_elem p public_key.(k_n));
  let pq_mod_n := elem_mul q_mod_n p_mod_n public_key.(k_n) in
  if negb (elem_is_zero pq_mod_n) then Err InconsistentComponents else
  Ok (q_mod_n_decoded, q_mod_n).

(** Step 6.a *)
Definition check_d (public_key : Key) (d : Input) : result KeyRejected unit :=
  '(d, d_bits) ← map_err (λ _, InvalidEncoding) (nonnegative_from_be_bytes_with_bit_length (Reader := Reader) d);
  if negb (half_rounded_up public_key.(k_n_bits) <? d_bits) then Err InconsistentComponents else
  map_err (λ _, InconsistentComponents) (verify_less_than_modulus d public_key.(k_n)) ;;
  if negb (is_odd d) then Err InvalidComponent else Ok ().

(** Steps 7.c and 7.f *)
Definition check_qInv (p q : PrivatePrime) (qInv : option Input) : result KeyRejected Elem :=
  let p := p.(prime_modulus) in
  q_mod_p ← no_err (to_elem q.(prime_modulus) p);
  qInv ←
    match qInv with
    | Some qInv => map_err (λ _, InvalidComponent) (elem_from_be_bytes_padded (Reader := Reader) qInv p)
    | None =>
        let q_mod_p := elem_mul p.(oneRR) q_mod_p p in
        map_err (λ _, UnexpectedError) (elem_inverse_consttime q_mod_p p)
    end;
  let qInv := elem_mul p.(oneRR) qInv p in
  map_err (λ _, InconsistentComponents) (verify_inverses_consttime qInv q_mod_p p) ;;
  Ok qInv.

(** The checks of [from_der_reader] after the primes have been put in order. *)
Definition from_ordered (n e : Positive) (d : Input) (p : list Z) (p_bits : Z) (dP : Input) (q : list Z) (q_bits : Z) (dQ : Input)
    (qInv : option Input) : result KeyRejected RsaKeyPair :=
  public_key ← from_modulus_and_exponent (Reader := Reader)
    n.(big_endian_without_leading_zero) e.(big_endian_without_leading_zero) 2048 PRIVATE_KEY_PUBLIC_MODULUS_MAX_BITS 65537;
  '(q_mod_n_decoded, q_mod_n) ← check_primes public_key p p_bits q q_bits;
  check_d public_key d ;;
  p ← prime_new p dP;
  q ← prime_new q dQ;
  qInv ← check_qInv p q qInv;
  qq ← into_modulus (elem_mul q_mod_n q_mod_n_decoded public_key.(k_n));
  public_key_serialized ← no_err (from_n_and_e n e);
  Ok (mkRsaKeyPair p q qInv qq q_mod_n public_key public_key_serialized).

(** The rest of [from_der_reader] after the integers have been read.  The primes are swapped if [p] is not the larger
    one; then the inverse of [q] is not that of the key. *)
Definition from_components (n e : Positive) (d p q dP dQ qInv : Input) : result KeyRejected RsaKeyPair :=
  '(p, p_bits) ← map_err (λ _, InvalidEncoding) (nonnegative_from_be_bytes_with_bit_length (Reader := Reader) p);
  '(q, q_bits) ← map_err (λ _, InvalidEncoding) (nonnegative_from_be_bytes_with_bit_length (Reader := Reader) q);
  match verify_less_than q p with
  | Ok _ => from_ordered n e d p p_bits dP q q_bits dQ (Some qInv)
  | Err _ => from_ordered n e d q q_bits dQ p p_bits dP None
  | Panic => Panic
  end.

Definition from_der_reader : Parser Reader KeyRejected RsaKeyPair :=
  version ← pmap_err (λ _, InvalidEncoding) small_nonnegative_integer;
  if negb (version =? 0) then fail VersionNotSupported else
  n ← positive_integer;
  e ← positive_integer;
  d ← positive_integer;
  p ← positive_integer;
  q ← positive_integer;
  dP ← positive_integer;
  dQ ← positive_integer;
  qInv ← positive_integer;
  lift (from_components n e d.(big_endian_without_leading_zero) p.(big_endian_without_leading_zero)
    q.(big_endian_without_leading_zero) dP.(big_endian_without_leading_zero) dQ.(big_endian_without_leading_zero)
    qInv.(big_endian_without_leading_zero)).

Definition from_der (input : Input) : result KeyRejected RsaKeyPair :=
  read_all input InvalidEncoding (nested Sequence InvalidEncoding from_der_reader).

Definition from_pkcs8 (pkcs8 : Input) : result KeyRejected RsaKeyPair :=
  '(der, _) ← Pkcs8.unwrap_key_ (Reader := Reader) RSA_ENCRYPTION Pkcs8.V1Only pkcs8;
  from_der der.

Definition public_modulus_len (self : RsaKeyPair) : result unit nat :=
  n ← modulus (Reader := Reader) self.(kp_public_key);
  Ok (length n.(big_endian_without_leading_zero)).

(** [c ** dP] modulo [p] *)
Definition elem_exp_consttime (c : Elem) (p : PrivatePrime) : result unit Elem :=
  let m := p.(prime_modulus) in
  c_mod_m ← elem_reduced c m;
  let c_mod_m := elem_mul m.(oneRR) c_mod_m m in
  let c_mod_m := elem_mul m.(oneRR) c_mod_m m in
  RingBigint.elem_exp_consttime c_mod_m p.(prime_exponent) m.

(** [RSADP] of RFC 8017 with Garner's algorithm, and the check of its result. *)
Definition private_power (self : RsaKeyPair) (c : Elem) : result unit Elem :=
  let n := self.(kp_public).(k_n) in
  m_1 ← elem_exp_consttime c self.(kp_p);
  c_mod_qq ← elem_reduced_once c self.(kp_qq);
  m_2 ← elem_exp_consttime c_mod_qq self.(kp_q);
  let p := self.(kp_p).(prime_modulus) in
  m_2 ← elem_widen m_2 p;
  let m_1_minus_m_2 := elem_sub m_1 m_2 p in
  let h := elem_mul self.(kp_qInv) m_1_minus_m_2 p in
  h ← elem_widen h n;
  let q_times_h := elem_mul self.(kp_q_mod_n) h n in
  m_2 ← elem_widen m_2 n;
  let m := elem_add m_2 q_times_h n in
  verify ← elem_exp_vartime m self.(kp_public).(k_e) n;
  verify ← into_unencoded verify n;
  elem_verify_equal_consttime verify c ;;
  Ok m.

(** [fill] is the method of [rng]. *)
Definition sign (self : RsaKeyPair) (padding_alg : Padding) (fill : list Z → result unit (list Z))
    (msg signature : list Z) : result unit (list Z) :=
  let mod_bits := self.(kp_public).(k_n_bits) in
  if negb (Z.of_nat (length signature) =? as_usize_bytes_rounded_up mod_bits) then Err () else
  m_hash ← digest (digest_alg padding_alg) msg;
  signature ← encode fill padding_alg m_hash signature mod_bits;
  c ← elem_from_be_bytes_padded (Reader := Reader) signature self.(kp_public).(k_n);
  m ← private_power self c;
  fill_be_bytes m signature.
End signing.
End Signing.
