(* ===== verification/RingKeyProofs.v ===== *)
(** * What RSA private keys are accepted

    The checks of [RingSigning] in terms of numbers, one operation at a time: comparison of
    integers of different widths, the two primes, the private exponents and the inverse of [q]
    modulo [p].  None of them panics.  [keypair_ok] is what is known of a key pair. *)
From S2P Require Import Prelude Errors Frame Untrusted RingIo RingDigest RingLimb RingLimbProofs RingMont RingMontProofs RingBigint RingBigintProofs.
From S2P Require Import RingExpProofs RingCrt RingRsa RingPaddingProofs RingRsaProofs RingSigning.

(** ** Integers without leading zero limbs *)

Section naturals.
Context {LW : LimbWidth}.

Record natural (l : list Z) : Prop := {
  nt_limbs : limbs_ok l;
  nt_some : l ≠ [];
  nt_min : base ^ Z.of_nat (length l - 1) <= val l
}.

Lemma natural_pos l : natural l → 0 < val l < base ^ Z.of_nat (length l).
Proof. intros [Hl Hs Hm]. pose proof (val_bounds l Hl). pose proof (base_pow (length l - 1)). lia. Qed.

Lemma natural_log2 l : natural l →
  Z.of_nat (length l - 1) * LIMB_BITS <= Z.log2 (val l) < Z.of_nat (length l) * LIMB_BITS.
Proof.
  intros Hn. destruct (natural_pos l Hn). pose proof limb_bits_pos. unfold base in *. split.
  - apply Z.log2_le_pow2; [lia|]. rewrite Z.mul_comm, Z.pow_mul_r by lia. apply Hn.
  - apply Z.log2_lt_pow2; [lia|]. by rewrite Z.mul_comm, Z.pow_mul_r by lia.
Qed.

(** The width is that of the number. *)
Lemma natural_length l : natural l → Z.of_nat (length l) = Z.log2 (val l) / LIMB_BITS + 1.
Proof.
  intros Hn. pose proof (natural_log2 l Hn). pose proof limb_bits_pos. destruct Hn as [_ Hs _].
  assert (0 < length l)%nat by (destruct l; [done|cbn; lia]).
  assert (Z.log2 (val l) / LIMB_BITS = Z.of_nat (length l - 1)); [|lia].
  rewrite Nat2Z.inj_sub in * by lia.
  symmetry. apply Z.div_unique with (Z.log2 (val l) - (Z.of_nat (length l) - Z.of_nat 1) * LIMB_BITS); [left|]; lia.
Qed.

Lemma natural_width a b : natural a → natural b → Z.log2 (val a) = Z.log2 (val b) → length a = length b.
Proof. intros Ha Hb He. apply natural_length in Ha, Hb. rewrite He in Ha. lia. Qed.

Lemma natural_shorter a b : natural a → natural b → (length a < length b)%nat → val a < val b.
Proof.
  intros Ha Hb Hl. destruct (natural_pos a Ha) as [_ H]. destruct Hb as [_ _ Hb].
  assert (base ^ Z.of_nat (length a) <= base ^ Z.of_nat (length b - 1)); [|lia].
  pose proof base_pos. apply Z.pow_le_mono_r; lia.
Qed.

Lemma modulus_natural m : modulus_ok m → natural m.(m_limbs).
Proof. intros [Hp Hl Hm _]. destruct Hp. by split. Qed.

Lemma pop_zeros_spec l : ∃ k, l = replicate k 0 ++ pop_zeros l ∧ hd_error (pop_zeros l) ≠ Some 0.
Proof.
  induction l as [|x l (k & Hk & Hh)]; [by exists 0%nat|]. destruct (decide (x = 0)) as [->|Hx].
  - exists (S k). cbn. by rewrite <-Hk.
  - exists 0%nat. destruct x; [done|by split..].
Qed.

Lemma trim_spec l : limbs_ok l → 0 < val l → natural (reverse (pop_zeros (reverse l))) ∧ val (reverse (pop_zeros (reverse l))) = val l.
Proof.
  intros Hl Hv. destruct (pop_zeros_spec (reverse l)) as (k & Hk & Hh). set (t := pop_zeros (reverse l)) in *. clearbody t.
  assert (l = reverse t ++ replicate k 0) as Hlt.
  { rewrite <-(reverse_involutive l), Hk, reverse_app. by rewrite reverse_replicate. }
  assert (val (reverse t) = val l) as Hval by (rewrite Hlt, val_app, val_replicate_0; lia).
  rewrite Hlt in Hl. apply Forall_app in Hl as [Hl _]. split; [|done]. split; [done|intros Hn; by rewrite Hn in Hval; cbn in Hval; lia|].
  destruct t as [|x t]; [by rewrite reverse_nil in Hval; cbn in Hval; lia|]. rewrite reverse_cons in *. apply Forall_app in Hl as [Hl [Hx _]%Forall_cons].
  rewrite val_app, length_app. cbn [length val]. rewrite Nat.add_sub. pose proof (val_bounds _ Hl). pose proof (base_pow (length (reverse t))).
  assert (x ≠ 0) by (intros ->; by apply Hh). unfold is_limb in Hx. nia.
Qed.

(** ** Parsing and comparing *)

Lemma nonnegative_spec input : bytes_ok input → minimal input = true →
  ∃ l, nonnegative_from_be_bytes_with_bit_length (Reader := list Z) input = Ok (l, Z.log2 (from_be_bytes input) + 1) ∧
    natural l ∧ val l = from_be_bytes input.
Proof.
  intros Hb Hm. unfold nonnegative_from_be_bytes_with_bit_length. destruct (minimal_bounds input Hb Hm) as [Hlen Hv].
  assert (0 < from_be_bytes input) by (pose proof (Z.pow_pos_nonneg 256 (Z.of_nat (length input - 1)) ltac:(lia) ltac:(lia)); lia).
  pose proof (ceil_limbs (length input) Hlen) as [_ Hc].
  pose proof (parse_big_endian_spec input ((length input + LIMB_BYTES - 1) / LIMB_BYTES)%nat Hb) as Hp.
  destruct (parse_big_endian_and_pad_consttime _ _) as [ls| |]; [|destruct Hp as [->|]; [done|lia]|done].
  destruct Hp as (Hl & _ & Hval & _). cbn [mbind result_bind]. destruct (trim_spec ls Hl) as [Hn Ht]; [lia|].
  eexists. split; [|split; [done|lia]]. do 2 f_equal. rewrite limbs_minimal_bits_spec by apply Hn. rewrite Ht, Hval.
  by rewrite (proj2 (Z.eqb_neq _ _)) by lia.
Qed.

Lemma less_than_vartime_spec a b : limbs_ok a → limbs_ok b → length a = length b →
  limbs_less_than_limbs_vartime a b = Ok (val a <? val b).
Proof.
  intros Ha Hb Hl. unfold limbs_less_than_limbs_vartime, limbs_less_than_limbs_consttime.
  rewrite Hl, Nat.eqb_refl. cbn [mbind result_bind]. by rewrite LIMBS_less_than_spec, mask_True.
Qed.

Lemma verify_less_than_spec a b : natural a → natural b →
  verify_less_than a b = if val a <? val b then Ok () else Err ().
Proof.
  intros Ha Hb. unfold verify_less_than, greater_than. destruct (Nat.eqb_spec (length b) (length a)) as [He|He].
  - rewrite less_than_vartime_spec by (apply Ha || apply Hb || done). cbn [mbind result_bind]. by destruct (_ <? _).
  - cbn [mbind result_bind]. destruct (Nat.ltb_spec (length a) (length b)).
    + by rewrite (proj2 (Z.ltb_lt _ _)) by (by apply natural_shorter).
    + pose proof (natural_shorter b a Hb Ha ltac:(lia)). by rewrite (proj2 (Z.ltb_ge _ _)) by lia.
Qed.

Lemma verify_less_than_modulus_spec a m : natural a → natural m.(m_limbs) →
  verify_less_than_modulus a m = if val a <? val m.(m_limbs) then Ok () else Err ().
Proof.
  intros Ha Hm. unfold verify_less_than_modulus, limbs_less_than_limbs_consttime. destruct (Nat.ltb_spec (length m.(m_limbs)) (length a)).
  { pose proof (natural_shorter _ a Hm Ha ltac:(lia)). by rewrite (proj2 (Z.ltb_ge _ _)) by lia. }
  destruct (Nat.eqb_spec (length a) (length m.(m_limbs))) as [He|He].
  - cbn [mbind result_bind]. by rewrite LIMBS_less_than_spec, mask_True by (apply Ha || apply Hm || done).
  - by rewrite (proj2 (Z.ltb_lt _ _)) by (apply natural_shorter; [done..|lia]).
Qed.

(** Padding with zero limbs. *)
Lemma widen_spec a k : limbs_ok a → (length a <= k)%nat →
  let r := a ++ drop (length a) (replicate k 0) in limbs_ok r ∧ length r = k ∧ val r = val a.
Proof.
  intros Ha Hk r. unfold r. rewrite drop_replicate. split; [apply Forall_app; split; [done|apply limbs_ok_replicate_0]|].
  split; [rewrite length_app, length_replicate; lia|]. rewrite val_app, val_replicate_0. lia.
Qed.

Lemma nonnegative_to_elem_spec a m : natural a → modulus_ok m →
  if val a <? val m.(m_limbs) then ∃ r, nonnegative_to_elem a m = Ok r ∧ reduced (as_partial m) r ∧ val r = val a
  else nonnegative_to_elem a m = Err ().
Proof.
  intros Ha Hm. pose proof (modulus_natural m Hm) as Hn. unfold nonnegative_to_elem. rewrite verify_less_than_modulus_spec by done.
  destruct (Z.ltb_spec (val a) (val m.(m_limbs))) as [Hlt|]; [|done]. cbn [mbind result_bind]. unfold zero. eexists. split; [done|].
  destruct (widen_spec a (length m.(m_limbs))) as (Hl & Hk & Hv); [apply Ha| |].
  { destruct (Nat.le_gt_cases (length a) (length m.(m_limbs))); [done|]. pose proof (natural_shorter _ a Hn Ha ltac:(lia)). lia. }
  split; [|done]. split; [done|done|]. rewrite Hv. cbn. destruct (natural_pos a Ha). lia.
Qed.

Lemma is_odd_spec a : limbs_ok a → is_odd a = Z.odd (val a).
Proof. intros Ha. unfold is_odd. by rewrite LIMBS_are_even_spec, mask_True, Z.negb_even. Qed.
End naturals.

(** ** Products with elements that need not be reduced *)

Section products.
Context {LW : LimbWidth} (m : Modulus) (Hm : modulus_ok m).
Abbreviation n := (val m.(m_limbs)).
Abbreviation num := (length m.(m_limbs)).
Abbreviation pm := (as_partial m).

Lemma modulus_pos : 0 < n.
Proof. destruct (mo_partial m Hm) as [_ _ _ H _ _]. cbn in H. lia. Qed.

Lemma elem_mul_spec a b : reduced pm a → limbs_ok b → length b = num →
  reduced pm (elem_mul a b m) ∧ cong n (val (elem_mul a b m) * base ^ Z.of_nat num) (val b * val a).
Proof.
  intros Ha Hb Hl. apply (mont_mul pm (mo_partial m Hm) b b a false); [done|done| |done|done].
  pose proof (val_bounds b Hb) as H. by rewrite Hl in H.
Qed.

(** Encoding. *)
Lemma encode_any b : limbs_ok b → length b = num → encodes pm (val b) (elem_mul m.(oneRR) b m).
Proof.
  intros Hb Hl. destruct (mo_RR m Hm) as [Hr Hc]. destruct (elem_mul_spec m.(oneRR) b Hr Hb Hl) as [Hr' Hc']. split; [done|].
  apply (cancel_R pm (mo_partial m Hm)). rewrite Hc', Hc. apply cong_eq. cbn. ring.
Qed.

(** Multiplying an encoded with a plain element. *)
Lemma mul_plain x a b : encodes pm x a → limbs_ok b → length b = num →
  reduced pm (elem_mul a b m) ∧ val (elem_mul a b m) = (x * val b) mod n.
Proof.
  intros [Ha Hc] Hb Hl. destruct (elem_mul_spec a b Ha Hb Hl) as [Hr Hc']. split; [done|]. pose proof modulus_pos.
  apply (cong_small n); [apply Hr|by apply Z.mod_pos_bound|]. rewrite cong_mod by lia.
  apply (cancel_R pm (mo_partial m Hm)). rewrite Hc', Hc. apply cong_eq. cbn. ring.
Qed.
End products.

(** ** Moduli that need not fill their limbs *)

Section keys.
Context {LW : LimbWidth}.

Lemma exp_loop_returns rounds k b e m acc : (k < rounds)%nat → ∃ r, exp_loop rounds b e (2 ^ Z.of_nat k) m acc = Ok r.
Proof.
  revert k acc. induction rounds as [|rounds IH]; intros k acc Hk; [lia|]. cbn [exp_loop]. destruct k as [|k]; [by eexists|].
  rewrite (proj2 (Z.ltb_lt _ _)) by (apply Z.pow_gt_1; lia).
  assert (Z.shiftr (2 ^ Z.of_nat (S k)) 1 = 2 ^ Z.of_nat k) as ->; [|apply IH; lia].
  rewrite Z.shiftr_div_pow2, Nat2Z.inj_succ, Z.pow_succ_r, Z.mul_comm by lia. by apply Z.div_mul.
Qed.

Lemma exp_vartime_returns b e m : 1 <= e <= PUBLIC_EXPONENT_MAX_VALUE → ∃ r, elem_exp_vartime_ b e m = Ok r.
Proof.
  intros He. unfold elem_exp_vartime_. rewrite (proj2 (Z.ltb_ge e 1)), (proj2 (Z.ltb_ge _ e)) by lia. rewrite Z.shiftl_1_l.
  assert (0 <= Z.log2 e < 64) as Hl.
  { split; [apply Z.log2_nonneg|]. apply Z.log2_lt_pow2; [lia|]. unfold PUBLIC_EXPONENT_MAX_VALUE in He. change (Z.shiftl 1 33 - 1) with 8589934591 in He. lia. }
  rewrite <-(Z2Nat.id (Z.log2 e)) by lia. apply exp_loop_returns. lia.
Qed.

Lemma newRR_returns m log2 : 0 <= log2 < LIMB_BITS * Z.of_nat (length m.(p_limbs)) → (length m.(p_limbs) <= MODULUS_MAX_LIMBS)%nat →
  ∃ r, newRR m (log2 + 1) = Ok r.
Proof.
  intros Hlog Hmax. pose proof limb_bits_pos. pose proof max_limbs. unfold newRR. rewrite length_replicate, Z.add_simpl_r.
  rewrite (proj2 (Z.leb_gt _ _)) by (apply Z.div_lt_upper_bound; lia). apply exp_vartime_returns.
  assert (LIMB_BITS <= 64) by (destruct limb_bits_cases; lia). assert (LIMB_BITS * Z.of_nat (length m.(p_limbs)) <= 8192) by nia.
  assert (LIMB_BITS * ((log2 + LIMB_BITS) / LIMB_BITS) <= log2 + LIMB_BITS) by (apply Z.mul_div_le; lia).
  assert (1 <= (log2 + LIMB_BITS) / LIMB_BITS) by (apply Z.div_le_lower_bound; lia).
  replace (log2 + 1 + (LIMB_BITS - 1)) with (log2 + LIMB_BITS) by lia. rewrite (Z.mul_comm _ LIMB_BITS).
  assert (32 <= LIMB_BITS * ((log2 + LIMB_BITS) / LIMB_BITS) <= 8256) as Hr by nia. revert Hr. generalize (LIMB_BITS * ((log2 + LIMB_BITS) / LIMB_BITS)).
  intros r Hr. unfold PUBLIC_EXPONENT_MAX_VALUE. change (Z.shiftl 1 33 - 1) with 8589934591. Z.to_euclidean_division_equations. lia.
Qed.

Lemma from_boxed_limbs_returns n : limbs_ok n →
  match from_boxed_limbs n with Ok (m, _) => m.(m_limbs) = n | Err _ => True | Panic => False end.
Proof.
  intros Hn. unfold from_boxed_limbs. destruct (Nat.ltb_spec MODULUS_MAX_LIMBS (length n)) as [|Hmax]; [done|].
  destruct (Nat.ltb_spec (length n) MODULUS_MIN_LIMBS) as [|Hmin]; [done|]. unfold MODULUS_MIN_LIMBS in Hmin.
  destruct (negb _); [done|]. rewrite LIMBS_less_than_limb_spec; [|done|by intros ->; cbn in Hmin; lia|unfold is_limb; pose proof base_pos; lia].
  rewrite mask_False, negb_involutive. destruct (Z.ltb_spec (val n) 3); [done|].
  rewrite limbs_minimal_bits_spec, (proj2 (Z.eqb_neq (val n) 0)) by (done || lia). pose proof limb_bits_pos.
  destruct (newRR_returns (mkPartialModulus n (n0_from (GFp_bn_neg_inv_mod_r_u64 (n_mod_r n)))) (Z.log2 (val n))) as [r ->]; [|done|done]. cbn [p_limbs].
  split; [apply Z.log2_nonneg|]. apply Z.log2_lt_pow2; [lia|]. rewrite Z.pow_mul_r by lia. apply (val_bounds n Hn).
Qed.

(** ** The primes *)

Import Signing.

Record prime_ok (pp : PrivatePrime) : Prop := {
  pr_modulus : modulus_ok pp.(prime_modulus);
  pr_512 : (Z.log2 (val pp.(prime_modulus).(m_limbs)) + 1) mod 512 = 0;
  pr_limbs : limbs_ok pp.(prime_exponent);
  pr_length : length pp.(prime_exponent) = length pp.(prime_modulus).(m_limbs);
  pr_odd : Z.odd (val pp.(prime_exponent)) = true;
  pr_less : val pp.(prime_exponent) < val pp.(prime_modulus).(m_limbs)
}.

(** The width of a prime. *)
Lemma width_512 l : natural l → (Z.log2 (val l) + 1) mod 512 = 0 → Z.of_nat (length l) * LIMB_BITS = Z.log2 (val l) + 1.
Proof.
  intros Hn H512. pose proof (natural_length l Hn) as Hl. pose proof limb_bits_pos. rewrite Hl. clear Hl.
  pose proof (Z.log2_nonneg (val l)). destruct limb_bits_cases as [E|E]; rewrite E; Z.to_euclidean_division_equations; lia.
Qed.

Lemma prime_width pp : prime_ok pp → (Z.of_nat (length pp.(prime_modulus).(m_limbs)) * LIMB_BITS) mod 512 = 0.
Proof. intros Hp. rewrite width_512; [apply Hp|apply modulus_natural, Hp|apply Hp]. Qed.

(** An element of a modulus from bytes of any length. *)
Lemma padded_less_than_spec i m : bytes_ok i → minimal i = true → modulus_ok m →
  if from_be_bytes i <? val m.(m_limbs) then
    ∃ r, from_be_bytes_padded_less_than (Reader := list Z) i m = Ok r ∧ reduced (as_partial m) r ∧ val r = from_be_bytes i
  else from_be_bytes_padded_less_than (Reader := list Z) i m = Err ().
Proof.
  intros Hi Hmin Hm. unfold from_be_bytes_padded_less_than, limbs_less_than_limbs_consttime. pose proof (modulus_natural m Hm) as Hn.
  destruct (minimal_bounds i Hi Hmin) as [Hlen Hv].
  pose proof (parse_big_endian_spec i (length m.(m_limbs)) Hi) as Hp.
  destruct (parse_big_endian_and_pad_consttime _ _) as [r|[]|]; [|destruct Hp as [->|Hp]; [done|]|done].
  - destruct Hp as (Hr & Hl & Hval & _ & _). cbn [mbind result_bind]. rewrite Hl, Nat.eqb_refl. cbn [mbind result_bind].
    rewrite LIMBS_less_than_spec, mask_True, Hval by (done || apply Hn).
    destruct (Z.ltb_spec (from_be_bytes i) (val m.(m_limbs))); [|done]. exists r. split; [done|]. split; [|done].
    split; [done|done|]. cbn. rewrite Hval. pose proof (from_be_bytes_bounds i Hi). lia.
  - cbn [mbind result_bind]. rewrite (proj2 (Z.ltb_ge _ _)); [done|]. destruct (natural_pos _ Hn) as [_ Hb].
    rewrite base_pow_bytes in Hb. assert (256 ^ Z.of_nat (length m.(m_limbs) * LIMB_BYTES) <= 256 ^ Z.of_nat (length i - 1)); [|lia].
    apply Z.pow_le_mono_r; lia.
Qed.

Lemma prime_new_spec p dP : natural p → bytes_ok dP → minimal dP = true →
  match prime_new (Reader := list Z) p dP with
  | Ok pp => prime_ok pp ∧ pp.(prime_modulus).(m_limbs) = p ∧ val pp.(prime_exponent) = from_be_bytes dP
  | Err _ => ¬ (Z.odd (val p) = true ∧ (Z.log2 (val p) + 1) mod 512 = 0 ∧ Z.log2 (val p) < 8192 ∧
                Z.odd (from_be_bytes dP) = true ∧ from_be_bytes dP < val p)
  | Panic => False
  end.
Proof.
  intros Hp HdP Hmin. unfold prime_new, from_nonnegative_with_bit_length.
  pose proof (from_boxed_limbs_spec p (nt_limbs p Hp) (λ _, nt_min p Hp)) as Hb.
  destruct (from_boxed_limbs p) as [[m bits]|e|]; [|cbn [mbind result_bind]|done].
  - destruct Hb as (Hml & -> & Hm). cbn [mbind result_bind].
    destruct (Z.eqb_spec ((Z.log2 (val p) + 1) mod 512) 0) as [H512|]; cbn [negb]; [|naive_solver].
    unfold private_exponent_from_be_bytes_padded. pose proof (padded_less_than_spec dP m HdP Hmin Hm) as Hd. rewrite Hml in Hd.
    destruct (Z.ltb_spec (from_be_bytes dP) (val p)); [|rewrite Hd; cbn; lia]. destruct Hd as (r & -> & Hr & Hv). cbn [mbind result_bind].
    rewrite LIMBS_are_even_spec, mask_False, Z.negb_even, Hv by apply Hr.
    destruct (Z.odd (from_be_bytes dP)) eqn:Hodd; cbn [map_err mbind result_bind]; [|naive_solver].
    split; [|done]. split; cbn [prime_modulus prime_exponent]; rewrite ?Hml, ?Hv; [done|done|apply Hr|by rewrite <-Hml; apply Hr|done|done].
  - intros (Ho & H512 & Hmax & _). apply Hb. split; [|done]. pose proof (width_512 p Hp H512) as Hw. pose proof limb_bits_pos. pose proof max_limbs.
    pose proof (Z.log2_nonneg (val p)). unfold MODULUS_MIN_LIMBS. assert (LIMB_BITS <= 64) by (destruct limb_bits_cases; lia).
    assert (512 <= Z.log2 (val p) + 1 <= 8192) by (Z.to_euclidean_division_equations; lia). nia.
Qed.

Lemma half_rounded_up_spec bits : 0 <= bits → half_rounded_up bits = (bits + 1) / 2.
Proof. intros Hb. unfold half_rounded_up. rewrite land_1. destruct (Z.odd bits) eqn:Ho; [apply Z.odd_spec in Ho as [k ->]|]; [Z.to_euclidean_division_equations; lia|].
  assert (Z.even bits = true) as [k ->]%Z.even_spec by (by rewrite <-Z.negb_odd, Ho). Z.to_euclidean_division_equations; lia. Qed.

Section checks.
Context (key : Key) (Hkey : modulus_ok key.(k_n)) (Hbits : key.(k_n_bits) = Z.log2 (val key.(k_n).(m_limbs)) + 1).
Abbreviation n := (val key.(k_n).(m_limbs)).
Abbreviation half := ((Z.log2 n + 2) / 2).

Lemma half_n_bits : half_rounded_up key.(k_n_bits) = half.
Proof. rewrite Hbits, half_rounded_up_spec; [f_equal; lia|]. pose proof (Z.log2_nonneg n). lia. Qed.

Lemma check_primes_spec p q : natural p → natural q →
  match check_primes key p (Z.log2 (val p) + 1) q (Z.log2 (val q) + 1) with
  | Ok (qd, qm) => Z.log2 (val p) + 1 = half ∧ Z.log2 (val q) = Z.log2 (val p) ∧ val q < n ∧ val p < n ∧
      (val p * val q) mod n = 0 ∧ reduced (as_partial key.(k_n)) qd ∧ val qd = val q ∧ encodes (as_partial key.(k_n)) (val q) qm
  | Err _ => ¬ (Z.log2 (val p) + 1 = half ∧ Z.log2 (val q) = Z.log2 (val p) ∧ val q < n ∧ val p < n ∧ (val p * val q) mod n = 0)
  | Panic => False
  end.
Proof.
  intros Hp Hq. unfold check_primes. rewrite half_n_bits.
  destruct (Z.eqb_spec (Z.log2 (val p) + 1) half); cbn [negb]; [|naive_solver].
  destruct (Z.eqb_spec (Z.log2 (val p) + 1) (Z.log2 (val q) + 1)); cbn [negb]; [|naive_solver lia].
  pose proof (nonnegative_to_elem_spec q key.(k_n) Hq Hkey) as Eq. destruct (Z.ltb_spec (val q) n); [|rewrite Eq; cbn; naive_solver lia].
  destruct Eq as (qd & -> & Hqd & Hqv). cbn [map_err mbind result_bind].
  pose proof (nonnegative_to_elem_spec p key.(k_n) Hp Hkey) as Ep. destruct (Z.ltb_spec (val p) n); [|rewrite Ep; cbn; naive_solver lia].
  destruct Ep as (pd & -> & Hpd & Hpv). cbn [map_err mbind result_bind].
  pose proof (encode_any key.(k_n) Hkey qd (rd_limbs _ _ Hqd) (rd_length _ _ Hqd)) as Hqm. rewrite Hqv in Hqm.
  destruct (mul_plain key.(k_n) Hkey _ _ pd Hqm (rd_limbs _ _ Hpd) (rd_length _ _ Hpd)) as [Hr Hv].
  rewrite elem_is_zero_spec, Hv, Hpv, Z.mul_comm by apply Hr.
  destruct (Z.eqb_spec ((val p * val q) mod n) 0); cbn [negb]; [|naive_solver]. split_and!; done || lia.
Qed.

Lemma check_d_spec d : bytes_ok d → minimal d = true →
  match check_d (Reader := list Z) key d with
  | Ok _ => True
  | Err _ => ¬ (half <= Z.log2 (from_be_bytes d) ∧ from_be_bytes d < n ∧ Z.odd (from_be_bytes d) = true)
  | Panic => False
  end.
Proof.
  intros Hd Hm. unfold check_d. destruct (nonnegative_spec d Hd Hm) as (l & -> & Hl & Hv). cbn [map_err mbind result_bind]. rewrite half_n_bits.
  destruct (Z.ltb_spec half (Z.log2 (from_be_bytes d) + 1)); cbn [negb]; [|lia].
  rewrite verify_less_than_modulus_spec by (done || by apply modulus_natural). rewrite Hv.
  destruct (Z.ltb_spec (from_be_bytes d) n); cbn [map_err mbind result_bind]; [|lia].
  rewrite is_odd_spec, Hv by apply Hl. destruct (Z.odd _); cbn [negb]; [done|naive_solver].
Qed.
End checks.

(** ** The inverse of [q] *)

Lemma for_flt_spec m : modulus_ok m → let r := for_flt m in limbs_ok r ∧ length r = length m.(m_limbs) ∧ val r = val m.(m_limbs) - 2.
Proof.
  intros Hm r. pose proof (one_spec m Hm) as [H1 Hv1]. pose proof (mo_partial m Hm) as [Hl _ _ H3 _ _]. cbn in Hl, H3.
  destruct (LIMBS_add_mod_spec (one m) (one m) m.(m_limbs)) as (Ht & Htl & Htv); [apply H1|apply H1|done|apply H1|apply H1|apply H1|apply H1|].
  rewrite Hv1, Z.mod_small in Htv by lia.
  destruct (LIMBS_sub_mod_spec (zero m) (LIMBS_add_mod (one m) (one m) m.(m_limbs)) m.(m_limbs)) as (Hr & Hrl & Hrv);
    [apply limbs_ok_replicate_0|done|done|by unfold zero; rewrite length_replicate|done|unfold zero; rewrite val_replicate_0; lia|lia|].
  split; [done|]. split; [done|]. unfold r, for_flt, elem_sub, elem_add. rewrite Hrv, Htv. unfold zero. rewrite val_replicate_0.
  symmetry. apply Z.mod_unique with (-1); [left|]; lia.
Qed.

Lemma check_qInv_spec p q qInv : prime_ok p → prime_ok q →
  length q.(prime_modulus).(m_limbs) = length p.(prime_modulus).(m_limbs) →
  match qInv with Some i => bytes_ok i ∧ minimal i = true | None => True end →
  let P := val p.(prime_modulus).(m_limbs) in
  let Q := val q.(prime_modulus).(m_limbs) in
  match check_qInv (Reader := list Z) p q qInv with
  | Ok r => ∃ i, encodes (as_partial p.(prime_modulus)) i r ∧ cong P (Q * i) 1
  | Err _ => match qInv with
             | Some i => ¬ (from_be_bytes i < P ∧ cong P (Q * from_be_bytes i) 1)
             | None => ¬ cong P (Q ^ (P - 1)) 1
             end
  | Panic => False
  end.
Proof.
  intros Hp Hq Hl Hi P Q. pose proof (pr_modulus p Hp) as Hm. pose proof (modulus_pos _ Hm) as HP. fold P in HP.
  pose proof (pk_three _ (mo_partial _ Hm)) as H3. cbn in H3. fold P in H3.
  assert (limbs_ok q.(prime_modulus).(m_limbs)) as Hql by apply (pr_modulus q Hq).
  unfold check_qInv, to_elem. rewrite Hl, Nat.eqb_refl. cbn [no_err mbind result_bind].
  (* the part after the inverse is known *)
  assert (∀ i, reduced (as_partial p.(prime_modulus)) i →
    let r := elem_mul (oneRR (prime_modulus p)) i (prime_modulus p) in
    encodes (as_partial p.(prime_modulus)) (val i) r ∧
    verify_inverses_consttime r (m_limbs (prime_modulus q)) (prime_modulus p) = if (val i * Q) mod P =? 1 then Ok () else Err ()) as Hfin.
  { intros i Hri r. pose proof (encode_any _ Hm i (rd_limbs _ _ Hri) (rd_length _ _ Hri)) as He. split; [done|].
    destruct (mul_plain _ Hm _ _ _ He Hql Hl) as [Hr Hv]. unfold verify_inverses_consttime, elem_is_one, r.
    rewrite LIMBS_equal_limb_spec by (apply Hr || (unfold is_limb; pose proof base_pos; lia)). by rewrite mask_True, Hv. }
  assert (∀ x, (x mod P =? 1) = true ↔ cong P x 1) as Hone.
  { intros x. rewrite Z.eqb_eq, cong_iff by lia. by rewrite (Z.mod_small 1) by lia. }
  destruct qInv as [i|]; cbn [map_err mbind result_bind].
  - destruct Hi as [Hi Hmin]. pose proof (padded_less_than_spec i _ Hi Hmin Hm) as Hr. fold P in Hr. unfold elem_from_be_bytes_padded.
    destruct (Z.ltb_spec (from_be_bytes i) P); [|rewrite Hr; cbn; lia]. destruct Hr as (r & -> & Hr & Hv). cbn [map_err mbind result_bind].
    destruct (Hfin r Hr) as [He ->]. specialize (Hone (val r * Q)). rewrite Hv in *.
    destruct ((from_be_bytes i * Q) mod P =? 1); cbn [map_err mbind result_bind]; rewrite (Z.mul_comm _ Q) in Hone; [|naive_solver].
    exists (from_be_bytes i). naive_solver.
  - unfold elem_inverse_consttime. destruct (for_flt_spec _ Hm) as (Hfl & Hfn & Hfv).
    pose proof (encode_any _ Hm _ Hql Hl) as He.
    destruct (elem_exp_consttime_spec _ Hm _ _ _ He Hfl) as (r & -> & Hr & Hv); [|by apply prime_width|].
    { intros Hn. rewrite Hn in Hfn. pose proof (pk_some _ (mo_partial _ Hm)) as Hs. cbn in Hs. by destruct (m_limbs (prime_modulus p)). }
    cbn [map_err mbind result_bind]. destruct (Hfin r Hr) as [He' ->]. specialize (Hone (val r * Q)). fold P Q in Hv. rewrite Hfv in Hv. fold P in Hv.
    destruct ((val r * Q) mod P =? 1); cbn [map_err mbind result_bind].
    + exists (val r). rewrite (Z.mul_comm Q). naive_solver.
    + intros Hc. assert (false = true) by (apply Hone; rewrite Hv, cong_mod by lia; rewrite <-Hc; apply cong_eq;
        replace (P - 1) with (P - 2 + 1) by lia; by rewrite Z.pow_add_r, Z.pow_1_r by lia). done.
Qed.
End keys.
