(* ===== verification/RingSigningProofs.v ===== *)
(** * RSA signatures verify

    A key pair that [from_der] accepts is well formed ([keypair_ok]).  Signing with it never panics
    and every signature it returns is one that [rsa_verify] accepts with its public key; with the numbers
    of an RSA key it returns one. *)
From S2P Require Import Prelude Errors Frame Untrusted RingIo RingDigest RingLimb RingLimbProofs RingMont RingMontProofs RingBigint RingBigintProofs.
From S2P Require Import WebpkiSafe RingExpProofs RingCrt RingRsa RingPaddingProofs RingRsaProofs RingSigning RingKeyProofs.
Import Signing.

(** ** Key pairs *)

Section keypair.
Context {LW : LimbWidth}.

(** [n] and [e] are the bytes of the public key, [p] and [q] the primes with [q <= p], [dP] and [dQ] their exponents. *)
Record keypair_ok (n e : list Z) (p q dP dQ : Z) (kp : RsaKeyPair) : Prop := {
  ko_n : modulus_of n kp.(kp_public).(k_n);
  ko_e : kp.(kp_public).(k_e) = from_be_bytes e;
  ko_bits : kp.(kp_public).(k_n_bits) = Z.log2 (from_be_bytes n) + 1;
  ko_acceptable : acceptable 2048 4096 65537 n e = true;
  ko_key : from_n_and_e (Positive_new n) (Positive_new e) = Ok kp.(kp_public_key);
  ko_p : prime_ok kp.(kp_p);
  ko_q : prime_ok kp.(kp_q);
  ko_pv : val kp.(kp_p).(prime_modulus).(m_limbs) = p;
  ko_qv : val kp.(kp_q).(prime_modulus).(m_limbs) = q;
  ko_dP : val kp.(kp_p).(prime_exponent) = dP;
  ko_dQ : val kp.(kp_q).(prime_exponent) = dQ;
  ko_half : Z.log2 p + 1 = (Z.log2 (from_be_bytes n) + 2) / 2;
  ko_same : Z.log2 q = Z.log2 p;
  ko_order : q <= p;
  ko_less : p < from_be_bytes n;
  ko_product : (p * q) mod from_be_bytes n = 0;
  ko_inverse : ∃ i, encodes (as_partial kp.(kp_p).(prime_modulus)) i kp.(kp_qInv) ∧ cong p (q * i) 1;
  ko_qq : limbs_ok kp.(kp_qq).(m_limbs) ∧ length kp.(kp_qq).(m_limbs) = length kp.(kp_public).(k_n).(m_limbs) ∧
    val kp.(kp_qq).(m_limbs) = (q * q) mod from_be_bytes n;
  ko_q_mod_n : encodes (as_partial kp.(kp_public).(k_n)) q kp.(kp_q_mod_n)
}.

(** The numbers of a key that passes all checks but that of the inverse. *)
Record key_numbers (n e d : list Z) (p q dP dQ : Z) : Prop := {
  kn_acceptable : acceptable 2048 4096 65537 n e = true;
  kn_product : p * q = from_be_bytes n;
  kn_order : 0 < q < p;
  kn_same : Z.log2 q = Z.log2 p;
  kn_512 : (Z.log2 p + 1) mod 512 = 0;
  kn_dP : Z.odd dP = true ∧ dP < p;
  kn_dQ : Z.odd dQ = true ∧ dQ < q;
  kn_d : Z.odd (from_be_bytes d) = true ∧ 2 ^ (Z.log2 p + 1) <= from_be_bytes d < from_be_bytes n
}.

Lemma log2_product p q : 0 < p → 0 < q → Z.log2 q = Z.log2 p → (Z.log2 (p * q) + 2) / 2 = Z.log2 p + 1.
Proof.
  intros Hp Hq He. pose proof (Z.log2_mul_below p q Hp Hq). pose proof (Z.log2_mul_above p q ltac:(lia) ltac:(lia)). rewrite He in *.
  symmetry. apply Z.div_unique with (Z.log2 (p * q) - 2 * Z.log2 p); lia.
Qed.

Definition number (l : list Z) : Prop := bytes_ok l ∧ minimal l = true.
Lemma positive_number p : positive_ok p → number p.(big_endian_without_leading_zero).
Proof. intros [Hb (b & l & Hp & H0)]. split; [done|]. rewrite Hp. cbn. by apply negb_true_iff, Z.eqb_neq. Qed.
Lemma number_positive l : number l → positive_ok (Positive_new l).
Proof.
  intros [Hb Hm]. split; [done|]. cbn. destruct l as [|b l]; [done|]. exists b, l. split; [done|]. cbn in Hm. by apply negb_true_iff, Z.eqb_neq in Hm.
Qed.

(** [q ** 2] modulo [n] as a modulus; with the numbers of a key it is accepted. *)
Lemma qq_spec n m : modulus_ok m → reduced (as_partial m) n →
  match into_modulus n with
  | Ok qq => qq.(m_limbs) = n
  | Err _ => ¬ (Z.odd (val n) = true ∧ base ^ Z.of_nat (length n - 1) <= val n)
  | Panic => False
  end.
Proof.
  intros Hm Hn. unfold into_modulus. pose proof (from_boxed_limbs_returns n (rd_limbs _ _ Hn)) as Hr.
  destruct (from_boxed_limbs n) as [[qq b]|e|] eqn:Hb; [done| |done]. cbn [mbind result_bind]. intros [Ho Hmin].
  pose proof (from_boxed_limbs_spec n (rd_limbs _ _ Hn) (λ _, Hmin)) as Hs. rewrite Hb in Hs. apply Hs. split; [|done].
  rewrite (rd_length _ _ Hn). apply Hm.
Qed.
End keypair.
