(* ===== verification/Bls.v ===== *)
(** * BLS signatures

    [src/utils/verify-bls-signatures/src/lib.rs].  The curve is the crate [bls12_381], which is not
    part of the repository: the class [Bls12_381] has the operations the code uses,
    [Bls12_381Laws] what their documentation says of them: the groups have a bilinear and
    non-degenerate pairing, and encodings of points and scalars can be read back.

    A message has exactly one signature under a key, the one that [sign] makes
    ([bls_verify_iff]).  [random] does not look at the error of the generator of random bytes: when
    it fails, the key is zero, and the same signature is accepted for every message ([random_failed_key]). *)
From S2P Require Import Prelude Errors Frame Common Untrusted.

Class Bls12_381 := {
  G1Affine : Type;
  G2Affine : Type;
  Gt : Type;
  (** A [Scalar] is a number below [order]. *)
  order : Z;
  G2_generator : G2Affine;
  G2_neg : G2Affine → G2Affine;
  G1_mul : G1Affine → Z → G1Affine;
  G2_mul : G2Affine → Z → G2Affine;
  (** [HashToCurve<ExpandMsgXmd<Sha256>>]: message and domain separator. *)
  hash_to_curve : list Z → list Z → G1Affine;
  G1_to_compressed : G1Affine → list Z;
  G1_from_compressed : list Z → option G1Affine;
  G2_to_compressed : G2Affine → list Z;
  G2_from_compressed : list Z → option G2Affine;
  Scalar_to_bytes : Z → list Z;
  Scalar_from_bytes : list Z → option Z;
  (** [multi_miller_loop(terms).final_exponentiation()] *)
  multi_pairing : list (G1Affine * G2Affine) → Gt;
  Gt_is_identity : Gt → bool
}.

Inductive InvalidPublicKey := PublicKey_WrongLength | PublicKey_InvalidPoint.
Inductive InvalidSignature := Signature_WrongLength | Signature_InvalidPoint.
Inductive InvalidPrivateKey := PrivateKey_WrongLength | PrivateKey_OutOfRange.

Section bls.
Context `{!Bls12_381}.

Definition G2PREPARED_NEG_G : G2Affine := G2_neg G2_generator.

Definition BLS_SIGNATURE_DOMAIN_SEP : list Z := bytes_of "BLS_SIG_BLS12381G1_XMD:SHA-256_SSWU_RO_NUL_".

Definition hash_to_g1 (msg : list Z) : G1Affine := hash_to_curve msg BLS_SIGNATURE_DOMAIN_SEP.

(** [try_into] an array *)
Definition try_into (len : nat) (bytes : list Z) : option (list Z) :=
  if (length bytes =? len)%nat then Some bytes else None.

Record PublicKey := PublicKey_new { pk : G2Affine }.
Record Signature := Signature_new { sig : G1Affine }.
Record PrivateKey := PrivateKey_new { sk : Z }.

Definition PublicKey_BYTES : nat := 96.
Definition Signature_BYTES : nat := 48.
Definition PrivateKey_BYTES : nat := 32.

Definition PublicKey_serialize (self : PublicKey) : list Z := G2_to_compressed self.(pk).

Definition PublicKey_deserialize (bytes : list Z) : result InvalidPublicKey PublicKey :=
  match try_into PublicKey_BYTES bytes with
  | None => Err PublicKey_WrongLength
  | Some b =>
      match G2_from_compressed b with
      | Some pk => Ok (PublicKey_new pk)
      | None => Err PublicKey_InvalidPoint
      end
  end.

Definition PublicKey_verify (self : PublicKey) (message : list Z) (signature : Signature) : result unit unit :=
  let msg := hash_to_g1 message in
  let x := multi_pairing [(signature.(sig), G2PREPARED_NEG_G); (msg, self.(pk))] in
  if Gt_is_identity x then Ok () else Err ().

Definition Signature_serialize (self : Signature) : list Z := G1_to_compressed self.(sig).

Definition Signature_deserialize (bytes : list Z) : result InvalidSignature Signature :=
  match try_into Signature_BYTES bytes with
  | None => Err Signature_WrongLength
  | Some b =>
      match G1_from_compressed b with
      | Some sig => Ok (Signature_new sig)
      | None => Err Signature_InvalidPoint
      end
  end.

(** A call of [getrandom] returns whether it succeeded and what the buffer holds afterwards; [calls]
    has what the next calls return.  The loop has no other bound. *)
Fixpoint random (calls : list (result unit unit * list Z)) : option PrivateKey :=
  match calls with
  | [] => None
  | (_, buf) :: calls =>
      match Scalar_from_bytes buf with
      | Some s => Some (PrivateKey_new s)
      | None => random calls
      end
  end.

Definition PrivateKey_serialize (self : PrivateKey) : list Z := reverse (Scalar_to_bytes self.(sk)).

Definition PrivateKey_deserialize (bytes : list Z) : result InvalidPrivateKey PrivateKey :=
  match try_into PrivateKey_BYTES bytes with
  | None => Err PrivateKey_WrongLength
  | Some b =>
      match Scalar_from_bytes (reverse b) with
      | Some sk => Ok (PrivateKey_new sk)
      | None => Err PrivateKey_OutOfRange
      end
  end.

Definition public_key (self : PrivateKey) : PublicKey := PublicKey_new (G2_mul G2_generator self.(sk)).

Definition sign (self : PrivateKey) (message : list Z) : Signature :=
  Signature_new (G1_mul (hash_to_g1 message) self.(sk)).

Definition verify_bls_signature (sig msg key : list Z) : result unit unit :=
  sig ← map_err (λ _, ()) (Signature_deserialize sig);
  pk ← map_err (λ _, ()) (PublicKey_deserialize key);
  PublicKey_verify pk msg sig.
End bls.

(** ** What the curve promises *)

Class Bls12_381Laws `{!Bls12_381} := {
  (** The group of the pairing *)
  Gt_add : Gt → Gt → Gt;
  Gt_opp : Gt → Gt;
  Gt_scale : Gt → Z → Gt;
  Gt_cancel x y : Gt_is_identity (Gt_add (Gt_opp x) y) = true ↔ x = y;
  (** The pairing of several terms is the product of the pairings. *)
  multi_pairing_two p q p' q' :
    multi_pairing [(p, q); (p', q')] = Gt_add (multi_pairing [(p, q)]) (multi_pairing [(p', q')]);
  (** It is bilinear and not degenerate. *)
  pairing_neg p q : multi_pairing [(p, G2_neg q)] = Gt_opp (multi_pairing [(p, q)]);
  pairing_mul_l p q a : multi_pairing [(G1_mul p a, q)] = Gt_scale (multi_pairing [(p, q)]) a;
  pairing_mul_r p q a : multi_pairing [(p, G2_mul q a)] = Gt_scale (multi_pairing [(p, q)]) a;
  pairing_injective p p' :
    multi_pairing [(p, G2_generator)] = multi_pairing [(p', G2_generator)] → p = p';
  (** Zero times a point is the neutral element. *)
  G1_mul_zero p p' : G1_mul p 0 = G1_mul p' 0;
  (** Encodings *)
  G1_round_trip p : G1_from_compressed (G1_to_compressed p) = Some p;
  G2_round_trip q : G2_from_compressed (G2_to_compressed q) = Some q;
  G1_length p : length (G1_to_compressed p) = 48%nat;
  G2_length q : length (G2_to_compressed q) = 96%nat;
  Scalar_round_trip s : 0 <= s < order → Scalar_from_bytes (Scalar_to_bytes s) = Some s;
  Scalar_length s : length (Scalar_to_bytes s) = 32%nat;
  Scalar_from_bytes_spec b s : Scalar_from_bytes b = Some s → 0 <= s < order;
  Scalar_zero : Scalar_from_bytes (replicate 32 0) = Some 0
}.

Section theorems.
Context `{!Bls12_381} `{!Bls12_381Laws}.

Lemma verify_pairing key msg s :
  PublicKey_verify key msg s = Ok () ↔
  multi_pairing [(s.(sig), G2_generator)] = multi_pairing [(hash_to_g1 msg, key.(pk))].
Proof.
  unfold PublicKey_verify, G2PREPARED_NEG_G. rewrite multi_pairing_two, pairing_neg, <-Gt_cancel. by destruct (Gt_is_identity _).
Qed.

Lemma deserialize_serialize_public key : PublicKey_deserialize (PublicKey_serialize key) = Ok key.
Proof.
  destruct key. unfold PublicKey_deserialize, PublicKey_serialize, try_into, PublicKey_BYTES. cbn [pk]. by rewrite G2_length, Nat.eqb_refl, G2_round_trip.
Qed.

Lemma deserialize_serialize_signature s : Signature_deserialize (Signature_serialize s) = Ok s.
Proof.
  destruct s. unfold Signature_deserialize, Signature_serialize, try_into, Signature_BYTES. cbn [sig]. by rewrite G1_length, Nat.eqb_refl, G1_round_trip.
Qed.

Lemma deserialize_serialize_private key : 0 <= key.(sk) < order → PrivateKey_deserialize (PrivateKey_serialize key) = Ok key.
Proof.
  destruct key. cbn [sk]. intros Hs. unfold PrivateKey_deserialize, PrivateKey_serialize, try_into, PrivateKey_BYTES. cbn [sk].
  by rewrite length_reverse, Scalar_length, Nat.eqb_refl, reverse_involutive, Scalar_round_trip.
Qed.

(** C15 A message has exactly one signature under a key pair: verification with the public key accepts the
    signature that the private key makes, and no other; this also holds for keys and
    signatures in their binary form. *)
Theorem bls_verify_iff key msg s :
  (PublicKey_verify (public_key key) msg s = Ok () ↔ s = sign key msg) ∧
  (verify_bls_signature (Signature_serialize s) msg (PublicKey_serialize (public_key key)) = Ok () ↔ s = sign key msg).
Proof.
  assert (PublicKey_verify (public_key key) msg s = Ok () ↔ s = sign key msg) as Hv.
  { rewrite verify_pairing. unfold public_key, sign. cbn [pk]. rewrite pairing_mul_r, <-pairing_mul_l. destruct s as [s]. cbn [sig].
    split; [by intros ->%pairing_injective|by intros [= ->]]. }
  split; [done|]. unfold verify_bls_signature. rewrite deserialize_serialize_signature, deserialize_serialize_public. done.
Qed.

(** A private key that is read from bytes it was written to is the same, and a key of the
    wrong length or out of range is refused with its error. *)
Theorem private_key_round_trip key bytes :
  0 <= key.(sk) < order →
  PrivateKey_deserialize (PrivateKey_serialize key) = Ok key ∧
  (length bytes ≠ 32%nat → PrivateKey_deserialize bytes = Err PrivateKey_WrongLength) ∧
  (∀ key', PrivateKey_deserialize bytes = Ok key' → 0 <= key'.(sk) < order).
Proof.
  intros Hs. split; [by apply deserialize_serialize_private|]. unfold PrivateKey_deserialize, try_into, PrivateKey_BYTES.
  destruct (Nat.eqb_spec (length bytes) 32) as [Hl|Hl]; [|done]. split; [done|]. intros key'.
  destruct (Scalar_from_bytes (reverse bytes)) as [s|] eqn:Hb; [|done]. intros [= <-]. by eapply Scalar_from_bytes_spec.
Qed.

(** C16 When the generator of random bytes fails and leaves the buffer as it is, [random] does not notice:
    it returns the private key zero, for which every message has the same signature. *)
Theorem random_failed_key calls msg msg' :
  ∃ key, random ((Err (), replicate 32 0) :: calls) = Some key ∧ key.(sk) = 0 ∧
    PublicKey_verify (public_key key) msg' (sign key msg) = Ok ().
Proof.
  exists (PrivateKey_new 0). cbn [random]. rewrite Scalar_zero. split; [done|]. split; [done|].
  rewrite verify_pairing. unfold sign, public_key. cbn [sig pk sk]. rewrite pairing_mul_r, <-pairing_mul_l, (G1_mul_zero _ (hash_to_g1 msg')). done.
Qed.
End theorems.

(** ** An instance

    The groups of order two; the pairing is the conjunction. *)

Definition bit_bytes (n : nat) (b : bool) : list Z := Z.b2z b :: replicate (n - 1) 0.
Definition bytes_bit (n : nat) (bytes : list Z) : option bool :=
  if bool_decide (bytes = bit_bytes n true) then Some true
  else if bool_decide (bytes = bit_bytes n false) then Some false else None.

Definition order_two : Bls12_381 := {|
  G1Affine := bool; G2Affine := bool; Gt := bool;
  order := 2;
  G2_generator := true;
  G2_neg q := q;
  G1_mul p a := p && Z.odd a;
  G2_mul q a := q && Z.odd a;
  hash_to_curve msg dst := Nat.odd (length msg);
  G1_to_compressed := bit_bytes 48;
  G1_from_compressed := bytes_bit 48;
  G2_to_compressed := bit_bytes 96;
  G2_from_compressed := bytes_bit 96;
  Scalar_to_bytes s := bit_bytes 32 (Z.odd s);
  Scalar_from_bytes b := Z.b2z <$> bytes_bit 32 b;
  multi_pairing terms := foldr (λ t x, xorb (t.1 && t.2) x) false terms;
  Gt_is_identity x := negb x
|}.

Lemma bytes_bit_bytes n b : bytes_bit n (bit_bytes n b) = Some b.
Proof. unfold bytes_bit. destruct b; [by rewrite bool_decide_true|]. rewrite bool_decide_false by done. by rewrite bool_decide_true. Qed.

Definition order_two_laws : @Bls12_381Laws order_two.
Proof.
  refine {| Gt_add := xorb : @Gt order_two → @Gt order_two → @Gt order_two; Gt_opp x := x : @Gt order_two; Gt_scale x a := andb x (Z.odd a) : @Gt order_two |}; cbn.
  - by intros [] [].
  - intros p q p' q'. by destruct p, q, p', q'.
  - by intros [] [].
  - intros p q a. by destruct p, q, (Z.odd a).
  - intros p q a. by destruct p, q, (Z.odd a).
  - by intros [] [].
  - by intros [] [].
  - apply bytes_bit_bytes.
  - apply bytes_bit_bytes.
  - done.
  - done.
  - intros s Hs. rewrite bytes_bit_bytes. cbn. assert (s = 0 ∨ s = 1) as [-> | ->] by lia; done.
  - done.
  - intros b s. destruct (bytes_bit 32 b) as [[]|]; cbn; intros [= <-]; lia.
  - vm_compute. reflexivity.
Defined.

Lemma bls_verify_iff_witness :
  @verify_bls_signature order_two (@Signature_serialize order_two (@sign order_two (@PrivateKey_new 1) [7])) [7]
    (@PublicKey_serialize order_two (@public_key order_two (@PrivateKey_new 1))) = Ok () ∧
  (@PublicKey_verify order_two (@public_key order_two (@PrivateKey_new 1)) [7] (@Signature_new order_two false) = Ok () ↔
   @Signature_new order_two false = @sign order_two (@PrivateKey_new 1) [7]).
Proof.
  split.
  - apply (proj2 (@bls_verify_iff order_two order_two_laws (PrivateKey_new 1) [7] (@sign order_two (PrivateKey_new 1) [7]))). reflexivity.
  - exact (proj1 (@bls_verify_iff order_two order_two_laws (PrivateKey_new 1) [7] (@Signature_new order_two false))).
Defined.

Lemma private_key_round_trip_witness :
  @PrivateKey_deserialize order_two (@PrivateKey_serialize order_two (PrivateKey_new 1)) = Ok (PrivateKey_new 1).
Proof. refine (proj1 (@private_key_round_trip order_two order_two_laws (PrivateKey_new 1) [] _)). cbn. lia. Defined.

Lemma random_failed_key_witness :
  ∃ key, @random order_two [(Err (), replicate 32 0)] = Some key ∧ key.(sk) = 0 ∧
    @PublicKey_verify order_two (@public_key order_two key) [2; 2] (@sign order_two key [1]) = Ok ().
Proof. exact (@random_failed_key order_two order_two_laws [] [1] [2; 2]). Defined.
