(* ===== verification/EnclaveVerify.v ===== *)
(** * Attestation of enclaves

    [src/primitives/enclave-verify/src/lib.rs]: the check of the attestation of a worker, which the tee-worker
    pallet calls when a worker registers.  It is put together from the certificate verification of
    [webpki] and the RSA verification of [ring], with the root certificate of the attestation
    service built in.  [base64], the crate [rsa] and its errors are parameters.  The RSA algorithms of
    [webpki]'s [signed_data.rs], which name the algorithms of [ring], are in the module [SignedData]. *)
From S2P Require Import Prelude Errors Frame Common Untrusted RingIo WebpkiDer WebpkiCert WebpkiName WebpkiVerify RingDigest RingLimb RingMont RingBigint RingRsa Bls.

(** ** The RSA algorithms of [webpki] *)

Module SignedData.
Definition RSA_PSS_SHA256 : Input :=
  [6; 9; 42; 134; 72; 134; 247; 13; 1; 1; 10; 48; 52; 160; 15; 48; 13; 6; 9; 96; 134; 72; 1; 101; 3; 4; 2; 1; 5; 0;
   161; 28; 48; 26; 6; 9; 42; 134; 72; 134; 247; 13; 1; 1; 8; 48; 13; 6; 9; 96; 134; 72; 1; 101; 3; 4; 2; 1; 5; 0;
   162; 3; 2; 1; 32].
Definition RSA_PSS_SHA384 : Input :=
  [6; 9; 42; 134; 72; 134; 247; 13; 1; 1; 10; 48; 52; 160; 15; 48; 13; 6; 9; 96; 134; 72; 1; 101; 3; 4; 2; 2; 5; 0;
   161; 28; 48; 26; 6; 9; 42; 134; 72; 134; 247; 13; 1; 1; 8; 48; 13; 6; 9; 96; 134; 72; 1; 101; 3; 4; 2; 2; 5; 0;
   162; 3; 2; 1; 48].
Definition RSA_PSS_SHA512 : Input :=
  [6; 9; 42; 134; 72; 134; 247; 13; 1; 1; 10; 48; 52; 160; 15; 48; 13; 6; 9; 96; 134; 72; 1; 101; 3; 4; 2; 3; 5; 0;
   161; 28; 48; 26; 6; 9; 42; 134; 72; 134; 247; 13; 1; 1; 8; 48; 13; 6; 9; 96; 134; 72; 1; 101; 3; 4; 2; 3; 5; 0;
   162; 3; 2; 1; 64].

Section algorithms.
Context {LW : LimbWidth} {Reader : Type} `{!Untrusted Reader}.
Abbreviation verify := (rsa_verify (Reader := Reader)).

Definition RSA_PKCS1_2048_8192_SHA256 : SignatureAlgorithm :=
  mkSignatureAlgorithm RSA_ENCRYPTION WebpkiCert.RSA_PKCS1_SHA256 (verify RingRsa.RSA_PKCS1_2048_8192_SHA256).
Definition RSA_PKCS1_2048_8192_SHA384 : SignatureAlgorithm :=
  mkSignatureAlgorithm RSA_ENCRYPTION WebpkiCert.RSA_PKCS1_SHA384 (verify RingRsa.RSA_PKCS1_2048_8192_SHA384).
Definition RSA_PKCS1_2048_8192_SHA512 : SignatureAlgorithm :=
  mkSignatureAlgorithm RSA_ENCRYPTION WebpkiCert.RSA_PKCS1_SHA512 (verify RingRsa.RSA_PKCS1_2048_8192_SHA512).
Definition RSA_PKCS1_3072_8192_SHA384 : SignatureAlgorithm :=
  mkSignatureAlgorithm RSA_ENCRYPTION WebpkiCert.RSA_PKCS1_SHA384 (verify RingRsa.RSA_PKCS1_3072_8192_SHA384).
Definition RSA_PSS_2048_8192_SHA256_LEGACY_KEY : SignatureAlgorithm :=
  mkSignatureAlgorithm RSA_ENCRYPTION RSA_PSS_SHA256 (verify RingRsa.RSA_PSS_2048_8192_SHA256).
Definition RSA_PSS_2048_8192_SHA384_LEGACY_KEY : SignatureAlgorithm :=
  mkSignatureAlgorithm RSA_ENCRYPTION RSA_PSS_SHA384 (verify RingRsa.RSA_PSS_2048_8192_SHA384).
Definition RSA_PSS_2048_8192_SHA512_LEGACY_KEY : SignatureAlgorithm :=
  mkSignatureAlgorithm RSA_ENCRYPTION RSA_PSS_SHA512 (verify RingRsa.RSA_PSS_2048_8192_SHA512).
End algorithms.
End SignedData.

(** ** The root certificate *)

Definition IAS_SERVER_ROOTS : list TrustAnchor := [
  mkTrustAnchor
     [0x31; 0x0b; 0x30; 0x09; 0x06; 0x03; 0x55; 0x04; 0x06; 0x13; 0x02; 0x55; 0x53; 0x31; 0x0b; 0x30; 0x09; 0x06;
      0x03; 0x55; 0x04; 0x08; 0x0c; 0x02; 0x43; 0x41; 0x31; 0x14; 0x30; 0x12; 0x06; 0x03; 0x55; 0x04; 0x07; 0x0c;
      0x0b; 0x53; 0x61; 0x6e; 0x74; 0x61; 0x20; 0x43; 0x6c; 0x61; 0x72; 0x61; 0x31; 0x1a; 0x30; 0x18; 0x06; 0x03;
      0x55; 0x04; 0x0a; 0x0c; 0x11; 0x49; 0x6e; 0x74; 0x65; 0x6c; 0x20; 0x43; 0x6f; 0x72; 0x70; 0x6f; 0x72; 0x61;
      0x74; 0x69; 0x6f; 0x6e; 0x31; 0x30; 0x30; 0x2e; 0x06; 0x03; 0x55; 0x04; 0x03; 0x0c; 0x27; 0x49; 0x6e; 0x74;
      0x65; 0x6c; 0x20; 0x53; 0x47; 0x58; 0x20; 0x41; 0x74; 0x74; 0x65; 0x73; 0x74; 0x61; 0x74; 0x69; 0x6f; 0x6e;
      0x20; 0x52; 0x65; 0x70; 0x6f; 0x72; 0x74; 0x20; 0x53; 0x69; 0x67; 0x6e; 0x69; 0x6e; 0x67; 0x20; 0x43; 0x41]
     [0x30; 0x0d; 0x06; 0x09; 0x2a; 0x86; 0x48; 0x86; 0xf7; 0x0d; 0x01; 0x01; 0x01; 0x05; 0x00; 0x03; 0x82; 0x01;
      0x8f; 0x00; 0x30; 0x82; 0x01; 0x8a; 0x02; 0x82; 0x01; 0x81; 0x00; 0x9f; 0x3c; 0x64; 0x7e; 0xb5; 0x77; 0x3c;
      0xbb; 0x51; 0x2d; 0x27; 0x32; 0xc0; 0xd7; 0x41; 0x5e; 0xbb; 0x55; 0xa0; 0xfa; 0x9e; 0xde; 0x2e; 0x64; 0x91;
      0x99; 0xe6; 0x82; 0x1d; 0xb9; 0x10; 0xd5; 0x31; 0x77; 0x37; 0x09; 0x77; 0x46; 0x6a; 0x6a; 0x5e; 0x47; 0x86;
      0xcc; 0xd2; 0xdd; 0xeb; 0xd4; 0x14; 0x9d; 0x6a; 0x2f; 0x63; 0x25; 0x52; 0x9d; 0xd1; 0x0c; 0xc9; 0x87; 0x37;
      0xb0; 0x77; 0x9c; 0x1a; 0x07; 0xe2; 0x9c; 0x47; 0xa1; 0xae; 0x00; 0x49; 0x48; 0x47; 0x6c; 0x48; 0x9f; 0x45;
      0xa5; 0xa1; 0x5d; 0x7a; 0xc8; 0xec; 0xc6; 0xac; 0xc6; 0x45; 0xad; 0xb4; 0x3d; 0x87; 0x67; 0x9d; 0xf5; 0x9c;
      0x09; 0x3b; 0xc5; 0xa2; 0xe9; 0x69; 0x6c; 0x54; 0x78; 0x54; 0x1b; 0x97; 0x9e; 0x75; 0x4b; 0x57; 0x39; 0x14;
      0xbe; 0x55; 0xd3; 0x2f; 0xf4; 0xc0; 0x9d; 0xdf; 0x27; 0x21; 0x99; 0x34; 0xcd; 0x99; 0x05; 0x27; 0xb3; 0xf9;
      0x2e; 0xd7; 0x8f; 0xbf; 0x29; 0x24; 0x6a; 0xbe; 0xcb; 0x71; 0x24; 0x0e; 0xf3; 0x9c; 0x2d; 0x71; 0x07; 0xb4;
      0x47; 0x54; 0x5a; 0x7f; 0xfb; 0x10; 0xeb; 0x06; 0x0a; 0x68; 0xa9; 0x85; 0x80; 0x21; 0x9e; 0x36; 0x91; 0x09;
      0x52; 0x68; 0x38; 0x92; 0xd6; 0xa5; 0xe2; 0xa8; 0x08; 0x03; 0x19; 0x3e; 0x40; 0x75; 0x31; 0x40; 0x4e; 0x36;
      0xb3; 0x15; 0x62; 0x37; 0x99; 0xaa; 0x82; 0x50; 0x74; 0x40; 0x97; 0x54; 0xa2; 0xdf; 0xe8; 0xf5; 0xaf; 0xd5;
      0xfe; 0x63; 0x1e; 0x1f; 0xc2; 0xaf; 0x38; 0x08; 0x90; 0x6f; 0x28; 0xa7; 0x90; 0xd9; 0xdd; 0x9f; 0xe0; 0x60;
      0x93; 0x9b; 0x12; 0x57; 0x90; 0xc5; 0x80; 0x5d; 0x03; 0x7d; 0xf5; 0x6a; 0x99; 0x53; 0x1b; 0x96; 0xde; 0x69;
      0xde; 0x33; 0xed; 0x22; 0x6c; 0xc1; 0x20; 0x7d; 0x10; 0x42; 0xb5; 0xc9; 0xab; 0x7f; 0x40; 0x4f; 0xc7; 0x11;
      0xc0; 0xfe; 0x47; 0x69; 0xfb; 0x95; 0x78; 0xb1; 0xdc; 0x0e; 0xc4; 0x69; 0xea; 0x1a; 0x25; 0xe0; 0xff; 0x99;
      0x14; 0x88; 0x6e; 0xf2; 0x69; 0x9b; 0x23; 0x5b; 0xb4; 0x84; 0x7d; 0xd6; 0xff; 0x40; 0xb6; 0x06; 0xe6; 0x17;
      0x07; 0x93; 0xc2; 0xfb; 0x98; 0xb3; 0x14; 0x58; 0x7f; 0x9c; 0xfd; 0x25; 0x73; 0x62; 0xdf; 0xea; 0xb1; 0x0b;
      0x3b; 0xd2; 0xd9; 0x76; 0x73; 0xa1; 0xa4; 0xbd; 0x44; 0xc4; 0x53; 0xaa; 0xf4; 0x7f; 0xc1; 0xf2; 0xd3; 0xd0;
      0xf3; 0x84; 0xf7; 0x4a; 0x06; 0xf8; 0x9c; 0x08; 0x9f; 0x0d; 0xa6; 0xcd; 0xb7; 0xfc; 0xee; 0xe8; 0xc9; 0x82;
      0x1a; 0x8e; 0x54; 0xf2; 0x5c; 0x04; 0x16; 0xd1; 0x8c; 0x46; 0x83; 0x9a; 0x5f; 0x80; 0x12; 0xfb; 0xdd; 0x3d;
      0xc7; 0x4d; 0x25; 0x62; 0x79; 0xad; 0xc2; 0xc0; 0xd5; 0x5a; 0xff; 0x6f; 0x06; 0x22; 0x42; 0x5d; 0x1b; 0x02;
      0x03; 0x01; 0x00; 0x01]
     None].

(** ** Hexadecimal strings *)

(** [char::to_digit(16)] *)
Definition to_digit (c : Z) : option Z :=
  if (0x30 <=? c) && (c <=? 0x39) then Some (c - 0x30)
  else if (0x61 <=? c) && (c <=? 0x66) then Some (c - 0x61 + 10)
  else if (0x41 <=? c) && (c <=? 0x46) then Some (c - 0x41 + 10)
  else None.

(** The loop over the characters, with [x], [pos], [val] and [cct]; a [u8] is not exceeded. *)
Fixpoint hex_loop (s : list Z) (x : list Z) (pos : nat) (val cct : Z) : result Empty_set (list Z * nat * Z) :=
  match s with
  | [] => Ok (x, pos, val)
  | c :: s =>
      if (pos <? length x)%nat then
        match to_digit c with
        | Some d =>
            let val := val + d in
            let cct := cct + 1 in
            if Z.land cct 1 =? 0 then hex_loop s (<[pos := val]> x) (S pos) 0 cct
            else hex_loop s x pos (Z.shiftl val 4 mod 2 ^ 8) cct
        | None => Panic
        end
      else Ok (x, pos, val)
  end.

(** The loop [for ix in pos..nx] *)
Fixpoint hex_rest (rest pos : nat) (x : list Z) (val : Z) : list Z :=
  match rest with
  | O => x
  | S rest => hex_rest rest (S pos) (<[pos := val]> x) 0
  end.

Definition hexstr_to_u8v (s : list Z) (x : list Z) : result Empty_set (list Z) :=
  '(x, pos, val) ← hex_loop s x 0 0 0;
  Ok (hex_rest (length x - pos) pos x val).

(** ** Verification *)

(** [match x { Ok(c) => c, Err(_) => return None }] *)
Definition or_none {E A B} (x : result E A) (k : A → result Empty_set (option B)) : result Empty_set (option B) :=
  match x with
  | Ok a => k a
  | Err _ => Ok None
  | Panic => Panic
  end.

Section enclave.
Context {LW : LimbWidth} {Reader : Type} `{!Untrusted Reader}.
(** [base64::decode_config(input, base64::STANDARD)], which is [base64::decode(input)]; [None] is an error. *)
Context (base64_decode : list Z → option (list Z)).

Definition SUPPORTED_SIG_ALGS : list SignatureAlgorithm := [
  SignedData.RSA_PKCS1_2048_8192_SHA256;
  SignedData.RSA_PKCS1_2048_8192_SHA384;
  SignedData.RSA_PKCS1_2048_8192_SHA512;
  SignedData.RSA_PKCS1_3072_8192_SHA384].

Definition verify_miner_cert (ias_sig ias_cert report_json_raw : list Z) : result Empty_set (option Z) :=
  or_none (some_or (base64_decode ias_cert) ()) (λ ias_cert_dec,
  or_none (from ias_cert_dec) (λ sig_cert,
  let intermediate_report := [] in
  let now_func := 1670515200 in
  or_none (verify_is_valid_tls_server_cert sig_cert SUPPORTED_SIG_ALGS IAS_SERVER_ROOTS intermediate_report now_func) (λ _,
  or_none (some_or (base64_decode ias_sig) ()) (λ ias_sig_dec,
  or_none (ee_verify_signature sig_cert SignedData.RSA_PKCS1_2048_8192_SHA256 report_json_raw ias_sig_dec) (λ _,
  Ok (Some 1)))))).
End enclave.

Section rsa.
(** The crate [rsa]: [RsaPublicKey::from_public_key_der] and [verify] with [Pkcs1v15Sign::new_raw()] *)
Context {RsaPublicKey : Type} (from_public_key_der : list Z → option RsaPublicKey)
  (pkcs1v15_verify : RsaPublicKey → list Z → list Z → bool).

Definition verify_rsa (key msg sig : list Z) : result Empty_set bool :=
  match from_public_key_der key with
  | None => Panic
  | Some pk => Ok (pkcs1v15_verify pk msg sig)
  end.
End rsa.

Section bls.
Context `{!Bls12_381}.

Definition verify_bls (key msg sig : list Z) : result unit unit :=
  match PublicKey_deserialize key with
  | Ok puk =>
      match Signature_deserialize sig with
      | Ok sig => PublicKey_verify puk msg sig
      | _ => Panic
      end
  | _ => Panic
  end.
End bls.
