(* ===== verification/EnclaveProofs.v ===== *)
(** * What a verified attestation means

    [verify_miner_cert] accepts exactly the reports that are signed, with RSA and SHA-256, by the key of a
    certificate that the built-in root of the attestation service has signed and that is valid at a fixed
    time ([verify_miner_cert_iff]), and a worker registers only with such a report
    ([register_attested]).  What the report says is not looked at. *)
From S2P Require Import Prelude Errors Frame Common Untrusted RingIo WebpkiDer WebpkiCert WebpkiName WebpkiVerify WebpkiNameProofs WebpkiSafe WebpkiChain RingDigest RingLimb RingMont RingBigint RingRsa RingPaddingProofs RingRsaProofs Bls EnclaveVerify Interfaces TeeWorker Runtime.

(** ** Parts of the input

    A property of lists that slices inherit holds for what parsers return. *)

Section slices.
Context (P : list Z → Prop) (HP : ∀ a b, P (a ++ b) → P a ∧ P b).

(** A parser whose values satisfy [Q] and that leaves a slice. *)
Definition cuts {E A} (Q : A → Prop) (p : Parser (list Z) E A) : Prop := ∀ l, P l →
  match p l with (l', Ok a) => P l' ∧ Q a | _ => True end.

Lemma P_take n l : P l → P (take n l).
Proof. rewrite <-(take_drop n l) at 1. by intros [? _]%HP. Qed.
Lemma P_drop n l : P l → P (drop n l).
Proof. rewrite <-(take_drop n l) at 1. by intros [_ ?]%HP. Qed.

Lemma cuts_bind {E A B} Q Q' (p : Parser (list Z) E A) (f : A → Parser (list Z) E B) :
  cuts Q p → (∀ a, Q a → cuts Q' (f a)) → cuts Q' (p ≫= f).
Proof.
  intros Hp Hf l Hl. specialize (Hp l Hl). unfold mbind, Parser_bind. destruct (p l) as [l' [a|e|]]; [|done..].
  destruct Hp as [Hl' Ha]. by apply Hf.
Qed.
Lemma cuts_ret {E A} (Q : A → Prop) a : Q a → cuts (E := E) Q (mret a).
Proof. intros Ha l Hl. done. Qed.
Lemma cuts_fail {E A} (Q : A → Prop) (e : E) : cuts Q (fail e).
Proof. done. Qed.
Lemma cuts_lift {E A} (Q : A → Prop) (x : result E A) : match x with Ok a => Q a | _ => True end → cuts Q (lift x).
Proof. intros Hx l Hl. unfold lift. by destruct x. Qed.
Lemma cuts_asks {E A} (f : list Z → A) : cuts (E := E) anything (asks f).
Proof. by intros l Hl. Qed.
Lemma cuts_pmap_err {E E' A} Q (f : E → E') (p : Parser (list Z) E A) : cuts Q p → cuts Q (pmap_err f p).
Proof. intros Hp l Hl. specialize (Hp l Hl). unfold pmap_err. by destruct (p l) as [l' [a|e|]]. Qed.
Lemma cuts_weaken {E A} (Q : A → Prop) (p : Parser (list Z) E A) : cuts Q p → cuts anything p.
Proof. intros Hp l Hl. specialize (Hp l Hl). destruct (p l) as [l' [a|e|]]; [|done..]. by destruct Hp. Qed.

Lemma cuts_read_byte : cuts anything (read_byte (Reader := list Z)).
Proof. intros [|b l] Hl; [done|]. cbn. split; [|done]. apply (P_drop 1 _ Hl). Qed.
Lemma cuts_read_bytes n : cuts P (read_bytes (Reader := list Z) n).
Proof. intros l Hl. cbn. case_decide; [|done]. split; [by apply P_drop|by apply P_take]. Qed.
Lemma cuts_to_end {E} : cuts (E := E) P (total (read_bytes_to_end (Reader := list Z))).
Proof. intros l Hl. cbn. split; [|done]. rewrite <-(drop_all l). by apply P_drop. Qed.

Lemma read_all_cuts {E A} Q i (e : E) (p : Parser (list Z) E A) a : cuts Q p → P i → read_all i e p = Ok a → Q a.
Proof.
  intros Hp Hi. cbn. specialize (Hp i Hi). destruct (p i) as [[|] [b|e'|]]; try done. intros [= <-]. by destruct Hp.
Qed.

Lemma cuts_read_length : cuts anything (read_length (Reader := list Z)).
Proof.
  unfold read_length. eapply cuts_bind; [apply cuts_read_byte|]. intros n _. repeat case_match; try apply cuts_fail; try by apply cuts_ret.
  - eapply cuts_bind; [apply cuts_read_byte|]. intros b _. case_match; [apply cuts_fail|by apply cuts_ret].
  - eapply cuts_bind; [apply cuts_read_byte|]. intros b _. eapply cuts_bind; [apply cuts_read_byte|]. intros c _.
    case_match; [apply cuts_fail|by apply cuts_ret].
Qed.

Lemma cuts_expect_tag tag : cuts P (expect_tag_and_get_value (Reader := list Z) tag).
Proof.
  apply cuts_pmap_err. unfold RingIo.expect_tag_and_get_value. apply (cuts_bind (λ x, P x.2)).
  - unfold RingIo.read_tag_and_get_value. eapply cuts_bind; [apply cuts_read_byte|]. intros t _. case_match; [apply cuts_fail|].
    eapply cuts_bind; [apply cuts_read_length|]. intros n _. eapply cuts_bind; [apply cuts_read_bytes|]. intros v Hv. by apply cuts_ret.
  - intros [t v] Hv. case_match; [by apply cuts_ret|apply cuts_fail].
Qed.

Lemma cuts_nested {E A} Q tag (e : E) (p : Parser (list Z) E A) : cuts Q p → cuts Q (nested tag e p).
Proof.
  intros Hp. unfold nested. eapply cuts_bind; [apply cuts_pmap_err|].
  - pose proof (cuts_expect_tag tag) as H. intros l Hl. specialize (H l Hl). unfold expect_tag_and_get_value, pmap_err in H.
    instantiate (1 := P). by destruct (RingIo.expect_tag_and_get_value tag l) as [l' [v|x|]].
  - intros v Hv. apply cuts_lift. destruct (read_all v e p) eqn:Hr; [|done..]. by eapply read_all_cuts.
Qed.

Lemma cuts_nested_mut {A} Q tag e (p : nat → Parser (list Z) Error A) : (∀ n, cuts Q (p n)) → cuts Q (nested_mut tag e p).
Proof.
  intros Hp. unfold nested_mut. eapply cuts_bind; [apply cuts_pmap_err, cuts_expect_tag|]. intros v Hv. apply cuts_lift.
  destruct (read_all v e _) eqn:Hr; [|done..]. cbn. by eapply read_all_cuts.
Qed.

Lemma cuts_loop {E A B} (Q : A → Prop) (Q' : B → Prop) n (body : A → Parser (list Z) E (A + B)) a :
  (∀ a, Q a → cuts (λ x, match x with inl a => Q a | inr b => Q' b end) (body a)) → Q a → cuts Q' (loop n body a).
Proof.
  intros Hb. revert a. induction n as [|n IH]; intros a Ha; [done|]. cbn [loop]. eapply cuts_bind; [by apply Hb|].
  intros [a'|b] Hx; [by apply IH|by apply cuts_ret].
Qed.

Lemma cuts_nested_of_mut {S} (Q : S → Prop) o i e (p : S → Parser (list Z) Error S) s :
  (∀ s, Q s → cuts Q (p s)) → Q s → cuts Q (nested_of_mut o i e p s).
Proof.
  intros Hp Hs. apply cuts_nested_mut. intros n. apply (cuts_loop Q); [|done]. intros s' Hs'. unfold nested_of_mut_round.
  eapply cuts_bind; [apply cuts_nested_mut; intros _; by apply Hp|]. intros s'' Hs''. eapply cuts_bind; [apply cuts_asks|].
  intros b _. apply cuts_ret. by destruct b.
Qed.

Lemma cuts_bit_string : cuts P (bit_string_with_no_unused_bits (Reader := list Z)).
Proof.
  apply cuts_nested. eapply cuts_bind; [apply cuts_pmap_err, cuts_read_byte|]. intros b _.
  case_match; [apply cuts_fail|apply cuts_to_end].
Qed.

Lemma cuts_read_partial {E A} Q (p : Parser (list Z) E A) : cuts Q p → cuts (λ x, P x.1 ∧ Q x.2) (read_partial p).
Proof.
  intros Hp l Hl. specialize (Hp l Hl). cbn. destruct (p l) as [l' [a|e|]]; [|done..]. destruct Hp. split; [done|]. split; [by apply P_take|done].
Qed.

Lemma cuts_ring_expect tag : cuts P (RingIo.expect_tag_and_get_value (Reader := list Z) tag).
Proof.
  intros l Hl. pose proof (cuts_expect_tag tag l Hl) as H. unfold expect_tag_and_get_value, pmap_err in H.
  by destruct (RingIo.expect_tag_and_get_value tag l) as [l' [v|x|]].
Qed.

Lemma cuts_lift_any {E A} (x : result E A) : cuts anything (lift x).
Proof. apply cuts_lift. by destruct x. Qed.

Lemma cuts_nonnegative m : cuts anything (nonnegative_integer (Reader := list Z) m).
Proof. unfold nonnegative_integer. eapply cuts_bind; [apply cuts_ring_expect|]. intros v _. apply cuts_lift_any. Qed.

Lemma cuts_version3 : cuts anything (version3 (Reader := list Z)).
Proof.
  apply cuts_nested. apply (cuts_bind anything); [|intros v _; case_match; [apply cuts_fail|by apply cuts_ret]].
  unfold small_nonnegative_integer, RingIo.small_nonnegative_integer. apply cuts_pmap_err. eapply cuts_bind; [apply cuts_nonnegative|]. intros v _. apply cuts_lift_any.
Qed.

Lemma cuts_serial_number : cuts anything (certificate_serial_number (Reader := list Z)).
Proof.
  unfold certificate_serial_number. apply (cuts_bind anything); [|intros v _; case_match; [apply cuts_fail|by apply cuts_ret]].
  unfold positive_integer, RingIo.positive_integer. apply cuts_pmap_err. eapply cuts_bind; [apply cuts_nonnegative|]. intros v _. by apply cuts_ret.
Qed.

Lemma cuts_signed_data : cuts (λ x, P x.1 ∧ P x.2.(sd_data) ∧ P x.2.(sd_signature)) (parse_signed_data (Reader := list Z)).
Proof.
  unfold parse_signed_data. eapply cuts_bind; [apply cuts_read_partial, cuts_expect_tag|]. intros [data tbs] [Hd Ht].
  eapply cuts_bind; [apply cuts_expect_tag|]. intros alg _. eapply cuts_bind; [apply cuts_bit_string|]. intros sig Hs. by apply cuts_ret.
Qed.

(** The extensions do not change the key and the signed data. *)
Definition same_key (sd : SignedData) (key : Input) (c : Cert) : Prop := c.(signed_data) = sd ∧ c.(spki) = key.

Lemma remember_extension_key c id v sd key :
  same_key sd key c → match remember_extension (Reader := list Z) c id v with Ok (c', _) => same_key sd key c' | _ => True end.
Proof.
  intros Hc. unfold remember_extension, remember. repeat case_match; try done; simplify_eq; cbn [mbind result_bind] in *;
    repeat match goal with H : context [read_all ?a ?b ?c] |- _ => destruct (read_all a b c); cbn [mbind result_bind] in * end; simplify_eq; done.
Qed.

Lemma cuts_extension c sd key : same_key sd key c → cuts (same_key sd key) (extension (Reader := list Z) c).
Proof.
  intros Hc. unfold extension. eapply cuts_bind; [apply cuts_expect_tag|]. intros id _. apply (cuts_bind anything).
  { unfold optional_boolean. eapply cuts_bind; [apply cuts_asks|]. intros b _. case_match; [by apply cuts_ret|]. apply cuts_nested.
    eapply cuts_bind; [apply cuts_pmap_err, cuts_read_byte|]. intros x _. repeat case_match; try apply cuts_fail; by apply cuts_ret. }
  intros critical _. eapply cuts_bind; [apply cuts_expect_tag|]. intros v _. apply (cuts_bind (λ x, same_key sd key x.1)).
  - apply cuts_lift. pose proof (remember_extension_key c id v sd key Hc) as Hr. by destruct (remember_extension c id v) as [[]| |].
  - intros [c' u] Hc'. repeat case_match; try apply cuts_fail; by apply cuts_ret.
Qed.

Lemma from_parts der c : P der → from (Reader := list Z) der = Ok c → P c.(signed_data).(sd_data) ∧ P c.(signed_data).(sd_signature) ∧ P c.(spki).
Proof.
  intros Hd. unfold from, parse_cert, parse_cert_internal.
  destruct (read_all der BadDER _) as [[tbs sd]| |] eqn:Hsd; [|done..]. cbn [mbind result_bind].
  apply (read_all_cuts (λ x, P x.1 ∧ P x.2.(sd_data) ∧ P x.2.(sd_signature))) in Hsd as (Ht & Hda & Hsi); [|apply cuts_nested, cuts_signed_data|done].
  cbn in Ht, Hda, Hsi. intros Hc.
  refine (read_all_cuts (λ c, P c.(signed_data).(sd_data) ∧ P c.(signed_data).(sd_signature) ∧ P c.(spki)) tbs BadDER _ c _ Ht Hc).
  unfold parse_tbs. eapply cuts_bind; [apply cuts_version3|]. intros _ _. eapply cuts_bind; [apply cuts_serial_number|]. intros _ _.
  eapply cuts_bind; [apply cuts_expect_tag|]. intros alg _. case_match; [apply cuts_fail|].
  do 3 (eapply cuts_bind; [apply cuts_expect_tag|]; intros ? _). eapply cuts_bind; [apply cuts_expect_tag|]. intros key Hkey.
  assert (∀ x, same_key sd key x → P x.(signed_data).(sd_data) ∧ P x.(signed_data).(sd_signature) ∧ P x.(spki)) as Hx by (intros x [-> ->]; done).
  assert (∀ (p : Parser (list Z) Error Cert), cuts (same_key sd key) p → cuts (λ c, P c.(signed_data).(sd_data) ∧ P c.(signed_data).(sd_signature) ∧ P c.(spki)) p) as Hw.
  { intros p Hp l Hl. specialize (Hp l Hl). destruct (p l) as [l' [x|e|]]; [|done..]. destruct Hp. split; [done|by apply Hx]. }
  apply Hw. apply cuts_nested_mut. intros _. apply cuts_nested_of_mut; [|done]. intros x. by apply cuts_extension.
Qed.

Lemma spki_parts key info : P key → parse_spki_value (Reader := list Z) key = Ok info → P info.(key_value).
Proof.
  intros Hk Hp. refine (read_all_cuts (λ i, P i.(key_value)) key BadDER _ info _ Hk Hp). eapply cuts_bind; [apply cuts_expect_tag|]. intros alg _.
  eapply cuts_bind; [apply cuts_bit_string|]. intros v Hv. by apply cuts_ret.
Qed.
End slices.

(** ** The root of the attestation service *)

Definition ias_root : TrustAnchor := nth 0 IAS_SERVER_ROOTS (mkTrustAnchor [] [] None).

(** The bytes of the modulus of its key, and its exponent. *)
Definition ias_modulus : list Z := take 384 (drop 29 ias_root.(ta_spki)).
Definition ias_exponent : list Z := [1; 0; 1].
Definition ias_key : list Z := drop 20 ias_root.(ta_spki).

Lemma ias_spki : parse_spki_value (Reader := list Z) ias_root.(ta_spki) = Ok (mkSubjectPublicKeyInfo RSA_ENCRYPTION ias_key).
Proof. vm_compute. reflexivity. Qed.

Lemma ias_parsed : parse_public_key (Reader := list Z) ias_key = Ok (Positive_new ias_modulus, Positive_new ias_exponent).
Proof. vm_compute. reflexivity. Qed.

Lemma ias_bytes : bytes_ok ias_key.
Proof. apply bytes_okb_ok. vm_compute. reflexivity. Qed.

(** The signature algorithms, with their identifiers; the fourth supported one is never reached. *)
Definition ias_algorithms : list (Input * RsaParameters) := [
  (WebpkiCert.RSA_PKCS1_SHA256, RingRsa.RSA_PKCS1_2048_8192_SHA256);
  (WebpkiCert.RSA_PKCS1_SHA384, RingRsa.RSA_PKCS1_2048_8192_SHA384);
  (WebpkiCert.RSA_PKCS1_SHA512, RingRsa.RSA_PKCS1_2048_8192_SHA512)].

(** Signed with the key of the root. *)
Definition ias_signed (sd : SignedData) : Prop :=
  ∃ id params, In (id, params) ias_algorithms ∧ sd.(sd_algorithm) = id ∧
    in_range params ias_modulus ias_exponent sd.(sd_signature) = true ∧
    signs params ias_modulus ias_exponent sd.(sd_data) sd.(sd_signature).

(** Bytes that are few enough for a digest. *)
Definition short_bytes (l : list Z) : Prop := bytes_ok l ∧ 8 * Z.of_nat (length l) < 2 ^ 64.

Lemma short_bytes_app a b : short_bytes (a ++ b) → short_bytes a ∧ short_bytes b.
Proof. intros [[Ha Hb]%Forall_app Hl]. rewrite length_app in Hl. split; (split; [done|lia]). Qed.

Section attestation.
Context {LW : LimbWidth} {Reader : Type} `{!Untrusted Reader} `{!UntrustedLaws Reader}.

Lemma ias_limbs : (length ias_modulus mod LIMB_BYTES = 0)%nat.
Proof. change (length ias_modulus) with 384%nat. unfold LIMB_BYTES. by destruct limb_bits_cases as [-> | ->]. Qed.

Lemma ias_verify params msg sig : In params rsa_parameters → bytes_ok sig → 8 * Z.of_nat (length msg) < 2 ^ 64 →
  returns (rsa_verify (Reader := Reader) params ias_key msg sig) ∧
  (rsa_verify (Reader := Reader) params ias_key msg sig = Ok () ↔
   in_range params ias_modulus ias_exponent sig = true ∧ signs params ias_modulus ias_exponent msg sig).
Proof.
  intros Hp Hs Hm. destruct (rsa_verify_correct (Reader := Reader) params ias_key msg sig Hp ias_bytes Hs Hm) as [Hok Hpanic].
  rewrite parse_public_key_transport, ias_parsed in Hok, Hpanic. rewrite parsed_iff in Hok, Hpanic. cbn [big_endian_without_leading_zero] in *.
  pose proof ias_limbs. rewrite Hok, returns_iff, Hpanic. tauto.
Qed.

(** The identifiers are different. *)
Ltac ias_case Hin He Hid :=
  destruct Hin as [[= <- <-]|[[= <- <-]|[[= <- <-]|[]]]]; try done; rewrite <-He in Hid; vm_compute in Hid; discriminate Hid.

(** The first supported algorithm with the identifier of the signature is used. *)
Lemma signed_by_ias sd : short_bytes sd.(sd_data) → bytes_ok sd.(sd_signature) →
  signed_by (SUPPORTED_SIG_ALGS (Reader := Reader)) ias_root.(ta_spki) sd ↔ ias_signed sd.
Proof.
  intros [_ Hd] Hs. unfold signed_by, ias_signed. rewrite ias_spki. cbn [algorithm_id_value key_value].
  pose proof (λ params Hp, proj2 (ias_verify params sd.(sd_data) sd.(sd_signature) Hp Hs Hd)) as Hv. unfold SUPPORTED_SIG_ALGS.
  rewrite !filter_cons. cbn [signature_alg_id public_key_alg_id SignedData.RSA_PKCS1_2048_8192_SHA256 SignedData.RSA_PKCS1_2048_8192_SHA384
    SignedData.RSA_PKCS1_2048_8192_SHA512 SignedData.RSA_PKCS1_3072_8192_SHA384].
  destruct (decide (WebpkiCert.RSA_PKCS1_SHA256 = sd_algorithm sd)) as [He|]; [rewrite decide_True by done|rewrite decide_False by by intros [? _]].
  { cbn [verification_alg SignedData.RSA_PKCS1_2048_8192_SHA256]. rewrite Hv by (cbn; tauto). split; [intros ?; do 2 eexists; split; [left; done|]; by rewrite <-He|].
    intros (id & params & Hin & Hid & ?). by ias_case Hin He Hid. }
  destruct (decide (WebpkiCert.RSA_PKCS1_SHA384 = sd_algorithm sd)) as [He|]; [rewrite decide_True by done|rewrite decide_False by by intros [? _]].
  { cbn [verification_alg SignedData.RSA_PKCS1_2048_8192_SHA384]. rewrite Hv by (cbn; tauto). split; [intros ?; do 2 eexists; split; [right; left; done|]; by rewrite <-He|].
    intros (id & params & Hin & Hid & ?). by ias_case Hin He Hid. }
  destruct (decide (WebpkiCert.RSA_PKCS1_SHA512 = sd_algorithm sd)) as [He|]; [rewrite decide_True by done|rewrite decide_False by by intros [? _]].
  { cbn [verification_alg SignedData.RSA_PKCS1_2048_8192_SHA512]. rewrite Hv by (cbn; tauto). split; [intros ?; do 2 eexists; split; [right; right; left; done|]; by rewrite <-He|].
    intros (id & params & Hin & Hid & ?). by ias_case Hin He Hid. }
  rewrite decide_False by by intros [? _]. cbn. split; [done|]. intros (id & params & Hin & Hid & _). cbn in Hin. naive_solver.
Qed.

Abbreviation algs := (SUPPORTED_SIG_ALGS (Reader := Reader)).

Lemma verify_with_returns b l key sd :
  Forall (λ alg, returns (verify_signature (Reader := list Z) alg key sd.(sd_data) sd.(sd_signature))) l →
  returns (verify_with (Reader := list Z) b l key sd).
Proof.
  intros Hl. revert b. induction Hl as [|alg l Ha Hl IH]; intros b; [by destruct b|]. cbn [verify_with].
  destruct (verify_signature alg key _ _) as [u|[]|]; try done; apply IH.
Qed.

Lemma ias_signature_returns sd : short_bytes sd.(sd_data) → bytes_ok sd.(sd_signature) →
  returns (verify_signed_data (Reader := list Z) algs ias_root.(ta_spki) sd).
Proof.
  intros [_ Hd] Hs. apply verify_with_returns, Forall_forall. intros alg [_ Hin]%list_elem_of_filter.
  unfold verify_signature. rewrite ias_spki. cbn [mbind result_bind key_value]. case_match; [done|].
  assert (∃ params, In params rsa_parameters ∧ alg.(verification_alg) = rsa_verify (Reader := Reader) params) as (params & Hp & ->).
  { apply list_elem_of_In in Hin. repeat (destruct Hin as [<-|Hin]; [cbn [verification_alg]; eexists; split; [|reflexivity]; cbn; tauto|]). done. }
  pose proof (proj1 (ias_verify params sd.(sd_data) sd.(sd_signature) Hp Hs Hd)) as Hr. by destruct (rsa_verify _ _ _ _).
Qed.

(** With one trust anchor without name constraints and no intermediate certificates. *)
Lemma ias_chain c : c.(ee_or_ca) = EndEntity → short_bytes c.(signed_data).(sd_data) → bytes_ok c.(signed_data).(sd_signature) →
  let x := verify_is_valid_tls_server_cert (Reader := Reader) c algs IAS_SERVER_ROOTS [] 1670515200 in
  returns x ∧
  (x = Ok () ↔ WebpkiChain.acceptable EKU_SERVER_AUTH 1670515200 c 0 ∧ c.(issuer) = ias_root.(ta_subject) ∧ ias_signed c.(signed_data)).
Proof.
  intros Hee Hd Hs x. subst x. unfold verify_is_valid_tls_server_cert, CHAIN_DEPTH. rewrite build_chain_transport.
  assert (check_trust_anchor (Reader := list Z) algs c ias_root =
    if bool_decide (c.(issuer) = ias_root.(ta_subject)) then verify_signed_data (Reader := list Z) algs ias_root.(ta_spki) c.(signed_data) ;; Ok () else Err UnknownIssuer) as Hta.
  { unfold check_trust_anchor. case_bool_decide; [|done]. cbn [negb]. change (ta_name_constraints ias_root) with (@None Input).
    cbn [read_all_optional list_untrusted mbind result_bind]. by rewrite check_signatures_unfold, Hee. }
  pose proof (ias_signature_returns _ Hd Hs) as Hr. split.
  - cbn [build_chain]. pose proof (issuer_independent_returns c 1670515200 (used_as_ca c.(ee_or_ca)) 0 EKU_SERVER_AUTH) as Hi.
    destruct (check_issuer_independent_properties _ _ _ _ _) as [[]|e|]; [|done..]. rewrite Hee. cbn [used_as_ca Z.eqb mbind result_bind].
    change IAS_SERVER_ROOTS with [ias_root]. cbn [loop_while_non_fatal_error]. rewrite Hta. case_bool_decide; [|done].
    by destruct (verify_signed_data _ _ _) as [[]|e|].
  - rewrite build_chain_step, acceptable_list by done. rewrite <-(signed_by_ias _ Hd Hs), <-verify_signed_data_list.
    change IAS_SERVER_ROOTS with [ias_root]. cbn [loop_while_non_fatal_error]. rewrite Hta. case_bool_decide; [|naive_solver].
    destruct (verify_signed_data _ _ _) as [[]|e|]; cbn [mbind result_bind]; naive_solver.
Qed.

(** ** Attestations *)

Context (base64_decode : list Z → option (list Z)).
(** Decoding gives bytes, and fewer than there are characters. *)
Context (base64_bytes : ∀ i o, base64_decode i = Some o → short_bytes o).

(** A certificate of the attestation service for a key that is allowed to sign reports. *)
Definition ias_certificate (cert : list Z) (c : Cert) : Prop :=
  ∃ der, base64_decode cert = Some der ∧ from (Reader := list Z) der = Ok c ∧
    WebpkiChain.acceptable EKU_SERVER_AUTH 1670515200 c 0 ∧ c.(issuer) = ias_root.(ta_subject) ∧ ias_signed c.(signed_data).

(** The modulus and the exponent of the key of a certificate. *)
Definition rsa_key (c : Cert) (n e : list Z) : Prop :=
  ∃ info, parse_spki_value (Reader := list Z) c.(spki) = Ok info ∧ info.(algorithm_id_value) = RSA_ENCRYPTION ∧
    parse_public_key (Reader := list Z) info.(key_value) = Ok (Positive_new n, Positive_new e).

Lemma ee_signature_spec c msg sig : short_bytes c.(spki) → 8 * Z.of_nat (length msg) < 2 ^ 64 → bytes_ok sig →
  let x := ee_verify_signature (Reader := Reader) c SignedData.RSA_PKCS1_2048_8192_SHA256 msg sig in
  let params := RingRsa.RSA_PKCS1_2048_8192_SHA256 in
  (x = Ok () ↔ ∃ n e, rsa_key c n e ∧ in_range params n e sig = true ∧ (length n mod LIMB_BYTES = 0)%nat ∧ signs params n e msg sig) ∧
  (x = Panic ↔ ∃ n e, rsa_key c n e ∧ in_range params n e sig = true ∧ (length n mod LIMB_BYTES ≠ 0)%nat).
Proof.
  intros Hk Hm Hs x params. subst x. set (p := params). unfold params in p. unfold params. clear params. unfold ee_verify_signature. rewrite verify_signature_transport. unfold verify_signature, rsa_key.
  pose proof (parse_spki_returns c.(spki)) as Hret.
  destruct (parse_spki_value c.(spki)) as [info|e|] eqn:Hi; cbn [mbind result_bind]; [|split; (split; [done|]); by intros (? & ? & (? & ? & _) & _)|done].
  apply (spki_parts short_bytes short_bytes_app) in Hi as [Hkey _]; [|done]. unfold matches_algorithm_id_value.
  cbn [public_key_alg_id verification_alg SignedData.RSA_PKCS1_2048_8192_SHA256]. case_bool_decide as Ha; cbn [negb].
  2:{ split; (split; [done|]); by intros (? & ? & (? & [= <-] & ? & _) & _). }
  destruct (rsa_verify_correct (Reader := Reader) p info.(key_value) msg sig) as [Hok Hpanic]; [right; left; done|done|done|done|].
  rewrite parse_public_key_transport in Hok, Hpanic.
  assert (∀ x : result unit unit, (map_err (λ _, InvalidSignatureForPublicKey) x = Ok () ↔ x = Ok ()) ∧
    (map_err (λ _, InvalidSignatureForPublicKey) x = Panic ↔ x = Panic)) as Hmap by by intros [[]|[]|].
  fold p. destruct (Hmap (rsa_verify (Reader := Reader) p info.(key_value) msg sig)) as [-> ->]. rewrite Hok, Hpanic. split.
  all: split; [intros ([n] & [e] & Hp & Hrest); exists n, e; split; [by exists info|done]|].
  all: intros (n & e & (? & [= <-] & _ & Hp) & Hrest); by exists (Positive_new n), (Positive_new e).
Qed.

Abbreviation verify := (EnclaveVerify.verify_miner_cert (Reader := Reader) base64_decode).
Abbreviation params := RingRsa.RSA_PKCS1_2048_8192_SHA256.

Lemma or_none_some {E A B} (x : result E A) k (b : B) :
  or_none x k = Ok (Some b) ↔ ∃ a, x = Ok a ∧ k a = Ok (Some b).
Proof. destruct x; cbn; naive_solver. Qed.
Lemma or_none_panic {E A B} (x : result E A) (k : A → result Empty_set (option B)) :
  or_none x k = Panic ↔ x = Panic ∨ ∃ a, x = Ok a ∧ k a = Panic.
Proof. destruct x; cbn; naive_solver. Qed.

Lemma base64_ok i o : some_or (E := unit) (base64_decode i) () = Ok o ↔ base64_decode i = Some o.
Proof. destruct (base64_decode i); cbn; naive_solver. Qed.

(** The checks before the signature of the report is decoded. *)
Lemma certificate_checked cert c :
  (∃ der, base64_decode cert = Some der ∧ from (Reader := Reader) der = Ok c ∧
     verify_is_valid_tls_server_cert (Reader := Reader) c algs IAS_SERVER_ROOTS [] 1670515200 = Ok ()) ↔ ias_certificate cert c.
Proof.
  unfold ias_certificate. split; intros (der & Hder & Hc & Hrest); exists der; (split; [done|]);
    pose proof (base64_bytes _ _ Hder) as Hshort; unfold from in *; rewrite parse_cert_transport in *; (split; [done|]);
    destruct (from_parts short_bytes short_bytes_app der c Hshort Hc) as (Hd & Hs & _); destruct Hs as [Hs _];
    apply (ias_chain c); try done; by eapply parse_cert_ee.
Qed.

Lemma verify_miner_cert_correct sign cert report : 8 * Z.of_nat (length report) < 2 ^ 64 →
  (verify sign cert report = Ok (Some 1) ↔
     ∃ c s n e, ias_certificate cert c ∧ base64_decode sign = Some s ∧ rsa_key c n e ∧
       in_range params n e s = true ∧ (length n mod LIMB_BYTES = 0)%nat ∧ signs params n e report s) ∧
  (verify sign cert report = Panic ↔
     ∃ c s n e, ias_certificate cert c ∧ base64_decode sign = Some s ∧ rsa_key c n e ∧
       in_range params n e s = true ∧ (length n mod LIMB_BYTES ≠ 0)%nat) ∧
  (∀ v, verify sign cert report = Ok (Some v) → v = 1).
Proof.
  intros Hr. unfold EnclaveVerify.verify_miner_cert. assert (∀ der c s, base64_decode cert = Some der → from (Reader := Reader) der = Ok c → base64_decode sign = Some s →
    short_bytes c.(spki) ∧ bytes_ok s) as Hparts.
  { intros der c s Hder Hc Hs. unfold from in Hc. rewrite parse_cert_transport in Hc. split; [|apply (base64_bytes _ _ Hs)].
    by apply (from_parts short_bytes short_bytes_app der c (base64_bytes _ _ Hder) Hc). }
  split; [|split].
  - repeat setoid_rewrite or_none_some. setoid_rewrite base64_ok. split.
    + intros (der & Hder & c & Hc & [] & Hv & s & Hs & [] & Hsig & _). destruct (Hparts der c s Hder Hc Hs) as [Hk Hsb].
      apply (ee_signature_spec c report s Hk Hr Hsb) in Hsig as (n & e & Hrest). exists c, s, n, e. split; [apply certificate_checked; eauto|done].
    + intros (c & s & n & e & (der & Hder & Hc & Hv)%certificate_checked & Hs & Hrest). exists der. split; [done|]. exists c. split; [done|]. exists (). split; [done|].
      exists s. split; [done|]. exists (). split; [|done]. destruct (Hparts der c s Hder Hc Hs) as [Hk Hsb]. apply (ee_signature_spec c report s Hk Hr Hsb). eauto.
  - repeat setoid_rewrite or_none_panic. setoid_rewrite base64_ok. split.
    + intros [Hx|(der & Hder & [Hx|(c & Hc & [Hx|([] & Hv & [Hx|(s & Hs & [Hx|([] & _ & ?)])])])])]; try done.
      * by destruct (base64_decode cert).
      * unfold from in Hx. rewrite parse_cert_transport in Hx. pose proof (parse_cert_returns der EndEntity) as Hret. by rewrite Hx in Hret.
      * exfalso. unfold from in Hc. rewrite parse_cert_transport in Hc.
        destruct (from_parts short_bytes short_bytes_app der c (base64_bytes _ _ Hder) Hc) as (Hd & [Hs _] & _).
        assert (c.(ee_or_ca) = EndEntity) as Hee by by eapply parse_cert_ee. pose proof (proj1 (ias_chain c Hee Hd Hs)) as Hret. by rewrite Hx in Hret.
      * by destruct (base64_decode sign).
      * destruct (Hparts der c s Hder Hc Hs) as [Hk Hsb]. apply (ee_signature_spec c report s Hk Hr Hsb) in Hx as (n & e & Hrest).
        exists c, s, n, e. split; [apply certificate_checked; eauto|done].
    + intros (c & s & n & e & (der & Hder & Hc & Hv)%certificate_checked & Hs & Hrest). right. exists der. split; [done|]. right. exists c. split; [done|]. right. exists (). split; [done|].
      right. exists s. split; [done|]. left. destruct (Hparts der c s Hder Hc Hs) as [Hk Hsb]. apply (ee_signature_spec c report s Hk Hr Hsb). eauto.
  - intros v. repeat setoid_rewrite or_none_some. intros (? & _ & ? & _ & ? & _ & ? & _ & ? & _ & [= <-]). done.
Qed.

(** C7 An attestation is accepted exactly when the certificate is one of the attestation service and its key
    has signed the report: the certificate parses, is valid at the second 1670515200 of the epoch, is not an
    authority, can be used by a server, names the built-in root as its issuer, and the number of its
    signature, raised to the exponent of the root's key modulo its 3072-bit modulus, is the padded
    digest of the signed part; and the same holds of the signature of the report with the RSA key of the
    certificate and SHA-256.  The result is then 1.  The check panics exactly when all of this but the
    padding of the report's signature holds and the length of the modulus of the certificate's key is not
    a multiple of the size of a limb. *)
Theorem verify_miner_cert_iff sign cert report : 8 * Z.of_nat (length report) < 2 ^ 64 →
  (verify sign cert report = Ok (Some 1) ↔
     ∃ c s n e, ias_certificate cert c ∧ base64_decode sign = Some s ∧ rsa_key c n e ∧
       in_range params n e s = true ∧ (length n mod LIMB_BYTES = 0)%nat ∧ signs params n e report s) ∧
  (verify sign cert report = Panic ↔
     ∃ c s n e, ias_certificate cert c ∧ base64_decode sign = Some s ∧ rsa_key c n e ∧
       in_range params n e s = true ∧ (length n mod LIMB_BYTES ≠ 0)%nat) ∧
  (∀ v, verify sign cert report = Ok (Some v) → v = 1).
Proof. apply verify_miner_cert_correct. Qed.

(** ** Registration *)

Context {X : Type} `{!Staking X} `{!SchedulerCreditCounter X} `{!StorageIter}.

(** C9 A worker registers only with an attestation: a call of [register] of the tee-worker pallet, in
    the runtime, either leaves the state as it is, or it succeeds and adds the sender, and then the
    report of the call has a signature that verifies with the key of a certificate of the
    attestation service. *)
Theorem register_attested origin stash k p pk rep (s : TeeWorker.State X) :
  8 * Z.of_nat (length rep.(report_json_raw)) < 2 ^ 64 →
  let r := TeeWorker.register (H := tee_config verify) origin stash k p pk rep s in
  (r.1 = s ∧ r.2 ≠ Ok ()) ∨
  (r.2 = Ok () ∧ ∃ sender c sg n e, origin = Signed sender ∧
     TeeWorkerMap r.1 = <[sender := mkTeeWorkerInfo sender p k stash]> (TeeWorkerMap s) ∧
     ias_certificate rep.(cert_der) c ∧ base64_decode rep.(TeeWorker.sign) = Some sg ∧ rsa_key c n e ∧
     in_range params n e sg = true ∧ signs params n e rep.(report_json_raw) sg).
Proof.
  intros Hlen r. destruct (TeeWorker.register origin stash k p pk rep s) as [s' [[]|err|]] eqn:Hrun; subst r; cbn [fst snd].
  - right. split; [done|]. apply register_Ok in Hrun as (sender & x & v & -> & _ & _ & Hv & ->). cbn in Hv.
    destruct (verify_miner_cert_correct rep.(TeeWorker.sign) rep.(cert_der) rep.(report_json_raw) Hlen) as (Hok & _ & H1).
    pose proof (H1 v Hv) as ->. apply Hok in Hv as (c & sg & n & e & Hc & Hsg & Hk & Hr & _ & Hsig). by exists sender, c, sg, n, e.
  - left. split; [|done]. by apply transactional_rollback in Hrun.
  - left. split; [|done]. by apply transactional_rollback in Hrun.
Qed.
End attestation.

(** ** An attestation that is refused

    A decoder that returns its input if that is bytes, and a certificate that is an empty sequence. *)

Definition plain_decode (i : list Z) : option (list Z) :=
  if bytes_okb i && (8 * Z.of_nat (length i) <? 2 ^ 64) then Some i else None.

Lemma plain_decode_bytes i o : plain_decode i = Some o → short_bytes o.
Proof.
  unfold plain_decode. destruct (bytes_okb i) eqn:Hb; [|done]. destruct (Z.ltb_spec (8 * Z.of_nat (length i)) (2 ^ 64)); [|done].
  intros [= <-]. split; [by apply bytes_okb_ok|done].
Qed.

Lemma verify_miner_cert_iff_witness :
  EnclaveVerify.verify_miner_cert (LW := wasm32) (Reader := list Z) plain_decode [1] [48; 0] [2] = Ok None ∧
  ¬ ∃ c s n e, ias_certificate plain_decode [48; 0] c ∧ plain_decode [1] = Some s ∧ rsa_key c n e ∧
      in_range RingRsa.RSA_PKCS1_2048_8192_SHA256 n e s = true ∧ (length n mod LIMB_BYTES (H := wasm32) = 0)%nat ∧
      signs RingRsa.RSA_PKCS1_2048_8192_SHA256 n e [2] s.
Proof.
  assert (EnclaveVerify.verify_miner_cert (LW := wasm32) (Reader := list Z) plain_decode [1] [48; 0] [2] = Ok None) as Hv by (vm_compute; reflexivity).
  split; [exact Hv|]. intros Hex.
  apply (verify_miner_cert_iff (LW := wasm32) (Reader := list Z) plain_decode plain_decode_bytes [1] [48; 0] [2]) in Hex; [|done]. congruence.
Defined.

#[local] Instance plain_staking : Staking unit := {| bonded stash := mret (Some 1%N); slash_scheduler stash := mret () |}.
#[local] Instance plain_credit : SchedulerCreditCounter unit :=
  {| record_proceed_block_size acc n := mret (); record_punishment acc := mret () |}.

Lemma register_attested_witness :
  (TeeWorker.register (H := tee_config (EnclaveVerify.verify_miner_cert (LW := wasm32) (Reader := list Z) plain_decode)) (Signed 1) 10 5 6 [7]
    (mkSgxAttestationReport [2] [1] [48; 0]) (TeeWorker.mkState ∅ None [] () [])).1 = TeeWorker.mkState ∅ None [] () [].
Proof.
  destruct (register_attested (LW := wasm32) (Reader := list Z) plain_decode plain_decode_bytes (Signed 1) 10 5 6 [7]
    (mkSgxAttestationReport [2] [1] [48; 0]) (TeeWorker.mkState ∅ None [] () [])) as [[Hs _]|[Hr _]]; [done|exact Hs|].
  vm_compute in Hr. discriminate Hr.
Defined.
